(** * KERO file format: a shallow embedding of the kero-api I/O core

    The development follows [src/kero_io.cpp], [detail/util.hpp], [util.cpp]
    and [detail/mpht.hpp].  Unsigned machine integers are modelled as [Z]
    with the wrap-around written out ([u8], [u32], [u64]); byte arrays are
    [list Z]; the objects of the C++ code are records that are threaded
    explicitly through the operations; failures ([exit], [throw], failed
    assertions, undefined behaviour) are values of type [error], and so is
    the one computation of the source that the model gives up on, a
    floating-point logarithm of a number above [2^32]. *)

From Stdlib Require Import ZArith Lia List String Ascii Bool Znumtheory.
From stdpp Require Import base numbers list strings gmap.
From Stdlib Require OrderedTypeEx.

Local Open Scope Z_scope.

(** ** Failures and the state-and-error monad *)

Inductive error : Type :=
| Exit (code : Z)            (* [cerr << ...; exit(code)] *)
| Out_of_range               (* [throw out_of_range(...)] *)
| Throw (what : string)      (* [throw "..."] and [throw std::runtime_error] *)
| Assert_failure             (* a failed [assert] *)
| Undefined                  (* behaviour the C++ standard leaves undefined *)
| Unmodelled                 (* a floating-point result outside the modelled range *)
| Diverges.                  (* a loop that does not terminate *)

Inductive result (A : Type) : Type :=
| Ok (a : A)
| Err (e : error).
Arguments Ok {A} a.
Arguments Err {A} e.

Global Instance result_ret : MRet result := fun A a => Ok a.
Global Instance result_bind : MBind result := fun A B k r =>
  match r with
  | Ok a => k a
  | Err e => Err e
  end.

(** ** Machine integers *)

Definition u8 (x : Z) : Z := x mod 2 ^ 8.
Definition u32 (x : Z) : Z := x mod 2 ^ 32.
Definition u64 (x : Z) : Z := x mod 2 ^ 64.

(** Conversion to a 32-bit [int]. *)
Definition s32 (x : Z) : Z :=
  let y := x mod 2 ^ 32 in if y <? 2 ^ 31 then y else y - 2 ^ 32.

(** [1ull << s]: a shift of a 64-bit value by 64 bits or more is undefined. *)
Definition shl64 (x s : Z) : option Z :=
  if (0 <=? s) && (s <? 64) then Some (u64 (Z.shiftl x s)) else None.

(** ** Byte arrays

    A C array is a list of bytes addressed by a [Z] index.  Reading outside
    the list yields 0 and writing outside the list leaves it unchanged; in
    C++ both are undefined, and the theorems below only use indices that
    are inside the arrays. *)

Definition rd (a : list Z) (i : Z) : Z := default 0 (a !! Z.to_nat i).
Definition wr (a : list Z) (i : Z) (v : Z) : list Z := <[Z.to_nat i := v]> a.

(** [for (i = 0; i < n; i++) s = body i s] *)
Definition for_loop {A : Type} (n : Z) (body : Z -> A -> A) (s : A) : A :=
  fold_left (fun acc i => body (Z.of_nat i) acc) (seq 0 (Z.to_nat n)) s.

(** [memcpy(dst + dbase, src + sbase, n)] between two distinct arrays. *)
Definition memcpy (dst : list Z) (dbase : Z) (src : list Z) (sbase n : Z) : list Z :=
  for_loop n (fun i d => wr d (dbase + i) (rd src (sbase + i))) dst.

(** [memset(dst + dbase, c, n)] *)
Definition memset (dst : list Z) (dbase c n : Z) : list Z :=
  for_loop n (fun i d => wr d (dbase + i) c) dst.

(** [new uint8_t[n]] followed by [memset(.., 0, n)]. *)
Definition zeros (n : Z) : list Z := replicate (Z.to_nat n) 0.

Definition bytes_of_string (s : string) : list Z :=
  map (fun c => Z.of_nat (nat_of_ascii c)) (list_ascii_of_string s).

Definition string_of_bytes (l : list Z) : string :=
  string_of_list_ascii (map (fun b => ascii_of_nat (Z.to_nat b)) l).

Definition char (s : string) : Z := rd (bytes_of_string s) 0.

(** ** [util.hpp], [util.cpp] *)

(** [store_big_endian(buff, size, data)] returns the [size] bytes stored. *)
Definition store_big_endian (size : Z) (data : Z) : list Z :=
  map (fun i => u8 (Z.shiftr data (8 * (size - 1 - Z.of_nat i)))) (seq 0 (Z.to_nat size)).

(** [load_big_endian(buff, size, data)] for a [data] of [2^w] values. *)
Definition load_big_endian (w : Z) (buff : list Z) (size : Z) : Z :=
  for_loop size (fun b data => Z.lor (Z.shiftl data 8 mod 2 ^ w) (rd buff b)) 0.

Definition get_mini_mask (m : Z) : option Z :=
  if 32 <=? m then Some 0xFFFFFFFFFFFFFFFF
  else match shl64 1 (u64 (2 * m)) with
       | Some x => Some (u64 (x - 1))
       | None => None
       end.

Definition mask_mini (minimizer m : Z) : option Z :=
  match get_mini_mask m with
  | Some mask => Some (Z.land minimizer mask)
  | None => None
  end.

Definition mask_mini_arr (mini_arr : list Z) (m : Z) : option Z :=
  let nb_bytes_mini := s32 (u64 (u64 (u64 (2 * m) - 1) / 8 + 1)) in
  let minimizer :=
    for_loop nb_bytes_mini (fun i minimizer => u64 (Z.shiftl minimizer 8 + rd mini_arr i)) 0 in
  mask_mini minimizer m.

(** ** Bit-packed sequences ([kero_io.cpp]) *)

Definition bytes_from_bit_array (bits_per_elem nb_elem : Z) : Z :=
  if (bits_per_elem =? 0) || (nb_elem =? 0) then 0
  else u64 (u64 (u64 (bits_per_elem * nb_elem) - 1) / 8 + 1).

(** [leftshift8(bitarray + base, length, bitshift)] *)
Definition leftshift8 (bitarray : list Z) (base length bitshift : Z) : result (list Z) :=
  if negb (bitshift <? 8) then Err Assert_failure
  else if 0 <? length then
    let a1 := for_loop (length - 1) (fun i a =>
                wr a (base + i)
                   (u8 (Z.lor (Z.shiftl (rd a (base + i)) bitshift)
                              (Z.shiftr (rd a (base + i + 1)) (8 - bitshift))))) bitarray in
    Ok (wr a1 (base + length - 1) (u8 (Z.shiftl (rd a1 (base + length - 1)) bitshift)))
  else Ok bitarray.

(** [rightshift8(bitarray + base, length, bitshift)]; the loop runs from
    [length - 1] down to 1. *)
Definition rightshift8 (bitarray : list Z) (base length bitshift : Z) : result (list Z) :=
  if negb (bitshift <? 8) then Err Assert_failure
  else if 0 <? length then
    let a1 := for_loop (length - 1) (fun j a =>
                let i := length - 1 - j in
                wr a (base + i)
                   (u8 (Z.lor (Z.shiftl (rd a (base + i - 1)) (8 - bitshift))
                              (Z.shiftr (rd a (base + i)) bitshift)))) bitarray in
    Ok (wr a1 base (u8 (Z.shiftr (rd a1 base) bitshift)))
  else Ok bitarray.

Definition fusion8 (left_bits right_bits merge_index : Z) : Z :=
  let mask := u8 (Z.shiftl 0xFF (8 - merge_index)) in
  u8 (Z.lor (Z.land left_bits mask) (Z.land right_bits (Z.lnot mask))).

Definition p4nenc_bound (n size : Z) : Z := u64 (u64 (n + 127) / 128 + u64 (u64 (n + 32) * size)).

(** ** Objects of the file container *)

(** [std::map]: an association list kept sorted by key, without duplicate
    keys; [m[k] = v] is [smap_insert]. *)
Fixpoint smap_insert {K V : Type} (ltb eqb : K -> K -> bool) (k : K) (v : V)
    (l : list (K * V)) : list (K * V) :=
  match l with
  | [] => [(k, v)]
  | (k', v') :: tl =>
      if eqb k k' then (k, v) :: tl
      else if ltb k k' then (k, v) :: l
      else (k', v') :: smap_insert ltb eqb k v tl
  end.

Fixpoint smap_find {K V : Type} (eqb : K -> K -> bool) (k : K) (l : list (K * V)) : option V :=
  match l with
  | [] => None
  | (k', v') :: tl => if eqb k k' then Some v' else smap_find eqb k tl
  end.

(** [Section_GV]: [vars] is a [std::map<std::string, uint64_t>]. *)
Record Section_GV : Type := Build_Section_GV {
  gv_beginning : Z;
  gv_nb_vars : Z;
  gv_vars : list (string * Z)
}.

(** [Section_Index]: [index] is a [std::map<int64_t, char>]. *)
Record Section_Index : Type := Build_Section_Index {
  si_beginning : Z;
  si_index : list (Z * Z);
  si_next_index : Z
}.

(** The stream [fs] together with the file it is attached to.  The
    program opens the stream with [binary | in] (a reader), [binary | out]
    (a writer) or [binary | out | in | ate] (a writer that reopens it);
    [fs_in] tells whether it can be read. *)
Record fstream : Type := Build_fstream {
  disk : list Z;       (* bytes of the file [filename] on disk *)
  fs_open : bool;      (* [fs.is_open()] *)
  fs_fail : bool;      (* [fs.fail()] *)
  fs_pos : Z;          (* position of the stream *)
  fs_in : bool         (* the stream was opened with [fstream::in] *)
}.

Record Kero_file : Type := Build_Kero_file {
  fs : fstream;  (* [std::fstream fs] *)
  current_position : Z;
  writing_started : bool;
  file_buffer : list Z;
  file_size : Z;
  buffer_size : Z;
  max_buffer_size : Z;
  next_free : Z;
  delete_on_destruction : bool;
  tmp_closed : bool;
  major_version : Z;
  minor_version : Z;
  uniqueness : bool;
  canonicity : bool;
  header_over : bool;
  footer_discovery_ended : bool;
  index_discovery_ended : bool;
  end_position : Z;
  is_writer : bool;
  is_reader : bool;
  footer : option Section_GV;  (* [Section_GV * footer], [nullptr] is [None] *)
  index : list Section_Index;
  indexed : bool;
  section_positions : list (Z * Z);  (* [std::map<long, char>] *)
  encoding : list Z;
  metadata_size : Z;
  global_vars : gmap string Z;  (* [std::unordered_map<std::string, uint64_t>] *)
  mini_list : list Z;
  mini_pos : list Z
}.

Definition set_fs (v : fstream) (x : Kero_file) : Kero_file :=
  Build_Kero_file v (current_position x) (writing_started x) (file_buffer x) (file_size x)
    (buffer_size x) (max_buffer_size x) (next_free x) (delete_on_destruction x) (tmp_closed x)
    (major_version x) (minor_version x) (uniqueness x) (canonicity x) (header_over x)
    (footer_discovery_ended x) (index_discovery_ended x) (end_position x) (is_writer x)
    (is_reader x) (footer x) (index x) (indexed x) (section_positions x) (encoding x)
    (metadata_size x) (global_vars x) (mini_list x) (mini_pos x).
Definition set_current_position (v : Z) (x : Kero_file) : Kero_file :=
  Build_Kero_file (fs x) v (writing_started x) (file_buffer x) (file_size x) (buffer_size x)
    (max_buffer_size x) (next_free x) (delete_on_destruction x) (tmp_closed x) (major_version x)
    (minor_version x) (uniqueness x) (canonicity x) (header_over x) (footer_discovery_ended x)
    (index_discovery_ended x) (end_position x) (is_writer x) (is_reader x) (footer x) (index x)
    (indexed x) (section_positions x) (encoding x) (metadata_size x) (global_vars x)
    (mini_list x) (mini_pos x).
Definition set_writing_started (v : bool) (x : Kero_file) : Kero_file :=
  Build_Kero_file (fs x) (current_position x) v (file_buffer x) (file_size x) (buffer_size x)
    (max_buffer_size x) (next_free x) (delete_on_destruction x) (tmp_closed x) (major_version x)
    (minor_version x) (uniqueness x) (canonicity x) (header_over x) (footer_discovery_ended x)
    (index_discovery_ended x) (end_position x) (is_writer x) (is_reader x) (footer x) (index x)
    (indexed x) (section_positions x) (encoding x) (metadata_size x) (global_vars x)
    (mini_list x) (mini_pos x).
Definition set_file_buffer (v : list Z) (x : Kero_file) : Kero_file :=
  Build_Kero_file (fs x) (current_position x) (writing_started x) v (file_size x)
    (buffer_size x) (max_buffer_size x) (next_free x) (delete_on_destruction x) (tmp_closed x)
    (major_version x) (minor_version x) (uniqueness x) (canonicity x) (header_over x)
    (footer_discovery_ended x) (index_discovery_ended x) (end_position x) (is_writer x)
    (is_reader x) (footer x) (index x) (indexed x) (section_positions x) (encoding x)
    (metadata_size x) (global_vars x) (mini_list x) (mini_pos x).
Definition set_file_size (v : Z) (x : Kero_file) : Kero_file :=
  Build_Kero_file (fs x) (current_position x) (writing_started x) (file_buffer x) v
    (buffer_size x) (max_buffer_size x) (next_free x) (delete_on_destruction x) (tmp_closed x)
    (major_version x) (minor_version x) (uniqueness x) (canonicity x) (header_over x)
    (footer_discovery_ended x) (index_discovery_ended x) (end_position x) (is_writer x)
    (is_reader x) (footer x) (index x) (indexed x) (section_positions x) (encoding x)
    (metadata_size x) (global_vars x) (mini_list x) (mini_pos x).
Definition set_buffer_size (v : Z) (x : Kero_file) : Kero_file :=
  Build_Kero_file (fs x) (current_position x) (writing_started x) (file_buffer x) (file_size x)
    v (max_buffer_size x) (next_free x) (delete_on_destruction x) (tmp_closed x)
    (major_version x) (minor_version x) (uniqueness x) (canonicity x) (header_over x)
    (footer_discovery_ended x) (index_discovery_ended x) (end_position x) (is_writer x)
    (is_reader x) (footer x) (index x) (indexed x) (section_positions x) (encoding x)
    (metadata_size x) (global_vars x) (mini_list x) (mini_pos x).
Definition set_next_free (v : Z) (x : Kero_file) : Kero_file :=
  Build_Kero_file (fs x) (current_position x) (writing_started x) (file_buffer x) (file_size x)
    (buffer_size x) (max_buffer_size x) v (delete_on_destruction x) (tmp_closed x)
    (major_version x) (minor_version x) (uniqueness x) (canonicity x) (header_over x)
    (footer_discovery_ended x) (index_discovery_ended x) (end_position x) (is_writer x)
    (is_reader x) (footer x) (index x) (indexed x) (section_positions x) (encoding x)
    (metadata_size x) (global_vars x) (mini_list x) (mini_pos x).
Definition set_delete_on_destruction (v : bool) (x : Kero_file) : Kero_file :=
  Build_Kero_file (fs x) (current_position x) (writing_started x) (file_buffer x) (file_size x)
    (buffer_size x) (max_buffer_size x) (next_free x) v (tmp_closed x) (major_version x)
    (minor_version x) (uniqueness x) (canonicity x) (header_over x) (footer_discovery_ended x)
    (index_discovery_ended x) (end_position x) (is_writer x) (is_reader x) (footer x) (index x)
    (indexed x) (section_positions x) (encoding x) (metadata_size x) (global_vars x)
    (mini_list x) (mini_pos x).
Definition set_tmp_closed (v : bool) (x : Kero_file) : Kero_file :=
  Build_Kero_file (fs x) (current_position x) (writing_started x) (file_buffer x) (file_size x)
    (buffer_size x) (max_buffer_size x) (next_free x) (delete_on_destruction x) v
    (major_version x) (minor_version x) (uniqueness x) (canonicity x) (header_over x)
    (footer_discovery_ended x) (index_discovery_ended x) (end_position x) (is_writer x)
    (is_reader x) (footer x) (index x) (indexed x) (section_positions x) (encoding x)
    (metadata_size x) (global_vars x) (mini_list x) (mini_pos x).
Definition set_major_version (v : Z) (x : Kero_file) : Kero_file :=
  Build_Kero_file (fs x) (current_position x) (writing_started x) (file_buffer x) (file_size x)
    (buffer_size x) (max_buffer_size x) (next_free x) (delete_on_destruction x) (tmp_closed x) v
    (minor_version x) (uniqueness x) (canonicity x) (header_over x) (footer_discovery_ended x)
    (index_discovery_ended x) (end_position x) (is_writer x) (is_reader x) (footer x) (index x)
    (indexed x) (section_positions x) (encoding x) (metadata_size x) (global_vars x)
    (mini_list x) (mini_pos x).
Definition set_minor_version (v : Z) (x : Kero_file) : Kero_file :=
  Build_Kero_file (fs x) (current_position x) (writing_started x) (file_buffer x) (file_size x)
    (buffer_size x) (max_buffer_size x) (next_free x) (delete_on_destruction x) (tmp_closed x)
    (major_version x) v (uniqueness x) (canonicity x) (header_over x) (footer_discovery_ended x)
    (index_discovery_ended x) (end_position x) (is_writer x) (is_reader x) (footer x) (index x)
    (indexed x) (section_positions x) (encoding x) (metadata_size x) (global_vars x)
    (mini_list x) (mini_pos x).
Definition set_uniqueness (v : bool) (x : Kero_file) : Kero_file :=
  Build_Kero_file (fs x) (current_position x) (writing_started x) (file_buffer x) (file_size x)
    (buffer_size x) (max_buffer_size x) (next_free x) (delete_on_destruction x) (tmp_closed x)
    (major_version x) (minor_version x) v (canonicity x) (header_over x)
    (footer_discovery_ended x) (index_discovery_ended x) (end_position x) (is_writer x)
    (is_reader x) (footer x) (index x) (indexed x) (section_positions x) (encoding x)
    (metadata_size x) (global_vars x) (mini_list x) (mini_pos x).
Definition set_canonicity (v : bool) (x : Kero_file) : Kero_file :=
  Build_Kero_file (fs x) (current_position x) (writing_started x) (file_buffer x) (file_size x)
    (buffer_size x) (max_buffer_size x) (next_free x) (delete_on_destruction x) (tmp_closed x)
    (major_version x) (minor_version x) (uniqueness x) v (header_over x)
    (footer_discovery_ended x) (index_discovery_ended x) (end_position x) (is_writer x)
    (is_reader x) (footer x) (index x) (indexed x) (section_positions x) (encoding x)
    (metadata_size x) (global_vars x) (mini_list x) (mini_pos x).
Definition set_header_over (v : bool) (x : Kero_file) : Kero_file :=
  Build_Kero_file (fs x) (current_position x) (writing_started x) (file_buffer x) (file_size x)
    (buffer_size x) (max_buffer_size x) (next_free x) (delete_on_destruction x) (tmp_closed x)
    (major_version x) (minor_version x) (uniqueness x) (canonicity x) v
    (footer_discovery_ended x) (index_discovery_ended x) (end_position x) (is_writer x)
    (is_reader x) (footer x) (index x) (indexed x) (section_positions x) (encoding x)
    (metadata_size x) (global_vars x) (mini_list x) (mini_pos x).
Definition set_footer_discovery_ended (v : bool) (x : Kero_file) : Kero_file :=
  Build_Kero_file (fs x) (current_position x) (writing_started x) (file_buffer x) (file_size x)
    (buffer_size x) (max_buffer_size x) (next_free x) (delete_on_destruction x) (tmp_closed x)
    (major_version x) (minor_version x) (uniqueness x) (canonicity x) (header_over x) v
    (index_discovery_ended x) (end_position x) (is_writer x) (is_reader x) (footer x) (index x)
    (indexed x) (section_positions x) (encoding x) (metadata_size x) (global_vars x)
    (mini_list x) (mini_pos x).
Definition set_index_discovery_ended (v : bool) (x : Kero_file) : Kero_file :=
  Build_Kero_file (fs x) (current_position x) (writing_started x) (file_buffer x) (file_size x)
    (buffer_size x) (max_buffer_size x) (next_free x) (delete_on_destruction x) (tmp_closed x)
    (major_version x) (minor_version x) (uniqueness x) (canonicity x) (header_over x)
    (footer_discovery_ended x) v (end_position x) (is_writer x) (is_reader x) (footer x)
    (index x) (indexed x) (section_positions x) (encoding x) (metadata_size x) (global_vars x)
    (mini_list x) (mini_pos x).
Definition set_end_position (v : Z) (x : Kero_file) : Kero_file :=
  Build_Kero_file (fs x) (current_position x) (writing_started x) (file_buffer x) (file_size x)
    (buffer_size x) (max_buffer_size x) (next_free x) (delete_on_destruction x) (tmp_closed x)
    (major_version x) (minor_version x) (uniqueness x) (canonicity x) (header_over x)
    (footer_discovery_ended x) (index_discovery_ended x) v (is_writer x) (is_reader x)
    (footer x) (index x) (indexed x) (section_positions x) (encoding x) (metadata_size x)
    (global_vars x) (mini_list x) (mini_pos x).
Definition set_is_writer (v : bool) (x : Kero_file) : Kero_file :=
  Build_Kero_file (fs x) (current_position x) (writing_started x) (file_buffer x) (file_size x)
    (buffer_size x) (max_buffer_size x) (next_free x) (delete_on_destruction x) (tmp_closed x)
    (major_version x) (minor_version x) (uniqueness x) (canonicity x) (header_over x)
    (footer_discovery_ended x) (index_discovery_ended x) (end_position x) v (is_reader x)
    (footer x) (index x) (indexed x) (section_positions x) (encoding x) (metadata_size x)
    (global_vars x) (mini_list x) (mini_pos x).
Definition set_is_reader (v : bool) (x : Kero_file) : Kero_file :=
  Build_Kero_file (fs x) (current_position x) (writing_started x) (file_buffer x) (file_size x)
    (buffer_size x) (max_buffer_size x) (next_free x) (delete_on_destruction x) (tmp_closed x)
    (major_version x) (minor_version x) (uniqueness x) (canonicity x) (header_over x)
    (footer_discovery_ended x) (index_discovery_ended x) (end_position x) (is_writer x) v
    (footer x) (index x) (indexed x) (section_positions x) (encoding x) (metadata_size x)
    (global_vars x) (mini_list x) (mini_pos x).
Definition set_footer (v : option Section_GV) (x : Kero_file) : Kero_file :=
  Build_Kero_file (fs x) (current_position x) (writing_started x) (file_buffer x) (file_size x)
    (buffer_size x) (max_buffer_size x) (next_free x) (delete_on_destruction x) (tmp_closed x)
    (major_version x) (minor_version x) (uniqueness x) (canonicity x) (header_over x)
    (footer_discovery_ended x) (index_discovery_ended x) (end_position x) (is_writer x)
    (is_reader x) v (index x) (indexed x) (section_positions x) (encoding x) (metadata_size x)
    (global_vars x) (mini_list x) (mini_pos x).
Definition set_index (v : list Section_Index) (x : Kero_file) : Kero_file :=
  Build_Kero_file (fs x) (current_position x) (writing_started x) (file_buffer x) (file_size x)
    (buffer_size x) (max_buffer_size x) (next_free x) (delete_on_destruction x) (tmp_closed x)
    (major_version x) (minor_version x) (uniqueness x) (canonicity x) (header_over x)
    (footer_discovery_ended x) (index_discovery_ended x) (end_position x) (is_writer x)
    (is_reader x) (footer x) v (indexed x) (section_positions x) (encoding x) (metadata_size x)
    (global_vars x) (mini_list x) (mini_pos x).
Definition set_indexed (v : bool) (x : Kero_file) : Kero_file :=
  Build_Kero_file (fs x) (current_position x) (writing_started x) (file_buffer x) (file_size x)
    (buffer_size x) (max_buffer_size x) (next_free x) (delete_on_destruction x) (tmp_closed x)
    (major_version x) (minor_version x) (uniqueness x) (canonicity x) (header_over x)
    (footer_discovery_ended x) (index_discovery_ended x) (end_position x) (is_writer x)
    (is_reader x) (footer x) (index x) v (section_positions x) (encoding x) (metadata_size x)
    (global_vars x) (mini_list x) (mini_pos x).
Definition set_section_positions (v : list (Z * Z)) (x : Kero_file) : Kero_file :=
  Build_Kero_file (fs x) (current_position x) (writing_started x) (file_buffer x) (file_size x)
    (buffer_size x) (max_buffer_size x) (next_free x) (delete_on_destruction x) (tmp_closed x)
    (major_version x) (minor_version x) (uniqueness x) (canonicity x) (header_over x)
    (footer_discovery_ended x) (index_discovery_ended x) (end_position x) (is_writer x)
    (is_reader x) (footer x) (index x) (indexed x) v (encoding x) (metadata_size x)
    (global_vars x) (mini_list x) (mini_pos x).
Definition set_encoding (v : list Z) (x : Kero_file) : Kero_file :=
  Build_Kero_file (fs x) (current_position x) (writing_started x) (file_buffer x) (file_size x)
    (buffer_size x) (max_buffer_size x) (next_free x) (delete_on_destruction x) (tmp_closed x)
    (major_version x) (minor_version x) (uniqueness x) (canonicity x) (header_over x)
    (footer_discovery_ended x) (index_discovery_ended x) (end_position x) (is_writer x)
    (is_reader x) (footer x) (index x) (indexed x) (section_positions x) v (metadata_size x)
    (global_vars x) (mini_list x) (mini_pos x).
Definition set_metadata_size (v : Z) (x : Kero_file) : Kero_file :=
  Build_Kero_file (fs x) (current_position x) (writing_started x) (file_buffer x) (file_size x)
    (buffer_size x) (max_buffer_size x) (next_free x) (delete_on_destruction x) (tmp_closed x)
    (major_version x) (minor_version x) (uniqueness x) (canonicity x) (header_over x)
    (footer_discovery_ended x) (index_discovery_ended x) (end_position x) (is_writer x)
    (is_reader x) (footer x) (index x) (indexed x) (section_positions x) (encoding x) v
    (global_vars x) (mini_list x) (mini_pos x).
Definition set_global_vars (v : gmap string Z) (x : Kero_file) : Kero_file :=
  Build_Kero_file (fs x) (current_position x) (writing_started x) (file_buffer x) (file_size x)
    (buffer_size x) (max_buffer_size x) (next_free x) (delete_on_destruction x) (tmp_closed x)
    (major_version x) (minor_version x) (uniqueness x) (canonicity x) (header_over x)
    (footer_discovery_ended x) (index_discovery_ended x) (end_position x) (is_writer x)
    (is_reader x) (footer x) (index x) (indexed x) (section_positions x) (encoding x)
    (metadata_size x) v (mini_list x) (mini_pos x).
Definition set_mini_list (v : list Z) (x : Kero_file) : Kero_file :=
  Build_Kero_file (fs x) (current_position x) (writing_started x) (file_buffer x) (file_size x)
    (buffer_size x) (max_buffer_size x) (next_free x) (delete_on_destruction x) (tmp_closed x)
    (major_version x) (minor_version x) (uniqueness x) (canonicity x) (header_over x)
    (footer_discovery_ended x) (index_discovery_ended x) (end_position x) (is_writer x)
    (is_reader x) (footer x) (index x) (indexed x) (section_positions x) (encoding x)
    (metadata_size x) (global_vars x) v (mini_pos x).
Definition set_mini_pos (v : list Z) (x : Kero_file) : Kero_file :=
  Build_Kero_file (fs x) (current_position x) (writing_started x) (file_buffer x) (file_size x)
    (buffer_size x) (max_buffer_size x) (next_free x) (delete_on_destruction x) (tmp_closed x)
    (major_version x) (minor_version x) (uniqueness x) (canonicity x) (header_over x)
    (footer_discovery_ended x) (index_discovery_ended x) (end_position x) (is_writer x)
    (is_reader x) (footer x) (index x) (indexed x) (section_positions x) (encoding x)
    (metadata_size x) (global_vars x) (mini_list x) v.


(** ** The stream [fs] *)

Definition fs_usable (s : fstream) : bool := fs_open s && negb (fs_fail s).

Definition fstream_failed (s : fstream) : fstream :=
  Build_fstream (disk s) (fs_open s) true (fs_pos s) (fs_in s).

(** [fs.open(filename, binary | in)] *)
Definition fstream_open_in (s : fstream) : fstream :=
  if fs_open s then fstream_failed s else Build_fstream (disk s) true false 0 true.

(** [fs.open(filename, binary | out)] truncates the file; the stream cannot
    be read. *)
Definition fstream_open_out (s : fstream) : fstream :=
  if fs_open s then fstream_failed s else Build_fstream [] true false 0 false.

(** [fs.open(filename, binary | out | in | ate)] *)
Definition fstream_open_ate (s : fstream) : fstream :=
  if fs_open s then fstream_failed s
  else Build_fstream (disk s) true false (Z.of_nat (length (disk s))) true.

Definition fstream_close (s : fstream) : fstream :=
  if fs_open s then Build_fstream (disk s) false (fs_fail s) (fs_pos s) (fs_in s)
  else fstream_failed s.

Definition fstream_clear (s : fstream) : fstream :=
  Build_fstream (disk s) (fs_open s) false (fs_pos s) (fs_in s).

(** [fs.seekp(pos)] (the stream has one position for reading and writing) *)
Definition fstream_seek (pos : Z) (s : fstream) : fstream :=
  if fs_usable s then Build_fstream (disk s) true false pos (fs_in s) else fstream_failed s.

(** [fs.seekg(0, fs.end)] *)
Definition fstream_seek_end (s : fstream) : fstream :=
  fstream_seek (Z.of_nat (length (disk s))) s.

(** [fs.read(bytes, size)]; a stream that was not opened with [fstream::in]
    reads nothing and fails. *)
Definition fstream_read (size : Z) (s : fstream) : list Z * fstream :=
  if negb (fs_in s) then ([], fstream_failed s)
  else
    let bytes := take (Z.to_nat size) (drop (Z.to_nat (fs_pos s)) (disk s)) in
    if fs_usable s && (fs_pos s + size <=? Z.of_nat (length (disk s))) then
      (bytes, Build_fstream (disk s) true false (fs_pos s + size) true)
    else (bytes, fstream_failed s).

(** [fs.write(bytes, size)]: the bytes replace those at the position of the
    stream and extend the file when they go past its end.  [write],
    [write_at] and [close] write to a stream that one of them, or [reopen],
    opened, hence opened with [fstream::out]: where the stream of a reader
    is still open they fail to open it first, and exit. *)
Definition fstream_write (bytes : list Z) (s : fstream) : fstream :=
  if fs_usable s then
    let p := Z.to_nat (fs_pos s) in
    Build_fstream
      (take p (disk s) ++ replicate (p - length (disk s)) 0 ++ bytes
         ++ drop (p + length bytes) (disk s))
      true false (fs_pos s + Z.of_nat (length bytes)) (fs_in s)
  else fstream_failed s.

(** [fs.peek()] converted to [char]; the end of the file, and every
    position of a stream that was not opened with [fstream::in], is
    [(char)EOF]. *)
Definition fstream_peek (s : fstream) : Z :=
  if fs_usable s && fs_in s && (fs_pos s <? Z.of_nat (length (disk s)))
  then rd (disk s) (fs_pos s)
  else u8 (-1).

(** ** [Kero_file]: buffered input and output *)

Definition tellp (f : Kero_file) : Z := current_position f.

Definition reopen (f : Kero_file) : Kero_file :=
  if tmp_closed f then set_tmp_closed false (set_fs (fstream_open_ate (fs f)) f) else f.

Definition tmp_close (f : Kero_file) : Kero_file :=
  if is_writer f && fs_open (fs f) then
    set_tmp_closed true (set_fs (fstream_clear (fstream_close (fs f))) f)
  else f.

(** [Kero_file::read(bytes, size)] returns the bytes copied to [bytes].
    The two recursive calls of the source are calls on strictly simpler
    cases; [fuel] bounds the depth of the recursion. *)
Fixpoint read_fuel (fuel : nat) (size : Z) (f : Kero_file) : result (list Z * Kero_file) :=
  match fuel with
  | O => Err Diverges
  | S fuel =>
      if negb (is_reader f) then Err (Exit 1)
      else if current_position f <? file_size f then
        if file_size f <? u64 (current_position f + size) then
          let fs_read_size := u64 (file_size f - current_position f) in
          '(b1, f) ← read_fuel fuel fs_read_size f;
          '(b2, f) ← read_fuel fuel (u64 (size - fs_read_size)) f;
          Ok (b1 ++ b2, f)
        else
          let f := if negb (fs_open (fs f)) then set_fs (fstream_open_in (fs f)) f else f in
          let '(bytes, s) := fstream_read size (fs f) in
          if fs_fail s then Err (Exit 1)
          else Ok (bytes, set_current_position (u64 (current_position f + size)) (set_fs s f))
      else
        let buffer_position := u64 (current_position f - file_size f) in
        if next_free f <? u64 (buffer_position + size) then Err Out_of_range
        else
          Ok (take (Z.to_nat size) (drop (Z.to_nat buffer_position) (file_buffer f)),
              set_current_position (u64 (current_position f + size)) f)
  end.

Definition read (size : Z) (f : Kero_file) : result (list Z * Kero_file) :=
  read_fuel 2 size f.

(** The buffer-doubling loop of [Kero_file::write]. *)
Fixpoint resize_buffer (fuel : nat) (size : Z) (f : Kero_file) : option Kero_file :=
  let buff_space := u64 (buffer_size f - next_free f) in
  if (buff_space <? size) && (buffer_size f <? max_buffer_size f) then
    match fuel with
    | O => None
    | S fuel =>
        let buffer_size' := u64 (buffer_size f * 2) in
        let next_buffer := zeros buffer_size' in
        let next_buffer := memcpy next_buffer 0 (file_buffer f) 0 (next_free f) in
        let buff_space := u64 (buffer_size' - next_free f) in
        let next_buffer := memset next_buffer (next_free f) 0 buff_space in
        resize_buffer fuel size (set_file_buffer next_buffer (set_buffer_size buffer_size' f))
    end
  else Some f.

(** [Kero_file::write(bytes, size)] *)
Definition write (bytes : list Z) (size : Z) (f : Kero_file) : result Kero_file :=
  if negb (is_writer f) then Err (Exit 1)
  else match resize_buffer 65 size f with
  | None => Err Diverges
  | Some f =>
      let buff_space := u64 (buffer_size f - next_free f) in
      f ← (if size <=? buff_space then
             Ok (set_next_free (u64 (next_free f + size))
                   (set_file_buffer (memcpy (file_buffer f) (next_free f) bytes 0 size) f))
           else
             let f := if negb (writing_started f)
                      then set_writing_started true (set_fs (fstream_open_out (fs f)) f)
                      else if tmp_closed f then reopen f else f in
             let s := fstream_write (take (Z.to_nat (next_free f)) (file_buffer f)) (fs f) in
             let s := fstream_write (take (Z.to_nat size) bytes) s in
             let f := set_next_free 0
                        (set_file_size (u64 (file_size f + u64 (next_free f + size)))
                           (set_fs s f)) in
             if fs_fail s then Err (Exit 1) else Ok f);
      Ok (set_current_position (u64 (current_position f + size)) f)
  end.

(** [Kero_file::write_at(bytes, size, position)]; as for [read], [fuel]
    bounds the depth of the recursion. *)
Fixpoint write_at_fuel (fuel : nat) (bytes : list Z) (size position : Z) (f : Kero_file)
    : result Kero_file :=
  match fuel with
  | O => Err Diverges
  | S fuel =>
      if negb (is_writer f) then Err (Exit 1)
      else if u64 (file_size f + next_free f) <? position then Err (Exit 1)
      else if position <? file_size f then
        if u64 (position + size) <=? file_size f then
          let f := if tmp_closed f then reopen f else f in
          let s := fstream_seek position (fs f) in
          let s := fstream_write (take (Z.to_nat size) bytes) s in
          if fs_fail s then Err (Exit 1)
          else Ok (set_fs (fstream_seek (file_size f) s) f)
        else
          let in_file_size := u64 (file_size f - position) in
          f ← write_at_fuel fuel bytes in_file_size position f;
          write_at_fuel fuel (drop (Z.to_nat in_file_size) bytes) (u64 (size - in_file_size))
            (u64 (position + in_file_size)) f
      else
        let corrected_position := u64 (position - file_size f) in
        if u64 (corrected_position + size) <=? next_free f then
          Ok (set_file_buffer (memcpy (file_buffer f) corrected_position bytes 0 size) f)
        else write bytes size (set_next_free corrected_position f)
  end.

Definition write_at (bytes : list Z) (size position : Z) (f : Kero_file) : result Kero_file :=
  write_at_fuel 2 bytes size position f.

(** [Kero_file::jump_to(position, from_end)] *)
Definition jump_to (position : Z) (from_end : bool) (f : Kero_file) : result Kero_file :=
  if u64 (file_size f + next_free f) <? position then Err (Exit 1)
  else
    let position :=
      if from_end then u64 (u64 (file_size f + next_free f) - position) else position in
    let s := if position <? file_size f then fstream_seek position (fs f)
             else fstream_seek_end (fs f) in
    Ok (set_current_position position (set_fs s f)).

(** [Kero_file::jump(size)]; [size] is a signed [long]. *)
Definition jump (size : Z) (f : Kero_file) : result Kero_file :=
  jump_to (u64 (current_position f + size)) false f.

(** Conversion to a signed 64-bit [long]. *)
Definition s64 (x : Z) : Z :=
  let y := x mod 2 ^ 64 in if y <? 2 ^ 63 then y else y - 2 ^ 64.

(** ** [Kero_file]: registration hooks and header *)

Definition set_indexation (b : bool) (f : Kero_file) : Kero_file :=
  if is_writer f then set_indexed b f else f.

Definition register_position (section_type : Z) (f : Kero_file) : Kero_file :=
  if is_writer f && indexed f then
    set_section_positions
      (smap_insert Z.ltb Z.eqb (s64 (tellp f)) section_type (section_positions f)) f
  else f.

Definition register_minimizer_section (minimizer : Z) (f : Kero_file) : Kero_file :=
  if is_writer f && indexed f then
    set_mini_pos (mini_pos f ++ [tellp f]) (set_mini_list (mini_list f ++ [minimizer]) f)
  else f.

(** [Kero_file::write_metadata(size, data)] *)
Definition write_metadata (size : Z) (data : list Z) (f : Kero_file) : result Kero_file :=
  if header_over f then Err (Exit 1)
  else
    f ← write (store_big_endian 4 size) 4 f;
    f ← write data size f;
    Ok (set_header_over true f).

(** [Kero_file::read_metadata(data)] *)
Definition read_metadata (f : Kero_file) : result (list Z * Kero_file) :=
  '(data, f) ← read (metadata_size f) f;
  Ok (data, set_header_over true f).

(** [Kero_file::complete_header()] *)
Definition complete_header (f : Kero_file) : result Kero_file :=
  if header_over f then Ok f
  else
    f ← (if is_reader f then jump (metadata_size f) f
         else if is_writer f then write_metadata 0 [] f
         else Ok f);
    Ok (set_header_over true f).

(** [Kero_file::write_encoding(a, c, g, t)] *)
Definition write_encoding (a c g t : Z) (f : Kero_file) : result Kero_file :=
  let a := Z.land a 3 in
  let c := Z.land c 3 in
  let g := Z.land g 3 in
  let t := Z.land t 3 in
  if a =? c then Err Assert_failure
  else if a =? g then Err Assert_failure
  else if a =? t then Err Assert_failure
  else if c =? g then Err Assert_failure
  else if g =? t then Err Assert_failure
  else if g =? t then Err Assert_failure
  else
    let f := set_encoding [a; c; g; t] f in
    let code :=
      u8 (Z.lor (Z.lor (Z.lor (Z.shiftl a 6) (Z.shiftl c 4)) (Z.shiftl g 2)) t) in
    write_at [code] 1 5 f.

Definition set_uniqueness_flag (uniqueness : bool) (f : Kero_file) : result Kero_file :=
  let bit_uniq := if uniqueness then 1 else 0 in
  write_at [bit_uniq] 1 6 f.

Definition set_canonicity_flag (canonicity : bool) (f : Kero_file) : result Kero_file :=
  let bit_canon := if canonicity then 1 else 0 in
  write_at [bit_canon] 1 7 f.

(** [Kero_file::read_encoding()] *)
Definition read_encoding (f : Kero_file) : result Kero_file :=
  '(buff, f) ← read 1 f;
  let code := rd buff 0 in
  let a := Z.land (Z.shiftr code 6) 3 in
  let c := Z.land (Z.shiftr code 4) 3 in
  let g := Z.land (Z.shiftr code 2) 3 in
  let t := Z.land code 3 in
  let f := set_encoding [a; c; g; t] f in
  if (a =? c) || (a =? g) || (a =? t) || (c =? g) || (c =? t) || (g =? t) then
    Err (Throw "Wrong encoding. The 4 2-bits values must be different.")
  else Ok f.

(** [Kero_file::read_section_type()] *)
Definition read_section_type (f : Kero_file) : result (Z * Kero_file) :=
  f ← (if negb (header_over f) then complete_header f else Ok f);
  if current_position f <? file_size f then Ok (fstream_peek (fs f), f)
  else Ok (rd (file_buffer f) (u64 (current_position f - file_size f)), f).

(** ** Sections *)

(** [Section::Section(file)] returns [beginning]. *)
Definition Section_new (f : Kero_file) : result (Z * Kero_file) :=
  f ← (if negb (header_over f) && footer_discovery_ended f then complete_header f else Ok f);
  Ok (s64 (tellp f), f).

(** *** Global variable sections *)

(** The loop of [Section_GV::read_var] that reads the name up to its
    terminating zero byte; every iteration reads one byte of the file. *)
Fixpoint read_name (fuel : nat) (ss : list Z) (c : Z) (f : Kero_file)
    : result (list Z * Kero_file) :=
  if c =? 0 then Ok (ss, f)
  else match fuel with
       | O => Err Diverges
       | S fuel =>
           '(buff, f) ← read 1 f;
           read_name fuel (ss ++ [c]) (rd buff 0) f
       end.

(** [Section_GV::read_var()] *)
Definition read_var (gv : Section_GV) (f : Kero_file) : result (Section_GV * Kero_file) :=
  if end_position f <=? tellp f then
    Err (Throw "eof reached before the end of the variable section")
  else
    '(buff, f) ← read 1 f;
    let fuel := Z.to_nat (file_size f + next_free f) in
    '(ss, f) ← read_name fuel [] (rd buff 0) f;
    '(buff, f) ← read 8 f;
    let value := load_big_endian 64 buff 8 in
    let name := string_of_bytes ss in
    Ok (Build_Section_GV (gv_beginning gv) (gv_nb_vars gv)
          (smap_insert String.ltb String.eqb name value (gv_vars gv)),
        set_global_vars (<[name := value]> (global_vars f)) f).

Fixpoint read_vars (n : nat) (gv : Section_GV) (f : Kero_file)
    : result (Section_GV * Kero_file) :=
  match n with
  | O => Ok (gv, f)
  | S n => '(gv, f) ← read_var gv f; read_vars n gv f
  end.

(** [Section_GV::read_section()] *)
Definition read_section (gv : Section_GV) (f : Kero_file) : result (Section_GV * Kero_file) :=
  '(buff, f) ← read 1 f;
  if negb (rd buff 0 =? char "v") then
    Err (Throw
           "The section do not start with the 'v' char, you can't open a Global Variable section.")
  else
    '(buff, f) ← read 8 f;
    let nb_vars := load_big_endian 64 buff 8 in
    read_vars (Z.to_nat nb_vars) (Build_Section_GV (gv_beginning gv) nb_vars (gv_vars gv)) f.

(** [Section_GV::Section_GV(file)] *)
Definition Section_GV_new (f : Kero_file) : result (Section_GV * Kero_file) :=
  '(beginning, f) ← Section_new f;
  let gv := Build_Section_GV beginning 0 [] in
  let f := set_global_vars ∅ f in
  '(gv, f) ← (if is_reader f then read_section gv f else Ok (gv, f));
  f ← (if is_writer f then
         let f := if indexed f then register_position (char "v") f else f in
         write [char "v"] 1 f
       else Ok f);
  Ok (gv, f).

(** [Section_GV::write_var(var_name, value)] *)
Definition write_var (var_name : string) (value : Z) (gv : Section_GV) (f : Kero_file)
    : Section_GV * Kero_file :=
  (Build_Section_GV (gv_beginning gv) (u64 (gv_nb_vars gv + 1))
     (smap_insert String.ltb String.eqb var_name value (gv_vars gv)),
   set_global_vars (<[var_name := value]> (global_vars f)) f).

Fixpoint write_vars (vars : list (string * Z)) (f : Kero_file) : result Kero_file :=
  match vars with
  | [] => Ok f
  | (name, value) :: vars =>
      let c_str := bytes_of_string name ++ [0] in
      f ← write c_str (Z.of_nat (String.length name) + 1) f;
      f ← write (store_big_endian 8 value) 8 f;
      write_vars vars f
  end.

(** [Section_GV::close()] *)
Definition Section_GV_close (gv : Section_GV) (f : Kero_file) : result Kero_file :=
  if is_writer f then
    f ← write (store_big_endian 8 (gv_nb_vars gv)) 8 f;
    write_vars (gv_vars gv) f
  else Ok f.

(** *** Index sections *)

Fixpoint read_index_entries (n : nat) (index : list (Z * Z)) (f : Kero_file)
    : result (list (Z * Z) * Kero_file) :=
  match n with
  | O => Ok (index, f)
  | S n =>
      '(type, f) ← read 1 f;
      '(buff, f) ← read 8 f;
      let idx := s64 (load_big_endian 64 buff 8) in
      read_index_entries n (smap_insert Z.ltb Z.eqb idx (rd type 0) index) f
  end.

(** [Section_Index::Section_Index(file)] *)
Definition Section_Index_new (f : Kero_file) : result (Section_Index * Kero_file) :=
  '(beginning, f) ← Section_new f;
  if is_reader f then
    '(type, f) ← read 1 f;
    if negb (rd type 0 =? char "i") then
      Err (Throw
             "The section do not start with the 'i' char, you can not open an Index section.")
    else
      '(buff, f) ← read 8 f;
      let nb_vars := load_big_endian 64 buff 8 in
      '(index, f) ← read_index_entries (Z.to_nat nb_vars) [] f;
      if negb (nb_vars =? Z.of_nat (length index)) then
        Err (Throw "index collision in i section")
      else
        '(buff, f) ← read 8 f;
        Ok (Build_Section_Index beginning index (s64 (load_big_endian 64 buff 8)), f)
  else Ok (Build_Section_Index beginning [] 0, f).

(** [Section_Index::register_section(section_type, pos)] *)
Definition register_section (section_type pos : Z) (si : Section_Index) : Section_Index :=
  Build_Section_Index (si_beginning si)
    (smap_insert Z.ltb Z.eqb pos section_type (si_index si)) (si_next_index si).

Fixpoint write_index_entries (index : list (Z * Z)) (f : Kero_file) : result Kero_file :=
  match index with
  | [] => Ok f
  | (pos, type) :: index =>
      f ← write [type] 1 f;
      f ← write (store_big_endian 8 pos) 8 f;
      write_index_entries index f
  end.

(** [Section_Index::close()] *)
Definition Section_Index_close (si : Section_Index) (f : Kero_file) : result Kero_file :=
  if is_writer f then
    f ← write [char "i"] 1 f;
    f ← write (store_big_endian 8 (Z.of_nat (length (si_index si)))) 8 f;
    f ← write_index_entries (si_index si) f;
    write (store_big_endian 8 (si_next_index si)) 8 f
  else Ok f.

(** *** The minimal perfect hash table ([detail/mpht.hpp])

    The perfect hash function is the external PTHash library: a type of
    functions with a builder, an evaluator and a serialisation. *)
Record MPH_library : Type := Build_MPH_library {
  pthash_type : Type;
  pthash_default : pthash_type;
  build_in_internal_memory : list Z -> pthash_type;
  pthash_eval : pthash_type -> Z -> Z;      (* [mphf(key)] *)
  essentials_save : pthash_type -> list Z;
  essentials_load : list Z -> pthash_type
}.

Section Hashtable.
Context (pthash : MPH_library).

Record MPHT : Type := Build_MPHT {
  mphf : pthash_type pthash;
  hashtable : list Z
}.

Definition MPHT_new : MPHT := Build_MPHT (pthash_default pthash) [].

Definition MPHT_size (t : MPHT) : Z := Z.of_nat (length (hashtable t)).

(** [MPHT::build(keys, values)] *)
Definition MPHT_build (keys values : list Z) (t : MPHT) : result MPHT :=
  if negb (length keys =? length values)%nat then
    Err (Throw "Keys and values must have the same size.")
  else
    let mphf := build_in_internal_memory pthash keys in
    let hashtable := resize (length keys) 0 (hashtable t) in
    Ok (Build_MPHT mphf
          (for_loop (Z.of_nat (length hashtable))
             (fun i h => wr h (pthash_eval pthash mphf (rd keys i)) (rd values i)) hashtable)).

(** [MPHT::find(key)] *)
Definition MPHT_find (key : Z) (t : MPHT) : Z :=
  rd (hashtable t) (pthash_eval pthash (mphf t) key).

(** *** Hashtable sections *)

Record Section_Hashtable : Type := Build_Section_Hashtable {
  sh_beginning : Z;
  sh_mpht : MPHT;
  sh_minimizers : list Z;
  sh_positions : list Z;
  sh_nb_mphf : Z
}.

Definition BUFF_CHUNK_SIZE : Z := 1 * 1024 * 1024.

(** The loops that copy the serialised function in chunks of 1 MiB. *)
Fixpoint write_chunks (fuel : nat) (bytes : list Z) (f : Kero_file) : result Kero_file :=
  match bytes, fuel with
  | [], _ => Ok f
  | _, O => Err Diverges
  | _, S fuel =>
      let nb_bytes_to_write := Z.min (Z.of_nat (length bytes)) BUFF_CHUNK_SIZE in
      f ← write (take (Z.to_nat nb_bytes_to_write) bytes) nb_bytes_to_write f;
      write_chunks fuel (drop (Z.to_nat nb_bytes_to_write) bytes) f
  end.

Fixpoint read_chunks (fuel : nat) (remaining : Z) (acc : list Z) (f : Kero_file)
    : result (list Z * Kero_file) :=
  if remaining <=? 0 then Ok (acc, f)
  else match fuel with
       | O => Err Diverges
       | S fuel =>
           let nb_bytes_to_read := Z.min remaining BUFF_CHUNK_SIZE in
           '(chunk, f) ← read nb_bytes_to_read f;
           read_chunks fuel (remaining - nb_bytes_to_read) (acc ++ chunk) f
       end.

Fixpoint read_hashtable_values (n : nat) (acc : list Z) (f : Kero_file)
    : result (list Z * Kero_file) :=
  match n with
  | O => Ok (acc, f)
  | S n =>
      '(buff, f) ← read 8 f;
      read_hashtable_values n (acc ++ [load_big_endian 64 buff 8]) f
  end.

(** [Section_Hashtable::Section_Hashtable(file)] *)
Definition Section_Hashtable_new (f : Kero_file) : result (Section_Hashtable * Kero_file) :=
  '(beginning, f) ← Section_new f;
  if is_reader f then
    '(type, f) ← read 1 f;
    if negb (rd type 0 =? char "h") then
      Err (Throw
             "The section do not start with the 'h' char, you can not open a Hashtable section.")
    else
      '(buff, f) ← read 8 f;
      let nb_mphf := load_big_endian 64 buff 8 in
      '(mphf_bin, f) ← read_chunks (S (Z.to_nat nb_mphf)) nb_mphf [] f;
      let mphf := essentials_load pthash mphf_bin in
      '(buff, f) ← read 8 f;
      let nb_hashtable := load_big_endian 64 buff 8 in
      '(table, f) ← read_hashtable_values (Z.to_nat nb_hashtable) [] f;
      Ok (Build_Section_Hashtable beginning (Build_MPHT mphf table) [] [] nb_mphf, f)
  else Ok (Build_Section_Hashtable beginning MPHT_new [] [] 0, f).

(** [Section_Hashtable::reg_sm(minimizer, index)] *)
Definition reg_sm (minimizer index : Z) (sh : Section_Hashtable) : Section_Hashtable :=
  Build_Section_Hashtable (sh_beginning sh) (sh_mpht sh)
    (sh_minimizers sh ++ [minimizer]) (sh_positions sh ++ [index]) (sh_nb_mphf sh).

Fixpoint write_hashtable_values (table : list Z) (f : Kero_file) : result Kero_file :=
  match table with
  | [] => Ok f
  | v :: table => f ← write (store_big_endian 8 v) 8 f; write_hashtable_values table f
  end.

(** [Section_Hashtable::close()] returns the section with its table built. *)
Definition Section_Hashtable_close (sh : Section_Hashtable) (f : Kero_file)
    : result (Section_Hashtable * Kero_file) :=
  if is_writer f && negb (bool_decide (sh_minimizers sh = [])) then
    if negb (length (sh_minimizers sh) =? length (sh_positions sh))%nat then Err Assert_failure
    else
      mpht ← MPHT_build (sh_minimizers sh) (sh_positions sh) (sh_mpht sh);
      let f := register_position (char "h") f in
      f ← write [char "h"] 1 f;
      let mpht_bin := essentials_save pthash (mphf mpht) in
      let nb_mphf := Z.of_nat (length mpht_bin) in
      f ← write (store_big_endian 8 nb_mphf) 8 f;
      f ← write_chunks (length mpht_bin) mpht_bin f;
      f ← write (store_big_endian 8 (MPHT_size mpht)) 8 f;
      f ← write_hashtable_values (hashtable mpht) f;
      Ok (Build_Section_Hashtable (sh_beginning sh) mpht (sh_minimizers sh)
            (sh_positions sh) (sh_nb_mphf sh), f)
  else Ok (sh, f).

(** ** [Kero_file]: footer, opening and closing *)

Fixpoint reg_sm_all (mini_list mini_pos : list Z) (sh : Section_Hashtable) : Section_Hashtable :=
  match mini_list, mini_pos with
  | minimizer :: mini_list, pos :: mini_pos => reg_sm_all mini_list mini_pos (reg_sm minimizer pos sh)
  | _, _ => sh
  end.

(** The hashtable section of [Kero_file::write_footer()]: construction,
    registration of every recorded minimizer, and [close]. *)
Definition write_footer_hashtable (f : Kero_file) : result (Section_Hashtable * Kero_file) :=
  if negb (length (mini_list f) =? length (mini_pos f))%nat then Err Assert_failure
  else
    '(sh, f) ← Section_Hashtable_new f;
    let sh := reg_sm_all (mini_list f) (mini_pos f) sh in
    Section_Hashtable_close sh f.

(** [Kero_file::write_footer()] *)
Definition write_footer (f : Kero_file) : result Kero_file :=
  '(_, f) ← write_footer_hashtable f;
  '(si, f) ← Section_Index_new f;
  let position := s64 (si_beginning si + 17 + 9 * Z.of_nat (length (section_positions f))) in
  let si := fold_left (fun si it => register_section (snd it) (s64 (fst it - position)) si)
              (section_positions f) si in
  f ← Section_Index_close si f;
  '(sgv, f) ← Section_GV_new f;
  let '(sgv, f) := write_var "first_index" (u64 (si_beginning si)) sgv f in
  let '(sgv, f) := write_var "footer_size" (9 + 2 * (12 + 8)) sgv f in
  Section_GV_close sgv f.

(** [Kero_file::close(write_buffer)] *)
Definition close (write_buffer : bool) (f : Kero_file) : result Kero_file :=
  f ← (if is_writer f then
         f ← (if indexed f then write_footer f else Ok f);
         f ← write (bytes_of_string "KERO") 4 f;
         f ← (if write_buffer then
                let f := if negb (writing_started f)
                         then set_fs (fstream_open_out (fs f)) (set_writing_started true f)
                         else if tmp_closed f then reopen f else f in
                let s := fstream_write (take (Z.to_nat (next_free f)) (file_buffer f)) (fs f) in
                if fs_fail s then Err (Exit 1)
                else Ok (set_next_free 0
                           (set_file_size (u64 (file_size f + next_free f)) (set_fs s f)))
              else Ok (set_delete_on_destruction true f));
         Ok (if fs_open (fs f) then set_fs (fstream_close (fs f)) f else f)
       else if is_reader f then
         Ok (if fs_open (fs f) then set_fs (fstream_close (fs f)) f else f)
       else Ok f);
  Ok (set_is_reader false (set_is_writer false (set_tmp_closed false f))).

(** [Kero_file::footer_discovery()] *)
Definition footer_discovery (f : Kero_file) : result Kero_file :=
  let current_pos := tellp f in
  f ← jump_to 23 true f;
  '(ss, f) ← for_loop 11 (fun _ acc => '(ss, f) ← acc; '(c, f) ← read 1 f; Ok (ss ++ c, f))
               (Ok ([], f));
  if negb (bool_decide (ss = bytes_of_string "footer_size")) then Ok f
  else
    f ← jump 1 f;
    '(buff, f) ← read 8 f;
    let size := load_big_endian 64 buff 8 in
    f ← jump_to (u64 (size + 3)) true f;
    '(footer, f) ← Section_GV_new f;
    f ← Section_GV_close footer f;
    let f := set_footer_discovery_ended true (set_footer (Some footer) f) in
    jump_to current_pos false f.

(** [Kero_file::read_index(position)]; the chain of index sections is
    followed for at most [fuel] sections. *)
Fixpoint read_index_loop (fuel : nat) (position : Z) (f : Kero_file) : result Kero_file :=
  if position =? 0 then Ok f
  else match fuel with
       | O => Err Diverges
       | S fuel =>
           f ← jump_to (u64 position) false f;
           '(si, f) ← Section_Index_new f;
           let f := set_index (index f ++ [si]) f in
           let position :=
             if si_next_index si =? 0 then 0 else s64 (tellp f + si_next_index si) in
           read_index_loop fuel position f
       end.

Definition read_index (position : Z) (f : Kero_file) : result Kero_file :=
  let init_pos := tellp f in
  f ← read_index_loop (Z.to_nat (file_size f + next_free f)) position f;
  jump_to init_pos false f.

(** [Kero_file::index_discovery()] *)
Definition index_discovery (f : Kero_file) : result Kero_file :=
  let current_pos := tellp f in
  let header_over_saved := header_over f in
  f ← complete_header f;
  f ← match footer f with
      | Some footer =>
          match smap_find String.eqb "first_index" (gv_vars footer) with
          | Some first_index => read_index (s64 first_index) (set_indexed true f)
          | None => Ok f
          end
      | None => Ok f
      end;
  f ← (if negb (indexed f) then
         let type := fstream_peek (fs f) in
         if type =? char "i" then read_index (s64 (tellp f)) (set_indexed true f) else Ok f
       else Ok f);
  let f := set_index_discovery_ended true (set_header_over header_over_saved f) in
  jump_to current_pos false f.

Definition KERO_VERSION_MAJOR : Z := 0.
Definition KERO_VERSION_MINOR : Z := 1.

Definition has_signature (buff : list Z) : bool :=
  (rd buff 0 =? char "K") && (rd buff 1 =? char "E")
  && (rd buff 2 =? char "R") && (rd buff 3 =? char "O").

(** [Kero_file::open(mode)] *)
Definition open (mode : string) (f : Kero_file) : result Kero_file :=
  let f := set_current_position 0 (set_writing_started false f) in
  f ← (if rd (bytes_of_string mode) 0 =? char "w" then
         Ok (set_next_free 0 (set_file_size 0 (set_is_writer true f)))
       else if rd (bytes_of_string mode) 0 =? char "r" then
         let f := set_is_reader true f in
         if (file_size f =? 0) && (next_free f =? 0) then
           let s := fstream_open_in (fs f) in
           if fs_fail s then Err (Throw "Cannot open file") (* and the file name *)
           else Ok (set_file_size (Z.of_nat (length (disk s))) (set_fs s f))
         else Ok f
       else Err (Exit 1));
  let f := set_footer_discovery_ended true
             (set_footer None (set_indexed false (set_header_over false
                (set_tmp_closed false f)))) in
  if is_writer f then
    let default_encoding := 30 in
    let buff := bytes_of_string "KERO"
                  ++ [KERO_VERSION_MAJOR; KERO_VERSION_MINOR; default_encoding; 0; 0] in
    f ← write buff 9 f;
    Ok (set_end_position 0 (set_indexed true f))
  else if is_reader f then
    '(buff, f) ← read 4 f;
    if negb (has_signature buff) then Err (Throw "Absent signature at the beginning")
    else
      '(b, f) ← read 1 f;
      let f := set_major_version (rd b 0) f in
      '(b, f) ← read 1 f;
      let f := set_minor_version (rd b 0) f in
      if (KERO_VERSION_MAJOR <? major_version f)
         || ((KERO_VERSION_MAJOR =? major_version f) && (KERO_VERSION_MINOR <? minor_version f))
      then Err (Throw "Unexpected version number")
      else
        f ← read_encoding f;
        '(flag, f) ← read 1 f;
        let f := set_uniqueness (negb (rd flag 0 =? 0)) f in
        '(flag, f) ← read 1 f;
        let f := set_canonicity (negb (rd flag 0 =? 0)) f in
        '(buff, f) ← read 4 f;
        let f := set_metadata_size (load_big_endian 32 buff 4) f in
        let saved_position := tellp f in
        f ← jump_to 4 true f;
        let f := set_end_position (tellp f) f in
        '(buff, f) ← read 4 f;
        f ← jump_to saved_position false f;
        if negb (has_signature buff) then Err (Throw "Absent signature at the end")
        else
          let f := set_footer_discovery_ended false f in
          f ← footer_discovery f;
          index_discovery f
  else Ok f.

(** [Kero_file::Kero_file(filename, mode)]; [on_disk] is the content of
    the file [filename] when the object is created. *)
Definition Kero_file_new (on_disk : list Z) (mode : string) : result Kero_file :=
  open mode
    (Build_Kero_file (Build_fstream on_disk false false 0 false) 0 false (zeros (2 ^ 10)) 0
       (2 ^ 10) (2 ^ 20) 0 false false 0 0 false false false false false 0 false false
       None [] false [] [0; 1; 3; 2] 0 ∅ [] []).

(** ** Block sections *)

(** [static_cast<uint64_t>(ceil(log2(x)))] for a 64-bit [x].  The source
    computes in floating point: [x] is converted to a [double] and [log2]
    is the function of the C library.  For [0 < x <= 2^32] the conversion
    is exact and the logarithm of an [x] that is no power of two is
    farther than [2^-33] from every integer, far more than the error of
    [log2] on these values (some units of [2^-48]); [log2] being exact on
    the powers of two, the result is the exact integer logarithm
    [Z.log2_up x].  Above [2^32] the result depends on the rounding of the
    conversion and of the library (56 instead of 57 at [x = 2^56 + 1], for
    instance) and is not modelled.  The conversion of the logarithm of 0
    (minus infinity) to an integer is undefined. *)
Definition ceil_log2 (x : Z) : result Z :=
  if x =? 0 then Err Undefined
  else if x <=? 2 ^ 32 then Ok (Z.log2_up x)
  else Err Unmodelled.

Definition get_var (name : string) (what : string) (f : Kero_file) : result Z :=
  match global_vars f !! name with
  | Some v => Ok v
  | None => Err (Throw what)
  end.

(** [file->read(buf, size)] into the caller's array [buf]. *)
Definition read_into (buf : list Z) (size : Z) (f : Kero_file) : result (list Z * Kero_file) :=
  '(bytes, f) ← read size f;
  Ok (memcpy buf 0 bytes 0 size, f).

(** *** Raw sections *)

Record Section_Raw : Type := Build_Section_Raw {
  sr_beginning : Z;
  sr_nb_kmers_bytes : Z;
  sr_nb_blocks : Z;
  sr_remaining_blocks : Z;
  sr_k : Z;
  sr_max : Z;
  sr_data_size : Z
}.

(** [Section_Raw::read_section_header()] *)
Definition Section_Raw_read_section_header (sr : Section_Raw) (f : Kero_file)
    : result (Section_Raw * Kero_file) :=
  '(type, f) ← read 1 f;
  if negb (rd type 0 =? char "r") then
    Err (Throw
           "The section do not start with the 'r' char, you can't open a Raw sequence section.")
  else
    '(buff, f) ← read 8 f;
    let nb_blocks := load_big_endian 64 buff 8 in
    Ok (Build_Section_Raw (sr_beginning sr) (sr_nb_kmers_bytes sr) nb_blocks nb_blocks
          (sr_k sr) (sr_max sr) (sr_data_size sr), f).

(** [Section_Raw::Section_Raw(file)] *)
Definition Section_Raw_new (f : Kero_file) : result (Section_Raw * Kero_file) :=
  '(beginning, f) ← Section_new f;
  k ← get_var "k" "Impossible to read the raw section due to missing k variable" f;
  max ← get_var "max" "Impossible to read the raw section due to missing max variable" f;
  data_size ←
    get_var "data_size" "Impossible to read the raw section due to missing data_size variable" f;
  nb_bits ← ceil_log2 max;
  let nb_kmers_bytes := u8 (bytes_from_bit_array nb_bits 1) in
  let sr := Build_Section_Raw beginning nb_kmers_bytes 0 0 k max data_size in
  '(sr, f) ← (if is_reader f then Section_Raw_read_section_header sr f else Ok (sr, f));
  f ← (if is_writer f then
         let f := if indexed f then register_position (char "r") f else f in
         f ← write [char "r"] 1 f;
         (* the 8 bytes of [nb_blocks], which is 0 here *)
         write (zeros 8) 8 f
       else Ok f);
  Ok (sr, f).

(** [Section_Raw::write_compacted_sequence(seq, seq_size, data_array)] *)
Definition Section_Raw_write_compacted_sequence (seq : list Z) (seq_size : Z)
    (data_array : list Z) (sr : Section_Raw) (f : Kero_file) : result (Section_Raw * Kero_file) :=
  let nb_kmers := u64 (u64 (seq_size - sr_k sr) + 1) in
  f ← write (store_big_endian (sr_nb_kmers_bytes sr) nb_kmers) (sr_nb_kmers_bytes sr) f;
  let seq_bytes_needed := u64 (seq_size + 3) / 4 in
  f ← write seq seq_bytes_needed f;
  let data_bytes_needed := u64 (sr_data_size sr * nb_kmers) in
  f ← write data_array data_bytes_needed f;
  Ok (Build_Section_Raw (sr_beginning sr) (sr_nb_kmers_bytes sr) (u64 (sr_nb_blocks sr + 1))
        (sr_remaining_blocks sr) (sr_k sr) (sr_max sr) (sr_data_size sr), f).

(** [Section_Raw::read_compacted_sequence(seq, data)] returns the number
    of k-mers and the arrays [seq] and [data] after the call. *)
Definition Section_Raw_read_compacted_sequence (seq data : list Z) (sr : Section_Raw)
    (f : Kero_file) : result (Z * list Z * list Z * Section_Raw * Kero_file) :=
  '(nb_kmers_in_block, f) ←
    (if negb (sr_nb_kmers_bytes sr =? 0) then
       '(buff, f) ← read (sr_nb_kmers_bytes sr) f;
       Ok (load_big_endian 64 buff (sr_nb_kmers_bytes sr), f)
     else Ok (1, f));
  let seq_size := u64 (u64 (nb_kmers_in_block + sr_k sr) - 1) in
  let seq_bytes_needed := u64 (seq_size + 3) / 4 in
  '(seq, f) ← read_into seq seq_bytes_needed f;
  let data_bytes_used := u64 (sr_data_size sr * nb_kmers_in_block) in
  '(data, f) ← read_into data data_bytes_used f;
  Ok (nb_kmers_in_block, seq, data,
      Build_Section_Raw (sr_beginning sr) (sr_nb_kmers_bytes sr) (sr_nb_blocks sr)
        (u64 (sr_remaining_blocks sr - 1)) (sr_k sr) (sr_max sr) (sr_data_size sr), f).

(** [Section_Raw::jump_sequence()] *)
Definition Section_Raw_jump_sequence (sr : Section_Raw) (f : Kero_file)
    : result (Section_Raw * Kero_file) :=
  '(nb_kmers_in_block, f) ←
    (if negb (sr_nb_kmers_bytes sr =? 0) then
       '(buff, f) ← read (sr_nb_kmers_bytes sr) f;
       Ok (load_big_endian 64 buff (sr_nb_kmers_bytes sr), f)
     else Ok (1, f));
  let seq_size := u64 (u64 (nb_kmers_in_block + sr_k sr) - 1) in
  let seq_bytes_needed := u64 (seq_size + 3) / 4 in
  let data_bytes_used := u64 (sr_data_size sr * nb_kmers_in_block) in
  f ← jump (s64 (seq_bytes_needed + data_bytes_used)) f;
  Ok (Build_Section_Raw (sr_beginning sr) (sr_nb_kmers_bytes sr) (sr_nb_blocks sr)
        (u64 (sr_remaining_blocks sr - 1)) (sr_k sr) (sr_max sr) (sr_data_size sr), f).

Fixpoint Section_Raw_jump_section (fuel : nat) (sr : Section_Raw) (f : Kero_file)
    : result (Section_Raw * Kero_file) :=
  if 0 <? sr_remaining_blocks sr then
    match fuel with
    | O => Err Diverges
    | S fuel => '(sr, f) ← Section_Raw_jump_sequence sr f; Section_Raw_jump_section fuel sr f
    end
  else Ok (sr, f).

(** [Section_Raw::close()] *)
Definition Section_Raw_close (sr : Section_Raw) (f : Kero_file) : result Kero_file :=
  f ← (if is_writer f then
         write_at (store_big_endian 8 (sr_nb_blocks sr)) 8 (u64 (sr_beginning sr + 1)) f
       else Ok f);
  if is_reader f then
    '(_, f) ← Section_Raw_jump_section (Z.to_nat (sr_remaining_blocks sr)) sr f; Ok f
  else Ok f.

(** *** Vertical minimizer sections *)

(** The integer compression codec is the external TurboPFor library. *)
Record Compression_library : Type := Build_Compression_library {
  p4nenc64 : list Z -> list Z;       (* values to compressed bytes *)
  p4ndec64 : list Z -> Z -> list Z;  (* compressed bytes and a count to values *)
  p4nenc8 : list Z -> list Z;
  p4ndec8 : list Z -> Z -> list Z
}.

Record Section_Minimizer : Type := Build_Section_Minimizer {
  sm_beginning : Z;  (* [Section::beginning] *)
  sm_nb_kmers_bytes : Z;  (* [Block_section_reader::nb_kmers_bytes] *)
  sm_nb_blocks : Z;  (* [Block_section_reader::nb_blocks] *)
  sm_remaining_blocks : Z;  (* [Block_section_reader::remaining_blocks] *)
  n_value_buffer : list Z;  (* [std::vector<uint64_t>] *)
  m_idx_buffer : list Z;  (* [std::vector<uint64_t>] *)
  seq_buffer : list Z;  (* [std::vector<uint8_t>] *)
  data_buffer : list Z;  (* [std::vector<uint8_t>] *)
  cur_skmer_idx : Z;
  last_n_pos : Z;
  last_m_idx_pos : Z;
  last_seq_pos : Z;
  last_data_pos : Z;
  sm_k : Z;
  sm_max : Z;
  sm_data_size : Z;
  sm_m : Z;
  minimizer : list Z;  (* [uint8_t * minimizer], [nb_bytes_mini] bytes *)
  nb_bytes_mini : Z;
  mini_pos_bytes : Z;
  n_col_offset : Z;
  m_idx_col_offset : Z;
  seq_col_offset : Z;
  data_col_offset : Z;
  start_pos : Z
}.

Definition set_sm_nb_blocks (v : Z) (x : Section_Minimizer) : Section_Minimizer :=
  Build_Section_Minimizer (sm_beginning x) (sm_nb_kmers_bytes x) v (sm_remaining_blocks x)
    (n_value_buffer x) (m_idx_buffer x) (seq_buffer x) (data_buffer x) (cur_skmer_idx x)
    (last_n_pos x) (last_m_idx_pos x) (last_seq_pos x) (last_data_pos x) (sm_k x) (sm_max x)
    (sm_data_size x) (sm_m x) (minimizer x) (nb_bytes_mini x) (mini_pos_bytes x)
    (n_col_offset x) (m_idx_col_offset x) (seq_col_offset x) (data_col_offset x) (start_pos x).
Definition set_sm_remaining_blocks (v : Z) (x : Section_Minimizer) : Section_Minimizer :=
  Build_Section_Minimizer (sm_beginning x) (sm_nb_kmers_bytes x) (sm_nb_blocks x) v
    (n_value_buffer x) (m_idx_buffer x) (seq_buffer x) (data_buffer x) (cur_skmer_idx x)
    (last_n_pos x) (last_m_idx_pos x) (last_seq_pos x) (last_data_pos x) (sm_k x) (sm_max x)
    (sm_data_size x) (sm_m x) (minimizer x) (nb_bytes_mini x) (mini_pos_bytes x)
    (n_col_offset x) (m_idx_col_offset x) (seq_col_offset x) (data_col_offset x) (start_pos x).
Definition set_n_value_buffer (v : list Z) (x : Section_Minimizer) : Section_Minimizer :=
  Build_Section_Minimizer (sm_beginning x) (sm_nb_kmers_bytes x) (sm_nb_blocks x)
    (sm_remaining_blocks x) v (m_idx_buffer x) (seq_buffer x) (data_buffer x) (cur_skmer_idx x)
    (last_n_pos x) (last_m_idx_pos x) (last_seq_pos x) (last_data_pos x) (sm_k x) (sm_max x)
    (sm_data_size x) (sm_m x) (minimizer x) (nb_bytes_mini x) (mini_pos_bytes x)
    (n_col_offset x) (m_idx_col_offset x) (seq_col_offset x) (data_col_offset x) (start_pos x).
Definition set_m_idx_buffer (v : list Z) (x : Section_Minimizer) : Section_Minimizer :=
  Build_Section_Minimizer (sm_beginning x) (sm_nb_kmers_bytes x) (sm_nb_blocks x)
    (sm_remaining_blocks x) (n_value_buffer x) v (seq_buffer x) (data_buffer x)
    (cur_skmer_idx x) (last_n_pos x) (last_m_idx_pos x) (last_seq_pos x) (last_data_pos x)
    (sm_k x) (sm_max x) (sm_data_size x) (sm_m x) (minimizer x) (nb_bytes_mini x)
    (mini_pos_bytes x) (n_col_offset x) (m_idx_col_offset x) (seq_col_offset x)
    (data_col_offset x) (start_pos x).
Definition set_seq_buffer (v : list Z) (x : Section_Minimizer) : Section_Minimizer :=
  Build_Section_Minimizer (sm_beginning x) (sm_nb_kmers_bytes x) (sm_nb_blocks x)
    (sm_remaining_blocks x) (n_value_buffer x) (m_idx_buffer x) v (data_buffer x)
    (cur_skmer_idx x) (last_n_pos x) (last_m_idx_pos x) (last_seq_pos x) (last_data_pos x)
    (sm_k x) (sm_max x) (sm_data_size x) (sm_m x) (minimizer x) (nb_bytes_mini x)
    (mini_pos_bytes x) (n_col_offset x) (m_idx_col_offset x) (seq_col_offset x)
    (data_col_offset x) (start_pos x).
Definition set_data_buffer (v : list Z) (x : Section_Minimizer) : Section_Minimizer :=
  Build_Section_Minimizer (sm_beginning x) (sm_nb_kmers_bytes x) (sm_nb_blocks x)
    (sm_remaining_blocks x) (n_value_buffer x) (m_idx_buffer x) (seq_buffer x) v
    (cur_skmer_idx x) (last_n_pos x) (last_m_idx_pos x) (last_seq_pos x) (last_data_pos x)
    (sm_k x) (sm_max x) (sm_data_size x) (sm_m x) (minimizer x) (nb_bytes_mini x)
    (mini_pos_bytes x) (n_col_offset x) (m_idx_col_offset x) (seq_col_offset x)
    (data_col_offset x) (start_pos x).
Definition set_cur_skmer_idx (v : Z) (x : Section_Minimizer) : Section_Minimizer :=
  Build_Section_Minimizer (sm_beginning x) (sm_nb_kmers_bytes x) (sm_nb_blocks x)
    (sm_remaining_blocks x) (n_value_buffer x) (m_idx_buffer x) (seq_buffer x) (data_buffer x) v
    (last_n_pos x) (last_m_idx_pos x) (last_seq_pos x) (last_data_pos x) (sm_k x) (sm_max x)
    (sm_data_size x) (sm_m x) (minimizer x) (nb_bytes_mini x) (mini_pos_bytes x)
    (n_col_offset x) (m_idx_col_offset x) (seq_col_offset x) (data_col_offset x) (start_pos x).
Definition set_last_n_pos (v : Z) (x : Section_Minimizer) : Section_Minimizer :=
  Build_Section_Minimizer (sm_beginning x) (sm_nb_kmers_bytes x) (sm_nb_blocks x)
    (sm_remaining_blocks x) (n_value_buffer x) (m_idx_buffer x) (seq_buffer x) (data_buffer x)
    (cur_skmer_idx x) v (last_m_idx_pos x) (last_seq_pos x) (last_data_pos x) (sm_k x)
    (sm_max x) (sm_data_size x) (sm_m x) (minimizer x) (nb_bytes_mini x) (mini_pos_bytes x)
    (n_col_offset x) (m_idx_col_offset x) (seq_col_offset x) (data_col_offset x) (start_pos x).
Definition set_last_m_idx_pos (v : Z) (x : Section_Minimizer) : Section_Minimizer :=
  Build_Section_Minimizer (sm_beginning x) (sm_nb_kmers_bytes x) (sm_nb_blocks x)
    (sm_remaining_blocks x) (n_value_buffer x) (m_idx_buffer x) (seq_buffer x) (data_buffer x)
    (cur_skmer_idx x) (last_n_pos x) v (last_seq_pos x) (last_data_pos x) (sm_k x) (sm_max x)
    (sm_data_size x) (sm_m x) (minimizer x) (nb_bytes_mini x) (mini_pos_bytes x)
    (n_col_offset x) (m_idx_col_offset x) (seq_col_offset x) (data_col_offset x) (start_pos x).
Definition set_last_seq_pos (v : Z) (x : Section_Minimizer) : Section_Minimizer :=
  Build_Section_Minimizer (sm_beginning x) (sm_nb_kmers_bytes x) (sm_nb_blocks x)
    (sm_remaining_blocks x) (n_value_buffer x) (m_idx_buffer x) (seq_buffer x) (data_buffer x)
    (cur_skmer_idx x) (last_n_pos x) (last_m_idx_pos x) v (last_data_pos x) (sm_k x) (sm_max x)
    (sm_data_size x) (sm_m x) (minimizer x) (nb_bytes_mini x) (mini_pos_bytes x)
    (n_col_offset x) (m_idx_col_offset x) (seq_col_offset x) (data_col_offset x) (start_pos x).
Definition set_last_data_pos (v : Z) (x : Section_Minimizer) : Section_Minimizer :=
  Build_Section_Minimizer (sm_beginning x) (sm_nb_kmers_bytes x) (sm_nb_blocks x)
    (sm_remaining_blocks x) (n_value_buffer x) (m_idx_buffer x) (seq_buffer x) (data_buffer x)
    (cur_skmer_idx x) (last_n_pos x) (last_m_idx_pos x) (last_seq_pos x) v (sm_k x) (sm_max x)
    (sm_data_size x) (sm_m x) (minimizer x) (nb_bytes_mini x) (mini_pos_bytes x)
    (n_col_offset x) (m_idx_col_offset x) (seq_col_offset x) (data_col_offset x) (start_pos x).
Definition set_minimizer (v : list Z) (x : Section_Minimizer) : Section_Minimizer :=
  Build_Section_Minimizer (sm_beginning x) (sm_nb_kmers_bytes x) (sm_nb_blocks x)
    (sm_remaining_blocks x) (n_value_buffer x) (m_idx_buffer x) (seq_buffer x) (data_buffer x)
    (cur_skmer_idx x) (last_n_pos x) (last_m_idx_pos x) (last_seq_pos x) (last_data_pos x)
    (sm_k x) (sm_max x) (sm_data_size x) (sm_m x) v (nb_bytes_mini x) (mini_pos_bytes x)
    (n_col_offset x) (m_idx_col_offset x) (seq_col_offset x) (data_col_offset x) (start_pos x).
Definition set_n_col_offset (v : Z) (x : Section_Minimizer) : Section_Minimizer :=
  Build_Section_Minimizer (sm_beginning x) (sm_nb_kmers_bytes x) (sm_nb_blocks x)
    (sm_remaining_blocks x) (n_value_buffer x) (m_idx_buffer x) (seq_buffer x) (data_buffer x)
    (cur_skmer_idx x) (last_n_pos x) (last_m_idx_pos x) (last_seq_pos x) (last_data_pos x)
    (sm_k x) (sm_max x) (sm_data_size x) (sm_m x) (minimizer x) (nb_bytes_mini x)
    (mini_pos_bytes x) v (m_idx_col_offset x) (seq_col_offset x) (data_col_offset x)
    (start_pos x).
Definition set_m_idx_col_offset (v : Z) (x : Section_Minimizer) : Section_Minimizer :=
  Build_Section_Minimizer (sm_beginning x) (sm_nb_kmers_bytes x) (sm_nb_blocks x)
    (sm_remaining_blocks x) (n_value_buffer x) (m_idx_buffer x) (seq_buffer x) (data_buffer x)
    (cur_skmer_idx x) (last_n_pos x) (last_m_idx_pos x) (last_seq_pos x) (last_data_pos x)
    (sm_k x) (sm_max x) (sm_data_size x) (sm_m x) (minimizer x) (nb_bytes_mini x)
    (mini_pos_bytes x) (n_col_offset x) v (seq_col_offset x) (data_col_offset x) (start_pos x).
Definition set_seq_col_offset (v : Z) (x : Section_Minimizer) : Section_Minimizer :=
  Build_Section_Minimizer (sm_beginning x) (sm_nb_kmers_bytes x) (sm_nb_blocks x)
    (sm_remaining_blocks x) (n_value_buffer x) (m_idx_buffer x) (seq_buffer x) (data_buffer x)
    (cur_skmer_idx x) (last_n_pos x) (last_m_idx_pos x) (last_seq_pos x) (last_data_pos x)
    (sm_k x) (sm_max x) (sm_data_size x) (sm_m x) (minimizer x) (nb_bytes_mini x)
    (mini_pos_bytes x) (n_col_offset x) (m_idx_col_offset x) v (data_col_offset x) (start_pos x).
Definition set_data_col_offset (v : Z) (x : Section_Minimizer) : Section_Minimizer :=
  Build_Section_Minimizer (sm_beginning x) (sm_nb_kmers_bytes x) (sm_nb_blocks x)
    (sm_remaining_blocks x) (n_value_buffer x) (m_idx_buffer x) (seq_buffer x) (data_buffer x)
    (cur_skmer_idx x) (last_n_pos x) (last_m_idx_pos x) (last_seq_pos x) (last_data_pos x)
    (sm_k x) (sm_max x) (sm_data_size x) (sm_m x) (minimizer x) (nb_bytes_mini x)
    (mini_pos_bytes x) (n_col_offset x) (m_idx_col_offset x) (seq_col_offset x) v (start_pos x).


Section Minimizer.
Context (ic : Compression_library).

(** [Section_Minimizer::read_section_header()] *)
Definition Section_Minimizer_read_section_header (sm : Section_Minimizer) (f : Kero_file)
    : result (Section_Minimizer * Kero_file) :=
  '(type, f) ← read 1 f;
  if negb (rd type 0 =? char "M") then
    Err (Throw
           "The section do not start with the 'M' char, you can't open a vertical minimizer sequence section.")
  else
    '(mini, f) ← read_into (minimizer sm) (nb_bytes_mini sm) f;
    let sm := set_minimizer mini sm in
    '(buff, f) ← read 8 f;
    let nb_blocks := load_big_endian 64 buff 8 in
    let sm := set_sm_remaining_blocks nb_blocks (set_sm_nb_blocks nb_blocks sm) in
    '(buff, f) ← read 8 f;
    let sm := set_n_col_offset (u64 (load_big_endian 64 buff 8 + start_pos sm)) sm in
    '(buff, f) ← read 8 f;
    let sm := set_m_idx_col_offset (u64 (load_big_endian 64 buff 8 + start_pos sm)) sm in
    '(buff, f) ← read 8 f;
    let sm := set_data_col_offset (u64 (load_big_endian 64 buff 8 + start_pos sm)) sm in
    '(buff, f) ← read 8 f;
    let sm := set_seq_col_offset (u64 (load_big_endian 64 buff 8 + start_pos sm)) sm in
    Ok (sm, f).

(** [Section_Minimizer::write_section_header()] *)
Definition write_section_header (sm : Section_Minimizer) (f : Kero_file)
    : result (Section_Minimizer * Kero_file) :=
  f ← write [char "M"] 1 f;
  f ← write (minimizer sm) (nb_bytes_mini sm) f;
  f ← write (store_big_endian 8 (sm_nb_blocks sm)) 8 f;
  let buff := memset (zeros 8) 0 0 8 in
  let sm := set_n_col_offset (tellp f) sm in
  f ← write buff 8 f;
  let sm := set_m_idx_col_offset (tellp f) sm in
  f ← write buff 8 f;
  let sm := set_data_col_offset (tellp f) sm in
  f ← write buff 8 f;
  let sm := set_seq_col_offset (tellp f) sm in
  f ← write buff 8 f;
  Ok (sm, f).

(** [Section_Minimizer::write_columns()] *)
Definition write_columns (sm : Section_Minimizer) (f : Kero_file)
    : result (Section_Minimizer * Kero_file) :=
  let sm := set_n_col_offset (tellp f) sm in
  let compressed_buf := p4nenc64 ic (n_value_buffer sm) in
  let compressed_n_size := Z.of_nat (length compressed_buf) in
  f ← write (store_big_endian 8 compressed_n_size) 8 f;
  f ← write compressed_buf compressed_n_size f;
  let sm := set_m_idx_col_offset (tellp f) sm in
  let compressed_buf := p4nenc64 ic (m_idx_buffer sm) in
  let compressed_m_idx_size := Z.of_nat (length compressed_buf) in
  f ← write (store_big_endian 8 compressed_m_idx_size) 8 f;
  f ← write compressed_buf compressed_m_idx_size f;
  let sm := set_data_col_offset (tellp f) sm in
  f ← write (store_big_endian 8 (Z.of_nat (length (data_buffer sm)))) 8 f;
  let compressed_data_buf := p4nenc8 ic (data_buffer sm) in
  let compressed_data_size := Z.of_nat (length compressed_data_buf) in
  f ← write (store_big_endian 8 compressed_data_size) 8 f;
  f ← write compressed_data_buf compressed_data_size f;
  let sm := set_seq_col_offset (tellp f) sm in
  f ← write (seq_buffer sm) (Z.of_nat (length (seq_buffer sm))) f;
  Ok (sm, f).

(** [Section_Minimizer::backfill_column_offsets()] *)
Definition backfill_column_offsets (sm : Section_Minimizer) (f : Kero_file)
    : result Kero_file :=
  let original_pos := tellp f in
  let n_col_offset_idx := u64 (start_pos sm + 1 + nb_bytes_mini sm + 8) in
  f ← write_at (store_big_endian 8 (u64 (n_col_offset sm - start_pos sm))) 8 n_col_offset_idx f;
  f ← write_at (store_big_endian 8 (u64 (m_idx_col_offset sm - start_pos sm))) 8
        (u64 (n_col_offset_idx + 8)) f;
  f ← write_at (store_big_endian 8 (u64 (data_col_offset sm - start_pos sm))) 8
        (u64 (n_col_offset_idx + 16)) f;
  f ← write_at (store_big_endian 8 (u64 (seq_col_offset sm - start_pos sm))) 8
        (u64 (n_col_offset_idx + 24)) f;
  jump_to original_pos false f.

(** [Section_Minimizer::Section_Minimizer(file)] *)
Definition Section_Minimizer_new (f : Kero_file) : result (Section_Minimizer * Kero_file) :=
  '(beginning, f) ← Section_new f;
  let start_pos := tellp f in
  k ← get_var "k" "Impossible to read the minimizer section due to missing k variable" f;
  m ← get_var "m" "Impossible to read the minimizer section due to missing m variable" f;
  max ← get_var "max" "Impossible to read the minimizer section due to missing max variable" f;
  data_size ← get_var "data_size"
    "Impossible to read the minimizer section due to missing data_size variable" f;
  nb_bits ← ceil_log2 max;
  let nb_kmers_bytes := u8 (bytes_from_bit_array nb_bits 1) in
  let nb_bytes_mini := u8 (bytes_from_bit_array 2 m) in
  let minimizer := zeros nb_bytes_mini in
  mini_pos_bits ← ceil_log2 (u64 (u64 (k + max) - 1));
  let mini_pos_bytes := u8 (bytes_from_bit_array (u8 mini_pos_bits) 1) in
  let sm := Build_Section_Minimizer beginning nb_kmers_bytes 0 0 [] [] [] [] 0 0 0 0 0
              k max data_size m minimizer nb_bytes_mini mini_pos_bytes 0 0 0 0 start_pos in
  if is_reader f then Section_Minimizer_read_section_header sm f else Ok (sm, f).

(** [Section_Minimizer::write_minimizer(minimizer)] *)
Definition write_minimizer (mini : list Z) (sm : Section_Minimizer) : Section_Minimizer :=
  set_minimizer (memcpy (minimizer sm) 0 mini 0 (nb_bytes_mini sm)) sm.

(** [Section_Minimizer::write_compacted_sequence_without_mini] *)
Definition write_compacted_sequence_without_mini (seq : list Z) (seq_size mini_pos : Z)
    (data_array : list Z) (sm : Section_Minimizer) : Section_Minimizer :=
  let nb_kmers := u64 (u64 (u64 (seq_size + sm_m sm) - sm_k sm) + 1) in
  let sm := set_n_value_buffer (n_value_buffer sm ++ [nb_kmers]) sm in
  let sm := set_m_idx_buffer (m_idx_buffer sm ++ [mini_pos]) sm in
  let data_bytes := u64 (sm_data_size sm * nb_kmers) in
  let sm := set_data_buffer (data_buffer sm ++ take (Z.to_nat data_bytes) data_array) sm in
  let seq_bytes := bytes_from_bit_array 2 seq_size in
  let sm := set_seq_buffer (seq_buffer sm ++ take (Z.to_nat seq_bytes) seq) sm in
  set_sm_nb_blocks (u64 (sm_nb_blocks sm + 1)) sm.

(** [Section_Minimizer::write_compacted_sequence]: the minimizer is cut
    out of a copy of the sequence, which is then stored. *)
Definition write_compacted_sequence (seq : list Z) (seq_size mini_pos : Z)
    (data_array : list Z) (sm : Section_Minimizer) : result Section_Minimizer :=
  let m := sm_m sm in
  let seq_bytes := bytes_from_bit_array 2 seq_size in
  let left_offset_nucl := u32 (u64 (4 - seq_size mod 4) mod 4) in
  (* 1 - Prepare space for sequence manipulation *)
  let seq_copy := memcpy (zeros seq_bytes) 0 seq 0 seq_bytes in
  (* 2 - Move the suffix to the bytes where the minimiser started *)
  let mini_start_byte := u32 (u64 (mini_pos + left_offset_nucl) / 4) in
  let suff_start_byte := u32 (u64 (u64 (mini_pos + m) + left_offset_nucl) / 4) in
  let suff_bytes := u32 (u64 (seq_bytes - suff_start_byte)) in
  let seq_copy := for_loop suff_bytes (fun i a =>
                    wr a (u32 (mini_start_byte + i)) (rd a (u32 (suff_start_byte + i))))
                    seq_copy in
  (* 3 - shift the suffix to align with the minimizer position *)
  let mini_offset := u32 (u64 (mini_pos + left_offset_nucl) mod 4) in
  let suff_offset := u32 (u64 (u64 (mini_pos + m) + left_offset_nucl) mod 4) in
  seq_copy ←
    (if mini_offset <? suff_offset then
       leftshift8 seq_copy mini_start_byte (u64 (seq_bytes - mini_start_byte))
         (u32 (u32 (suff_offset - mini_offset) * 2))
     else
       rightshift8 seq_copy mini_start_byte (u64 (seq_bytes - mini_start_byte))
         (u32 (u32 (mini_offset - suff_offset) * 2)));
  (* 4 - fusion the common byte *)
  let seq_copy := wr seq_copy mini_start_byte
                    (fusion8 (rd seq mini_start_byte) (rd seq_copy mini_start_byte)
                       (u32 (mini_offset * 2))) in
  (* 5 - put all the offset bits on the left *)
  seq_copy ← leftshift8 seq_copy 0 seq_bytes (u32 (left_offset_nucl * 2));
  seq_copy ← rightshift8 seq_copy 0 seq_bytes
               (u64 (u64 (4 - u64 (seq_size - m) mod 4) mod 4 * 2));
  Ok (write_compacted_sequence_without_mini seq_copy (u64 (seq_size - m)) mini_pos
        data_array sm).

(** [Section_Minimizer::add_minimizer(nb_kmer, seq, mini_pos)] returns the
    array [seq] after the call. *)
Definition add_minimizer (nb_kmer : Z) (seq : list Z) (mini_pos : Z) (sm : Section_Minimizer)
    : result (list Z) :=
  let k := sm_k sm in
  let m := sm_m sm in
  let seq_size := u64 (u64 (nb_kmer + k) - 1) in
  let seq_bytes := bytes_from_bit_array 2 seq_size in
  let seq_left_offset := u64 (4 - seq_size mod 4) mod 4 in
  let no_mini_size := u64 (seq_size - m) in
  let no_mini_bytes := bytes_from_bit_array 2 no_mini_size in
  let no_mini_left_offset := u64 (4 - no_mini_size mod 4) mod 4 in
  (* Shift the whole sequence to the left to have no padding on byte 0. *)
  seq ← leftshift8 seq 0 no_mini_bytes (u64 (no_mini_left_offset * 2));
  (* Prepare the suffix *)
  let suffix := memset (zeros seq_bytes) 0 0 seq_bytes in
  let suff_nucl := u32 (u64 (u64 (seq_size - m) - mini_pos)) in
  let no_mini_suff_start_nucl := u32 mini_pos in
  let no_mini_suff_start_byte := no_mini_suff_start_nucl / 4 in
  let no_mini_suff_bytes := u32 (u64 (no_mini_bytes - no_mini_suff_start_byte)) in
  let suffix := memcpy suffix 0 seq no_mini_suff_start_byte no_mini_suff_bytes in
  let no_mini_suff_offset := no_mini_suff_start_nucl mod 4 in
  suffix ← leftshift8 suffix 0 no_mini_suff_bytes (u32 (no_mini_suff_offset * 2));
  (* Prepare the minimizer *)
  let mini := memset (zeros seq_bytes) 0 0 seq_bytes in
  let mini := memcpy mini 0 (minimizer sm) 0 (nb_bytes_mini sm) in
  let mini_offset := u32 (u64 (4 - m mod 4) mod 4) in
  mini ← leftshift8 mini 0 (nb_bytes_mini sm) (u32 (mini_offset * 2));
  (* Align the minimizer *)
  let final_mini_start_nucl := u32 mini_pos in
  let final_mini_start_byte := u32 (mini_pos / 4) in
  let final_mini_offset := final_mini_start_nucl mod 4 in
  let final_mini_byte_size := u32 (u64 (u64 (m + final_mini_offset) + 3) / 4) in
  mini ← rightshift8 mini 0 seq_bytes (u32 (final_mini_offset * 2));
  (* Merge minimizer *)
  let seq := wr seq final_mini_start_byte
               (fusion8 (rd seq final_mini_start_byte) (rd mini 0)
                  (u32 (final_mini_offset * 2))) in
  let seq := for_loop (final_mini_byte_size - 1) (fun j a =>
               let idx := u32 (j + 1) in
               wr a (u32 (final_mini_start_byte + idx)) (rd mini idx)) seq in
  (* Align the suffix with the end of the minimizer *)
  let final_suff_start_nucl := u32 (u64 (final_mini_start_nucl + m)) in
  let final_suff_start_byte := final_suff_start_nucl / 4 in
  let final_suff_offset := final_suff_start_nucl mod 4 in
  let final_suff_byte_size := u32 (u32 (u32 (suff_nucl + final_suff_offset) + 3) / 4) in
  seq ←
    (if 0 <? final_suff_byte_size then
       suffix ← rightshift8 suffix 0 seq_bytes (u32 (final_suff_offset * 2));
       (* Merge the suffix *)
       let seq := wr seq final_suff_start_byte
                    (fusion8 (rd seq final_suff_start_byte) (rd suffix 0)
                       (u32 (final_suff_offset * 2))) in
       Ok (for_loop (final_suff_byte_size - 1) (fun j a =>
             let idx := u64 (j + 1) in
             wr a (u64 (final_suff_start_byte + idx)) (rd suffix idx)) seq)
     else Ok seq);
  (* Align everything to the right *)
  rightshift8 seq 0 seq_bytes (u64 (seq_left_offset * 2)).

(** The first call of [read_compacted_sequence_without_mini] loads and
    decompresses the columns of the section. *)
Definition pad8 (buf : list Z) : list Z := buf ++ replicate (8 - length buf) 0.

Definition load_columns (sm : Section_Minimizer) (f : Kero_file)
    : result (Section_Minimizer * Kero_file) :=
  let sm := set_last_m_idx_pos 0 (set_last_n_pos 0 sm) in
  let sm := if 0 <? sm_data_size sm then set_last_data_pos 0 sm else sm in
  let sm := set_last_seq_pos (seq_col_offset sm) sm in
  (* Uncompress the n_value column *)
  f ← jump_to (n_col_offset sm) false f;
  '(buff, f) ← read 8 f;
  let compressed_n_size := load_big_endian 64 buff 8 in
  '(compressed_n_buf, f) ← read compressed_n_size f;
  let sm := set_n_value_buffer
              (resize (Z.to_nat (sm_nb_blocks sm)) 0
                 (p4ndec64 ic (pad8 compressed_n_buf) (sm_nb_blocks sm))) sm in
  (* Uncompress the m_idx column *)
  f ← jump_to (m_idx_col_offset sm) false f;
  '(buff, f) ← read 8 f;
  let compressed_m_idx_size := load_big_endian 64 buff 8 in
  '(compressed_m_idx_buf, f) ← read compressed_m_idx_size f;
  let sm := set_m_idx_buffer
              (resize (Z.to_nat (sm_nb_blocks sm)) 0
                 (p4ndec64 ic (pad8 compressed_m_idx_buf) (sm_nb_blocks sm))) sm in
  (* Uncompress the data column *)
  if 0 <? sm_data_size sm then
    f ← jump_to (data_col_offset sm) false f;
    '(buff, f) ← read 8 f;
    let nb_data_buf := load_big_endian 64 buff 8 in
    '(buff, f) ← read 8 f;
    let compressed_data_size := load_big_endian 64 buff 8 in
    '(compressed_data_buf, f) ← read compressed_data_size f;
    let sm := set_data_buffer
                (resize (Z.to_nat nb_data_buf) 0
                   (p4ndec8 ic (pad8 compressed_data_buf) nb_data_buf)) sm in
    Ok (sm, f)
  else Ok (sm, f).

(** [v[i]] on a [std::vector]: an index outside the vector is undefined. *)
Definition vector_at (v : list Z) (i : Z) : result Z :=
  match v !! Z.to_nat i with
  | Some x => Ok x
  | None => Err Undefined
  end.

Fixpoint read_data_loop (n : nat) (i : Z) (data : list Z) (sm : Section_Minimizer)
    : result (list Z * Section_Minimizer) :=
  match n with
  | O => Ok (data, sm)
  | S n =>
      x ← vector_at (data_buffer sm) (last_data_pos sm);
      read_data_loop n (i + 1) (wr data i x)
        (set_last_data_pos (u64 (last_data_pos sm + 1)) sm)
  end.

(** [Section_Minimizer::read_compacted_sequence_without_mini(seq, data, mini_pos)]
    returns the number of k-mers and the arrays [seq] and [data] and the
    reference [mini_pos] after the call; a null [data] is [None]. *)
Definition read_compacted_sequence_without_mini (seq : list Z) (data : option (list Z))
    (mini_pos : Z) (sm : Section_Minimizer) (f : Kero_file)
    : result (Z * list Z * option (list Z) * Z * Section_Minimizer * Kero_file) :=
  if sm_nb_blocks sm <=? cur_skmer_idx sm then Ok (0, seq, data, mini_pos, sm, f)
  else
    '(sm, f) ← (if cur_skmer_idx sm =? 0 then load_columns sm f else Ok (sm, f));
    (* Read n *)
    n ← vector_at (n_value_buffer sm) (last_n_pos sm);
    let sm := set_last_n_pos (u64 (last_n_pos sm + 1)) sm in
    (* Read m_idx *)
    mini_pos ← vector_at (m_idx_buffer sm) (last_m_idx_pos sm);
    let sm := set_last_m_idx_pos (u64 (last_m_idx_pos sm + 1)) sm in
    (* Read data *)
    '(data, sm) ←
      match data with
      | Some d =>
          if 0 <? sm_data_size sm then
            let nb_data_bytes := u64 (sm_data_size sm * n) in
            '(d, sm) ← read_data_loop (Z.to_nat nb_data_bytes) 0 d sm;
            Ok (Some d, sm)
          else Ok (data, sm)
      | None => Ok (data, sm)
      end;
    (* Read seq *)
    let nb_seq_bytes :=
      bytes_from_bit_array 2 (u64 (u64 (u64 (n + sm_k sm) - sm_m sm) - 1)) in
    f ← jump_to (last_seq_pos sm) false f;
    '(seq, f) ← read_into seq nb_seq_bytes f;
    let sm := set_last_seq_pos (u64 (last_seq_pos sm + nb_seq_bytes)) sm in
    let sm := set_cur_skmer_idx (u64 (cur_skmer_idx sm + 1)) sm in
    let sm := set_sm_remaining_blocks (u64 (sm_remaining_blocks sm - 1)) sm in
    Ok (n, seq, data, mini_pos, sm, f).

(** [Section_Minimizer::read_compacted_sequence(seq, data)] *)
Definition read_compacted_sequence (seq : list Z) (data : option (list Z))
    (sm : Section_Minimizer) (f : Kero_file)
    : result (Z * list Z * option (list Z) * Section_Minimizer * Kero_file) :=
  '(nb_kmers_in_skmer, seq, data, mini_pos, sm, f) ←
    read_compacted_sequence_without_mini seq data 0 sm f;
  seq ← add_minimizer nb_kmers_in_skmer seq mini_pos sm;
  Ok (nb_kmers_in_skmer, seq, data, sm, f).

(** [Section_Minimizer::jump_sequence()] *)
Definition jump_sequence (sm : Section_Minimizer) (f : Kero_file)
    : result (Section_Minimizer * Kero_file) :=
  let seq_size := u64 (u64 (sm_k sm + sm_max sm) - 1) in
  let seq := zeros (bytes_from_bit_array 2 seq_size) in
  let data := zeros (u64 (sm_max sm * sm_data_size sm)) in
  '(_, _, _, _, sm, f) ← read_compacted_sequence_without_mini seq (Some data) 0 sm f;
  Ok (sm, f).

Fixpoint jump_section (fuel : nat) (sm : Section_Minimizer) (f : Kero_file)
    : result (Section_Minimizer * Kero_file) :=
  if 0 <? sm_remaining_blocks sm then
    match fuel with
    | O => Err Diverges
    | S fuel => '(sm, f) ← jump_sequence sm f; jump_section fuel sm f
    end
  else Ok (sm, f).

(** [Section_Minimizer::close()] *)
Definition Section_Minimizer_close (sm : Section_Minimizer) (f : Kero_file)
    : result (Section_Minimizer * Kero_file) :=
  '(sm, f) ←
    (if is_writer f then
       f ← (if indexed f then
              match mask_mini_arr (minimizer sm) (sm_m sm) with
              | Some key => Ok (register_minimizer_section key f)
              | None => Err Undefined
              end
            else Ok f);
       '(sm, f) ← write_section_header sm f;
       '(sm, f) ← write_columns sm f;
       f ← backfill_column_offsets sm f;
       Ok (sm, f)
     else Ok (sm, f));
  '(sm, f) ←
    (if is_reader f then jump_section (Z.to_nat (sm_remaining_blocks sm)) sm f
     else Ok (sm, f));
  Ok (set_minimizer [] sm, f).

End Minimizer.
End Hashtable.

Arguments mphf {pthash} _.
Arguments hashtable {pthash} _.
Arguments sh_beginning {pthash} _.
Arguments sh_mpht {pthash} _.
Arguments sh_minimizers {pthash} _.
Arguments sh_positions {pthash} _.
Arguments sh_nb_mphf {pthash} _.

(** ** Vocabulary of the properties *)

(** The bytes of the file as the container sees them: the [file_size]
    bytes on disk followed by the [next_free] bytes of the buffer. *)
Definition content (f : Kero_file) : list Z :=
  take (Z.to_nat (file_size f)) (disk (fs f))
    ++ take (Z.to_nat (next_free f)) (file_buffer f).

(** Representation invariant of a container open for reading: the sizes
    describe the disk file and the buffer, positions fit in a signed
    64-bit offset, the stream [fs], when it is open, was opened for input
    (by [open] or [read], or by [reopen]; not by [write], which opens it
    for output only), and while the position is inside the part on disk
    the stream is at that position (or still closed, at position 0). *)
Record reader_ok (f : Kero_file) : Prop := Build_reader_ok {
  ro_reader : is_reader f = true;
  ro_disk : 0 <= file_size f <= Z.of_nat (length (disk (fs f)));
  ro_buffer : 0 <= next_free f <= Z.of_nat (length (file_buffer f));
  ro_bound : file_size f + next_free f < 2 ^ 63;
  ro_position : 0 <= current_position f < 2 ^ 63;
  ro_mode : fs_open (fs f) = true -> fs_in (fs f) = true;
  ro_stream :
    current_position f < file_size f ->
    if fs_open (fs f) then fs_fail (fs f) = false /\ fs_pos (fs f) = current_position f
    else current_position f = 0
}.

(** Representation invariant of a container open for writing: the file on
    disk holds the [file_size] bytes already flushed (nothing before the
    stream was first opened), the buffer holds [next_free] more bytes, and
    once bytes are on disk the stream is usable, or temporarily closed. *)
Record writer_ok (f : Kero_file) : Prop := Build_writer_ok {
  wo_writer : is_writer f = true;
  wo_disk : if writing_started f then Z.of_nat (length (disk (fs f))) = file_size f
            else file_size f = 0;
  wo_buffer : 0 <= next_free f <= Z.of_nat (length (file_buffer f));
  wo_bound : file_size f + next_free f < 2 ^ 63;
  wo_stream :
    0 < file_size f ->
    if tmp_closed f then fs_open (fs f) = false
    else fs_open (fs f) = true /\ fs_fail (fs f) = false
}.

(** The invariant of a writer that only appends: in addition, the buffer
    has [buffer_size] bytes, the sizes stay below the limits of the
    integer types, the stream is positioned at the end of the file, and
    [current_position] is the end of the content. *)
Record append_ok (f : Kero_file) : Prop := Build_append_ok {
  ao_writer : is_writer f = true;
  ao_disk : if writing_started f then Z.of_nat (length (disk (fs f))) = file_size f
            else file_size f = 0;
  ao_buffer : 0 <= next_free f <= buffer_size f;
  ao_buffer_size : Z.of_nat (length (file_buffer f)) = buffer_size f;
  ao_sizes : 1 <= buffer_size f < 2 ^ 63 /\ max_buffer_size f <= 2 ^ 62;
  ao_bound : file_size f + next_free f < 2 ^ 63;
  ao_stream :
    if writing_started f then
      if tmp_closed f then fs_open (fs f) = false
      else fs_open (fs f) = true /\ fs_fail (fs f) = false /\ fs_pos (fs f) = file_size f
    else fs_open (fs f) = false /\ tmp_closed f = false;
  ao_position : current_position f = file_size f + next_free f
}.

(** [f'] differs from [f] by the position and the stream only. *)
Definition moved (f f' : Kero_file) : Prop :=
  exists s c, f' = set_current_position c (set_fs s f).

(** [f'] differs from [f] by the state of the buffered output only. *)
Definition io_only (f f' : Kero_file) : Prop :=
  exists s cp ws buf fsz bsz nf tc,
    f' = set_fs s (set_current_position cp (set_writing_started ws (set_file_buffer buf
           (set_file_size fsz (set_buffer_size bsz (set_next_free nf
              (set_tmp_closed tc f))))))).

(** A perfect hash library that is never asked to build anything, for
    files without minimizer sections. *)
Definition no_pthash : MPH_library :=
  Build_MPH_library unit tt (fun _ => tt) (fun _ _ => 0) (fun _ => []) (fun _ => tt).

(** A reader consuming [n] consecutive variable sections, as
    [Kero_reader::read_until_first_section_block] does for each ['v']. *)
Fixpoint read_GV_sections (n : nat) (f : Kero_file) : result (list Section_GV * Kero_file) :=
  match n with
  | O => Ok ([], f)
  | S n =>
      '(gv, f) ← Section_GV_new f;
      f ← Section_GV_close gv f;
      '(gvs, f) ← read_GV_sections n f;
      Ok (gv :: gvs, f)
  end.

(** The offset of the first section of a file without metadata: the 9
    bytes written by [open] and the 4 bytes of the metadata size. *)
Definition first_section_offset : Z := 13.

(** A file with the two sections [v{k = 5}] and [v{max = 2}]. *)
Definition two_GV_sections_file : result (list Z) :=
  f ← Kero_file_new [] "w";
  '(gv, f) ← Section_GV_new f;
  let '(gv, f) := write_var "k" 5 gv f in
  f ← Section_GV_close gv f;
  '(gv, f) ← Section_GV_new f;
  let '(gv, f) := write_var "max" 2 gv f in
  f ← Section_GV_close gv f;
  f ← close no_pthash true f;
  Ok (disk (fs f)).

(** A file written with indexing (the default) and closed at once. *)
Definition empty_indexed_file : result (list Z) :=
  f ← Kero_file_new [] "w";
  f ← close no_pthash true f;
  Ok (disk (fs f)).

(** A container in read mode on the file [d], positioned at [pos] with
    the header read, as [open] and [jump_to] leave it. *)
Definition reader_on (d : list Z) (pos : Z) : Kero_file :=
  Build_Kero_file (Build_fstream d true false pos true) pos false (zeros (2 ^ 10))
    (Z.of_nat (length d)) (2 ^ 10) (2 ^ 20) 0 false false 0 1 false false true true true
    (Z.of_nat (length d) - 4) false true None [] false [] [0; 1; 3; 2] 0 ∅ [] [].

(** A container in read mode on a file of which the bytes [d] are on disk
    and the bytes [b], the last ones, still in the buffer (the file of a
    writer that was closed without flushing and opened again), positioned
    at [pos] with the header read. *)
Definition reader_on_parts (d b : list Z) (pos : Z) : Kero_file :=
  Build_Kero_file (Build_fstream d true false pos true) pos false
    (b ++ zeros (2 ^ 10 - Z.of_nat (length b)))
    (Z.of_nat (length d)) (2 ^ 10) (2 ^ 20) (Z.of_nat (length b)) true false 0 1 false false
    true true true (Z.of_nat (length d) + Z.of_nat (length b) - 4) false true None [] false []
    [0; 1; 3; 2] 0 ∅ [] [].

(** A writer that sets its encoding by [write_encoding(0, 1, 2, 1)]. *)
Definition shared_code_writer : result Kero_file :=
  f ← Kero_file_new [] "w";
  write_encoding 0 1 2 1 f.

(** A file with [k = 1], [max = 256], [data_size = 0] and one raw block of
    256 nucleotides, that is, of 256 k-mers. *)
Definition full_raw_block_file : result (list Z) :=
  f ← Kero_file_new [] "w";
  '(gv, f) ← Section_GV_new f;
  let '(gv, f) := write_var "k" 1 gv f in
  let '(gv, f) := write_var "max" 256 gv f in
  let '(gv, f) := write_var "data_size" 0 gv f in
  f ← Section_GV_close gv f;
  '(sr, f) ← Section_Raw_new f;
  '(sr, f) ← Section_Raw_write_compacted_sequence (replicate 64 27) 256 [] sr f;
  f ← Section_Raw_close sr f;
  f ← close no_pthash true f;
  Ok (disk (fs f)).

(** Reading the first block of the raw section that follows the variable
    section at the start of the file [d]. *)
Definition read_first_raw_block (d : list Z) : result (Z * list Z * list Z) :=
  f ← Kero_file_new d "r";
  f ← jump_to first_section_offset false f;
  '(gv, f) ← Section_GV_new f;
  f ← Section_GV_close gv f;
  '(sr, f) ← Section_Raw_new f;
  '(nb_kmers, seq, data, sr, f) ←
    Section_Raw_read_compacted_sequence (zeros 64) [] sr f;
  Ok (nb_kmers, seq, data).

(** The property required of the perfect hash library on a list of keys:
    the function built for the keys maps them injectively into
    [0, length keys), hence, the keys being distinct, bijectively. *)
Definition is_mph (pthash : MPH_library) (keys : list Z) : Prop :=
  let h := build_in_internal_memory pthash keys in
  (forall k, k ∈ keys -> 0 <= pthash_eval pthash h k < Z.of_nat (length keys))
  /\ (forall k1 k2, k1 ∈ keys -> k2 ∈ keys ->
        pthash_eval pthash h k1 = pthash_eval pthash h k2 -> k1 = k2).

(** The number of bytes written by [Section_Minimizer::close]. *)
Definition section_length (ic : Compression_library) (sm : Section_Minimizer) : Z :=
  1 + nb_bytes_mini sm + 8 + 32
  + (8 + Z.of_nat (length (p4nenc64 ic (n_value_buffer sm))))
  + (8 + Z.of_nat (length (p4nenc64 ic (m_idx_buffer sm))))
  + (16 + Z.of_nat (length (p4nenc8 ic (data_buffer sm))))
  + Z.of_nat (length (seq_buffer sm)).

(** The state of the container while a section is being appended after
    the content [c0] that ends at [start]: the tag byte ['M'] stays at
    [start], and the registrations stay as they are. *)
Record section_open (f0 f : Kero_file) (written : Z) : Prop := Build_section_open {
  so_ok : append_ok f;
  so_tag : rd (content f) (tellp f0) = char "M";
  so_end : tellp f = tellp f0 + written;
  so_io : io_only f0 f
}.


(** The largest number of bytes that [write_footer] appends for the
    hashtable section over the registered minimizers [keys]: the metadata
    size if the header is still open, the tag, the serialised function
    with its size, and the table with its size. *)
Definition hashtable_length (pthash : MPH_library) (keys : list Z) : Z :=
  4 + 1
  + (8 + Z.of_nat (length (essentials_save pthash (build_in_internal_memory pthash keys))))
  + (8 + 8 * Z.of_nat (length keys)).

(** [f'] is an appending writer that continues [f]: the content of [f] is
    a prefix of its content and the registrations of [f] are kept. *)
Record grown (f f' : Kero_file) : Prop := Build_grown {
  gr_ok : append_ok f';
  gr_content : content f `prefix_of` content f';
  gr_end : tellp f <= tellp f';
  gr_reader : is_reader f' = is_reader f;
  gr_indexed : indexed f' = indexed f;
  gr_mini_list : mini_list f' = mini_list f;
  gr_mini_pos : mini_pos f' = mini_pos f
}.

(** A perfect hash library that numbers the keys in the order given, and
    a codec that stores the values uncompressed; they stand for [pthash]
    and [TurboPFor] where a concrete library is needed. *)
Fixpoint position_of (k : Z) (keys : list Z) : Z :=
  match keys with
  | [] => 0
  | x :: keys => if x =? k then 0 else 1 + position_of k keys
  end.

Definition load_values (bytes : list Z) (n : Z) : list Z :=
  map (fun i => load_big_endian 64 (drop (8 * i) bytes) 8) (seq 0 (Z.to_nat n)).

Definition list_pthash : MPH_library :=
  Build_MPH_library (list Z) [] (fun keys => keys) (fun h k => position_of k h)
    (fun h => flat_map (store_big_endian 8) h)
    (fun bytes => load_values bytes (Z.of_nat (length bytes) / 8)).

Definition plain_codec : Compression_library :=
  Build_Compression_library (flat_map (store_big_endian 8)) load_values
    (fun bytes => bytes) (fun bytes n => take (Z.to_nat n) bytes).

(** A writer with [k = 5], [m = 3], [max = 4], [data_size = 0] and an open
    minimizer section for the minimizer [GTA], stored as [56]. *)
Definition minimizer_section_start : result (Section_Minimizer * Kero_file) :=
  f ← Kero_file_new [] "w";
  '(gv, f) ← Section_GV_new f;
  let '(gv, f) := write_var "k" 5 gv f in
  let '(gv, f) := write_var "m" 3 gv f in
  let '(gv, f) := write_var "max" 4 gv f in
  let '(gv, f) := write_var "data_size" 0 gv f in
  f ← Section_GV_close gv f;
  '(sm, f) ← Section_Minimizer_new f;
  Ok (write_minimizer [56] sm, f).

(** The same after the super-k-mer [ACGTACGT], stored as [30; 30], is
    written with its minimizer at position 2. *)
Definition minimizer_section_writer : result (Section_Minimizer * Kero_file) :=
  '(sm, f) ← minimizer_section_start;
  sm ← write_compacted_sequence [30; 30] 8 2 [] sm;
  Ok (sm, f).

(** A section without blocks. *)
Definition empty_section : Section_Minimizer :=
  Build_Section_Minimizer 0 0 0 0 [] [] [] [] 0 0 0 0 0 0 0 0 0 [] 0 0 0 0 0 0 0.

Definition fresh_minimizer_section : Section_Minimizer :=
  match minimizer_section_start with
  | Ok (sm, _) => sm
  | Err _ => empty_section
  end.

Definition open_minimizer_section : Section_Minimizer * Kero_file :=
  match minimizer_section_writer with
  | Ok p => p
  | Err _ => (empty_section, reader_on [] 0)
  end.

(** The same writer after the section is closed. *)
Definition closed_minimizer_section : Kero_file :=
  match Section_Minimizer_close plain_codec (fst open_minimizer_section)
          (snd open_minimizer_section) with
  | Ok (_, f) => f
  | Err _ => reader_on [] 0
  end.

(** The map of the container mirrors the map of the section being read. *)
Definition mirrors (f : Kero_file) (gv : Section_GV) : Prop :=
  forall name, global_vars f !! name = smap_find String.eqb name (gv_vars gv).


(** ** Vocabulary of the packed sequences *)

(** Bit [j] of a byte array, counted from the most significant bit of
    byte 0. *)
Definition bit (a : list Z) (j : Z) : bool := Z.testbit (rd a (j / 8)) (7 - j mod 8).

(** Every cell holds a [uint8_t]. *)
Definition bytes_ok (a : list Z) : Prop := forall i, 0 <= rd a i < 256.

(** The number of unused nucleotide slots at the start of a left-padded
    sequence of [size] nucleotides. *)
Definition left_offset (size : Z) : Z := (4 - size mod 4) mod 4.

(** The two bits of nucleotide [i] of a left-padded sequence of [size]
    nucleotides. *)
Definition nucleotide (a : list Z) (size i : Z) : Z :=
  let j := i + left_offset size in
  Z.land (Z.shiftr (rd a (j / 4)) (2 * (3 - j mod 4))) 3.

(** The unused bits of the first byte are zero. *)
Definition padding_zero (a : list Z) (size : Z) : Prop :=
  rd a 0 < 2 ^ (8 - 2 * left_offset size).

(** The array [mini] holds, left-padded, the [m] nucleotides of [seq] that
    start at [mini_pos]. *)
Definition holds_minimizer (mini : list Z) (m : Z) (seq : list Z) (seq_size mini_pos : Z)
    : Prop :=
  forall i, 0 <= i < m -> nucleotide mini m i = nucleotide seq seq_size (mini_pos + i).

(** The residual of a sequence: its nucleotides without the [m] ones that
    start at [mini_pos]. *)
Definition is_residual (res : list Z) (seq : list Z) (seq_size mini_pos m : Z) : Prop :=
  Z.of_nat (length res) = bytes_from_bit_array 2 (seq_size - m)
  /\ (0 < seq_size - m -> padding_zero res (seq_size - m))
  /\ forall i, 0 <= i < seq_size - m ->
       nucleotide res (seq_size - m) i
       = nucleotide seq seq_size (if i <? mini_pos then i else i + m).

(** ** Vocabulary of the further properties *)

(** A container opened for reading: its content is [d], its position is
    [p], and its stream is open and sound. *)
Record reading (d : list Z) (p : Z) (f : Kero_file) : Prop := Build_reading {
  rg_ok : reader_ok f;
  rg_open : fs_open (fs f) = true;
  rg_sound : fs_fail (fs f) = false;
  rg_content : content f = d;
  rg_pos : current_position f = p
}.

(** An upper bound of the number of bytes that [write_footer] appends: the
    hashtable section, the index section with one entry per registered
    section, the variable section of 49 bytes, and the metadata size when
    the header is still open. *)
Definition footer_length (pthash : MPH_library) (f : Kero_file) : Z :=
  hashtable_length pthash (mini_list f)
  + 8
  + (1 + 8 + 9 * (Z.of_nat (length (section_positions f)) + 1) + 8)
  + 49.

(** [std::map] keeps its keys in the increasing order of its comparison:
    the invariant of the association lists [smap_insert] builds. *)
Fixpoint smap_sorted {K V : Type} (ltb : K -> K -> bool) (l : list (K * V)) : Prop :=
  match l with
  | [] => True
  | e :: tl => Forall (fun e' => ltb (fst e) (fst e') = true) tl /\ smap_sorted ltb tl
  end.

(** A map after the assignments [m[key] = value] of a list of entries. *)
Definition insert_all {K V : Type} (ltb eqb : K -> K -> bool) (entries l : list (K * V))
    : list (K * V) :=
  fold_left (fun l e => smap_insert ltb eqb (fst e) (snd e) l) entries l.

(** What [std::map] asks of the comparison of its keys: a strict total
    order, with the equality that goes with it. *)
Class Key_order {K : Type} (ltb eqb : K -> K -> bool) : Prop := Build_Key_order {
  key_eqb_eq : forall a b, eqb a b = true <-> a = b;
  key_ltb_trans : forall a b c, ltb a b = true -> ltb b c = true -> ltb a c = true;
  key_ltb_asym : forall a b, ltb a b = true -> ltb b a = false;
  key_ltb_total : forall a b, a <> b -> ltb a b = false -> ltb b a = true
}.

(** The maps of variables, with [std::string] keys. *)
Abbreviation var_insert := (smap_insert String.ltb String.eqb) (only parsing).
Abbreviation vars_sorted := (smap_sorted String.ltb) (only parsing).
Abbreviation insert_vars := (insert_all String.ltb String.eqb) (only parsing).

(** The bytes [Section_GV::close] writes for one variable: the name as a C
    string, with its terminating zero, then the value on 8 bytes. *)
Definition var_bytes (v : string * Z) : list Z :=
  bytes_of_string (fst v) ++ [0] ++ store_big_endian 8 (snd v).

(** A sequence of calls of [Section_GV::write_var]. *)
Definition write_var_list (vars : list (string * Z)) (gv : Section_GV) (f : Kero_file)
    : Section_GV * Kero_file :=
  fold_left (fun s v => write_var (fst v) (snd v) (fst s) (snd s)) vars (gv, f).

(** Writing a whole variable section: the constructor, the variables, then
    [close]. *)
Definition write_GV_section (vars : list (string * Z)) (f : Kero_file)
    : result (Section_GV * Kero_file) :=
  '(gv, f) ← Section_GV_new f;
  let '(gv, f) := write_var_list vars gv f in
  f ← Section_GV_close gv f;
  Ok (gv, f).

(** The variables a section can hold and give back: names without a zero
    byte, values of 64 bits. *)
Definition var_ok (v : string * Z) : Prop :=
  Forall (fun b => b <> 0) (bytes_of_string (fst v)) /\ 0 <= snd v < 2 ^ 64.

(** A variable section written after the first blocks of a file. *)
Definition written_GV_section : Section_GV * Kero_file :=
  match write_GV_section [("k", 31); ("m", 10); ("data_size", 1)]
          (snd open_minimizer_section) with
  | Ok p => p
  | Err _ => (Build_Section_GV 0 0 [], snd open_minimizer_section)
  end.

(** The bytes of a variable section with two variables, followed by the
    signature that ends a file. *)
Definition GV_section_sample : list Z :=
  [char "v"] ++ store_big_endian 8 2 ++ flat_map var_bytes [("m", 10); ("k", 31)]
    ++ bytes_of_string "KERO".

(** The state of a raw section after one more block was read or skipped. *)
Definition block_consumed (sr : Section_Raw) : Section_Raw :=
  Build_Section_Raw (sr_beginning sr) (sr_nb_kmers_bytes sr) (sr_nb_blocks sr)
    (u64 (sr_remaining_blocks sr - 1)) (sr_k sr) (sr_max sr) (sr_data_size sr).

(** The count of k-mers [nb_kmers] can be stored in the [nb_kmers_bytes]
    bytes of a block header; without such bytes every block holds one
    k-mer. *)
Definition count_fits (nb_kmers_bytes nb_kmers : Z) : Prop :=
  if nb_kmers_bytes =? 0 then nb_kmers = 1 else 0 <= nb_kmers < 2 ^ (8 * nb_kmers_bytes).

(** A raw section of 2-mers with one byte of data per k-mer and blocks of
    at most 200 k-mers, in a file open for writing and in a reader. *)
Definition raw_section_sample : Section_Raw := Build_Section_Raw 0 1 0 0 2 200 1.

Definition raw_block_written : Section_Raw * Kero_file :=
  match Section_Raw_write_compacted_sequence [27; 228] 6 [1; 2; 3; 4; 5] raw_section_sample
          (snd open_minimizer_section) with
  | Ok p => p
  | Err _ => (raw_section_sample, snd open_minimizer_section)
  end.

(** The bytes of the block of [raw_block_written], followed by one byte. *)
Definition raw_block_sample : list Z :=
  store_big_endian 1 5 ++ [27; 228] ++ [1; 2; 3; 4; 5] ++ [9].

(** The test of [Kero_file::read_encoding] on the byte of the encoding:
    two of the four 2-bit values are equal. *)
Definition repeated_code (code : Z) : bool :=
  let a := Z.land (Z.shiftr code 6) 3 in
  let c := Z.land (Z.shiftr code 4) 3 in
  let g := Z.land (Z.shiftr code 2) 3 in
  let t := Z.land code 3 in
  (a =? c) || (a =? g) || (a =? t) || (c =? g) || (c =? t) || (g =? t).

(** A new writer, and the same after [write_encoding(0, 1, 3, 2)], the
    default encoding, or after [set_uniqueness(true)]. *)
Definition new_writer : Kero_file :=
  match Kero_file_new [] "w" with
  | Ok f => f
  | Err _ => reader_on [] 0
  end.

Definition encoded_writer : Kero_file :=
  match write_encoding 0 1 3 2 new_writer with
  | Ok f => f
  | Err _ => reader_on [] 0
  end.

Definition unique_writer : Kero_file :=
  match set_uniqueness_flag true new_writer with
  | Ok f => f
  | Err _ => reader_on [] 0
  end.

(** The bytes [Section_Index::close] writes for one entry of the index: the
    type of the section, then its relative position on 8 bytes. *)
Definition index_entry_bytes (e : Z * Z) : list Z :=
  [snd e] ++ store_big_endian 8 (fst e).

(** The positions an index can hold: signed 64-bit offsets. *)
Definition offset_ok (x : Z) : Prop := - 2 ^ 63 <= x < 2 ^ 63.

(** An index of three sections, two of them before the index, written
    after the first blocks of a file. *)
Definition index_sample : Section_Index :=
  Build_Section_Index 0 [(-40, char "v"); (-12, char "r"); (25, char "M")] 0.

Definition written_index : Kero_file :=
  match Section_Index_close index_sample (snd open_minimizer_section) with
  | Ok f => f
  | Err _ => reader_on [] 0
  end.

(** A block of a raw section, as the number of its k-mers, the bytes of
    its sequence and the bytes of its data; its bytes in the file; and
    what makes it a block of the section [sr]. *)
Definition raw_block_bytes (nb_kmers_bytes : Z) (b : Z * list Z * list Z) : list Z :=
  store_big_endian nb_kmers_bytes (fst (fst b)) ++ snd (fst b) ++ snd b.

Definition raw_block_ok (sr : Section_Raw) (b : Z * list Z * list Z) : Prop :=
  count_fits (sr_nb_kmers_bytes sr) (fst (fst b))
  /\ (0 <= sr_k sr /\ 1 <= fst (fst b) + sr_k sr /\ fst (fst b) + sr_k sr + 2 < 2 ^ 64)
  /\ Z.of_nat (length (snd (fst b))) = (fst (fst b) + sr_k sr - 1 + 3) / 4
  /\ Z.of_nat (length (snd b)) = sr_data_size sr * fst (fst b).

(** Two blocks of [raw_section_sample], of 5 and of 1 k-mers, a section
    with these two blocks to read, and the bytes of the blocks followed by
    one byte. *)
Definition raw_blocks_sample : list (Z * list Z * list Z) :=
  [(5, [27; 228], [1; 2; 3; 4; 5]); (1, [11], [7])].

Definition raw_reader_sample : Section_Raw := Build_Section_Raw 0 1 2 2 2 200 1.

Definition raw_blocks_bytes_sample : list Z :=
  flat_map (raw_block_bytes 1) raw_blocks_sample ++ [9].

(** A hashtable section with one registered minimizer section, written
    after the first blocks of a file with the library [list_pthash]. *)
Definition hashtable_sample : Section_Hashtable list_pthash :=
  Build_Section_Hashtable list_pthash 0 (MPHT_new list_pthash) [56] [13] 0.

Definition written_hashtable : Section_Hashtable list_pthash * Kero_file :=
  match Section_Hashtable_close list_pthash hashtable_sample (snd open_minimizer_section) with
  | Ok p => p
  | Err _ => (hashtable_sample, reader_on [] 0)
  end.

(** The header of a raw section of two blocks followed by the signature,
    and a reader of these bytes that has read the variables [k = 2],
    [max = 200] and [data_size = 1]. *)
Definition raw_header_sample : list Z :=
  [char "r"] ++ store_big_endian 8 2 ++ bytes_of_string "KERO".

Definition raw_header_reader : Kero_file :=
  set_global_vars (<["k" := 2]> (<["max" := 200]> (<["data_size" := 1]> ∅)))
    (reader_on raw_header_sample 0).

(** ** The keys of the hashtable *)

(** The number that the bytes [a] write in base 256, first byte first. *)
Definition big_endian (a : list Z) : Z := fold_left (fun acc b => 256 * acc + b) a 0.

(** The minimizer of a section as a number, reduced modulo [2^(2 * m)]. *)
Definition minimizer_key (sm : Section_Minimizer) : Z :=
  big_endian (minimizer sm) mod 2 ^ (2 * sm_m sm).

(** The open section of [open_minimizer_section] with its minimizer given
    as [248]: the two bits of the byte above the [m = 3] nucleotides are
    set, and the number reduced modulo [2^6] is 56. *)
Definition unmasked_minimizer_section : Section_Minimizer * Kero_file :=
  (write_minimizer [248] (fst open_minimizer_section), snd open_minimizer_section).

(** The same writer after the section is closed. *)
Definition closed_unmasked_section : Kero_file :=
  match Section_Minimizer_close plain_codec (fst unmasked_minimizer_section)
          (snd unmasked_minimizer_section) with
  | Ok (_, f) => f
  | Err _ => reader_on [] 0
  end.

(** The writer of [closed_minimizer_section] after a second section, for
    the same minimizer [56] and the same super-k-mer, is written and
    closed. *)
Definition two_sections_one_key : result Kero_file :=
  '(sm, f) ← Section_Minimizer_new closed_minimizer_section;
  sm ← write_compacted_sequence [30; 30] 8 2 [] (write_minimizer [56] sm);
  '(_, f) ← Section_Minimizer_close plain_codec sm f;
  Ok f.

(** * Properties *)

(** ** The monad *)

Lemma bind_Ok {A B : Type} (a : A) (k : A -> result B) : (Ok a ≫= k) = k a.
Proof. reflexivity. Qed.

Lemma bind_Err {A B : Type} (e : error) (k : A -> result B) : (Err e ≫= k) = Err e.
Proof. reflexivity. Qed.

(** Simplification of a bind on a known result, by rewriting. *)
Tactic Notation "bind_ok" "in" hyp(H) :=
  rewrite bind_Ok in H; cbv beta iota zeta in H.
Tactic Notation "bind_ok" := rewrite bind_Ok; cbv beta iota zeta.

(** Closed statements over concrete states are settled by evaluation. *)
Ltac by_eval := vm_compute; repeat split; try reflexivity; try (intros; congruence).

(** Projections of updated records. *)
Ltac kf_simpl :=
  cbn [disk fs_open fs_fail fs_pos fs current_position writing_started
      file_buffer file_size buffer_size max_buffer_size next_free delete_on_destruction
      tmp_closed major_version minor_version uniqueness canonicity header_over
      footer_discovery_ended index_discovery_ended end_position is_writer is_reader footer
      index indexed section_positions encoding metadata_size global_vars mini_list mini_pos
      set_fs set_current_position set_writing_started set_file_buffer set_file_size
      set_buffer_size set_next_free set_delete_on_destruction set_tmp_closed
      set_major_version set_minor_version set_uniqueness set_canonicity set_header_over
      set_footer_discovery_ended set_index_discovery_ended set_end_position set_is_writer
      set_is_reader set_footer set_index set_indexed set_section_positions set_encoding
      set_metadata_size set_global_vars set_mini_list set_mini_pos].
Ltac kf_simpl_in H :=
  cbn [disk fs_open fs_fail fs_pos fs current_position writing_started
      file_buffer file_size buffer_size max_buffer_size next_free delete_on_destruction
      tmp_closed major_version minor_version uniqueness canonicity header_over
      footer_discovery_ended index_discovery_ended end_position is_writer is_reader footer
      index indexed section_positions encoding metadata_size global_vars mini_list mini_pos
      set_fs set_current_position set_writing_started set_file_buffer set_file_size
      set_buffer_size set_next_free set_delete_on_destruction set_tmp_closed
      set_major_version set_minor_version set_uniqueness set_canonicity set_header_over
      set_footer_discovery_ended set_index_discovery_ended set_end_position set_is_writer
      set_is_reader set_footer set_index set_indexed set_section_positions set_encoding
      set_metadata_size set_global_vars set_mini_list set_mini_pos] in H.

(** ** Arrays and loops *)

Lemma length_wr (a : list Z) (i v : Z) : length (wr a i v) = length a.
Proof. unfold wr. apply length_insert. Qed.

Lemma rd_wr_eq (a : list Z) (i v : Z) :
  0 <= i < Z.of_nat (length a) -> rd (wr a i v) i = v.
Proof.
  intros H. unfold rd, wr. rewrite list_lookup_insert_eq by lia. reflexivity.
Qed.

Lemma rd_wr_ne (a : list Z) (i j v : Z) :
  0 <= i -> 0 <= j -> i <> j -> rd (wr a i v) j = rd a j.
Proof.
  intros Hi Hj Hne. unfold rd, wr. rewrite list_lookup_insert_ne by lia. reflexivity.
Qed.

Lemma rd_outside (a : list Z) (i : Z) : Z.of_nat (length a) <= i -> rd a i = 0.
Proof.
  intros H. unfold rd. rewrite lookup_ge_None_2 by lia. reflexivity.
Qed.

Lemma rd_lookup (a : list Z) (i : nat) : rd a (Z.of_nat i) = default 0 (a !! i).
Proof. unfold rd. rewrite Nat2Z.id. reflexivity. Qed.

Lemma list_eq_rd (a b : list Z) :
  length a = length b ->
  (forall i, 0 <= i < Z.of_nat (length a) -> rd a i = rd b i) ->
  a = b.
Proof.
  intros Hlen H. apply list_eq. intros i.
  destruct (decide (i < length a)%nat) as [Hi|Hi].
  - specialize (H (Z.of_nat i) ltac:(lia)). rewrite !rd_lookup in H.
    destruct (lookup_lt_is_Some_2 a i Hi) as [x Hx].
    destruct (lookup_lt_is_Some_2 b i ltac:(lia)) as [y Hy].
    rewrite Hx, Hy in *. simpl in H. congruence.
  - rewrite !lookup_ge_None_2 by lia. reflexivity.
Qed.

Lemma rd_app_l (a b : list Z) (i : Z) :
  0 <= i < Z.of_nat (length a) -> rd (a ++ b) i = rd a i.
Proof. intros H. unfold rd. rewrite lookup_app_l by lia. reflexivity. Qed.

Lemma rd_app_r (a b : list Z) (i : Z) :
  Z.of_nat (length a) <= i -> rd (a ++ b) i = rd b (i - Z.of_nat (length a)).
Proof.
  intros H. unfold rd. rewrite lookup_app_r by lia.
  replace (Z.to_nat (i - Z.of_nat (length a))) with (Z.to_nat i - length a)%nat by lia.
  reflexivity.
Qed.

Lemma rd_take (a : list Z) (n : nat) (i : Z) :
  0 <= i < Z.of_nat n -> rd (take n a) i = rd a i.
Proof. intros H. unfold rd. rewrite lookup_take_lt by lia. reflexivity. Qed.

Lemma rd_drop (a : list Z) (n : nat) (i : Z) :
  0 <= i -> rd (drop n a) i = rd a (Z.of_nat n + i).
Proof.
  intros H. unfold rd. rewrite lookup_drop.
  replace (Z.to_nat (Z.of_nat n + i)) with (n + Z.to_nat i)%nat by lia. reflexivity.
Qed.

Lemma rd_replicate (n : nat) (x i : Z) : rd (replicate n 0) i = 0.
Proof.
  unfold rd. destruct (replicate n 0 !! Z.to_nat i) eqn:E; [|reflexivity].
  apply lookup_replicate in E. simpl. tauto.
Qed.

Lemma for_loop_nonpos {A : Type} (n : Z) (body : Z -> A -> A) (s : A) :
  n <= 0 -> for_loop n body s = s.
Proof. intros H. unfold for_loop. replace (Z.to_nat n) with 0%nat by lia. reflexivity. Qed.

Lemma for_loop_succ {A : Type} (n : Z) (body : Z -> A -> A) (s : A) :
  0 <= n -> for_loop (n + 1) body s = body n (for_loop n body s).
Proof.
  intros H. unfold for_loop.
  replace (Z.to_nat (n + 1)) with (S (Z.to_nat n)) by lia.
  rewrite seq_S, fold_left_app. simpl. rewrite Z2Nat.id by lia. reflexivity.
Qed.

(** Loop invariants: [P i s] holds of the state before iteration [i]. *)
Lemma for_loop_ind {A : Type} (P : Z -> A -> Prop) (n : Z) (body : Z -> A -> A) (s : A) :
  0 <= n ->
  P 0 s ->
  (forall i acc, 0 <= i < n -> P i acc -> P (i + 1) (body i acc)) ->
  P n (for_loop n body s).
Proof.
  intros Hn H0 Hstep.
  assert (H : forall k : nat, Z.of_nat k <= n -> P (Z.of_nat k) (for_loop (Z.of_nat k) body s)).
  { induction k as [|k IH]; intros Hk.
    - rewrite for_loop_nonpos by lia. exact H0.
    - replace (Z.of_nat (S k)) with (Z.of_nat k + 1) by lia.
      rewrite for_loop_succ by lia. apply Hstep; [lia|]. apply IH. lia. }
  specialize (H (Z.to_nat n)). rewrite Z2Nat.id in H by lia. apply H. lia.
Qed.

Lemma memcpy_spec (dst : list Z) (dbase : Z) (src : list Z) (sbase n : Z) :
  0 <= dbase -> 0 <= sbase -> 0 <= n ->
  length (memcpy dst dbase src sbase n) = length dst
  /\ forall i, 0 <= i ->
       rd (memcpy dst dbase src sbase n) i =
       if decide (dbase <= i < dbase + n /\ i < Z.of_nat (length dst))
       then rd src (sbase + (i - dbase)) else rd dst i.
Proof.
  intros Hd Hs Hn. unfold memcpy.
  pose proof (for_loop_ind (fun t d => length d = length dst /\ forall i, 0 <= i ->
           rd d i = if decide (dbase <= i < dbase + t /\ i < Z.of_nat (length dst))
                    then rd src (sbase + (i - dbase)) else rd dst i) n) as Hind.
  apply Hind; clear Hind; [lia| |].
  - split; [reflexivity|]. intros i Hi. destruct (decide _); [lia|reflexivity].
  - intros t acc Ht [Hlen IH]. split; [rewrite length_wr; exact Hlen|].
    intros i Hi. destruct (decide (i = dbase + t)) as [->|Hne].
    + destruct (decide (dbase + t < Z.of_nat (length dst))) as [Hin|Hout].
      * rewrite rd_wr_eq by lia. destruct (decide _); [|lia]. f_equal. lia.
      * unfold wr. rewrite list_insert_ge by lia. rewrite IH by lia.
        destruct (decide _); [lia|]. destruct (decide _); [lia|]. reflexivity.
    + rewrite rd_wr_ne by lia. rewrite IH by lia.
      destruct (decide _), (decide _); try lia; reflexivity.
Qed.

Lemma memcpy_app (dst : list Z) (dbase : Z) (src : list Z) (n : Z) :
  0 <= dbase -> 0 <= n -> dbase + n <= Z.of_nat (length dst) -> n <= Z.of_nat (length src) ->
  memcpy dst dbase src 0 n =
  take (Z.to_nat dbase) dst ++ take (Z.to_nat n) src ++ drop (Z.to_nat (dbase + n)) dst.
Proof.
  intros Hd Hn Hdn Hsn.
  destruct (memcpy_spec dst dbase src 0 n) as [Hlen Hrd]; try lia.
  apply list_eq_rd.
  - rewrite Hlen, !length_app, !length_take, length_drop. lia.
  - intros i Hi. rewrite Hrd by lia. rewrite Hlen in Hi.
    destruct (decide _) as [[H1 H2]|H].
    + rewrite rd_app_r by (rewrite length_take; lia).
      rewrite length_take. rewrite rd_app_l by (rewrite length_take; lia).
      rewrite rd_take by lia. f_equal. lia.
    + destruct (decide (i < dbase)).
      * rewrite rd_app_l by (rewrite length_take; lia). rewrite rd_take by lia. reflexivity.
      * rewrite rd_app_r by (rewrite length_take; lia).
        rewrite rd_app_r by (rewrite !length_take; lia).
        rewrite !length_take. rewrite rd_drop by lia. f_equal. lia.
Qed.

(** ** The content of a file and [Kero_file::read] *)

Lemma length_content (f : Kero_file) :
  0 <= file_size f <= Z.of_nat (length (disk (fs f))) ->
  0 <= next_free f <= Z.of_nat (length (file_buffer f)) ->
  Z.of_nat (length (content f)) = file_size f + next_free f.
Proof. intros H1 H2. unfold content. rewrite length_app, !length_take. lia. Qed.

Lemma u64_small (x : Z) : 0 <= x < 2 ^ 64 -> u64 x = x.
Proof. intros H. unfold u64. apply Z.mod_small. exact H. Qed.

Lemma read_fuel_unfold (fuel : nat) (size : Z) (f : Kero_file) :
  read_fuel (S fuel) size f =
    if negb (is_reader f) then Err (Exit 1)
    else if current_position f <? file_size f then
      if file_size f <? u64 (current_position f + size) then
        let fs_read_size := u64 (file_size f - current_position f) in
        '(b1, f) ← read_fuel fuel fs_read_size f;
        '(b2, f) ← read_fuel fuel (u64 (size - fs_read_size)) f;
        Ok (b1 ++ b2, f)
      else
        let f := if negb (fs_open (fs f)) then set_fs (fstream_open_in (fs f)) f else f in
        let '(bytes, s) := fstream_read size (fs f) in
        if fs_fail s then Err (Exit 1)
        else Ok (bytes, set_current_position (u64 (current_position f + size)) (set_fs s f))
    else
      let buffer_position := u64 (current_position f - file_size f) in
      if next_free f <? u64 (buffer_position + size) then Err Out_of_range
      else
        Ok (take (Z.to_nat size) (drop (Z.to_nat buffer_position) (file_buffer f)),
            set_current_position (u64 (current_position f + size)) f).
Proof. reflexivity. Qed.

(** Removes every [u64] whose argument [lia] shows to be in range. *)
Ltac u64_simpl :=
  repeat match goal with
         | |- context [u64 ?x] => rewrite (u64_small x) by lia
         end.

(** Reading inside the part of the file that is on disk. *)
Lemma read_fuel_on_disk (fuel : nat) (size : Z) (f : Kero_file) :
  reader_ok f -> 0 <= size ->
  current_position f < file_size f ->
  current_position f + size <= file_size f ->
  exists f',
    read_fuel (S fuel) size f
      = Ok (take (Z.to_nat size) (drop (Z.to_nat (current_position f)) (disk (fs f))), f')
    /\ current_position f' = current_position f + size
    /\ file_size f' = file_size f /\ next_free f' = next_free f
    /\ file_buffer f' = file_buffer f /\ disk (fs f') = disk (fs f)
    /\ is_reader f' = true
    /\ fs_open (fs f') = true /\ fs_fail (fs f') = false
    /\ fs_pos (fs f') = current_position f'
    /\ fs_in (fs f') = true.
Proof.
  intros [Hr Hd Hb Hbound Hpos Hmode Hstream] Hsize Hlt Hle.
  specialize (Hstream Hlt).
  assert (Hlen : 2 ^ 63 < 2 ^ 64) by reflexivity.
  cbn [read_fuel]. rewrite Hr. cbn [negb].
  destruct (current_position f <? file_size f) eqn:E1; [|apply Z.ltb_ge in E1; lia].
  rewrite u64_small by lia.
  destruct (file_size f <? current_position f + size) eqn:E2; [apply Z.ltb_lt in E2; lia|].
  destruct (fs_open (fs f)) eqn:Eo; cbn [negb].
  - destruct Hstream as [Hf Hp]. unfold fstream_read, fs_usable.
    rewrite (Hmode eq_refl), Eo, Hf. cbn [negb andb].
    destruct (fs_pos (fs f) + size <=? Z.of_nat (length (disk (fs f)))) eqn:E3;
      [|apply Z.leb_gt in E3; lia].
    cbn. rewrite Hp. eexists. split; [reflexivity|]. cbn. rewrite ?u64_small by lia.
    repeat split; first [assumption | reflexivity | lia].
  - unfold fstream_read, fstream_open_in, fs_usable. rewrite Eo. cbn.
    destruct (0 + size <=? Z.of_nat (length (disk (fs f)))) eqn:E3;
      [|apply Z.leb_gt in E3; lia].
    cbn. rewrite Hstream. eexists. split; [reflexivity|]. cbn. rewrite ?u64_small by lia.
    repeat split; first [assumption | reflexivity | lia].
Qed.

(** Reading inside the buffer. *)
Lemma read_fuel_in_buffer (fuel : nat) (size : Z) (f : Kero_file) :
  is_reader f = true -> 0 <= size < 2 ^ 63 ->
  0 <= file_size f <= current_position f -> current_position f < 2 ^ 63 ->
  read_fuel (S fuel) size f =
    if next_free f <? current_position f - file_size f + size then Err Out_of_range
    else Ok (take (Z.to_nat size)
               (drop (Z.to_nat (current_position f - file_size f)) (file_buffer f)),
             set_current_position (current_position f + size) f).
Proof.
  intros Hr Hsize Hfs Hpos.
  assert (Hlen : 2 ^ 63 < 2 ^ 64) by reflexivity.
  cbn [read_fuel]. rewrite Hr. cbn [negb].
  destruct (current_position f <? file_size f) eqn:E1; [apply Z.ltb_lt in E1; lia|].
  rewrite (u64_small (current_position f - file_size f)) by lia.
  rewrite !u64_small by lia. reflexivity.
Qed.

(** A stream that [write] opened, for output only, cannot be read: [read]
    exits. *)
Lemma read_output_stream (fuel : nat) (size : Z) (f : Kero_file) :
  is_reader f = true -> 0 <= current_position f -> 0 <= size ->
  current_position f + size <= file_size f -> current_position f < file_size f ->
  file_size f < 2 ^ 63 ->
  fs_open (fs f) = true -> fs_in (fs f) = false ->
  read_fuel (S fuel) size f = Err (Exit 1).
Proof.
  intros Hr Hp Hs Hle Hlt Hb Ho Hin.
  assert (Hlen : 2 ^ 63 < 2 ^ 64) by reflexivity.
  cbn [read_fuel]. rewrite Hr. cbn [negb].
  destruct (current_position f <? file_size f) eqn:E1; [|apply Z.ltb_ge in E1; lia].
  rewrite u64_small by lia.
  destruct (file_size f <? current_position f + size) eqn:E2; [apply Z.ltb_lt in E2; lia|].
  rewrite Ho. cbn [negb]. unfold fstream_read. rewrite Hin. reflexivity.
Qed.

Lemma take_drop_content (f : Kero_file) (p n : Z) :
  0 <= file_size f <= Z.of_nat (length (disk (fs f))) ->
  0 <= next_free f <= Z.of_nat (length (file_buffer f)) ->
  0 <= p -> 0 <= n -> p + n <= file_size f + next_free f ->
  take (Z.to_nat n) (drop (Z.to_nat p) (content f)) =
  take (Z.to_nat (Z.min n (file_size f - p))) (drop (Z.to_nat p) (disk (fs f)))
    ++ take (Z.to_nat (n - Z.max 0 (file_size f - p)))
         (drop (Z.to_nat (p - file_size f)) (file_buffer f)).
Proof.
  intros Hd Hb Hp Hn Hle.
  pose proof (length_content f Hd Hb) as Hlen.
  apply list_eq_rd.
  - rewrite length_app, !length_take, !length_drop. lia.
  - intros i Hi. rewrite length_take, length_drop in Hi.
    rewrite rd_take by lia. rewrite rd_drop by lia. unfold content.
    destruct (decide (p + i < file_size f)) as [Hlt|Hge].
    + rewrite rd_app_l by (rewrite length_take; lia). rewrite rd_take by lia.
      rewrite rd_app_l by (rewrite length_take, length_drop; lia).
      rewrite rd_take by lia. rewrite rd_drop by lia. f_equal; lia.
    + rewrite rd_app_r by (rewrite length_take; lia). rewrite length_take.
      rewrite rd_take by lia.
      rewrite rd_app_r by (rewrite length_take, length_drop; lia).
      rewrite length_take, length_drop. rewrite rd_take by lia. rewrite rd_drop by lia.
      f_equal; lia.
Qed.

(** C7 (read bounds): in read mode [read] fails with the out-of-range
    error exactly when [current_position + size] exceeds
    [file_size + next_free]; otherwise it returns the [size] bytes of the
    file content that start at [current_position], from the disk, from the
    buffer or from both, and advances [current_position] by [size]. *)
Theorem read_bounds (f : Kero_file) (size : Z) :
  reader_ok f -> 0 <= size < 2 ^ 63 ->
  (read size f = Err Out_of_range
     <-> current_position f + size > file_size f + next_free f)
  /\ (current_position f + size <= file_size f + next_free f ->
      exists f',
        read size f
          = Ok (take (Z.to_nat size) (drop (Z.to_nat (current_position f)) (content f)), f')
        /\ current_position f' = current_position f + size
        /\ content f' = content f).
Proof.
  intros Hok Hsize.
  pose proof Hok as [Hr Hd Hb Hbound Hpos Hmode Hstream].
  assert (H64 : 2 ^ 63 < 2 ^ 64) by reflexivity.
  destruct (decide (current_position f < file_size f)) as [Hlt|Hge].
  - destruct (decide (current_position f + size <= file_size f)) as [Hin|Hcross].
    + (* entirely on disk *)
      destruct (read_fuel_on_disk 1 size f Hok ltac:(lia) Hlt Hin)
        as (f' & Hread & Hcp & Hfs & Hnf & Hbuf & Hdisk & _).
      unfold read. rewrite Hread. split; [split; [discriminate|lia]|].
      intros _. exists f'. split; [|split; [exact Hcp|]].
      * f_equal. f_equal. rewrite take_drop_content by lia.
        replace (Z.to_nat (size - Z.max 0 (file_size f - current_position f))) with 0%nat by lia.
        rewrite take_0, app_nil_r. f_equal. lia.
      * unfold content. rewrite Hfs, Hnf, Hbuf, Hdisk. reflexivity.
    + (* across the end of the disk part *)
      unfold read. rewrite read_fuel_unfold. rewrite Hr. cbn [negb].
      destruct (current_position f <? file_size f) eqn:E1; [|apply Z.ltb_ge in E1; lia].
      rewrite (u64_small (current_position f + size)) by lia.
      destruct (file_size f <? current_position f + size) eqn:E2; [|apply Z.ltb_ge in E2; lia].
      cbv zeta. rewrite (u64_small (file_size f - current_position f)) by lia.
      destruct (read_fuel_on_disk 0 (file_size f - current_position f) f Hok
                  ltac:(lia) Hlt ltac:(lia))
        as (f1 & Hread & Hcp & Hfs & Hnf & Hbuf & Hdisk & Hr1 & _).
      rewrite Hread. cbn [mbind result_bind].
      rewrite u64_small by lia.
      rewrite (read_fuel_in_buffer 0 _ f1); [|assumption|lia..].
      rewrite Hcp, Hfs, Hnf, Hbuf.
      replace (current_position f + (file_size f - current_position f) - file_size f
               + (size - (file_size f - current_position f)))
        with (current_position f + size - file_size f) by lia.
      destruct (next_free f <? current_position f + size - file_size f) eqn:E3.
      * apply Z.ltb_lt in E3. split; [split; [lia|reflexivity]|]. lia.
      * apply Z.ltb_ge in E3. split; [split; [discriminate|lia]|].
        intros _. eexists. split; [|split].
        -- cbn [mbind result_bind]. f_equal. f_equal.
           rewrite take_drop_content by lia. f_equal; f_equal; try lia. f_equal. lia.
        -- cbn. lia.
        -- unfold content. cbn. rewrite Hfs, Hnf, Hbuf, Hdisk. reflexivity.
  - (* entirely in the buffer *)
    unfold read. rewrite read_fuel_in_buffer; [|assumption|lia..].
    destruct (next_free f <? current_position f - file_size f + size) eqn:E3.
    + apply Z.ltb_lt in E3. split; [split; [lia|reflexivity]|]. lia.
    + apply Z.ltb_ge in E3. split; [split; [discriminate|lia]|].
      intros _. eexists. split; [|split].
      * f_equal. f_equal. rewrite take_drop_content by lia.
        replace (Z.to_nat (Z.min size (file_size f - current_position f))) with 0%nat by lia.
        rewrite take_0, app_nil_l. f_equal. lia.
      * reflexivity.
      * reflexivity.
Qed.

Lemma read_bounds_witness :
  (read 4 (reader_on_parts [1; 2; 3; 4; 5] [6; 7; 8] 3) = Err Out_of_range
     <-> current_position (reader_on_parts [1; 2; 3; 4; 5] [6; 7; 8] 3) + 4
           > file_size (reader_on_parts [1; 2; 3; 4; 5] [6; 7; 8] 3)
             + next_free (reader_on_parts [1; 2; 3; 4; 5] [6; 7; 8] 3))
  /\ (current_position (reader_on_parts [1; 2; 3; 4; 5] [6; 7; 8] 3) + 4
        <= file_size (reader_on_parts [1; 2; 3; 4; 5] [6; 7; 8] 3)
           + next_free (reader_on_parts [1; 2; 3; 4; 5] [6; 7; 8] 3) ->
      exists f',
        read 4 (reader_on_parts [1; 2; 3; 4; 5] [6; 7; 8] 3)
          = Ok (take (Z.to_nat 4)
                  (drop (Z.to_nat (current_position (reader_on_parts [1; 2; 3; 4; 5] [6; 7; 8] 3)))
                     (content (reader_on_parts [1; 2; 3; 4; 5] [6; 7; 8] 3))), f')
        /\ current_position f' = current_position (reader_on_parts [1; 2; 3; 4; 5] [6; 7; 8] 3) + 4
        /\ content f' = content (reader_on_parts [1; 2; 3; 4; 5] [6; 7; 8] 3)).
Proof.
  apply (read_bounds (reader_on_parts [1; 2; 3; 4; 5] [6; 7; 8] 3) 4).
  - constructor; by_eval.
  - by_eval.
Defined.

(** ** [Kero_file::write_at] *)

Tactic Notation "len_simpl" :=
  rewrite ?length_app, ?length_take, ?length_drop, ?length_replicate,
    ?length_app, ?length_take, ?length_drop, ?length_replicate.
Tactic Notation "len_simpl" "in" hyp(H) :=
  rewrite ?length_app, ?length_take, ?length_drop, ?length_replicate,
    ?length_app, ?length_take, ?length_drop, ?length_replicate in H.

Lemma writer_ok_disk (f : Kero_file) :
  writer_ok f -> 0 <= file_size f <= Z.of_nat (length (disk (fs f))).
Proof. intros [_ Hd _ _ _]. destruct (writing_started f); lia. Qed.

Lemma write_at_fuel_unfold (fuel : nat) (bytes : list Z) (size position : Z) (f : Kero_file) :
  write_at_fuel (S fuel) bytes size position f =
    if negb (is_writer f) then Err (Exit 1)
    else if u64 (file_size f + next_free f) <? position then Err (Exit 1)
    else if position <? file_size f then
      if u64 (position + size) <=? file_size f then
        let f := if tmp_closed f then reopen f else f in
        let s := fstream_seek position (fs f) in
        let s := fstream_write (take (Z.to_nat size) bytes) s in
        if fs_fail s then Err (Exit 1)
        else Ok (set_fs (fstream_seek (file_size f) s) f)
      else
        let in_file_size := u64 (file_size f - position) in
        f ← write_at_fuel fuel bytes in_file_size position f;
        write_at_fuel fuel (drop (Z.to_nat in_file_size) bytes) (u64 (size - in_file_size))
          (u64 (position + in_file_size)) f
    else
      let corrected_position := u64 (position - file_size f) in
      if u64 (corrected_position + size) <=? next_free f then
        Ok (set_file_buffer (memcpy (file_buffer f) corrected_position bytes 0 size) f)
      else write bytes size (set_next_free corrected_position f).
Proof. reflexivity. Qed.

(** Overwriting bytes that are all on disk. *)
Lemma write_at_on_disk (fuel : nat) (bytes : list Z) (size position : Z) (f : Kero_file) :
  writer_ok f -> 0 <= position -> 0 <= size <= Z.of_nat (length bytes) ->
  position < file_size f -> position + size <= file_size f ->
  exists f',
    write_at_fuel (S fuel) bytes size position f = Ok f'
    /\ disk (fs f') = take (Z.to_nat position) (disk (fs f)) ++ take (Z.to_nat size) bytes
                        ++ drop (Z.to_nat (position + size)) (disk (fs f))
    /\ file_buffer f' = file_buffer f
    /\ file_size f' = file_size f /\ next_free f' = next_free f
    /\ current_position f' = current_position f
    /\ writer_ok f'.
Proof.
  intros Hok Hpos Hsize Hlt Hle.
  pose proof (writer_ok_disk f Hok) as Hdisk.
  destruct Hok as [Hw Hd Hb Hbound Hstream].
  specialize (Hstream ltac:(lia)).
  assert (H64 : 2 ^ 63 < 2 ^ 64) by reflexivity.
  assert (Hws : writing_started f = true).
  { destruct (writing_started f); [reflexivity|lia]. }
  rewrite Hws in Hd.
  rewrite write_at_fuel_unfold. rewrite Hw. cbn [negb].
  rewrite (u64_small (file_size f + next_free f)) by lia.
  destruct (file_size f + next_free f <? position) eqn:E0; [apply Z.ltb_lt in E0; lia|].
  destruct (position <? file_size f) eqn:E1; [|apply Z.ltb_ge in E1; lia].
  rewrite (u64_small (position + size)) by lia.
  destruct (position + size <=? file_size f) eqn:E2; [|apply Z.leb_gt in E2; lia].
  cbv zeta.
  assert (Hlen : length (take (Z.to_nat position) (disk (fs f)) ++
                   replicate (Z.to_nat position - length (disk (fs f))) 0 ++
                   take (Z.to_nat size) bytes ++
                   drop (Z.to_nat position + length (take (Z.to_nat size) bytes)) (disk (fs f)))
                 = length (disk (fs f))).
  { len_simpl. lia. }
  assert (Heq : take (Z.to_nat position) (disk (fs f)) ++
                   replicate (Z.to_nat position - length (disk (fs f))) 0 ++
                   take (Z.to_nat size) bytes ++
                   drop (Z.to_nat position + length (take (Z.to_nat size) bytes)) (disk (fs f))
                = take (Z.to_nat position) (disk (fs f)) ++ take (Z.to_nat size) bytes
                        ++ drop (Z.to_nat (position + size)) (disk (fs f))).
  { replace (Z.to_nat position - length (disk (fs f)))%nat with 0%nat by lia.
    len_simpl. cbn [replicate app].
    replace (Z.to_nat position + Z.to_nat size `min` length bytes)%nat
      with (Z.to_nat (position + size)) by lia.
    reflexivity. }
  destruct (tmp_closed f) eqn:Etc; [rename Hstream into Hopen|destruct Hstream as [Hopen Hfail]].
  - unfold reopen, fstream_open_ate, fstream_seek, fstream_write, fs_usable.
    rewrite Etc, Hopen. cbn.
    eexists. split; [reflexivity|]. cbn.
    split; [exact Heq|]. do 4 (split; [reflexivity|]).
    constructor; cbn; try assumption.
    + rewrite Hws. rewrite Hlen. exact Hd.
    + intros _. auto.
  - unfold fstream_seek, fstream_write, fs_usable.
    rewrite Hopen, Hfail. cbn.
    eexists. split; [reflexivity|]. cbn.
    split; [exact Heq|]. do 4 (split; [reflexivity|]).
    constructor; cbn; try assumption.
    + rewrite Hws. rewrite Hlen. exact Hd.
    + intros _. rewrite Etc. auto.
Qed.

(** Overwriting bytes that are all in the buffer. *)
Lemma write_at_in_buffer (fuel : nat) (bytes : list Z) (size position : Z) (f : Kero_file) :
  writer_ok f -> 0 <= size <= Z.of_nat (length bytes) ->
  file_size f <= position -> position + size <= file_size f + next_free f ->
  write_at_fuel (S fuel) bytes size position f =
    Ok (set_file_buffer
          (take (Z.to_nat (position - file_size f)) (file_buffer f)
             ++ take (Z.to_nat size) bytes
             ++ drop (Z.to_nat (position - file_size f + size)) (file_buffer f)) f).
Proof.
  intros Hok Hsize Hge Hle.
  pose proof (writer_ok_disk f Hok) as Hdisk.
  destruct Hok as [Hw Hd Hb Hbound Hstream].
  assert (H64 : 2 ^ 63 < 2 ^ 64) by reflexivity.
  rewrite write_at_fuel_unfold. rewrite Hw. cbn [negb].
  rewrite (u64_small (file_size f + next_free f)) by lia.
  destruct (file_size f + next_free f <? position) eqn:E0; [apply Z.ltb_lt in E0; lia|].
  destruct (position <? file_size f) eqn:E1; [apply Z.ltb_lt in E1; lia|].
  cbv zeta. rewrite (u64_small (position - file_size f)) by lia.
  rewrite u64_small by lia.
  destruct (position - file_size f + size <=? next_free f) eqn:E2; [|apply Z.leb_gt in E2; lia].
  rewrite memcpy_app by lia. reflexivity.
Qed.

(** Replacing a segment of a list that is the concatenation of the disk
    part and the buffer part. *)
Lemma splice_left (D B bytes : list Z) (p : nat) :
  (p + length bytes <= length D)%nat ->
  take p (D ++ B) ++ bytes ++ drop (p + length bytes) (D ++ B)
  = (take p D ++ bytes ++ drop (p + length bytes) D) ++ B.
Proof.
  intros H. rewrite take_app, drop_app.
  replace (p - length D)%nat with 0%nat by lia.
  replace (p + length bytes - length D)%nat with 0%nat by lia.
  rewrite take_0, drop_0, app_nil_r, <- !app_assoc. reflexivity.
Qed.

Lemma take_splice (buf bytes : list Z) (c nf : nat) :
  (c + length bytes <= nf)%nat -> (nf <= length buf)%nat ->
  take nf (take c buf ++ bytes ++ drop (c + length bytes) buf)
  = take c (take nf buf) ++ bytes ++ drop (c + length bytes) (take nf buf).
Proof.
  intros H1 H2.
  assert (Hc : length (take c buf) = c) by (apply length_take_le; lia).
  rewrite take_app, take_app, Hc.
  rewrite (take_ge (take c buf)) by lia.
  rewrite (take_ge bytes) by lia.
  rewrite take_take. replace (c `min` nf)%nat with c by lia.
  rewrite take_drop_commute.
  replace (c + length bytes + (nf - c - length bytes))%nat with nf by lia.
  reflexivity.
Qed.

Lemma splice_right (D buf bytes : list Z) (p nf : nat) :
  (length D <= p)%nat -> (p - length D + length bytes <= nf)%nat -> (nf <= length buf)%nat ->
  take p (D ++ take nf buf) ++ bytes ++ drop (p + length bytes) (D ++ take nf buf)
  = D ++ take nf (take (p - length D) buf ++ bytes
                    ++ drop (p - length D + length bytes) buf).
Proof.
  intros H1 H2 H3. rewrite take_app, drop_app, take_splice by lia.
  rewrite (take_ge D) by lia. rewrite (drop_ge D) by lia.
  replace (p + length bytes - length D)%nat with (p - length D + length bytes)%nat by lia.
  rewrite <- app_assoc. reflexivity.
Qed.

Lemma splice_across (D buf bytes : list Z) (p nf : nat) :
  (p <= length D)%nat -> (length D <= p + length bytes)%nat ->
  (p + length bytes - length D <= nf)%nat -> (nf <= length buf)%nat ->
  take p (D ++ take nf buf) ++ bytes ++ drop (p + length bytes) (D ++ take nf buf)
  = (take p D ++ take (length D - p) bytes ++ drop (p + (length D - p)) D)
    ++ take nf (take 0 buf ++ drop (length D - p) bytes
                  ++ drop (0 + (length bytes - (length D - p))) buf).
Proof.
  intros H1 H2 H3 H4.
  pose proof (take_splice buf (drop (length D - p) bytes) 0 nf) as Hs.
  rewrite length_drop in Hs. rewrite Hs by lia. clear Hs.
  rewrite take_app, drop_app.
  replace (p - length D)%nat with 0%nat by lia.
  rewrite !take_0. rewrite (drop_ge D (p + length bytes)) by lia.
  rewrite (drop_ge D (p + (length D - p))) by lia.
  cbn [app]. rewrite !app_nil_r. rewrite <- !app_assoc. f_equal.
  rewrite (app_assoc (take _ bytes)). rewrite take_drop. f_equal. f_equal. lia.
Qed.

(** [write_at] inside the content replaces the bytes of the range and
    nothing else. *)
Lemma write_at_replaces (f : Kero_file) (bytes : list Z) (size position : Z) :
  writer_ok f -> 0 <= position -> size = Z.of_nat (length bytes) ->
  position + size <= file_size f + next_free f ->
  exists f',
    write_at bytes size position f = Ok f'
    /\ content f' = take (Z.to_nat position) (content f) ++ bytes
                      ++ drop (Z.to_nat (position + size)) (content f)
    /\ file_size f' = file_size f
    /\ next_free f' = next_free f
    /\ current_position f' = current_position f
    /\ writer_ok f'.
Proof.
  intros Hok Hpos Hsize Hle.
  pose proof (writer_ok_disk f Hok) as Hdisk.
  pose proof Hok as [Hw Hd Hb Hbound Hstream].
  assert (H64 : 2 ^ 63 < 2 ^ 64) by reflexivity.
  assert (Htb : take (Z.to_nat size) bytes = bytes) by (apply take_ge; lia).
  assert (Hps : Z.to_nat (position + size) = (Z.to_nat position + length bytes)%nat) by lia.
  destruct (decide (position < file_size f)) as [Hlt|Hge].
  - assert (Hws : writing_started f = true).
    { destruct (writing_started f); [reflexivity|lia]. }
    rewrite Hws in Hd.
    assert (HD : take (Z.to_nat (file_size f)) (disk (fs f)) = disk (fs f))
      by (apply take_ge; lia).
    destruct (decide (position + size <= file_size f)) as [Hin|Hcross].
    + (* entirely on disk *)
      destruct (write_at_on_disk 1 bytes size position f Hok Hpos ltac:(lia) Hlt Hin)
        as (f' & Hwr & Hdisk' & Hbuf' & Hfs' & Hnf' & Hcp' & Hok').
      exists f'. unfold write_at. split; [exact Hwr|].
      split; [|tauto].
      unfold content. rewrite Hfs', Hnf', Hbuf', Hdisk', HD, Htb, Hps.
      rewrite splice_left by lia. f_equal. apply take_ge. len_simpl. lia.
    + (* across the end of the part on disk *)
      unfold write_at. rewrite write_at_fuel_unfold. rewrite Hw. cbn [negb].
      rewrite (u64_small (file_size f + next_free f)) by lia.
      destruct (file_size f + next_free f <? position) eqn:E0; [apply Z.ltb_lt in E0; lia|].
      destruct (position <? file_size f) eqn:E1; [|apply Z.ltb_ge in E1; lia].
      rewrite (u64_small (position + size)) by lia.
      destruct (position + size <=? file_size f) eqn:E2; [apply Z.leb_le in E2; lia|].
      cbv zeta. rewrite (u64_small (file_size f - position)) by lia.
      destruct (write_at_on_disk 0 bytes (file_size f - position) position f Hok Hpos
                  ltac:(lia) Hlt ltac:(lia))
        as (f1 & Hwr & Hdisk1 & Hbuf1 & Hfs1 & Hnf1 & Hcp1 & Hok1).
      rewrite Hwr. cbn [mbind result_bind].
      rewrite !u64_small by lia.
      rewrite (write_at_in_buffer 0 _ _ _ f1 Hok1);
        [|rewrite length_drop; lia|lia|lia].
      eexists. split; [reflexivity|]. cbn.
      split; [|split; [exact Hfs1|split; [exact Hnf1|split; [exact Hcp1|]]]].
      * unfold content. cbn. rewrite Hfs1, Hnf1, Hbuf1, Hdisk1, HD, Hps.
        rewrite splice_across by lia.
        replace (Z.to_nat (file_size f - position))
          with (length (disk (fs f)) - Z.to_nat position)%nat by lia.
        replace (Z.to_nat (position + (file_size f - position) - file_size f)) with 0%nat by lia.
        replace (Z.to_nat (size - (file_size f - position)))
          with (length bytes - (length (disk (fs f)) - Z.to_nat position))%nat by lia.
        replace (Z.to_nat (position + (file_size f - position)))
          with (Z.to_nat position + (length (disk (fs f)) - Z.to_nat position))%nat by lia.
        replace (Z.to_nat (position + (file_size f - position) - file_size f
                           + (size - (file_size f - position))))
          with (0 + (length bytes - (length (disk (fs f)) - Z.to_nat position)))%nat by lia.
        f_equal.
        -- apply take_ge. len_simpl. lia.
        -- f_equal. f_equal. f_equal. apply take_ge. len_simpl. lia.
      * destruct Hok1 as [Hw1 Hd1 Hb1 Hbound1 Hstream1].
        constructor; cbn; try assumption. len_simpl. lia.
  - (* entirely in the buffer *)
    unfold write_at. rewrite (write_at_in_buffer 1 _ _ _ f Hok) by lia.
    eexists. split; [reflexivity|]. cbn.
    split; [|split; [reflexivity|split; [reflexivity|split; [reflexivity|]]]].
    + unfold content. cbn. rewrite Htb, Hps.
      rewrite splice_right by (len_simpl; lia). f_equal.
      len_simpl.
      replace (Z.to_nat (position - file_size f))
        with (Z.to_nat position - Z.to_nat (file_size f) `min` length (disk (fs f)))%nat by lia.
      replace (Z.to_nat (position - file_size f + size))
        with (Z.to_nat position - Z.to_nat (file_size f) `min` length (disk (fs f))
              + length bytes)%nat by lia.
      reflexivity.
    + constructor; cbn; try assumption. len_simpl. lia.
Qed.

(** C9 (frame property of [write_at]): in write mode, when
    [position + size <= file_size + next_free], the call replaces exactly
    the bytes of the file content in [position, position + size) by the
    given bytes, on disk, in the buffer, or across both; all other bytes of
    the content, [file_size], [next_free] and [current_position] are
    unchanged. *)
Theorem write_at_frame (f : Kero_file) (bytes : list Z) (size position : Z) :
  writer_ok f -> 0 <= position -> size = Z.of_nat (length bytes) ->
  position + size <= file_size f + next_free f ->
  exists f',
    write_at bytes size position f = Ok f'
    /\ content f' = take (Z.to_nat position) (content f) ++ bytes
                      ++ drop (Z.to_nat (position + size)) (content f)
    /\ file_size f' = file_size f
    /\ next_free f' = next_free f
    /\ current_position f' = current_position f
    /\ writer_ok f'.
Proof. apply write_at_replaces. Qed.

Lemma write_at_frame_witness :
  exists f',
    write_at [7; 7] 2 10 (snd open_minimizer_section) = Ok f'
    /\ content f' = take (Z.to_nat 10) (content (snd open_minimizer_section)) ++ [7; 7]
                      ++ drop (Z.to_nat (10 + 2)) (content (snd open_minimizer_section))
    /\ file_size f' = file_size (snd open_minimizer_section)
    /\ next_free f' = next_free (snd open_minimizer_section)
    /\ current_position f' = current_position (snd open_minimizer_section)
    /\ writer_ok f'.
Proof.
  apply (write_at_frame (snd open_minimizer_section) [7; 7] 2 10).
  - constructor; by_eval.
  - by_eval.
  - by_eval.
  - by_eval.
Defined.

(** ** The minimizer mask *)

(** C8 (minimizer mask at the 64-bit boundary): [get_mini_mask 32] is
    [0xFFFFFFFFFFFFFFFF] and is computed without an undefined shift (the
    result is [Some]), so that [mask_mini x 32 = x] for every 64-bit [x];
    and for [0 <= m < 32] the mask is [2^(2m) - 1]. *)
Theorem get_mini_mask_boundary :
  get_mini_mask 32 = Some 0xFFFFFFFFFFFFFFFF
  /\ (forall x, 0 <= x < 2 ^ 64 -> mask_mini x 32 = Some x)
  /\ (forall m, 0 <= m < 32 -> get_mini_mask m = Some (2 ^ (2 * m) - 1)).
Proof.
  split; [reflexivity|]. split.
  - intros x Hx. unfold mask_mini. simpl get_mini_mask. cbv iota.
    f_equal. change 18446744073709551615 with (Z.ones 64).
    rewrite Z.land_ones by lia. apply Z.mod_small. lia.
  - intros m Hm. unfold get_mini_mask.
    destruct (32 <=? m) eqn:E; [apply Z.leb_le in E; lia|].
    assert (Hp : 1 <= 2 ^ (2 * m) <= 2 ^ 62).
    { split; [apply (Z.pow_le_mono_r 2 0 (2 * m)); lia | apply Z.pow_le_mono_r; lia]. }
    unfold shl64, u64. rewrite (Z.mod_small (2 * m)) by lia.
    replace ((0 <=? 2 * m) && (2 * m <? 64)) with true
      by (symmetry; apply andb_true_iff; split; [apply Z.leb_le|apply Z.ltb_lt]; lia).
    rewrite Z.shiftl_1_l. rewrite (Z.mod_small (2 ^ (2 * m))) by lia.
    rewrite Z.mod_small by lia. reflexivity.
Qed.

Lemma get_mini_mask_boundary_witness :
  mask_mini 12345 32 = Some 12345 /\ get_mini_mask 5 = Some (2 ^ (2 * 5) - 1).
Proof.
  destruct get_mini_mask_boundary as (_ & H1 & H2).
  split; [apply H1; lia | apply (H2 5); lia].
Defined.

(** The mask is defined for every 64-bit [m]: no call shifts by 64 or more. *)
Lemma get_mini_mask_defined (m : Z) : 0 <= m < 2 ^ 64 -> is_Some (get_mini_mask m).
Proof.
  intros Hm. unfold get_mini_mask.
  destruct (32 <=? m) eqn:E; [eexists; reflexivity|]. apply Z.leb_gt in E.
  unfold shl64, u64. rewrite (Z.mod_small (2 * m)) by lia.
  replace ((0 <=? 2 * m) && (2 * m <? 64)) with true
    by (symmetry; apply andb_true_iff; split; [apply Z.leb_le|apply Z.ltb_lt]; lia).
  eexists; reflexivity.
Qed.

(** ** The encoding byte *)

(** C6 (encoding distinctness): [write_encoding(0, 1, 2, 1)] passes all the
    assertions of the writer although C and T share the code 1; the byte it
    writes is [0b00011001], and [read_encoding] raises the
    malformed-encoding error on a header with that byte. *)
Theorem write_encoding_accepts_shared_code :
  (f ← shared_code_writer; Ok (encoding f, rd (content f) 5)) = Ok ([0; 1; 2; 1], 25)
  /\ read_encoding (reader_on [25] 0)
     = Err (Throw "Wrong encoding. The 4 2-bits values must be different.").
Proof. split; vm_compute; reflexivity. Qed.

(** The assertions never compare [c] with [t]: whenever A, C and G have
    distinct codes, giving T the code of C reaches the write. *)
Lemma write_encoding_no_assert_c_t (a c g : Z) (f : Kero_file) :
  Z.land a 3 <> Z.land c 3 -> Z.land a 3 <> Z.land g 3 -> Z.land c 3 <> Z.land g 3 ->
  write_encoding a c g c f
  = write_at [u8 (Z.lor (Z.lor (Z.lor (Z.shiftl (Z.land a 3) 6) (Z.shiftl (Z.land c 3) 4))
                           (Z.shiftl (Z.land g 3) 2)) (Z.land c 3))] 1 5
      (set_encoding [Z.land a 3; Z.land c 3; Z.land g 3; Z.land c 3] f).
Proof.
  intros Hac Hag Hcg. unfold write_encoding.
  repeat match goal with
         | |- context [?x =? ?y] =>
             destruct (Z.eqb_spec x y); [congruence|]
         end.
  reflexivity.
Qed.

(** ** Footer discovery *)

(** C3 (footer round-trip on reopen): the file written by a writer with
    indexing and closed ends with the variable [footer_size] (value 49) and
    the 4-byte signature, yet opening it for reading leaves the footer null,
    does not mark the file as indexed, and leaves the position 12 bytes
    before the end: [footer_discovery] looks for the name 23 bytes before
    the end, where the 3-byte signature of the parent format would put it. *)
Theorem footer_not_found_on_reopen :
  (d ← empty_indexed_file; Ok (drop 59 d))
    = Ok (bytes_of_string "footer_size" ++ [0] ++ store_big_endian 8 49
            ++ bytes_of_string "KERO")
  /\ (d ← empty_indexed_file; f ← Kero_file_new d "r";
      Ok (footer f, indexed f, file_size f - current_position f))
     = Ok (None, false, 12).
Proof. split; vm_compute; reflexivity. Qed.

(** ** Raw blocks *)

(** C5 (raw block round-trip): with [max = 256] the count of k-mers is
    stored in one byte; a block of 256 k-mers ([k = 1], 256 nucleotides,
    64 sequence bytes) is written with the count byte 0, and reading it
    back returns 0 k-mers and copies no sequence byte. *)
Theorem raw_block_count_truncated :
  (d ← full_raw_block_file; read_first_raw_block d) = Ok (0, zeros 64, []).
Proof. vm_compute. reflexivity. Qed.

(** ** Exhausted minimizer sections *)

(** C10 (reads after the last block): when [cur_skmer_idx >= nb_blocks],
    [read_compacted_sequence_without_mini] returns 0 and leaves the arrays
    [seq] and [data], the reference [mini_pos], the file and every field of
    the section, its cursors included, unchanged. *)
Theorem read_exhausted_section_is_noop (ic : Compression_library)
    (seq : list Z) (data : option (list Z)) (mini_pos : Z)
    (sm : Section_Minimizer) (f : Kero_file) :
  sm_nb_blocks sm <= cur_skmer_idx sm ->
  read_compacted_sequence_without_mini ic seq data mini_pos sm f
    = Ok (0, seq, data, mini_pos, sm, f).
Proof.
  intros H. unfold read_compacted_sequence_without_mini.
  destruct (sm_nb_blocks sm <=? cur_skmer_idx sm) eqn:E; [reflexivity|].
  apply Z.leb_gt in E. lia.
Qed.

Lemma read_exhausted_section_is_noop_witness :
  read_compacted_sequence_without_mini plain_codec [1; 2] (Some [3]) 4 empty_section
      (reader_on [] 0)
    = Ok (0, [1; 2], Some [3], 4, empty_section, reader_on [] 0).
Proof.
  apply (read_exhausted_section_is_noop plain_codec [1; 2] (Some [3]) 4 empty_section
           (reader_on [] 0)).
  by_eval.
Defined.

(** ** Variable sections and the global variables *)

(** [read] and [jump_to] change the position and the stream only. *)

Lemma moved_refl (f : Kero_file) : moved f f.
Proof. exists (fs f), (current_position f). destruct f; reflexivity. Qed.

Lemma moved_trans (f1 f2 f3 : Kero_file) : moved f1 f2 -> moved f2 f3 -> moved f1 f3.
Proof. intros (s1 & c1 & ->) (s2 & c2 & ->). exists s2, c2. reflexivity. Qed.

Lemma read_fuel_moved (fuel : nat) (size : Z) (f f' : Kero_file) (b : list Z) :
  read_fuel fuel size f = Ok (b, f') -> moved f f'.
Proof.
  revert size f f' b. induction fuel as [|fuel IH]; intros size f f' b H; [discriminate|].
  rewrite read_fuel_unfold in H.
  destruct (negb (is_reader f)); [discriminate|].
  destruct (current_position f <? file_size f).
  - destruct (file_size f <? u64 (current_position f + size)).
    + cbv zeta in H.
      destruct (read_fuel fuel _ f) as [[b1 f1]|] eqn:E1; [|discriminate].
      cbn [mbind result_bind] in H.
      destruct (read_fuel fuel _ f1) as [[b2 f2]|] eqn:E2; [|discriminate].
      cbn [mbind result_bind] in H. injection H as <- <-.
      eapply moved_trans; eauto.
    + cbv zeta in H. destruct (fstream_read size _) as [bytes s] eqn:Er.
      destruct (fs_fail s); [discriminate|]. injection H as <- <-.
      destruct (negb (fs_open (fs f))); eexists _, _; reflexivity.
  - cbv zeta in H. destruct (next_free f <? _); [discriminate|].
    injection H as <- <-. eexists (fs f), _. destruct f; reflexivity.
Qed.

Lemma read_moved (size : Z) (f f' : Kero_file) (b : list Z) :
  read size f = Ok (b, f') -> moved f f'.
Proof. apply read_fuel_moved. Qed.

Lemma jump_to_moved (position : Z) (from_end : bool) (f f' : Kero_file) :
  jump_to position from_end f = Ok f' -> moved f f'.
Proof.
  unfold jump_to. destruct (_ <? position); [discriminate|].
  intros H. injection H as <-. eexists _, _. reflexivity.
Qed.

Lemma moved_flags (f f' : Kero_file) :
  moved f f' ->
  is_reader f' = is_reader f /\ is_writer f' = is_writer f
  /\ global_vars f' = global_vars f.
Proof. intros (s & c & ->). repeat split. Qed.

Lemma read_name_moved (fuel : nat) (ss : list Z) (c : Z) (f f' : Kero_file) (name : list Z) :
  read_name fuel ss c f = Ok (name, f') -> moved f f'.
Proof.
  revert ss c f. induction fuel as [|fuel IH]; intros ss c f H; cbn [read_name] in H.
  - destruct (c =? 0); [|discriminate]. injection H as <- <-. apply moved_refl.
  - destruct (c =? 0); [injection H as <- <-; apply moved_refl|].
    destruct (read 1 f) as [[buff f1]|] eqn:E; [|discriminate].
    cbn [mbind result_bind] in H. eapply moved_trans; [eapply read_moved; eauto|eauto].
Qed.

Lemma smap_find_insert (name k : string) (v : Z) (l : list (string * Z)) :
  smap_find String.eqb name (smap_insert String.ltb String.eqb k v l)
  = if String.eqb name k then Some v else smap_find String.eqb name l.
Proof.
  induction l as [|[k' v'] l IH]; cbn [smap_insert smap_find]; [reflexivity|].
  destruct (String.eqb_spec k k') as [->|Hk].
  - cbn [smap_find]. destruct (String.eqb name k'); reflexivity.
  - destruct (String.ltb k k'); cbn [smap_find]; [reflexivity|].
    rewrite IH. destruct (String.eqb_spec name k') as [->|Hn]; [|reflexivity].
    destruct (String.eqb_spec k' k); [congruence|reflexivity].
Qed.

Lemma read_var_mirrors (gv gv' : Section_GV) (f f' : Kero_file) :
  read_var gv f = Ok (gv', f') -> mirrors f gv ->
  mirrors f' gv' /\ is_reader f' = is_reader f /\ is_writer f' = is_writer f.
Proof.
  unfold read_var. intros H Hm.
  destruct (end_position f <=? tellp f); [discriminate|].
  destruct (read 1 f) as [[b1 f1]|] eqn:E1; [|discriminate]. cbn [mbind result_bind] in H.
  destruct (read_name _ [] _ f1) as [[ss f2]|] eqn:E2; [|discriminate].
  cbn [mbind result_bind] in H.
  destruct (read 8 f2) as [[b3 f3]|] eqn:E3; [|discriminate].
  cbn [mbind result_bind] in H. injection H as <- <-.
  apply read_moved, moved_flags in E1. apply read_name_moved, moved_flags in E2.
  apply read_moved, moved_flags in E3.
  destruct E1 as (R1 & W1 & G1), E2 as (R2 & W2 & G2), E3 as (R3 & W3 & G3).
  cbn. split; [|split; congruence].
  intros name. cbn. rewrite smap_find_insert. rewrite G3, G2, G1.
  destruct (String.eqb_spec name (string_of_bytes ss)) as [->|Hne].
  - apply lookup_insert_eq.
  - rewrite lookup_insert_ne by congruence. apply Hm.
Qed.

Lemma read_vars_mirrors (n : nat) (gv gv' : Section_GV) (f f' : Kero_file) :
  read_vars n gv f = Ok (gv', f') -> mirrors f gv ->
  mirrors f' gv' /\ is_reader f' = is_reader f /\ is_writer f' = is_writer f.
Proof.
  revert gv f. induction n as [|n IH]; intros gv f H Hm; cbn [read_vars] in H.
  - injection H as <- <-. auto.
  - destruct (read_var gv f) as [[gv1 f1]|] eqn:E; [|discriminate].
    cbn [mbind result_bind] in H.
    destruct (read_var_mirrors _ _ _ _ E Hm) as (Hm1 & R1 & W1).
    destruct (IH _ _ H Hm1) as (Hm2 & R2 & W2). split; [exact Hm2|split; congruence].
Qed.

Lemma Section_new_flags (f f' : Kero_file) (beginning : Z) :
  Section_new f = Ok (beginning, f') -> is_writer f = false ->
  is_reader f' = is_reader f /\ is_writer f' = false.
Proof.
  unfold Section_new. intros H Hw.
  destruct (negb (header_over f) && footer_discovery_ended f).
  - unfold complete_header in H. destruct (header_over f).
    + cbn in H. injection H as _ <-. auto.
    + rewrite Hw in H. destruct (is_reader f) eqn:Er.
      * unfold jump in H. destruct (jump_to _ false f) as [f1|] eqn:Ej; [|discriminate].
        cbn in H. injection H as _ <-. apply jump_to_moved, moved_flags in Ej.
        cbn. destruct Ej as (R & W & _). split; congruence.
      * cbn in H. injection H as _ <-. cbn. auto.
  - cbn in H. injection H as _ <-. auto.
Qed.

(** After a variable section has been read, the global variables are
    exactly the variables of that section. *)
Lemma Section_GV_new_mirrors (f f' : Kero_file) (gv : Section_GV) :
  is_reader f = true -> is_writer f = false ->
  Section_GV_new f = Ok (gv, f') ->
  mirrors f' gv /\ is_reader f' = true /\ is_writer f' = false.
Proof.
  intros Hr Hw H. unfold Section_GV_new in H.
  destruct (Section_new f) as [[beginning f1]|] eqn:E1; [|discriminate].
  bind_ok in H.
  destruct (Section_new_flags _ _ _ E1 Hw) as (R1 & W1).
  set (f1' := set_global_vars ∅ f1) in H.
  assert (R1' : is_reader f1' = true) by (rewrite <- Hr, <- R1; reflexivity).
  assert (W1' : is_writer f1' = false) by exact W1.
  assert (G1' : global_vars f1' = ∅) by reflexivity.
  clearbody f1'. rewrite R1' in H.
  destruct (read_section _ f1') as [[gv4 f4]|] eqn:E; [|discriminate].
  bind_ok in H.
  unfold read_section in E.
  destruct (read 1 f1') as [[b1 f2]|] eqn:E2; [|discriminate]. bind_ok in E.
  destruct (negb _); [discriminate|].
  destruct (read 8 f2) as [[b2 f3]|] eqn:E3; [|discriminate]. bind_ok in E.
  apply read_moved, moved_flags in E2. apply read_moved, moved_flags in E3.
  destruct E2 as (R2 & W2 & G2), E3 as (R3 & W3 & G3).
  match type of E with
  | read_vars ?n ?g _ = _ =>
      set (n0 := n) in E; clearbody n0; set (g0 := g) in E;
      assert (Hm3 : mirrors f3 g0)
        by (intros name; rewrite G3, G2, G1'; apply lookup_empty);
      clearbody g0
  end.
  destruct (read_vars_mirrors n0 g0 gv4 f3 f4 E Hm3) as (Hm4 & R4 & W4).
  assert (W : is_writer f4 = false) by congruence.
  rewrite W in H. bind_ok in H. injection H as <- <-.
  split; [exact Hm4|]. split; congruence.
Qed.

(** C4 does not hold of the code.  The file holds [v{k = 5}] followed by
    [v{max = 2}], and the reader processes one section after the other.
    The constructor of [Section_GV] clears the map of the container before
    it reads a section, so after the second section the map binds [max]
    to 2 and nothing else: [k], which only the first section defines and
    which was bound to 5 after the first section, is not bound any more,
    where the claim says that it keeps its value. *)
Lemma global_vars_forget_earlier_sections :
  (d ← two_GV_sections_file;
   '(gvs1, f1) ← read_GV_sections 1 (reader_on d first_section_offset);
   '(gvs2, f2) ← read_GV_sections 1 f1;
   Ok (map gv_vars (gvs1 ++ gvs2), global_vars f1 !! "k",
       global_vars f2 !! "k", global_vars f2 !! "max"))
  = Ok ([[("k", 5)]; [("max", 2)]], Some 5, None, Some 2).
Proof. vm_compute. reflexivity. Qed.

(** ** [Kero_file::write] appends to the content *)

Lemma io_only_refl (f : Kero_file) : io_only f f.
Proof.
  exists (fs f), (current_position f), (writing_started f), (file_buffer f), (file_size f),
    (buffer_size f), (next_free f), (tmp_closed f).
  destruct f; reflexivity.
Qed.

Lemma io_only_trans (f1 f2 f3 : Kero_file) : io_only f1 f2 -> io_only f2 f3 -> io_only f1 f3.
Proof.
  intros (s1 & c1 & w1 & b1 & z1 & y1 & n1 & t1 & ->) (s2 & c2 & w2 & b2 & z2 & y2 & n2 & t2 & ->).
  exists s2, c2, w2, b2, z2, y2, n2, t2. reflexivity.
Qed.

Lemma io_only_build (f : Kero_file) s cp ws buf fsz bsz nf tc :
  io_only f
    (Build_Kero_file s cp ws buf fsz bsz (max_buffer_size f) nf (delete_on_destruction f) tc
       (major_version f) (minor_version f) (uniqueness f) (canonicity f) (header_over f)
       (footer_discovery_ended f) (index_discovery_ended f) (end_position f) (is_writer f)
       (is_reader f) (footer f) (index f) (indexed f) (section_positions f) (encoding f)
       (metadata_size f) (global_vars f) (mini_list f) (mini_pos f)).
Proof. exists s, cp, ws, buf, fsz, bsz, nf, tc. reflexivity. Qed.

Lemma io_only_set_fs v (f : Kero_file) : io_only f (set_fs v f).
Proof. apply io_only_build. Qed.
Lemma io_only_set_current_position v (f : Kero_file) : io_only f (set_current_position v f).
Proof. apply io_only_build. Qed.
Lemma io_only_set_writing_started v (f : Kero_file) : io_only f (set_writing_started v f).
Proof. apply io_only_build. Qed.
Lemma io_only_set_file_buffer v (f : Kero_file) : io_only f (set_file_buffer v f).
Proof. apply io_only_build. Qed.
Lemma io_only_set_file_size v (f : Kero_file) : io_only f (set_file_size v f).
Proof. apply io_only_build. Qed.
Lemma io_only_set_buffer_size v (f : Kero_file) : io_only f (set_buffer_size v f).
Proof. apply io_only_build. Qed.
Lemma io_only_set_next_free v (f : Kero_file) : io_only f (set_next_free v f).
Proof. apply io_only_build. Qed.
Lemma io_only_set_tmp_closed v (f : Kero_file) : io_only f (set_tmp_closed v f).
Proof. apply io_only_build. Qed.

Ltac io_only_tac :=
  repeat first
    [ apply io_only_refl | assumption | apply io_only_build
    | eapply io_only_trans;
      [|first [ apply io_only_set_fs
              | apply io_only_set_current_position
              | apply io_only_set_writing_started
              | apply io_only_set_file_buffer
              | apply io_only_set_file_size
              | apply io_only_set_buffer_size
              | apply io_only_set_next_free
              | apply io_only_set_tmp_closed ]] ].

Lemma moved_io_only (f f' : Kero_file) : moved f f' -> io_only f f'.
Proof.
  intros (s & c & ->).
  exists s, c, (writing_started f), (file_buffer f), (file_size f),
    (buffer_size f), (next_free f), (tmp_closed f).
  destruct f; reflexivity.
Qed.

Lemma io_only_fields (f f' : Kero_file) :
  io_only f f' ->
  is_writer f' = is_writer f /\ is_reader f' = is_reader f /\ indexed f' = indexed f
  /\ mini_list f' = mini_list f /\ mini_pos f' = mini_pos f
  /\ max_buffer_size f' = max_buffer_size f /\ header_over f' = header_over f.
Proof. intros (s & c & w & b & z & y & n & t & ->). repeat split. Qed.

Lemma length_zeros (n : Z) : length (zeros n) = Z.to_nat n.
Proof. unfold zeros. apply length_replicate. Qed.

Lemma memset_spec (a : list Z) (base c n : Z) :
  0 <= base -> 0 <= n ->
  length (memset a base c n) = length a
  /\ take (Z.to_nat base) (memset a base c n) = take (Z.to_nat base) a.
Proof.
  intros Hb Hn. unfold memset.
  pose proof (for_loop_ind (fun _ d => length d = length a
                /\ take (Z.to_nat base) d = take (Z.to_nat base) a) n) as Hind.
  apply Hind; clear Hind; [lia|auto|].
  intros i acc Hi [Hlen Htake]. split.
  - rewrite length_wr. exact Hlen.
  - unfold wr. rewrite take_insert_ge by lia. exact Htake.
Qed.

Lemma fstream_write_at_end (bytes : list Z) (s : fstream) :
  fs_open s = true -> fs_fail s = false -> fs_pos s = Z.of_nat (length (disk s)) ->
  fstream_write bytes s
  = Build_fstream (disk s ++ bytes) true false (fs_pos s + Z.of_nat (length bytes)) (fs_in s).
Proof.
  intros Ho Hf Hp. unfold fstream_write, fs_usable. rewrite Ho, Hf. cbn [negb andb].
  rewrite Hp, Nat2Z.id. f_equal.
  rewrite take_ge by lia. rewrite drop_ge by lia.
  replace (length (disk s) - length (disk s))%nat with 0%nat by lia.
  cbn [replicate app]. rewrite app_nil_r. reflexivity.
Qed.

Lemma append_ok_writer_ok (f : Kero_file) : append_ok f -> writer_ok f.
Proof.
  intros [Hw Hd Hb Hbs Hs Hbound Hst Hp]. constructor; try assumption.
  - lia.
  - intros Hpos. destruct (writing_started f); [|lia].
    destruct (tmp_closed f); tauto.
Qed.

(** The doubling loop terminates and keeps the content. *)
Lemma resize_buffer_spec (fuel : nat) (size : Z) (f : Kero_file) :
  append_ok f -> max_buffer_size f <= buffer_size f * 2 ^ Z.of_nat fuel ->
  exists f',
    resize_buffer fuel size f = Some f'
    /\ append_ok f' /\ content f' = content f
    /\ (exists buf bsz, f' = set_file_buffer buf (set_buffer_size bsz f))
    /\ (size <= buffer_size f' - next_free f' \/ max_buffer_size f' <= buffer_size f').
Proof.
  revert f. induction fuel as [|fuel IH]; intros f Hok Hmax.
  - pose proof Hok as [Hw Hd Hb Hbs Hs Hbound Hst Hp].
    cbn [resize_buffer]. rewrite u64_small by lia.
    change (2 ^ Z.of_nat 0) with 1 in Hmax.
    destruct (buffer_size f <? max_buffer_size f) eqn:E; [apply Z.ltb_lt in E; lia|].
    rewrite andb_false_r. exists f. split; [reflexivity|]. split; [exact Hok|].
    split; [reflexivity|]. split; [|apply Z.ltb_ge in E; lia].
    exists (file_buffer f), (buffer_size f). destruct f; reflexivity.
  - pose proof Hok as [Hw Hd Hb Hbs Hs Hbound Hst Hp].
    cbn [resize_buffer]. rewrite (u64_small (buffer_size f - next_free f)) by lia.
    destruct ((buffer_size f - next_free f <? size) && (buffer_size f <? max_buffer_size f))
      eqn:E.
    + apply andb_true_iff in E. destruct E as [E1 E2].
      apply Z.ltb_lt in E1. apply Z.ltb_lt in E2.
      rewrite (u64_small (buffer_size f * 2)) by lia.
      rewrite (u64_small (buffer_size f * 2 - next_free f)) by lia.
      set (nb := memset (memcpy (zeros (buffer_size f * 2)) 0 (file_buffer f) 0 (next_free f))
                   (next_free f) 0 (buffer_size f * 2 - next_free f)).
      destruct (memset_spec (memcpy (zeros (buffer_size f * 2)) 0 (file_buffer f) 0 (next_free f))
                  (next_free f) 0 (buffer_size f * 2 - next_free f)) as [Hlen Htake]; try lia.
      fold nb in Hlen, Htake.
      rewrite memcpy_app in Hlen, Htake by (rewrite ?length_zeros; lia).
      assert (Hnb : Z.of_nat (length nb) = buffer_size f * 2).
      { rewrite Hlen. len_simpl. rewrite length_zeros. lia. }
      assert (Htk : take (Z.to_nat (next_free f)) nb = take (Z.to_nat (next_free f)) (file_buffer f)).
      { rewrite Htake. change (Z.to_nat 0) with 0%nat. rewrite take_0. cbn [app].
        rewrite take_app_le by (len_simpl; lia). apply take_ge. len_simpl. lia. }
      set (f1 := set_file_buffer nb (set_buffer_size (buffer_size f * 2) f)).
      assert (Hok1 : append_ok f1).
      { constructor; cbn; try assumption; lia. }
      destruct (IH f1 Hok1) as (f' & Hr & Hok' & Hc & (buf & bsz & Hshape) & Hdone).
      { cbn. rewrite Nat2Z.inj_succ, Z.pow_succ_r in Hmax by lia. lia. }
      exists f'. split; [exact Hr|]. split; [exact Hok'|]. split; [|split].
      * rewrite Hc. unfold content. cbn. rewrite Htk. reflexivity.
      * exists buf, bsz. rewrite Hshape. reflexivity.
      * exact Hdone.
    + exists f. split; [reflexivity|]. split; [exact Hok|]. split; [reflexivity|]. split.
      * exists (file_buffer f), (buffer_size f). destruct f; reflexivity.
      * apply andb_false_iff in E. destruct E as [E|E];
          [apply Z.ltb_ge in E|apply Z.ltb_ge in E]; lia.
Qed.

(** [write] succeeds, appends the bytes to the content, and keeps the
    invariant of an appending writer. *)
Lemma write_spec (bytes : list Z) (size : Z) (f : Kero_file) :
  append_ok f -> 0 <= size <= Z.of_nat (length bytes) ->
  file_size f + next_free f + size < 2 ^ 63 ->
  exists f',
    write bytes size f = Ok f'
    /\ append_ok f'
    /\ content f' = content f ++ take (Z.to_nat size) bytes
    /\ io_only f f'.
Proof.
  intros Hok Hsize Hbound'.
  assert (H64 : 2 ^ 63 < 2 ^ 64) by reflexivity.
  assert (Hw : is_writer f = true) by apply Hok.
  unfold write. rewrite Hw. cbn [negb].
  destruct (resize_buffer_spec 65 size f Hok) as (f0 & Hr & Hok0 & Hc0 & (buf0 & bsz0 & Hshape) & _).
  { destruct Hok as [_ _ _ _ Hs _ _ _]. change (2 ^ Z.of_nat 65) with (2 ^ 65). lia. }
  rewrite Hr.
  assert (Hio0 : io_only f f0).
  { exists (fs f), (current_position f), (writing_started f), buf0, (file_size f), bsz0,
      (next_free f), (tmp_closed f). rewrite Hshape. destruct f; reflexivity. }
  assert (Hfs0 : file_size f0 = file_size f) by (rewrite Hshape; reflexivity).
  assert (Hnf0 : next_free f0 = next_free f) by (rewrite Hshape; reflexivity).
  assert (Hcp0 : current_position f0 = current_position f) by (rewrite Hshape; reflexivity).
  clear Hshape Hr.
  pose proof Hok0 as [Hw0 Hd Hb Hbs Hs Hbound Hst Hp].
  assert (Hfs : 0 <= file_size f0) by (destruct (writing_started f0); lia).
  assert (Hlt : length (take (Z.to_nat size) bytes) = Z.to_nat size)
    by (apply length_take_le; lia).
  rewrite (u64_small (buffer_size f0 - next_free f0)) by lia.
  rewrite <- Hc0.
  destruct (size <=? buffer_size f0 - next_free f0) eqn:E.
  - (* the bytes fit in the buffer *)
    apply Z.leb_le in E. bind_ok. kf_simpl. u64_simpl.
    rewrite memcpy_app by lia.
    eexists. split; [reflexivity|]. split; [|split].
    + constructor; cbn; try assumption; try lia.
      len_simpl. lia.
    + unfold content. cbn. rewrite <- app_assoc. f_equal.
      replace (Z.to_nat (next_free f0 + size))
        with (length (take (Z.to_nat (next_free f0)) (file_buffer f0)
                ++ take (Z.to_nat size) bytes)) by (len_simpl; lia).
      rewrite app_assoc. apply take_app_length.
    + eapply io_only_trans; [exact Hio0|]. io_only_tac.
  - (* the buffer and the bytes go to the disk *)
    apply Z.leb_gt in E.
    assert (Hlb : length (take (Z.to_nat (next_free f0)) (file_buffer f0))
                  = Z.to_nat (next_free f0)) by (apply length_take_le; lia).
    destruct (writing_started f0) eqn:Ews; cbn [negb].
    + assert (Hre : exists s1 tc1,
                 (if tmp_closed f0 then reopen f0 else f0) = set_fs s1 (set_tmp_closed tc1 f0)
                 /\ fs_open s1 = true /\ fs_fail s1 = false
                 /\ fs_pos s1 = Z.of_nat (length (disk s1)) /\ disk s1 = disk (fs f0)
                 /\ tc1 = false).
      { destruct (tmp_closed f0) eqn:Etc.
        - unfold reopen, fstream_open_ate. rewrite Etc, Hst.
          eexists _, _. split; [reflexivity|]. cbn. auto.
        - destruct Hst as (Ho & Hf & Hpos). exists (fs f0), false.
          split; [rewrite <- Etc; destruct f0; reflexivity|].
          repeat split; try assumption. lia. }
      destruct Hre as (s1 & tc1 & -> & Ho1 & Hf1 & Hp1 & Hd1 & ->). cbn.
      rewrite (fstream_write_at_end _ s1 Ho1 Hf1 Hp1).
      rewrite fstream_write_at_end by (cbn; try reflexivity; len_simpl; lia).
      cbn. u64_simpl.
      eexists. split; [reflexivity|]. split; [|split].
      * constructor; cbn; try assumption; try lia.
        -- rewrite Ews. len_simpl. rewrite Hd1. lia.
        -- rewrite Ews. repeat split. rewrite Hp1, Hd1. len_simpl. lia.
      * unfold content. cbn. rewrite take_0, app_nil_r, Hd1.
        rewrite (take_ge (disk (fs f0))) by lia.
        apply take_ge. len_simpl. lia.
      * eapply io_only_trans; [exact Hio0|]. io_only_tac.
    + destruct Hst as [Hst Htc]. unfold fstream_open_out. rewrite Hst.
      kf_simpl.
      rewrite (fstream_write_at_end (take (Z.to_nat (next_free f0)) (file_buffer f0))
                 (Build_fstream [] true false 0 false)) by reflexivity.
      kf_simpl.
      rewrite fstream_write_at_end by (cbn; try reflexivity; len_simpl; lia).
      cbn. u64_simpl.
      eexists. split; [reflexivity|]. split; [|split].
      * constructor; cbn; try assumption; try lia.
        -- len_simpl. lia.
        -- rewrite Htc. repeat split. len_simpl. lia.
      * unfold content. cbn. rewrite take_0, app_nil_r. rewrite Hd. cbn [Z.to_nat take app].
        apply take_ge. len_simpl. lia.
      * eapply io_only_trans; [exact Hio0|]. io_only_tac.
Qed.

Lemma write_position (bytes : list Z) (size : Z) (f f' : Kero_file) :
  append_ok f -> write bytes size f = Ok f' -> tellp f' = u64 (tellp f + size).
Proof.
  intros Hok H. unfold write in H.
  destruct (negb (is_writer f)); [discriminate|].
  destruct (resize_buffer 65 size f) as [f0|] eqn:Er; [|discriminate].
  assert (Hcp : current_position f0 = current_position f).
  { destruct (resize_buffer_spec 65 size f Hok) as (f1 & Hr & _ & _ & (b & z & ->) & _).
    - destruct Hok as [_ _ _ _ Hs _ _ _]. change (2 ^ Z.of_nat 65) with (2 ^ 65). lia.
    - rewrite Hr in Er. injection Er as <-. reflexivity. }
  destruct (size <=? _).
  - bind_ok in H. injection H as <-. cbn. unfold tellp. rewrite Hcp. reflexivity.
  - destruct (if fs_fail _ then _ else _) as [f1|] eqn:E; [|discriminate].
    bind_ok in H. injection H as <-. cbn.
    destruct (fs_fail _); [discriminate|]. injection E as <-. cbn.
    destruct (negb (writing_started f0)); [cbn; unfold tellp; congruence|].
    destruct (tmp_closed f0) eqn:Etc; [unfold reopen; rewrite Etc|];
      cbn; unfold tellp; congruence.
Qed.

(** *** Frame lemmas: buffered output touches the output state only *)

Lemma resize_buffer_io_only (fuel : nat) (size : Z) (f f' : Kero_file) :
  resize_buffer fuel size f = Some f' -> io_only f f'.
Proof.
  revert f. induction fuel as [|fuel IH]; intros f H; cbn [resize_buffer] in H.
  - destruct (_ && _); [discriminate|]. injection H as <-. apply io_only_refl.
  - destruct (_ && _).
    + apply IH in H. eapply io_only_trans; [|exact H]. io_only_tac.
    + injection H as <-. apply io_only_refl.
Qed.

Lemma reopen_io_only (f : Kero_file) : io_only f (reopen f).
Proof. unfold reopen. destruct (tmp_closed f); io_only_tac. Qed.

Lemma write_io_only (bytes : list Z) (size : Z) (f f' : Kero_file) :
  write bytes size f = Ok f' -> io_only f f'.
Proof.
  unfold write. intros H.
  destruct (negb (is_writer f)); [discriminate|].
  destruct (resize_buffer 65 size f) as [f0|] eqn:Er; [|discriminate].
  apply resize_buffer_io_only in Er.
  destruct (size <=? _).
  - bind_ok in H. injection H as <-. eapply io_only_trans; [exact Er|]. io_only_tac.
  - destruct (fs_fail _); [discriminate|]. bind_ok in H. injection H as <-.
    eapply io_only_trans; [exact Er|].
    destruct (negb (writing_started f0)); [io_only_tac|].
    destruct (tmp_closed f0).
    + eapply io_only_trans; [apply reopen_io_only|]. io_only_tac.
    + io_only_tac.
Qed.

Lemma write_at_fuel_io_only (fuel : nat) (bytes : list Z) (size position : Z)
    (f f' : Kero_file) :
  write_at_fuel fuel bytes size position f = Ok f' -> io_only f f'.
Proof.
  revert bytes size position f f'.
  induction fuel as [|fuel IH]; intros bytes size position f f' H; [discriminate|].
  rewrite write_at_fuel_unfold in H.
  destruct (negb (is_writer f)); [discriminate|].
  destruct (_ <? position); [discriminate|].
  destruct (position <? file_size f).
  - destruct (_ <=? file_size f).
    + cbv zeta in H. destruct (fs_fail _); [discriminate|]. injection H as <-.
      destruct (tmp_closed f).
      * eapply io_only_trans; [apply reopen_io_only|]. io_only_tac.
      * io_only_tac.
    + cbv zeta in H.
      destruct (write_at_fuel fuel bytes _ position f) as [f1|] eqn:E1; [|discriminate].
      bind_ok in H. eapply io_only_trans; [eapply IH; exact E1|eapply IH; exact H].
  - cbv zeta in H. destruct (_ <=? next_free f).
    + injection H as <-. io_only_tac.
    + apply write_io_only in H. eapply io_only_trans; [|exact H]. io_only_tac.
Qed.

Lemma write_at_io_only (bytes : list Z) (size position : Z) (f f' : Kero_file) :
  write_at bytes size position f = Ok f' -> io_only f f'.
Proof. apply write_at_fuel_io_only. Qed.

Lemma jump_to_content (position : Z) (from_end : bool) (f f' : Kero_file) :
  jump_to position from_end f = Ok f' -> content f' = content f /\ io_only f f'.
Proof.
  intros H. split; [|apply moved_io_only; eapply jump_to_moved; exact H].
  unfold jump_to in H. destruct (_ <? position); [discriminate|]. injection H as <-.
  unfold content. kf_simpl. f_equal. f_equal.
  destruct (_ <? file_size f); unfold fstream_seek_end, fstream_seek, fstream_failed;
    destruct (fs_usable (fs f)); reflexivity.
Qed.

(** ** The minimal perfect hash table *)

Section MPHT_lookup.
Context (pthash : MPH_library).

(** After [build], [find] returns for every key the value registered
    with it. *)
Lemma MPHT_build_find (keys values : list Z) (t : MPHT pthash) :
  NoDup keys -> length keys = length values -> is_mph pthash keys ->
  exists t',
    MPHT_build pthash keys values t = Ok t'
    /\ forall i k v, keys !! i = Some k -> values !! i = Some v ->
                     MPHT_find pthash k t' = v.
Proof.
  intros Hnd Hlen [Hrange Hinj]. unfold MPHT_build.
  rewrite Hlen, Nat.eqb_refl. cbn [negb]. rewrite <- Hlen.
  eexists. split; [reflexivity|].
  set (h := build_in_internal_memory pthash keys) in *.
  set (n := Z.of_nat (length (resize (length keys) 0 (hashtable t)))).
  assert (Hn : n = Z.of_nat (length keys)) by (unfold n; rewrite length_resize; reflexivity).
  unfold MPHT_find. cbn [hashtable mphf]. fold h.
  pose proof (for_loop_ind
    (fun c tab => length tab = length keys
       /\ forall i k v, Z.of_nat i < c -> keys !! i = Some k -> values !! i = Some v ->
                        rd tab (pthash_eval pthash h k) = v) n
    (fun i tab => wr tab (pthash_eval pthash h (rd keys i)) (rd values i))
    (resize (length keys) 0 (hashtable t))) as Hind.
  destruct Hind as [_ Hfind]; [lia| |
    |intros i k v Hk Hv; apply (Hfind i k v); [|exact Hk|exact Hv]].
  - split; [apply length_resize|]. intros i k v Hi. lia.
  - intros c tab Hc [Hl IH]. split; [rewrite length_wr; exact Hl|].
    intros i k v Hi Hk Hv.
    assert (Hkin : k ∈ keys) by (eapply list_elem_of_lookup_2; exact Hk).
    destruct (lookup_lt_is_Some_2 keys (Z.to_nat c) ltac:(lia)) as [kc Hkc].
    assert (Hkcin : kc ∈ keys) by (eapply list_elem_of_lookup_2; exact Hkc).
    assert (Hrc : rd keys c = kc) by (unfold rd; rewrite Hkc; reflexivity).
    rewrite Hrc.
    destruct (decide (Z.of_nat i = c)) as [Heq|Hne].
    + assert (Hic : i = Z.to_nat c) by lia. rewrite Hic in Hk, Hv.
      assert (Hkk : kc = k) by congruence. rewrite Hkk.
      rewrite rd_wr_eq by (pose proof (Hrange k Hkin); lia).
      unfold rd. rewrite Hv. reflexivity.
    + rewrite rd_wr_ne.
      * apply (IH i k v); [lia|exact Hk|exact Hv].
      * apply Hrange, Hkcin.
      * apply Hrange, Hkin.
      * intros Heq. apply Hinj in Heq; [|exact Hkcin|exact Hkin]. rewrite Heq in Hkc.
        pose proof (NoDup_lookup keys _ _ _ Hnd Hkc Hk). lia.
  - apply lookup_lt_Some in Hk. lia.
Qed.

Lemma reg_sm_all_spec (keys values : list Z) (sh : Section_Hashtable pthash) :
  length keys = length values ->
  sh_minimizers (reg_sm_all pthash keys values sh) = sh_minimizers sh ++ keys
  /\ sh_positions (reg_sm_all pthash keys values sh) = sh_positions sh ++ values
  /\ sh_mpht (reg_sm_all pthash keys values sh) = sh_mpht sh.
Proof.
  revert values sh. induction keys as [|k keys IH]; intros [|v values] sh Hlen;
    try discriminate; cbn [reg_sm_all].
  - rewrite !app_nil_r. auto.
  - destruct (IH values (reg_sm pthash k v sh)) as (H1 & H2 & H3); [cbn in Hlen; lia|].
    rewrite H1, H2, H3. cbn. rewrite <- !app_assoc. auto.
Qed.

Lemma complete_header_mini (f f' : Kero_file) :
  complete_header f = Ok f' ->
  mini_list f' = mini_list f /\ mini_pos f' = mini_pos f /\ is_writer f' = is_writer f.
Proof.
  unfold complete_header. intros H. destruct (header_over f); [injection H as <-; auto|].
  destruct (is_reader f).
  - unfold jump in H. destruct (jump_to _ _ f) as [f1|] eqn:E; [|discriminate].
    bind_ok in H. injection H as <-. apply jump_to_moved, moved_io_only, io_only_fields in E.
    kf_simpl. tauto.
  - destruct (is_writer f) eqn:Ew.
    + unfold write_metadata in H. destruct (header_over f); [discriminate|].
      destruct (write _ 4 f) as [f1|] eqn:E1; [|discriminate]. bind_ok in H.
      destruct (write [] 0 f1) as [f2|] eqn:E2; [|discriminate]. bind_ok in H.
      bind_ok in H. injection H as <-.
      apply write_io_only, io_only_fields in E1. apply write_io_only, io_only_fields in E2.
      kf_simpl. destruct E1 as (? & ? & ? & ? & ? & _), E2 as (? & ? & ? & ? & ? & _).
      repeat split; congruence.
    + bind_ok in H. injection H as <-. auto.
Qed.

Lemma Section_new_mini (f f' : Kero_file) (beginning : Z) :
  Section_new f = Ok (beginning, f') ->
  mini_list f' = mini_list f /\ mini_pos f' = mini_pos f /\ is_writer f' = is_writer f.
Proof.
  unfold Section_new. intros H. destruct (_ && _).
  - destruct (complete_header f) as [f1|] eqn:E; [|discriminate]. bind_ok in H.
    injection H as _ <-. apply complete_header_mini. exact E.
  - bind_ok in H. injection H as _ <-. auto.
Qed.

(** The table that [write_footer] builds answers every registered
    minimizer with the position registered with it. *)
Lemma write_footer_hashtable_find (f f' : Kero_file) (sh : Section_Hashtable pthash)
    (i : nat) (key off : Z) :
  is_writer f = true -> is_reader f = false ->
  NoDup (mini_list f) -> is_mph pthash (mini_list f) ->
  mini_list f !! i = Some key -> mini_pos f !! i = Some off ->
  write_footer_hashtable pthash f = Ok (sh, f') ->
  MPHT_find pthash key (sh_mpht sh) = off.
Proof.
  intros Hw Hr Hnd Hmph Hk Hv H. unfold write_footer_hashtable in H.
  destruct (length (mini_list f) =? length (mini_pos f))%nat eqn:El; [|discriminate].
  apply Nat.eqb_eq in El. cbn [negb] in H.
  unfold Section_Hashtable_new in H.
  destruct (Section_new f) as [[beginning f1]|] eqn:E1; [|discriminate]. bind_ok in H.
  destruct (Section_new_mini _ _ _ E1) as (Hl1 & Hp1 & Hw1).
  assert (Hr1 : is_reader f1 = false).
  { revert E1. unfold Section_new. destruct (_ && _).
    - unfold complete_header. destruct (header_over f); [intros E; injection E as _ <-; exact Hr|].
      rewrite Hr, Hw. unfold write_metadata. destruct (header_over f); [discriminate|].
      destruct (write _ 4 f) as [g1|] eqn:G1; [|discriminate]. bind_ok.
      destruct (write [] 0 g1) as [g2|] eqn:G2; [|discriminate]. bind_ok. bind_ok.
      intros E; injection E as _ <-. kf_simpl.
      apply write_io_only, io_only_fields in G1. apply write_io_only, io_only_fields in G2.
      destruct G1 as (_ & ? & _), G2 as (_ & ? & _). congruence.
    - intros E; injection E as _ <-. exact Hr. }
  rewrite Hr1 in H. bind_ok in H. rewrite Hl1, Hp1 in H.
  unfold Section_Hashtable_close in H. rewrite Hw1, Hw in H.
  destruct (reg_sm_all_spec (mini_list f) (mini_pos f)
              (Build_Section_Hashtable pthash beginning (MPHT_new pthash) [] [] 0) El)
    as (Hm & Hp & Ht).
  cbn [sh_minimizers sh_positions sh_mpht app] in Hm, Hp, Ht.
  rewrite Hm, Hp, Ht in H.
  destruct (bool_decide (mini_list f = [])) eqn:Ee.
  - apply bool_decide_eq_true in Ee. rewrite Ee in Hk. discriminate.
  - cbn [negb andb] in H. rewrite El, Nat.eqb_refl in H. cbn [negb] in H.
    destruct (MPHT_build_find (mini_list f) (mini_pos f) (MPHT_new pthash) Hnd El Hmph)
      as (t' & Hb & Hfind).
    rewrite Hb in H. bind_ok in H.
    repeat match type of H with
           | (?w ≫= _) = _ => destruct w; [bind_ok in H|discriminate]
           end.
    injection H as <- <-. cbn [sh_mpht]. apply (Hfind i); assumption.
Qed.

End MPHT_lookup.

(** ** Closing a minimizer section registers it *)

Ltac sm_simpl :=
  cbn [sm_beginning sm_nb_kmers_bytes sm_nb_blocks sm_remaining_blocks
      n_value_buffer m_idx_buffer seq_buffer data_buffer cur_skmer_idx last_n_pos
      last_m_idx_pos last_seq_pos last_data_pos sm_k sm_max sm_data_size sm_m minimizer
      nb_bytes_mini mini_pos_bytes n_col_offset m_idx_col_offset seq_col_offset
      data_col_offset start_pos set_sm_nb_blocks set_sm_remaining_blocks set_n_value_buffer
      set_m_idx_buffer set_seq_buffer set_data_buffer set_cur_skmer_idx set_last_n_pos
      set_last_m_idx_pos set_last_seq_pos set_last_data_pos set_minimizer set_n_col_offset
      set_m_idx_col_offset set_seq_col_offset set_data_col_offset].
Ltac sm_simpl_in H :=
  cbn [sm_beginning sm_nb_kmers_bytes sm_nb_blocks sm_remaining_blocks
      n_value_buffer m_idx_buffer seq_buffer data_buffer cur_skmer_idx last_n_pos
      last_m_idx_pos last_seq_pos last_data_pos sm_k sm_max sm_data_size sm_m minimizer
      nb_bytes_mini mini_pos_bytes n_col_offset m_idx_col_offset seq_col_offset
      data_col_offset start_pos set_sm_nb_blocks set_sm_remaining_blocks set_n_value_buffer
      set_m_idx_buffer set_seq_buffer set_data_buffer set_cur_skmer_idx set_last_n_pos
      set_last_m_idx_pos set_last_seq_pos set_last_data_pos set_minimizer set_n_col_offset
      set_m_idx_col_offset set_seq_col_offset set_data_col_offset] in H.

Lemma length_store_big_endian (size data : Z) :
  length (store_big_endian size data) = Z.to_nat size.
Proof. unfold store_big_endian. rewrite length_map, length_seq. reflexivity. Qed.

Lemma append_ok_end (f : Kero_file) :
  append_ok f -> Z.of_nat (length (content f)) = tellp f /\ tellp f = file_size f + next_free f.
Proof.
  intros [Hw Hd Hb Hbs Hs Hbound Hst Hp]. unfold tellp. split; [|exact Hp].
  rewrite length_content; [lia| |lia]. destruct (writing_started f); lia.
Qed.

(** One step of an appending writer. *)
Lemma write_step (bytes : list Z) (size : Z) (f : Kero_file) :
  append_ok f -> 0 <= size -> Z.of_nat (length bytes) = size -> tellp f + size < 2 ^ 63 ->
  exists f',
    write bytes size f = Ok f'
    /\ append_ok f'
    /\ content f' = content f ++ bytes
    /\ io_only f f'
    /\ tellp f' = tellp f + size.
Proof.
  intros Hok Hs Hlen Hb.
  destruct (append_ok_end f Hok) as [He Ht].
  destruct (write_spec bytes size f Hok) as (f' & Hw & Hok' & Hc & Hio); [lia|lia|].
  exists f'. rewrite take_ge in Hc by lia.
  split; [exact Hw|]. split; [exact Hok'|]. split; [exact Hc|]. split; [exact Hio|].
  destruct (append_ok_end f' Hok') as [He' _].
  rewrite <- He', Hc, length_app. lia.
Qed.

Lemma rd_content_kept (c c' bytes : list Z) (i : Z) :
  c' = c ++ bytes -> 0 <= i < Z.of_nat (length c) -> rd c' i = rd c i.
Proof. intros -> Hi. apply rd_app_l. exact Hi. Qed.

Lemma section_open_write (f0 f : Kero_file) (written : Z) (bytes : list Z) (size : Z) :
  section_open f0 f written -> 0 < written -> 0 <= tellp f0 ->
  0 <= size -> Z.of_nat (length bytes) = size -> tellp f0 + written + size < 2 ^ 63 ->
  exists f',
    write bytes size f = Ok f' /\ section_open f0 f' (written + size)
    /\ tellp f' = tellp f + size.
Proof.
  intros [Hok Htag Hend Hio] Hw H0 Hs Hlen Hb.
  destruct (write_step bytes size f Hok Hs Hlen ltac:(lia)) as (f' & Hwr & Hok' & Hc & Hio' & Ht).
  exists f'. split; [exact Hwr|]. split; [|exact Ht]. constructor.
  - exact Hok'.
  - rewrite (rd_content_kept (content f) _ bytes _ Hc); [exact Htag|].
    destruct (append_ok_end f Hok) as [He _]. lia.
  - lia.
  - eapply io_only_trans; eassumption.
Qed.

Lemma section_open_first (f0 : Kero_file) :
  append_ok f0 -> tellp f0 + 1 < 2 ^ 63 ->
  exists f1, write [char "M"] 1 f0 = Ok f1 /\ section_open f0 f1 1 /\ tellp f1 = tellp f0 + 1.
Proof.
  intros Hok Hb.
  destruct (write_step [char "M"] 1 f0 Hok ltac:(lia) eq_refl Hb)
    as (f1 & Hw & Hok1 & Hc & Hio & Ht).
  exists f1. split; [exact Hw|]. split; [|exact Ht]. constructor; try assumption.
  destruct (append_ok_end f0 Hok) as [He _].
  rewrite Hc, rd_app_r by lia. rewrite He, Z.sub_diag. reflexivity.
Qed.

(** Overwriting bytes after the tag of an open section. *)
Lemma tag_kept_by_write_at (f0 f : Kero_file) (bytes : list Z) (position : Z) :
  writer_ok f -> rd (content f) (tellp f0) = char "M" -> io_only f0 f ->
  0 <= tellp f0 < position -> Z.of_nat (length bytes) = 8 ->
  position + 8 <= file_size f + next_free f ->
  exists f',
    write_at bytes 8 position f = Ok f'
    /\ writer_ok f' /\ rd (content f') (tellp f0) = char "M" /\ io_only f0 f'
    /\ file_size f' = file_size f /\ next_free f' = next_free f
    /\ current_position f' = current_position f.
Proof.
  intros Hok Htag Hio Hpos Hlen Hle.
  destruct (write_at_replaces f bytes 8 position Hok ltac:(lia) ltac:(lia) Hle)
    as (f' & Hw & Hc & Hfs & Hnf & Hcp & Hok').
  exists f'. split; [exact Hw|]. split; [exact Hok'|]. split; [|split]; [| |tauto].
  - rewrite Hc. rewrite rd_app_l.
    + rewrite rd_take by lia. exact Htag.
    + rewrite length_take.
      pose proof (length_content f (writer_ok_disk f Hok) ltac:(apply Hok)). lia.
  - eapply io_only_trans; [exact Hio|]. eapply write_at_io_only. exact Hw.
Qed.

Ltac so_write :=
  match goal with
  | Hso : section_open _ ?f _ |- context [write ?b ?s ?f] =>
      let f' := fresh "f" in
      let Hw := fresh "Hw" in
      let Hso' := fresh "Hso" in
      let Ht := fresh "Ht" in
      destruct (section_open_write _ f _ b s Hso) as (f' & Hw & Hso' & Ht);
      [ lia | lia | lia
      | rewrite ?length_store_big_endian; try reflexivity; lia
      | lia
      | rewrite Hw; bind_ok; sm_simpl; clear Hw Hso ]
  end.

Ltac tag_write_at :=
  match goal with
  | Hwo : writer_ok ?g, Htag : rd (content ?g) (tellp ?f0) = char "M", Hio : io_only ?f0 ?g
    |- context [write_at ?b 8 ?p ?g] =>
      let g' := fresh "g" in
      let Hg := fresh "Hg" in
      let Hwo' := fresh "Hwo" in
      let Htag' := fresh "Htag" in
      let Hio' := fresh "Hio" in
      let Hfs' := fresh "Hfs" in
      let Hnf' := fresh "Hnf" in
      let Hcp' := fresh "Hcp" in
      destruct (tag_kept_by_write_at f0 g b p Hwo Htag Hio)
        as (g' & Hg & Hwo' & Htag' & Hio' & Hfs' & Hnf' & Hcp');
      [ lia | rewrite length_store_big_endian; reflexivity | lia
      | rewrite Hg; bind_ok; clear Hg Hwo Htag Hio ]
  end.

Lemma jump_to_writer_ok (position : Z) (from_end : bool) (f f' : Kero_file) :
  writer_ok f -> jump_to position from_end f = Ok f' -> writer_ok f'.
Proof.
  intros [Hw Hd Hb Hbound Hst] H. unfold jump_to in H.
  destruct (_ <? position); [discriminate|]. injection H as <-.
  assert (Hs : forall p, disk (fstream_seek p (fs f)) = disk (fs f)
                         /\ fs_open (fstream_seek p (fs f)) = fs_open (fs f)
                         /\ (fs_open (fs f) = true /\ fs_fail (fs f) = false ->
                             fs_fail (fstream_seek p (fs f)) = false)).
  { intros p. unfold fstream_seek, fs_usable, fstream_failed.
    destruct (fs_open (fs f)) eqn:Eo, (fs_fail (fs f)) eqn:Ef; cbn; repeat split; auto;
      intros [? ?]; congruence. }
  constructor; kf_simpl; try assumption.
  - destruct (_ <? file_size f); unfold fstream_seek_end;
      match goal with
      | |- context [fstream_seek ?p _] => destruct (Hs p) as (-> & _)
      end; exact Hd.
  - intros Hpos. specialize (Hst Hpos).
    destruct (_ <? file_size f); unfold fstream_seek_end;
      match goal with
      | |- context [fstream_seek ?p _] => destruct (Hs p) as (_ & -> & Hf)
      end;
      (destruct (tmp_closed f); [exact Hst|split; [apply Hst|apply Hf; exact Hst]]).
Qed.

Section Minimizer_close.
Context (ic : Compression_library).

(** [Section_Minimizer::close] on an indexed writer succeeds, registers
    the masked minimizer with the position the container had when [close]
    was called, and the byte of the file at that position is the tag ['M']
    of the section. *)
Lemma Section_Minimizer_close_registers (sm : Section_Minimizer) (f : Kero_file) :
  append_ok f -> is_reader f = false -> indexed f = true ->
  start_pos sm = tellp f ->
  Z.of_nat (length (minimizer sm)) = nb_bytes_mini sm ->
  0 <= sm_m sm < 2 ^ 64 ->
  tellp f + section_length ic sm < 2 ^ 63 ->
  exists sm' f' key,
    Section_Minimizer_close ic sm f = Ok (sm', f')
    /\ mask_mini_arr (minimizer sm) (sm_m sm) = Some key
    /\ mini_list f' = mini_list f ++ [key]
    /\ mini_pos f' = mini_pos f ++ [tellp f]
    /\ rd (content f') (tellp f) = char "M"
    /\ writer_ok f' /\ is_reader f' = false.
Proof.
  intros Hok Hr Hidx Hstart Hmini Hm Hbound.
  assert (Hw : is_writer f = true) by apply Hok.
  destruct (append_ok_end f Hok) as [He Ht0].
  assert (Hnn : 0 <= tellp f) by lia.
  assert (Hkey : exists key, mask_mini_arr (minimizer sm) (sm_m sm) = Some key).
  { unfold mask_mini_arr, mask_mini.
    destruct (get_mini_mask_defined (sm_m sm) Hm) as [mask ->]. eexists; reflexivity. }
  destruct Hkey as [key Hkey].
  unfold section_length in Hbound.
  set (cn := p4nenc64 ic (n_value_buffer sm)) in *.
  set (cm := p4nenc64 ic (m_idx_buffer sm)) in *.
  set (cd := p4nenc8 ic (data_buffer sm)) in *.
  unfold Section_Minimizer_close. rewrite Hw, Hidx, Hkey. bind_ok.
  set (f0 := register_minimizer_section key f).
  assert (Hf0 : f0 = set_mini_pos (mini_pos f ++ [tellp f])
                       (set_mini_list (mini_list f ++ [key]) f)).
  { unfold f0, register_minimizer_section. rewrite Hw, Hidx. reflexivity. }
  assert (Hok0 : append_ok f0).
  { rewrite Hf0. destruct Hok. constructor; assumption. }
  assert (Ht : tellp f0 = tellp f) by (rewrite Hf0; reflexivity).
  assert (Hr0 : is_reader f0 = false) by (rewrite Hf0; exact Hr).
  assert (Hl0 : mini_list f0 = mini_list f ++ [key]) by (rewrite Hf0; reflexivity).
  assert (Hp0 : mini_pos f0 = mini_pos f ++ [tellp f]) by (rewrite Hf0; reflexivity).
  clearbody f0. clear Hf0. rewrite <- Ht in *.
  unfold write_section_header.
  destruct (section_open_first f0 Hok0 ltac:(lia)) as (f1 & Hw1 & Hso & Ht1).
  rewrite Hw1. bind_ok. clear Hw1.
  change (memset (zeros 8) 0 0 8) with (zeros 8).
  do 6 so_write.
  bind_ok. unfold write_columns. sm_simpl. fold cn cm cd.
  do 8 so_write.
  bind_ok. unfold backfill_column_offsets. sm_simpl.
  match goal with
  | H : section_open f0 ?g _ |- _ => rename g into fe; rename H into Hend
  end.
  destruct Hend as [Hoke Htage Hende Hioe].
  destruct (append_ok_end fe Hoke) as [_ Hee].
  pose proof (append_ok_writer_ok fe Hoke) as Hwoe.
  rewrite Hstart. u64_simpl.
  assert (Hnb : 0 <= nb_bytes_mini sm) by lia.
  do 4 tag_write_at.
  match goal with
  | H : writer_ok ?g |- _ => rename g into gl; rename H into Hwol
  end.
  destruct (jump_to (tellp fe) false gl) as [f'|] eqn:Ej.
  2:{ exfalso. unfold jump_to in Ej. rewrite u64_small in Ej by lia.
      destruct (_ <? tellp fe) eqn:E; [apply Z.ltb_lt in E; lia|discriminate]. }
  bind_ok.
  pose proof (jump_to_writer_ok _ _ _ _ Hwol Ej) as Hwo'.
  destruct (jump_to_content _ _ _ _ Ej) as [Hc' Hio'].
  assert (Hio : io_only f0 f') by (eapply io_only_trans; eassumption).
  destruct (io_only_fields _ _ Hio) as (_ & Hr' & _ & Hl' & Hp' & _).
  bind_ok. rewrite Hr', Hr0. bind_ok.
  eexists _, f', key. split; [reflexivity|]. split; [reflexivity|].
  rewrite Hl', Hp', Hl0, Hp0, Hc', Hr', Hr0.
  split; [reflexivity|]. split; [reflexivity|]. split; [assumption|].
  split; [exact Hwo'|reflexivity].
Qed.

End Minimizer_close.

(** ** The hashtable section written on close *)

Lemma grown_refl (f : Kero_file) : append_ok f -> grown f f.
Proof. intros H. constructor; try reflexivity; assumption. Qed.

Lemma grown_write (f0 f : Kero_file) (bytes : list Z) (size : Z) :
  grown f0 f -> 0 <= size -> Z.of_nat (length bytes) = size -> tellp f + size < 2 ^ 63 ->
  exists f', write bytes size f = Ok f' /\ grown f0 f' /\ tellp f' = tellp f + size.
Proof.
  intros [Hok Hc He Hr Hi Hl Hp] Hs Hlen Hb.
  destruct (write_step bytes size f Hok Hs Hlen Hb) as (f' & Hw & Hok' & Hc' & Hio & Ht).
  destruct (io_only_fields _ _ Hio) as (_ & Hr' & Hi' & Hl' & Hp' & _).
  exists f'. split; [exact Hw|]. split; [|exact Ht].
  constructor; [exact Hok'| |lia|congruence..].
  rewrite Hc'. etrans; [exact Hc|]. apply prefix_app_r. reflexivity.
Qed.

Lemma grown_set_header_over (f0 f : Kero_file) (b : bool) :
  grown f0 f -> grown f0 (set_header_over b f).
Proof. intros [[] ? ? ? ? ? ?]. constructor; try assumption. constructor; assumption. Qed.

Lemma grown_register_position (f0 f : Kero_file) (section_type : Z) :
  grown f0 f -> grown f0 (register_position section_type f).
Proof.
  intros H. unfold register_position. destruct (_ && _); [|exact H].
  destruct H as [[] ? ? ? ? ? ?]. constructor; try assumption. constructor; assumption.
Qed.

Lemma tellp_register_position (f : Kero_file) (section_type : Z) :
  tellp (register_position section_type f) = tellp f.
Proof. unfold register_position. destruct (_ && _); reflexivity. Qed.

Ltac gr_write :=
  match goal with
  | Hgr : grown _ ?f |- context [write ?b ?s ?f] =>
      let f' := fresh "f" in
      let Hw := fresh "Hw" in
      let Hgr' := fresh "Hgr" in
      let Ht := fresh "Ht" in
      destruct (grown_write _ f b s Hgr) as (f' & Hw & Hgr' & Ht);
      [ lia
      | rewrite ?length_store_big_endian; try reflexivity; lia
      | lia
      | rewrite Hw; bind_ok; clear Hw ]
  end.

(** [Section::Section] completes the header of a writer with at most the
    four bytes of an empty metadata block. *)
Lemma Section_new_grown (f0 f : Kero_file) :
  grown f0 f -> is_reader f0 = false -> tellp f + 4 < 2 ^ 63 ->
  exists beginning f',
    Section_new f = Ok (beginning, f') /\ grown f0 f' /\ tellp f' <= tellp f + 4.
Proof.
  intros Hgr Hr0 Hb. unfold Section_new.
  assert (Hr : is_reader f = false) by (rewrite (gr_reader _ _ Hgr); exact Hr0).
  assert (Hw : is_writer f = true) by apply Hgr.
  destruct (_ && _).
  - unfold complete_header. destruct (header_over f) eqn:Eh.
    + bind_ok. eexists _, f. split; [reflexivity|]. split; [exact Hgr|lia].
    + rewrite Hr, Hw. unfold write_metadata. rewrite Eh.
      gr_write. clear Hgr. gr_write. bind_ok. bind_ok.
      eexists _, _. split; [reflexivity|]. split.
      * do 2 apply grown_set_header_over. assumption.
      * unfold tellp in *. kf_simpl. lia.
  - bind_ok. eexists _, f. split; [reflexivity|]. split; [exact Hgr|lia].
Qed.

Section Footer_table.
Context (pthash : MPH_library).

Lemma MPHT_build_length (keys values : list Z) (t t' : MPHT pthash) :
  MPHT_build pthash keys values t = Ok t' -> length (hashtable t') = length keys.
Proof.
  unfold MPHT_build. destruct (negb _); [discriminate|]. intros H. injection H as <-.
  cbn [hashtable].
  pose proof (for_loop_ind (fun _ tab => length tab = length keys)
    (Z.of_nat (length (resize (length keys) 0 (hashtable t))))
    (fun i h => wr h (pthash_eval pthash (build_in_internal_memory pthash keys) (rd keys i))
                  (rd values i))
    (resize (length keys) 0 (hashtable t))) as Hind.
  apply Hind; [lia|apply length_resize|].
  intros c tab _ Hl. rewrite length_wr. exact Hl.
Qed.

Lemma write_chunks_grown (f0 : Kero_file) (fuel : nat) (bytes : list Z) (f : Kero_file) :
  grown f0 f -> (length bytes <= fuel)%nat -> tellp f + Z.of_nat (length bytes) < 2 ^ 63 ->
  exists f',
    write_chunks fuel bytes f = Ok f' /\ grown f0 f'
    /\ tellp f' = tellp f + Z.of_nat (length bytes).
Proof.
  revert bytes f. induction fuel as [|fuel IH]; intros bytes f Hgr Hfuel Hb.
  - destruct bytes; [|cbn in Hfuel; lia]. exists f. cbn. split; [reflexivity|].
    split; [exact Hgr|lia].
  - destruct bytes as [|b bytes].
    + exists f. cbn. split; [reflexivity|]. split; [exact Hgr|lia].
    + cbn [write_chunks]. set (bs := b :: bytes) in *.
      assert (Hpos : (1 <= length bs)%nat) by (unfold bs; cbn; lia).
      clearbody bs.
      set (n := Z.min (Z.of_nat (length bs)) BUFF_CHUNK_SIZE).
      assert (Hn : 1 <= n <= Z.of_nat (length bs)) by (unfold n, BUFF_CHUNK_SIZE; lia).
      destruct (grown_write f0 f (take (Z.to_nat n) bs) n Hgr) as (f1 & Hw & Hgr1 & Ht1);
        [lia|rewrite length_take; lia|lia|].
      rewrite Hw. bind_ok.
      destruct (IH (drop (Z.to_nat n) bs) f1 Hgr1) as (f' & Hw' & Hgr' & Ht');
        [rewrite length_drop; lia|rewrite length_drop; lia|].
      exists f'. split; [exact Hw'|]. split; [exact Hgr'|].
      rewrite Ht', Ht1, length_drop. lia.
Qed.

Lemma write_hashtable_values_grown (f0 : Kero_file) (table : list Z) (f : Kero_file) :
  grown f0 f -> tellp f + 8 * Z.of_nat (length table) < 2 ^ 63 ->
  exists f', write_hashtable_values table f = Ok f' /\ grown f0 f'.
Proof.
  revert f. induction table as [|v table IH]; intros f Hgr Hb; cbn [write_hashtable_values].
  - exists f. split; [reflexivity|exact Hgr].
  - cbn [length] in Hb. gr_write. apply IH; [assumption|lia].
Qed.

(** [write_footer] succeeds in writing the hashtable section, and only
    appends to the file. *)
Lemma write_footer_hashtable_grown (f : Kero_file) :
  append_ok f -> is_reader f = false ->
  length (mini_list f) = length (mini_pos f) ->
  tellp f + hashtable_length pthash (mini_list f) < 2 ^ 63 ->
  exists sh f', write_footer_hashtable pthash f = Ok (sh, f') /\ grown f f'.
Proof.
  intros Hok Hr El Hb. unfold hashtable_length in Hb.
  assert (Hw : is_writer f = true) by apply Hok.
  unfold write_footer_hashtable. rewrite El, Nat.eqb_refl. cbn [negb].
  unfold Section_Hashtable_new.
  destruct (Section_new_grown f f (grown_refl f Hok) Hr ltac:(lia))
    as (beginning & f1 & E1 & Hgr1 & Ht1).
  rewrite E1. bind_ok.
  rewrite (gr_reader _ _ Hgr1), Hr. bind_ok.
  rewrite (gr_mini_list _ _ Hgr1), (gr_mini_pos _ _ Hgr1).
  unfold Section_Hashtable_close.
  destruct (reg_sm_all_spec pthash (mini_list f) (mini_pos f)
              (Build_Section_Hashtable pthash beginning (MPHT_new pthash) [] [] 0) El)
    as (Hm & Hp & Ht).
  cbn [sh_minimizers sh_positions sh_mpht sh_beginning sh_nb_mphf app] in Hm, Hp, Ht.
  rewrite Hm, Hp, Ht.
  assert (Hw1 : is_writer f1 = true) by apply Hgr1. rewrite Hw1.
  destruct (bool_decide (mini_list f = [])); cbn [negb andb].
  { eexists _, f1. split; [reflexivity|exact Hgr1]. }
  rewrite El, Nat.eqb_refl. cbn [negb].
  destruct (MPHT_build pthash (mini_list f) (mini_pos f) (MPHT_new pthash)) as [t|e] eqn:Eb.
  2:{ exfalso. revert Eb. unfold MPHT_build. rewrite El, Nat.eqb_refl. discriminate. }
  pose proof (MPHT_build_length _ _ _ _ Eb) as Hlt.
  assert (Hmphf : mphf t = build_in_internal_memory pthash (mini_list f)).
  { revert Eb. unfold MPHT_build. rewrite El, Nat.eqb_refl. cbn [negb].
    intros E. injection E as <-. reflexivity. }
  bind_ok. rewrite Hmphf.
  pose proof (grown_register_position f f1 (char "h") Hgr1) as Hgr2.
  pose proof (tellp_register_position f1 (char "h")) as Ht2.
  set (f2 := register_position (char "h") f1) in *. clearbody f2.
  gr_write. gr_write.
  match goal with
  | H : grown f ?g |- context [write_chunks ?n ?b ?g] =>
      destruct (write_chunks_grown f n b g H) as (f5 & Hw5 & Hgr5 & Ht5);
        [lia|lia|rewrite Hw5; bind_ok]
  end.
  unfold MPHT_size. rewrite Hlt. gr_write.
  match goal with
  | H : grown f ?g |- context [write_hashtable_values ?tab ?g] =>
      destruct (write_hashtable_values_grown f tab g H) as (f7 & Hw7 & Hgr7);
        [rewrite Hlt; lia|rewrite Hw7; bind_ok]
  end.
  eexists _, f7. split; [reflexivity|exact Hgr7].
Qed.

End Footer_table.

(** ** The sample perfect hash library *)


(** The library [list_pthash] is a minimal perfect hash on every list of
    keys. *)
Lemma position_of_spec (k : Z) (keys : list Z) :
  k ∈ keys ->
  0 <= position_of k keys < Z.of_nat (length keys)
  /\ keys !! Z.to_nat (position_of k keys) = Some k.
Proof.
  induction keys as [|x keys IH]; intros Hk; [inversion Hk|].
  cbn [position_of length]. destruct (x =? k) eqn:E.
  - apply Z.eqb_eq in E as ->. split; [lia|reflexivity].
  - apply Z.eqb_neq in E. apply elem_of_cons in Hk as [Hk|Hk]; [congruence|].
    destruct (IH Hk) as [Hr Hl]. split; [lia|].
    replace (Z.to_nat (1 + position_of k keys)) with (S (Z.to_nat (position_of k keys))) by lia.
    exact Hl.
Qed.

Lemma list_pthash_is_mph (keys : list Z) : is_mph list_pthash keys.
Proof.
  split; cbn.
  - intros k Hk. apply position_of_spec, Hk.
  - intros k1 k2 H1 H2 E.
    destruct (position_of_spec k1 keys H1) as [_ L1], (position_of_spec k2 keys H2) as [_ L2].
    rewrite E in L1. congruence.
Qed.

(** ** Bits of bytes *)

Lemma u8_range (x : Z) : 0 <= u8 x < 256.
Proof. unfold u8. apply Z.mod_pos_bound. reflexivity. Qed.

Lemma u8_testbit (x i : Z) : 0 <= i < 8 -> Z.testbit (u8 x) i = Z.testbit x i.
Proof. intros H. unfold u8. apply Z.mod_pow2_bits_low. lia. Qed.

Lemma testbit_byte_high (x i : Z) : 0 <= x < 256 -> 8 <= i -> Z.testbit x i = false.
Proof.
  intros Hx Hi. rewrite <- (Z.mod_small x (2 ^ 8)) by (change (2 ^ 8) with 256; lia).
  apply Z.mod_pow2_bits_high. lia.
Qed.

Lemma byte_ext (x y : Z) :
  0 <= x < 256 -> 0 <= y < 256 ->
  (forall r, 0 <= r < 8 -> Z.testbit x (7 - r) = Z.testbit y (7 - r)) -> x = y.
Proof.
  intros Hx Hy H. apply Z.bits_inj'. intros i Hi.
  destruct (Z_lt_le_dec i 8) as [Hlt|Hge].
  - specialize (H (7 - i) ltac:(lia)). replace (7 - (7 - i)) with i in H by lia. exact H.
  - rewrite !testbit_byte_high by lia. reflexivity.
Qed.

(** The byte written by an iteration of [leftshift8]. *)
Lemma shl_byte (x y s r : Z) :
  0 <= y < 256 -> 0 <= s < 8 -> 0 <= r < 8 ->
  Z.testbit (u8 (Z.lor (Z.shiftl x s) (Z.shiftr y (8 - s)))) (7 - r)
  = if r + s <? 8 then Z.testbit x (7 - r - s) else Z.testbit y (15 - r - s).
Proof.
  intros Hy Hs Hr. rewrite u8_testbit, Z.lor_spec, Z.shiftl_spec, Z.shiftr_spec by lia.
  replace (7 - r + (8 - s)) with (15 - r - s) by lia.
  destruct (r + s <? 8) eqn:E.
  - apply Z.ltb_lt in E. rewrite (testbit_byte_high y) by lia. apply orb_false_r.
  - apply Z.ltb_ge in E. rewrite Z.testbit_neg_r by lia. reflexivity.
Qed.

Lemma shl_last (x s r : Z) :
  0 <= s < 8 -> 0 <= r < 8 ->
  Z.testbit (u8 (Z.shiftl x s)) (7 - r)
  = if r + s <? 8 then Z.testbit x (7 - r - s) else false.
Proof.
  intros Hs Hr. rewrite u8_testbit, Z.shiftl_spec by lia.
  destruct (r + s <? 8) eqn:E; [reflexivity|].
  apply Z.ltb_ge in E. apply Z.testbit_neg_r. lia.
Qed.

(** The byte written by an iteration of [rightshift8]. *)
Lemma shr_byte (x y s r : Z) :
  0 <= y < 256 -> 0 <= s < 8 -> 0 <= r < 8 ->
  Z.testbit (u8 (Z.lor (Z.shiftl x (8 - s)) (Z.shiftr y s))) (7 - r)
  = if s <=? r then Z.testbit y (7 - r + s) else Z.testbit x (s - r - 1).
Proof.
  intros Hy Hs Hr. rewrite u8_testbit, Z.lor_spec, Z.shiftl_spec, Z.shiftr_spec by lia.
  replace (7 - r - (8 - s)) with (s - r - 1) by lia.
  destruct (s <=? r) eqn:E.
  - apply Z.leb_le in E. rewrite Z.testbit_neg_r by lia. reflexivity.
  - apply Z.leb_gt in E. rewrite (testbit_byte_high y) by lia. apply orb_false_r.
Qed.

Lemma shr_first (y s r : Z) :
  0 <= y < 256 -> 0 <= s < 8 -> 0 <= r < 8 ->
  Z.testbit (u8 (Z.shiftr y s)) (7 - r)
  = if s <=? r then Z.testbit y (7 - r + s) else false.
Proof.
  intros Hy Hs Hr. rewrite u8_testbit, Z.shiftr_spec by lia.
  destruct (s <=? r) eqn:E; [reflexivity|].
  apply Z.leb_gt in E. apply testbit_byte_high; lia.
Qed.

(** [fusion8] takes the [merge_index] high bits of its first argument and
    the other bits of the second. *)
Lemma fusion8_bit (l rt merge_index r : Z) :
  0 <= merge_index <= 8 -> 0 <= r < 8 ->
  Z.testbit (fusion8 l rt merge_index) (7 - r)
  = if r <? merge_index then Z.testbit l (7 - r) else Z.testbit rt (7 - r).
Proof.
  intros Hm Hr. unfold fusion8.
  rewrite u8_testbit, Z.lor_spec, !Z.land_spec, Z.lnot_spec, u8_testbit, Z.shiftl_spec by lia.
  assert (Hmask : Z.testbit 255 (7 - r - (8 - merge_index)) = (r <? merge_index)).
  { destruct (r <? merge_index) eqn:E.
    - apply Z.ltb_lt in E.
      assert (H : 7 - r - (8 - merge_index) = 0 \/ 7 - r - (8 - merge_index) = 1
                  \/ 7 - r - (8 - merge_index) = 2 \/ 7 - r - (8 - merge_index) = 3
                  \/ 7 - r - (8 - merge_index) = 4 \/ 7 - r - (8 - merge_index) = 5
                  \/ 7 - r - (8 - merge_index) = 6 \/ 7 - r - (8 - merge_index) = 7) by lia.
      destruct H as [->|[->|[->|[->|[->|[->|[->| ->]]]]]]]; reflexivity.
    - apply Z.ltb_ge in E. apply Z.testbit_neg_r. lia. }
  rewrite Hmask.
  destruct (r <? merge_index), (Z.testbit l (7 - r)), (Z.testbit rt (7 - r)); reflexivity.
Qed.

(** ** Bits of byte arrays *)

Lemma bit_at (a : list Z) (q r : Z) :
  0 <= r < 8 -> bit a (8 * q + r) = Z.testbit (rd a q) (7 - r).
Proof.
  intros Hr. unfold bit.
  replace ((8 * q + r) / 8) with q by (Z.div_mod_to_equations; lia).
  replace ((8 * q + r) mod 8) with r by (Z.div_mod_to_equations; lia).
  reflexivity.
Qed.

Lemma bit_split (j : Z) : exists q r, j = 8 * q + r /\ 0 <= r < 8.
Proof. exists (j / 8), (j mod 8). Z.div_mod_to_equations. lia. Qed.

Lemma bit_outside (a : list Z) (j : Z) : 8 * Z.of_nat (length a) <= j -> bit a j = false.
Proof.
  intros H. unfold bit. rewrite rd_outside by (Z.div_mod_to_equations; lia).
  apply Z.testbit_0_l.
Qed.

Lemma bytes_ok_Forall (a : list Z) : bytes_ok a <-> Forall (fun b => 0 <= b < 256) a.
Proof.
  split.
  - intros H. apply Forall_lookup. intros i x Hx. specialize (H (Z.of_nat i)).
    rewrite rd_lookup, Hx in H. exact H.
  - intros H i. unfold rd. destruct (a !! Z.to_nat i) as [x|] eqn:E; cbn; [|lia].
    exact (proj1 (Forall_lookup _ _) H _ _ E).
Qed.

Lemma bytes_ok_wr (a : list Z) (i v : Z) : bytes_ok a -> 0 <= v < 256 -> bytes_ok (wr a i v).
Proof.
  intros Ha Hv. apply bytes_ok_Forall. apply bytes_ok_Forall in Ha.
  unfold wr. apply Forall_insert; assumption.
Qed.

Lemma bytes_ok_zeros (n : Z) : bytes_ok (zeros n).
Proof. intros i. unfold zeros. rewrite (rd_replicate _ 0). lia. Qed.

Lemma bytes_ok_app (a b : list Z) : bytes_ok a -> bytes_ok b -> bytes_ok (a ++ b).
Proof. rewrite !bytes_ok_Forall. apply Forall_app_2. Qed.

Lemma bytes_ok_take (a : list Z) (n : nat) : bytes_ok a -> bytes_ok (take n a).
Proof. rewrite !bytes_ok_Forall. apply Forall_take. Qed.

(** Arrays of bytes with the same bits are equal. *)
Lemma bits_ext (a b : list Z) :
  bytes_ok a -> bytes_ok b -> length a = length b ->
  (forall j, 0 <= j < 8 * Z.of_nat (length a) -> bit a j = bit b j) ->
  a = b.
Proof.
  intros Ha Hb Hlen H. apply list_eq_rd; [exact Hlen|]. intros i Hi.
  apply byte_ext; [apply Ha|apply Hb|]. intros r Hr.
  rewrite <- !bit_at by exact Hr. apply H. lia.
Qed.

Lemma bit_zeros (n j : Z) : bit (zeros n) j = false.
Proof. unfold bit, zeros. rewrite (rd_replicate _ 0). apply Z.testbit_0_l. Qed.

(** Loops whose bodies agree on the indices they run through. *)
Lemma for_loop_ext {A : Type} (n : Z) (body body' : Z -> A -> A) (s : A) :
  (forall i acc, 0 <= i < n -> body i acc = body' i acc) ->
  for_loop n body s = for_loop n body' s.
Proof.
  intros H. destruct (Z_le_gt_dec n 0) as [Hn|Hn].
  - rewrite !for_loop_nonpos by lia. reflexivity.
  - pose proof (for_loop_ind (fun c acc => acc = for_loop c body' s) n body s) as Hind.
    apply Hind; [lia|rewrite for_loop_nonpos by lia; reflexivity|].
    intros i acc Hi ->. rewrite for_loop_succ by lia. apply H. exact Hi.
Qed.

(** ** The shifts of a window of an array *)

(** The bytes after [leftshift8]. *)
Lemma leftshift8_bytes (a : list Z) (base len s : Z) :
  0 <= base -> 0 < len -> base + len <= Z.of_nat (length a) -> s < 8 ->
  exists a',
    leftshift8 a base len s = Ok a'
    /\ length a' = length a
    /\ forall i, 0 <= i ->
         rd a' i =
         if decide (base <= i < base + len - 1)
         then u8 (Z.lor (Z.shiftl (rd a i) s) (Z.shiftr (rd a (i + 1)) (8 - s)))
         else if decide (i = base + len - 1) then u8 (Z.shiftl (rd a i) s)
         else rd a i.
Proof.
  intros Hb Hl Hin Hs. unfold leftshift8.
  destruct (s <? 8) eqn:Es; [|apply Z.ltb_ge in Es; lia]. cbn [negb].
  destruct (0 <? len) eqn:El; [|apply Z.ltb_ge in El; lia].
  eexists. split; [reflexivity|].
  pose proof (for_loop_ind
    (fun c acc => length acc = length a
       /\ forall i, 0 <= i ->
            rd acc i = if decide (base <= i < base + c)
                       then u8 (Z.lor (Z.shiftl (rd a i) s) (Z.shiftr (rd a (i + 1)) (8 - s)))
                       else rd a i)
    (len - 1)
    (fun i a0 => wr a0 (base + i)
       (u8 (Z.lor (Z.shiftl (rd a0 (base + i)) s) (Z.shiftr (rd a0 (base + i + 1)) (8 - s)))))
    a) as Hind.
  destruct Hind as [Hlen Hrd]; [lia| | |].
  - split; [reflexivity|]. intros i Hi. destruct (decide _); [lia|reflexivity].
  - intros c acc Hc [Hlen IH]. split; [rewrite length_wr; exact Hlen|].
    intros i Hi. destruct (decide (i = base + c)) as [->|Hne].
    + rewrite rd_wr_eq by lia. rewrite !IH by lia.
      repeat destruct (decide _); first [lia|reflexivity].
    + rewrite rd_wr_ne by lia. rewrite IH by lia.
      repeat destruct (decide _); first [lia|reflexivity].
  - split; [rewrite length_wr; exact Hlen|].
    intros i Hi. destruct (decide (i = base + len - 1)) as [->|Hne].
    + rewrite rd_wr_eq by lia. rewrite Hrd by lia.
      repeat destruct (decide _); first [lia|reflexivity].
    + rewrite rd_wr_ne by lia. rewrite Hrd by lia.
      repeat destruct (decide _); first [lia|reflexivity].
Qed.

(** The bytes after [rightshift8]. *)
Lemma rightshift8_bytes (a : list Z) (base len s : Z) :
  0 <= base -> 0 < len -> base + len <= Z.of_nat (length a) -> s < 8 ->
  exists a',
    rightshift8 a base len s = Ok a'
    /\ length a' = length a
    /\ forall i, 0 <= i ->
         rd a' i =
         if decide (base < i < base + len)
         then u8 (Z.lor (Z.shiftl (rd a (i - 1)) (8 - s)) (Z.shiftr (rd a i) s))
         else if decide (i = base) then u8 (Z.shiftr (rd a i) s)
         else rd a i.
Proof.
  intros Hb Hl Hin Hs. unfold rightshift8.
  destruct (s <? 8) eqn:Es; [|apply Z.ltb_ge in Es; lia]. cbn [negb].
  destruct (0 <? len) eqn:El; [|apply Z.ltb_ge in El; lia].
  cbv zeta. eexists. split; [reflexivity|].
  pose proof (for_loop_ind
    (fun c acc => length acc = length a
       /\ forall i, 0 <= i ->
            rd acc i = if decide (base + len - c <= i < base + len)
                       then u8 (Z.lor (Z.shiftl (rd a (i - 1)) (8 - s)) (Z.shiftr (rd a i) s))
                       else rd a i)
    (len - 1)
    (fun j a0 =>
       wr a0 (base + (len - 1 - j))
         (u8 (Z.lor (Z.shiftl (rd a0 (base + (len - 1 - j) - 1)) (8 - s))
                    (Z.shiftr (rd a0 (base + (len - 1 - j))) s))))
    a) as Hind.
  destruct Hind as [Hlen Hrd]; [lia| | |].
  - split; [reflexivity|]. intros i Hi. destruct (decide _); [lia|reflexivity].
  - intros c acc Hc [Hlen IH]. split; [rewrite length_wr; exact Hlen|].
    intros i Hi. destruct (decide (i = base + (len - 1 - c))) as [->|Hne].
    + rewrite rd_wr_eq by lia. rewrite !IH by lia.
      repeat destruct (decide _); first [lia|reflexivity].
    + rewrite rd_wr_ne by lia. rewrite IH by lia.
      repeat destruct (decide _); first [lia|reflexivity].
  - split; [rewrite length_wr; exact Hlen|].
    intros i Hi. destruct (decide (i = base)) as [->|Hne].
    + rewrite rd_wr_eq by lia. rewrite Hrd by lia.
      repeat destruct (decide _); first [lia|reflexivity].
    + rewrite rd_wr_ne by lia. rewrite Hrd by lia.
      repeat destruct (decide _); first [lia|reflexivity].
Qed.

Lemma rd_neg (a : list Z) (i : Z) : i < 0 -> rd a i = rd a 0.
Proof. intros H. unfold rd. replace (Z.to_nat i) with (Z.to_nat 0) by lia. reflexivity. Qed.

Lemma bytes_ok_nonneg (a : list Z) : (forall i, 0 <= i -> 0 <= rd a i < 256) -> bytes_ok a.
Proof.
  intros H i. destruct (Z_lt_le_dec i 0) as [Hi|Hi]; [rewrite rd_neg by lia|]; apply H; lia.
Qed.

(** [leftshift8] moves the bits of the window [s] places to the left and
    fills with zeros. *)
Lemma leftshift8_bits (a : list Z) (base len s : Z) :
  bytes_ok a -> 0 <= base -> 0 <= len -> base + len <= Z.of_nat (length a) -> 0 <= s < 8 ->
  exists a',
    leftshift8 a base len s = Ok a'
    /\ length a' = length a
    /\ bytes_ok a'
    /\ (forall j, 8 * base <= j -> j + s < 8 * (base + len) -> bit a' j = bit a (j + s))
    /\ (forall j, 8 * base <= j < 8 * (base + len) -> 8 * (base + len) <= j + s ->
                  bit a' j = false)
    /\ (forall j, 0 <= j -> j < 8 * base \/ 8 * (base + len) <= j -> bit a' j = bit a j).
Proof.
  intros Ha Hb Hl Hin Hs.
  destruct (Z.eq_dec len 0) as [->|Hne].
  { exists a. unfold leftshift8.
    destruct (s <? 8) eqn:Es; [|apply Z.ltb_ge in Es; lia]. cbn.
    split; [reflexivity|]. split; [reflexivity|]. split; [exact Ha|].
    split; [intros; lia|]. split; [intros; lia|]. reflexivity. }
  destruct (leftshift8_bytes a base len s) as (a' & Hr & Hlen & Hrd); try lia.
  exists a'. split; [exact Hr|]. split; [exact Hlen|]. split; [|split; [|split]].
  - apply bytes_ok_nonneg. intros i Hi. rewrite Hrd by lia.
    repeat destruct (decide _); first [apply u8_range|apply Ha].
  - intros j Hj1 Hj2. destruct (bit_split j) as (q & r & -> & Hr8).
    rewrite bit_at by lia. rewrite Hrd by lia.
    destruct (decide (base <= q < base + len - 1)) as [Hq|Hq].
    + rewrite shl_byte by (try apply Ha; lia).
      destruct (r + s <? 8) eqn:E; [apply Z.ltb_lt in E|apply Z.ltb_ge in E].
      * replace (8 * q + r + s) with (8 * q + (r + s)) by lia. rewrite bit_at by lia.
        f_equal. lia.
      * replace (8 * q + r + s) with (8 * (q + 1) + (r + s - 8)) by lia. rewrite bit_at by lia.
        f_equal. lia.
    + destruct (decide (q = base + len - 1)) as [Hq'|Hq']; [|lia].
      rewrite shl_last by lia.
      destruct (r + s <? 8) eqn:E; [apply Z.ltb_lt in E|apply Z.ltb_ge in E; lia].
      replace (8 * q + r + s) with (8 * q + (r + s)) by lia. rewrite bit_at by lia.
      f_equal. lia.
  - intros j Hj1 Hj2. destruct (bit_split j) as (q & r & -> & Hr8).
    rewrite bit_at by lia. rewrite Hrd by lia.
    destruct (decide (base <= q < base + len - 1)) as [Hq|Hq]; [lia|].
    destruct (decide (q = base + len - 1)) as [Hq'|Hq']; [|lia].
    rewrite shl_last by lia.
    destruct (r + s <? 8) eqn:E; [apply Z.ltb_lt in E; lia|reflexivity].
  - intros j Hj1 Hj2. destruct (bit_split j) as (q & r & -> & Hr8).
    rewrite !bit_at by lia. rewrite Hrd by lia.
    repeat destruct (decide _); first [lia|reflexivity].
Qed.

(** [rightshift8] moves the bits of the window [s] places to the right
    and fills with zeros. *)
Lemma rightshift8_bits (a : list Z) (base len s : Z) :
  bytes_ok a -> 0 <= base -> 0 <= len -> base + len <= Z.of_nat (length a) -> 0 <= s < 8 ->
  exists a',
    rightshift8 a base len s = Ok a'
    /\ length a' = length a
    /\ bytes_ok a'
    /\ (forall j, 8 * base + s <= j < 8 * (base + len) -> bit a' j = bit a (j - s))
    /\ (forall j, 8 * base <= j < 8 * base + s -> j < 8 * (base + len) -> bit a' j = false)
    /\ (forall j, 0 <= j -> j < 8 * base \/ 8 * (base + len) <= j -> bit a' j = bit a j).
Proof.
  intros Ha Hb Hl Hin Hs.
  destruct (Z.eq_dec len 0) as [->|Hne].
  { exists a. unfold rightshift8.
    destruct (s <? 8) eqn:Es; [|apply Z.ltb_ge in Es; lia]. cbn.
    split; [reflexivity|]. split; [reflexivity|]. split; [exact Ha|].
    split; [intros; lia|]. split; [intros; lia|]. reflexivity. }
  destruct (rightshift8_bytes a base len s) as (a' & Hr & Hlen & Hrd); try lia.
  exists a'. split; [exact Hr|]. split; [exact Hlen|]. split; [|split; [|split]].
  - apply bytes_ok_nonneg. intros i Hi. rewrite Hrd by lia.
    repeat destruct (decide _); first [apply u8_range|apply Ha].
  - intros j Hj. destruct (bit_split j) as (q & r & -> & Hr8).
    rewrite bit_at by lia. rewrite Hrd by lia.
    destruct (decide (base < q < base + len)) as [Hq|Hq].
    + rewrite shr_byte by (try apply Ha; lia).
      destruct (s <=? r) eqn:E; [apply Z.leb_le in E|apply Z.leb_gt in E].
      * replace (8 * q + r - s) with (8 * q + (r - s)) by lia. rewrite bit_at by lia.
        f_equal. lia.
      * replace (8 * q + r - s) with (8 * (q - 1) + (r - s + 8)) by lia.
        rewrite bit_at by lia. f_equal. lia.
    + destruct (decide (q = base)) as [Hq'|Hq']; [|lia].
      rewrite shr_first by (try apply Ha; lia).
      destruct (s <=? r) eqn:E; [apply Z.leb_le in E|apply Z.leb_gt in E; lia].
      replace (8 * q + r - s) with (8 * q + (r - s)) by lia. rewrite bit_at by lia.
      f_equal. lia.
  - intros j Hj1 Hj2. destruct (bit_split j) as (q & r & -> & Hr8).
    rewrite bit_at by lia. rewrite Hrd by lia.
    destruct (decide (base < q < base + len)) as [Hq|Hq]; [lia|].
    destruct (decide (q = base)) as [Hq'|Hq']; [|lia].
    rewrite shr_first by (try apply Ha; lia).
    destruct (s <=? r) eqn:E; [apply Z.leb_le in E; lia|reflexivity].
  - intros j Hj1 Hj2. destruct (bit_split j) as (q & r & -> & Hr8).
    rewrite !bit_at by lia. rewrite Hrd by lia.
    repeat destruct (decide _); first [lia|reflexivity].
Qed.

(** ** Copies and merges of packed arrays *)

Lemma memset_zeros (n : Z) : memset (zeros n) 0 0 n = zeros n.
Proof.
  destruct (Z_le_gt_dec n 0) as [Hn|Hn]; unfold memset.
  - rewrite for_loop_nonpos by lia. reflexivity.
  - pose proof (for_loop_ind (fun _ d => d = zeros n) n (fun i d => wr d (0 + i) 0) (zeros n))
      as Hind.
    apply Hind; [lia|reflexivity|]. intros i acc Hi ->.
    apply list_eq_rd; [apply length_wr|]. intros t Ht. rewrite length_wr in Ht.
    destruct (Z.eq_dec t (0 + i)) as [->|Hne].
    + rewrite rd_wr_eq by lia. unfold zeros. rewrite (rd_replicate _ 0). reflexivity.
    + rewrite rd_wr_ne by lia. reflexivity.
Qed.

(** A fresh array that receives [cnt] bytes of [src]. *)
Lemma memcpy_zeros_bits (n : Z) (src : list Z) (sbase cnt : Z) :
  bytes_ok src -> 0 <= sbase -> 0 <= cnt <= n ->
  length (memcpy (zeros n) 0 src sbase cnt) = Z.to_nat n
  /\ bytes_ok (memcpy (zeros n) 0 src sbase cnt)
  /\ (forall j, 0 <= j < 8 * cnt ->
        bit (memcpy (zeros n) 0 src sbase cnt) j = bit src (j + 8 * sbase))
  /\ (forall j, 8 * cnt <= j -> bit (memcpy (zeros n) 0 src sbase cnt) j = false).
Proof.
  intros Hs Hb Hc.
  destruct (memcpy_spec (zeros n) 0 src sbase cnt) as [Hlen Hrd]; try lia.
  rewrite length_zeros in Hlen, Hrd.
  split; [exact Hlen|]. split; [|split].
  - apply bytes_ok_nonneg. intros i Hi. rewrite Hrd by lia.
    destruct (decide _); [apply Hs|apply bytes_ok_zeros].
  - intros j Hj. destruct (bit_split j) as (q & r & -> & Hr8).
    replace (8 * q + r + 8 * sbase) with (8 * (q + sbase) + r) by lia.
    rewrite !bit_at by lia. rewrite Hrd by lia.
    destruct (decide _); [f_equal; f_equal; lia|lia].
  - intros j Hj. destruct (bit_split j) as (q & r & -> & Hr8).
    rewrite bit_at by lia. rewrite Hrd by lia.
    destruct (decide _); [lia|]. unfold zeros. rewrite (rd_replicate _ 0).
    apply Z.testbit_0_l.
Qed.

(** The loop that moves [n] bytes from [ss] down to [ms]. *)
Lemma move_bits (a : list Z) (ms ss n : Z) :
  bytes_ok a -> 0 <= ms <= ss -> 0 <= n -> ss + n <= Z.of_nat (length a) ->
  let a' := for_loop n (fun i a0 => wr a0 (ms + i) (rd a0 (ss + i))) a in
  length a' = length a
  /\ bytes_ok a'
  /\ (forall j, 8 * ms <= j < 8 * (ms + n) -> bit a' j = bit a (j + 8 * (ss - ms)))
  /\ (forall j, 0 <= j -> j < 8 * ms \/ 8 * (ms + n) <= j -> bit a' j = bit a j).
Proof.
  intros Ha Hm Hn Hin a'.
  assert (H : length a' = length a
              /\ forall i, 0 <= i ->
                   rd a' i = if decide (ms <= i < ms + n) then rd a (i + (ss - ms)) else rd a i).
  { pose proof (for_loop_ind
      (fun c acc => length acc = length a
         /\ forall i, 0 <= i ->
              rd acc i = if decide (ms <= i < ms + c) then rd a (i + (ss - ms)) else rd a i)
      n (fun i a0 => wr a0 (ms + i) (rd a0 (ss + i))) a) as Hind.
    apply Hind; clear Hind; [lia| |].
    - split; [reflexivity|]. intros i Hi. destruct (decide _); [lia|reflexivity].
    - intros c acc Hc [Hlen IH]. split; [rewrite length_wr; exact Hlen|].
      intros i Hi. destruct (decide (i = ms + c)) as [->|Hne].
      + rewrite rd_wr_eq by lia. rewrite IH by lia.
        repeat destruct (decide _); try lia. f_equal. lia.
      + rewrite rd_wr_ne by lia. rewrite IH by lia.
        repeat destruct (decide _); first [lia|reflexivity]. }
  destruct H as [Hlen Hrd]. split; [exact Hlen|]. split; [|split].
  - apply bytes_ok_nonneg. intros i Hi. rewrite Hrd by lia. destruct (decide _); apply Ha.
  - intros j Hj. destruct (bit_split j) as (q & r & -> & Hr8).
    replace (8 * q + r + 8 * (ss - ms)) with (8 * (q + (ss - ms)) + r) by lia.
    rewrite !bit_at by lia. rewrite Hrd by lia. destruct (decide _); [reflexivity|lia].
  - intros j Hj1 Hj2. destruct (bit_split j) as (q & r & -> & Hr8).
    rewrite !bit_at by lia. rewrite Hrd by lia. destruct (decide _); [lia|reflexivity].
Qed.

(** One byte that takes its [merge_index] high bits from [l] and the
    others from [x]. *)
Lemma fusion_bits (a : list Z) (i l x merge_index : Z) :
  bytes_ok a -> 0 <= i < Z.of_nat (length a) -> 0 <= merge_index <= 8 ->
  let a' := wr a i (fusion8 l x merge_index) in
  length a' = length a
  /\ bytes_ok a'
  /\ (forall r, 0 <= r < 8 ->
        bit a' (8 * i + r)
        = if r <? merge_index then Z.testbit l (7 - r) else Z.testbit x (7 - r))
  /\ (forall j, 0 <= j -> j < 8 * i \/ 8 * i + 8 <= j -> bit a' j = bit a j).
Proof.
  intros Ha Hi Hm a'. split; [apply length_wr|]. split; [|split].
  - apply bytes_ok_wr; [exact Ha|]. unfold fusion8. apply u8_range.
  - intros r Hr. rewrite bit_at by lia. unfold a'. rewrite rd_wr_eq by lia.
    apply fusion8_bit; lia.
  - intros j Hj1 Hj2. destruct (bit_split j) as (q & r & -> & Hr8).
    rewrite !bit_at by lia. unfold a'. rewrite rd_wr_ne by lia. reflexivity.
Qed.

(** The merge of [add_minimizer]: the bits of [dest] from bit [off] of
    byte [base] up to the end of byte [base + cnt - 1] are replaced by the
    bits of [src] that start at bit [off]. *)
Lemma merge_bits (dest src : list Z) (base off cnt : Z) :
  bytes_ok dest -> bytes_ok src -> 0 <= base -> 1 <= cnt ->
  base + cnt <= Z.of_nat (length dest) -> 0 <= off < 8 ->
  let d1 := wr dest base (fusion8 (rd dest base) (rd src 0) off) in
  let d2 := for_loop (cnt - 1) (fun j a => wr a (base + (j + 1)) (rd src (j + 1))) d1 in
  length d2 = length dest
  /\ bytes_ok d2
  /\ (forall j, 8 * base + off <= j < 8 * (base + cnt) -> bit d2 j = bit src (j - 8 * base))
  /\ (forall j, 0 <= j -> j < 8 * base + off \/ 8 * (base + cnt) <= j -> bit d2 j = bit dest j).
Proof.
  intros Hd Hs Hb Hc Hin Ho d1 d2.
  destruct (fusion_bits dest base (rd dest base) (rd src 0) off Hd) as (L1 & B1 & F1 & O1);
    [lia|lia|]. fold d1 in L1, B1, F1, O1.
  assert (H : length d2 = length d1
              /\ forall i, 0 <= i ->
                   rd d2 i = if decide (base + 1 <= i < base + cnt) then rd src (i - base)
                             else rd d1 i).
  { pose proof (for_loop_ind
      (fun c acc => length acc = length d1
         /\ forall i, 0 <= i ->
              rd acc i = if decide (base + 1 <= i < base + 1 + c) then rd src (i - base)
                         else rd d1 i)
      (cnt - 1) (fun j a => wr a (base + (j + 1)) (rd src (j + 1))) d1) as Hind.
    destruct Hind as [Hlen Hrd]; [lia| | |].
    - split; [reflexivity|]. intros i Hi. destruct (decide _); [lia|reflexivity].
    - intros c acc Hc' [Hlen IH]. split; [rewrite length_wr; exact Hlen|].
      intros i Hi. destruct (decide (i = base + (c + 1))) as [->|Hne].
      + rewrite rd_wr_eq by lia. destruct (decide _); [f_equal; lia|lia].
      + rewrite rd_wr_ne by lia. rewrite IH by lia.
        repeat destruct (decide _); first [lia|reflexivity].
    - split; [exact Hlen|]. intros i Hi. fold d2 in Hrd. rewrite Hrd by lia.
      repeat destruct (decide _); first [lia|reflexivity]. }
  destruct H as [Hlen Hrd]. split; [lia|]. split; [|split].
  - apply bytes_ok_nonneg. intros i Hi. rewrite Hrd by lia.
    destruct (decide _); [apply Hs|apply B1].
  - intros j Hj. destruct (bit_split j) as (q & r & -> & Hr8).
    destruct (decide (q = base)) as [->|Hq].
    + rewrite bit_at by lia. rewrite Hrd by lia. destruct (decide _); [lia|].
      rewrite <- bit_at by lia. rewrite F1 by lia.
      destruct (r <? off) eqn:E; [apply Z.ltb_lt in E; lia|].
      replace (8 * base + r - 8 * base) with (8 * 0 + r) by lia. rewrite bit_at by lia.
      reflexivity.
    + replace (8 * q + r - 8 * base) with (8 * (q - base) + r) by lia.
      rewrite !bit_at by lia. rewrite Hrd by lia. destruct (decide _); [reflexivity|lia].
  - intros j Hj1 Hj2. destruct (bit_split j) as (q & r & -> & Hr8).
    destruct (decide (q = base)) as [->|Hq].
    + rewrite bit_at by lia. rewrite Hrd by lia. destruct (decide _); [lia|].
      rewrite <- bit_at by lia. rewrite F1 by lia.
      destruct (r <? off) eqn:E; [|apply Z.ltb_ge in E; lia].
      rewrite bit_at by lia. reflexivity.
    + rewrite bit_at by lia. rewrite Hrd by lia. destruct (decide _); [lia|].
      rewrite <- bit_at by lia. apply O1; lia.
Qed.

(** ** Excision of the minimizer *)

Lemma u32_small (x : Z) : 0 <= x < 2 ^ 32 -> u32 x = x.
Proof. intros H. unfold u32. apply Z.mod_small. exact H. Qed.

(** Removes the conversions to [uint] and [uint64_t] of values in range. *)
Ltac wrap_simpl :=
  repeat match goal with
         | |- context [u64 ?x] => rewrite (u64_small x) by (Z.div_mod_to_equations; lia)
         | |- context [u32 ?x] => rewrite (u32_small x) by (Z.div_mod_to_equations; lia)
         end.

Lemma bytes_from_bit_array_2 (n : Z) :
  0 <= n < 2 ^ 62 -> bytes_from_bit_array 2 n = (n + 3) / 4.
Proof.
  intros H. unfold bytes_from_bit_array. cbn [Z.eqb orb].
  destruct (n =? 0) eqn:E.
  - apply Z.eqb_eq in E. subst n. reflexivity.
  - apply Z.eqb_neq in E. wrap_simpl. Z.div_mod_to_equations. lia.
Qed.

Lemma left_offset_spec (n : Z) :
  0 <= n -> 0 <= left_offset n < 4 /\ n + left_offset n = 4 * ((n + 3) / 4).
Proof. intros H. unfold left_offset. Z.div_mod_to_equations. lia. Qed.

Lemma memcpy_zeros_all (n : Z) (src : list Z) :
  Z.of_nat (length src) = n -> memcpy (zeros n) 0 src 0 n = src.
Proof.
  intros H. destruct (memcpy_spec (zeros n) 0 src 0 n) as [Hlen Hrd]; try lia.
  rewrite length_zeros in Hlen, Hrd.
  apply list_eq_rd; [lia|]. intros i Hi. rewrite Hrd by lia.
  destruct (decide _); [f_equal; lia|lia].
Qed.

(** Rewrites the left-hand side [bit a i] of the goal with a clause of the
    description of [a]. *)
Ltac bit_step H :=
  match goal with
  | |- bit _ ?i = _ => rewrite (H i) by lia
  end.

Lemma write_compacted_sequence_bits (seq : list Z) (seq_size mini_pos : Z) (data : list Z)
    (sm : Section_Minimizer) :
  bytes_ok seq -> Z.of_nat (length seq) = (seq_size + 3) / 4 ->
  1 <= sm_m sm -> 0 <= mini_pos -> mini_pos + sm_m sm <= seq_size -> seq_size + 8 <= 2 ^ 32 ->
  exists c,
    write_compacted_sequence seq seq_size mini_pos data sm
      = Ok (write_compacted_sequence_without_mini c (seq_size - sm_m sm) mini_pos data sm)
    /\ length c = length seq
    /\ bytes_ok c
    /\ (forall j, 0 <= j < 2 * left_offset (seq_size - sm_m sm) -> bit c j = false)
    /\ (forall t, 0 <= t < 2 * mini_pos ->
          bit c (2 * left_offset (seq_size - sm_m sm) + t)
          = bit seq (2 * left_offset seq_size + t))
    /\ (forall t, 2 * mini_pos <= t < 2 * (seq_size - sm_m sm) ->
          bit c (2 * left_offset (seq_size - sm_m sm) + t)
          = bit seq (2 * left_offset seq_size + t + 2 * sm_m sm)).
Proof.
  intros Hseq Hlen Hm Hp Hpm Hsize.
  set (m := sm_m sm) in *.
  unfold write_compacted_sequence. fold m. cbv zeta.
  rewrite bytes_from_bit_array_2 by lia.
  assert (E : u32 (u64 (4 - seq_size mod 4) mod 4) = left_offset seq_size)
    by (unfold left_offset; wrap_simpl; reflexivity).
  assert (E' : u64 (u64 (4 - u64 (seq_size - m) mod 4) mod 4 * 2)
               = 2 * left_offset (seq_size - m))
    by (unfold left_offset; wrap_simpl; lia).
  rewrite !E, E'. clear E E'.
  destruct (left_offset_spec seq_size ltac:(lia)) as [Hlo Hn].
  destruct (left_offset_spec (seq_size - m) ltac:(lia)) as [Hlo' Hn'].
  set (lo := left_offset seq_size) in *.
  set (lo' := left_offset (seq_size - m)) in *.
  set (n := (seq_size + 3) / 4) in *.
  set (n' := (seq_size - m + 3) / 4) in *.
  clearbody lo lo' n n'.
  wrap_simpl.
  pose proof (Z.div_mod (mini_pos + lo) 4 ltac:(lia)) as Hms.
  pose proof (Z.mod_pos_bound (mini_pos + lo) 4 ltac:(lia)) as Hmo.
  pose proof (Z.div_mod (mini_pos + m + lo) 4 ltac:(lia)) as Hss.
  pose proof (Z.mod_pos_bound (mini_pos + m + lo) 4 ltac:(lia)) as Hso.
  set (msb := (mini_pos + lo) / 4) in *.
  set (mo := (mini_pos + lo) mod 4) in *.
  set (ssb := (mini_pos + m + lo) / 4) in *.
  set (so := (mini_pos + m + lo) mod 4) in *.
  clearbody msb mo ssb so.
  rewrite memcpy_zeros_all by exact Hlen.
  (* 2 - the suffix is moved *)
  rewrite (for_loop_ext (n - ssb) _ (fun i a => wr a (msb + i) (rd a (ssb + i))))
    by (intros i acc Hi; rewrite !u32_small by lia; reflexivity).
  destruct (move_bits seq msb ssb (n - ssb) Hseq ltac:(lia) ltac:(lia) ltac:(lia))
    as (L1 & B1 & M1 & O1).
  set (c1 := for_loop (n - ssb) _ seq) in *. clearbody c1.
  (* 3 - and shifted *)
  assert (H2 : exists c2,
    (if mo <? so
     then leftshift8 c1 msb (n - msb) (u32 (u32 (so - mo) * 2))
     else rightshift8 c1 msb (n - msb) (u32 (u32 (mo - so) * 2))) = Ok c2
    /\ length c2 = length seq /\ bytes_ok c2
    /\ (forall j, 0 <= j < 8 * msb -> bit c2 j = bit seq j)
    /\ (forall t, 0 <= t < 2 * (seq_size - mini_pos - m) ->
          bit c2 (8 * msb + 2 * mo + t) = bit seq (8 * ssb + 2 * so + t))).
  { destruct (mo <? so) eqn:Eo; [apply Z.ltb_lt in Eo|apply Z.ltb_ge in Eo]; wrap_simpl.
    - destruct (leftshift8_bits c1 msb (n - msb) ((so - mo) * 2) B1)
        as (c2 & R2 & L2 & B2 & S2 & _ & O2); try lia.
      exists c2. split; [exact R2|]. split; [lia|]. split; [exact B2|]. split.
      + intros j Hj. bit_step O2. bit_step O1. reflexivity.
      + intros t Ht. bit_step S2. bit_step M1. f_equal. lia.
    - destruct (rightshift8_bits c1 msb (n - msb) ((mo - so) * 2) B1)
        as (c2 & R2 & L2 & B2 & S2 & _ & O2); try lia.
      exists c2. split; [exact R2|]. split; [lia|]. split; [exact B2|]. split.
      + intros j Hj. bit_step O2. bit_step O1. reflexivity.
      + intros t Ht. bit_step S2. bit_step M1. f_equal. lia. }
  destruct H2 as (c2 & R2 & L2 & B2 & P2 & S2). rewrite R2. bind_ok. clear R2.
  (* 4 - the common byte *)
  destruct (fusion_bits c2 msb (rd seq msb) (rd c2 msb) (mo * 2) B2 ltac:(lia) ltac:(lia))
    as (L3 & B3 & F3 & O3).
  set (c3 := wr c2 msb _) in *. clearbody c3.
  assert (P3 : forall j, 0 <= j < 8 * msb + 2 * mo -> bit c3 j = bit seq j).
  { intros j Hj. destruct (Z_lt_le_dec j (8 * msb)) as [Hlt|Hge].
    - bit_step O3. apply P2. lia.
    - replace j with (8 * msb + (j - 8 * msb)) by lia. rewrite F3 by lia.
      destruct (_ <? _) eqn:E; [|apply Z.ltb_ge in E; lia].
      rewrite bit_at by lia. reflexivity. }
  assert (S3 : forall t, 0 <= t < 2 * (seq_size - mini_pos - m) ->
                 bit c3 (8 * msb + 2 * mo + t) = bit seq (8 * ssb + 2 * so + t)).
  { intros t Ht. rewrite <- S2 by lia.
    destruct (Z_lt_le_dec (2 * mo + t) 8) as [Hlt|Hge].
    - replace (8 * msb + 2 * mo + t) with (8 * msb + (2 * mo + t)) by lia.
      rewrite F3 by lia. destruct (_ <? _) eqn:E; [apply Z.ltb_lt in E; lia|].
      rewrite bit_at by lia. reflexivity.
    - apply O3; lia. }
  clear F3 O3 P2 S2 M1 O1.
  (* 5 - the padding *)
  destruct (leftshift8_bits c3 0 n (lo * 2) B3) as (c4 & R4 & L4 & B4 & S4 & Z4 & _); try lia.
  rewrite R4. bind_ok. clear R4.
  destruct (rightshift8_bits c4 0 n (2 * lo') B4) as (c5 & R5 & L5 & B5 & S5 & Z5 & _);
    try lia.
  rewrite R5. bind_ok. clear R5.
  exists c5. split; [reflexivity|]. split; [lia|]. split; [exact B5|]. split; [|split].
  - intros j Hj. apply Z5; lia.
  - intros t Ht. bit_step S5. bit_step S4. bit_step P3. f_equal. lia.
  - intros t Ht. bit_step S5. bit_step S4.
    replace (2 * lo' + t - 2 * lo' + lo * 2)
      with (8 * msb + 2 * mo + (t - 2 * mini_pos)) by lia.
    rewrite S3 by lia. f_equal. lia.
Qed.

(** ** Insertion of the minimizer *)

Lemma add_minimizer_bits (seq buf : list Z) (seq_size mini_pos : Z) (sm : Section_Minimizer) :
  bytes_ok seq -> bytes_ok buf -> bytes_ok (minimizer sm) ->
  Z.of_nat (length seq) = (seq_size + 3) / 4 ->
  length buf = length seq ->
  Z.of_nat (length (minimizer sm)) = nb_bytes_mini sm ->
  nb_bytes_mini sm = (sm_m sm + 3) / 4 ->
  1 <= sm_m sm -> 0 <= mini_pos -> mini_pos + sm_m sm <= seq_size -> seq_size + 8 <= 2 ^ 32 ->
  0 <= sm_k sm <= seq_size ->
  (forall j, 0 <= j < 2 * left_offset seq_size -> bit seq j = false) ->
  (forall t, 0 <= t < 2 * sm_m sm ->
     bit (minimizer sm) (2 * left_offset (sm_m sm) + t)
     = bit seq (2 * left_offset seq_size + 2 * mini_pos + t)) ->
  (forall t, 0 <= t < 2 * mini_pos ->
     bit buf (2 * left_offset (seq_size - sm_m sm) + t)
     = bit seq (2 * left_offset seq_size + t)) ->
  (forall t, 2 * mini_pos <= t < 2 * (seq_size - sm_m sm) ->
     bit buf (2 * left_offset (seq_size - sm_m sm) + t)
     = bit seq (2 * left_offset seq_size + t + 2 * sm_m sm)) ->
  add_minimizer (seq_size - sm_k sm + 1) buf mini_pos sm = Ok seq.
Proof.
  intros Hseq Hbuf Hmb Hlen Hlb Hlm Hnbm Hm Hp Hpm Hsize Hk Hpad Hmini Hpre Hsuf.
  set (m := sm_m sm) in *. set (k := sm_k sm) in *.
  unfold add_minimizer. fold m k. cbv zeta.
  replace (u64 (u64 (seq_size - k + 1 + k) - 1)) with seq_size
    by (replace (seq_size - k + 1 + k) with (seq_size + 1) by lia; wrap_simpl; lia).
  rewrite !memset_zeros.
  rewrite !bytes_from_bit_array_2 by (wrap_simpl; lia).
  assert (E : u64 (4 - seq_size mod 4) mod 4 = left_offset seq_size)
    by (unfold left_offset; wrap_simpl; reflexivity).
  assert (E' : u64 (4 - u64 (seq_size - m) mod 4) mod 4 = left_offset (seq_size - m))
    by (unfold left_offset; wrap_simpl; reflexivity).
  assert (Em : u32 (u64 (4 - m mod 4) mod 4) = left_offset m)
    by (unfold left_offset; wrap_simpl; reflexivity).
  rewrite !E, !E', !Em. clear E E' Em.
  destruct (left_offset_spec seq_size ltac:(lia)) as [Hlo Hn].
  destruct (left_offset_spec (seq_size - m) ltac:(lia)) as [Hlo' Hn'].
  destruct (left_offset_spec m ltac:(lia)) as [Hlom Hnm].
  rewrite Hnbm in *.
  set (lo := left_offset seq_size) in *.
  set (lo' := left_offset (seq_size - m)) in *.
  set (lm := left_offset m) in *.
  set (n := (seq_size + 3) / 4) in *.
  set (nm := (m + 3) / 4) in *.
  wrap_simpl.
  set (n' := (seq_size - m + 3) / 4) in *.
  clearbody lo lo' lm n n' nm.
  pose proof (Z.div_mod mini_pos 4 ltac:(lia)) as Hpb.
  pose proof (Z.mod_pos_bound mini_pos 4 ltac:(lia)) as Hpo.
  pose proof (Z.div_mod (mini_pos + m) 4 ltac:(lia)) as Hfs.
  pose proof (Z.mod_pos_bound (mini_pos + m) 4 ltac:(lia)) as Hfso.
  set (pb := mini_pos / 4) in *. set (po := mini_pos mod 4) in *.
  set (fssb := (mini_pos + m) / 4) in *. set (fso := (mini_pos + m) mod 4) in *.
  clearbody pb po fssb fso.
  pose proof (Z.div_mod (m + po + 3) 4 ltac:(lia)) as Hfm.
  pose proof (Z.mod_pos_bound (m + po + 3) 4 ltac:(lia)) as Hfm'.
  pose proof (Z.div_mod (seq_size - m - mini_pos + fso + 3) 4 ltac:(lia)) as Hfb.
  pose proof (Z.mod_pos_bound (seq_size - m - mini_pos + fso + 3) 4 ltac:(lia)) as Hfb'.
  set (fmbs := (m + po + 3) / 4) in *.
  set (fsbs := (seq_size - m - mini_pos + fso + 3) / 4) in *.
  set (r1 := (m + po + 3) mod 4) in *.
  set (r2 := (seq_size - m - mini_pos + fso + 3) mod 4) in *.
  clearbody fmbs fsbs r1 r2.
  (* the residual without its padding *)
  destruct (leftshift8_bits buf 0 n' (lo' * 2) Hbuf) as (s1 & R1 & L1 & B1 & S1 & Z1 & O1);
    try lia.
  rewrite R1. bind_ok. clear R1.
  assert (A1 : forall t, 0 <= t < 2 * mini_pos -> bit s1 t = bit seq (2 * lo + t)).
  { intros t Ht. bit_step S1. rewrite <- Hpre by lia. f_equal. lia. }
  assert (A2 : forall t, 2 * mini_pos <= t < 2 * (seq_size - m) ->
                 bit s1 t = bit seq (2 * lo + t + 2 * m)).
  { intros t Ht. bit_step S1. rewrite <- Hsuf by lia. f_equal. lia. }
  assert (A3 : forall t, 2 * (seq_size - m) <= t < 8 * n' -> bit s1 t = false).
  { intros t Ht. apply Z1; lia. }
  clear S1 Z1 O1 Hpre Hsuf.
  (* the suffix *)
  destruct (memcpy_zeros_bits n s1 pb (n' - pb) B1 ltac:(lia) ltac:(lia))
    as (Lc & Bc & Cc & Zc).
  set (mc := memcpy (zeros n) 0 s1 pb (n' - pb)) in *. clearbody mc.
  destruct (leftshift8_bits mc 0 (n' - pb) (po * 2) Bc) as (sf & Rf & Lf & Bf & Sf & Zf & Of);
    try lia.
  rewrite Rf. bind_ok. clear Rf.
  assert (F1 : forall t, 0 <= t < 2 * (seq_size - m - mini_pos) ->
                 bit sf t = bit seq (2 * lo + 2 * mini_pos + 2 * m + t)).
  { intros t Ht. bit_step Sf. bit_step Cc. bit_step A2. f_equal. lia. }
  assert (F2 : forall t, 2 * (seq_size - m - mini_pos) <= t -> bit sf t = false).
  { intros t Ht. destruct (Z_lt_le_dec t (8 * (n' - pb))) as [Hlt|Hge].
    - destruct (Z_lt_le_dec (t + po * 2) (8 * (n' - pb))) as [Hlt'|Hge'].
      + bit_step Sf. bit_step Cc. apply A3. lia.
      + apply Zf; lia.
    - bit_step Of. apply Zc. lia. }
  clear Sf Zf Of Cc Zc A2 A3.
  (* the minimizer *)
  destruct (memcpy_zeros_bits n (minimizer sm) 0 nm Hmb ltac:(lia) ltac:(lia))
    as (Ld & Bd & Cd & Zd).
  set (md := memcpy (zeros n) 0 (minimizer sm) 0 nm) in *. clearbody md.
  destruct (leftshift8_bits md 0 nm (lm * 2) Bd) as (mi & Ri & Li & Bi & Si & Zi & Oi);
    try lia.
  rewrite Ri. bind_ok. clear Ri.
  assert (C1 : forall t, 0 <= t < 2 * m -> bit mi t = bit seq (2 * lo + 2 * mini_pos + t)).
  { intros t Ht. bit_step Si. bit_step Cd. rewrite <- Hmini by lia. f_equal. lia. }
  assert (C2 : forall t, 2 * m <= t -> bit mi t = false).
  { intros t Ht. destruct (Z_lt_le_dec t (8 * nm)) as [Hlt|Hge].
    - apply Zi; lia.
    - bit_step Oi. apply Zd. lia. }
  clear Si Zi Oi Cd Zd Hmini.
  destruct (rightshift8_bits mi 0 n (po * 2) Bi) as (m0 & R0 & L0 & B0 & S0 & Z0 & _);
    try lia.
  rewrite R0. bind_ok. clear R0.
  assert (D1 : forall t, 2 * po <= t < 2 * po + 2 * m ->
                 bit m0 t = bit seq (2 * lo + 2 * mini_pos + t - 2 * po)).
  { intros t Ht. bit_step S0. rewrite C1 by lia. f_equal. lia. }
  clear S0 Z0 C1 C2.
  (* the minimizer in its place *)
  rewrite (for_loop_ext (fmbs - 1) _ (fun j a => wr a (pb + (j + 1)) (rd m0 (j + 1))))
    by (intros i acc Hi; wrap_simpl; reflexivity).
  destruct (merge_bits s1 m0 pb (po * 2) fmbs B1 B0) as (La & Ba & M1 & M2); try lia.
  set (sa := for_loop (fmbs - 1) _ (wr s1 pb _)) in *. clearbody sa.
  assert (E1 : forall t, 0 <= t < 2 * mini_pos + 2 * m -> bit sa t = bit seq (2 * lo + t)).
  { intros t Ht. destruct (Z_lt_le_dec t (2 * mini_pos)) as [Hlt|Hge].
    - bit_step M2. apply A1. lia.
    - bit_step M1. rewrite D1 by lia. f_equal. lia. }
  clear M1 M2 A1 D1.
  (* the suffix in its place *)
  assert (H7 : exists sb,
    (if 0 <? fsbs
     then
       suffix1 ← rightshift8 sf 0 n (fso * 2);
       Ok (for_loop (fsbs - 1)
             (fun j a => wr a (u64 (fssb + u64 (j + 1))) (rd suffix1 (u64 (j + 1))))
             (wr sa fssb (fusion8 (rd sa fssb) (rd suffix1 0) (fso * 2))))
     else Ok sa) = Ok sb
    /\ length sb = length seq /\ bytes_ok sb
    /\ (forall t, 0 <= t < 2 * seq_size -> bit sb t = bit seq (2 * lo + t))
    /\ (forall t, 2 * seq_size <= t < 8 * n -> bit sb t = false)).
  { destruct (0 <? fsbs) eqn:Ef; [apply Z.ltb_lt in Ef|apply Z.ltb_ge in Ef].
    - destruct (rightshift8_bits sf 0 n (fso * 2) Bf) as (s2 & R2 & L2 & B2 & S2 & Z2 & _);
        try lia.
      rewrite R2. bind_ok. clear R2.
      rewrite (for_loop_ext (fsbs - 1) _ (fun j a => wr a (fssb + (j + 1)) (rd s2 (j + 1))))
        by (intros i acc Hi; wrap_simpl; reflexivity).
      destruct (merge_bits sa s2 fssb (fso * 2) fsbs Ba B2) as (Lb & Bb & N1 & N2); try lia.
      set (sb := for_loop (fsbs - 1) _ (wr sa fssb _)) in *. clearbody sb.
      exists sb. split; [reflexivity|]. split; [lia|]. split; [exact Bb|]. split.
      + intros t Ht. destruct (Z_lt_le_dec t (2 * mini_pos + 2 * m)) as [Hlt|Hge].
        * bit_step N2. apply E1. lia.
        * bit_step N1. bit_step S2. rewrite F1 by lia. f_equal. lia.
      + intros t Ht. bit_step N1. bit_step S2. apply F2. lia.
    - exists sa. split; [reflexivity|]. split; [lia|]. split; [exact Ba|]. split.
      + intros t Ht. apply E1. lia.
      + intros t Ht. lia. }
  destruct H7 as (sb & R7 & Lb & Bb & H1 & H2). rewrite R7. bind_ok. clear R7.
  (* the padding *)
  destruct (rightshift8_bits sb 0 n (lo * 2) Bb) as (res & Rr & Lr & Br & Sr & Zr & _);
    try lia.
  rewrite Rr. f_equal. apply bits_ext; [exact Br|exact Hseq|lia|].
  intros j Hj. destruct (Z_lt_le_dec j (2 * lo)) as [Hlt|Hge].
  - rewrite Zr by lia. symmetry. apply Hpad. lia.
  - bit_step Sr. rewrite H1 by lia. f_equal. lia.
Qed.

(** ** Nucleotides and bits *)

Lemma land_3 (y : Z) : Z.land y 3 = Z.b2z (Z.testbit y 0) + 2 * Z.b2z (Z.testbit y 1).
Proof.
  change 3 with (Z.ones 2). rewrite Z.land_ones by lia.
  assert (H1 : Z.testbit y 1 = Z.testbit (y / 2) 0)
    by (rewrite Z.div2_bits by lia; reflexivity).
  rewrite H1, !Z.bit0_mod.
  change (2 ^ 2) with 4. Z.div_mod_to_equations. lia.
Qed.

(** A nucleotide is two consecutive bits of the array. *)
Lemma nucleotide_bits (a : list Z) (size i : Z) :
  0 <= i + left_offset size ->
  nucleotide a size i
  = Z.b2z (bit a (2 * left_offset size + 2 * i + 1))
    + 2 * Z.b2z (bit a (2 * left_offset size + 2 * i)).
Proof.
  intros Hi. unfold nucleotide. cbv zeta. set (j := i + left_offset size) in *.
  rewrite land_3, !Z.shiftr_spec by lia.
  pose proof (Z.div_mod j 4 ltac:(lia)) as Hj.
  pose proof (Z.mod_pos_bound j 4 ltac:(lia)) as Hr.
  set (q := j / 4) in *. set (r := j mod 4) in *.
  replace (2 * left_offset size + 2 * i + 1) with (8 * q + (2 * r + 1)) by lia.
  replace (2 * left_offset size + 2 * i) with (8 * q + 2 * r) by lia.
  rewrite !bit_at by lia. do 2 f_equal; [|f_equal]; f_equal; lia.
Qed.

Lemma nucleotide_eq_bits (a b : list Z) (sa sb i j : Z) :
  0 <= i + left_offset sa -> 0 <= j + left_offset sb ->
  nucleotide a sa i = nucleotide b sb j <->
  bit a (2 * left_offset sa + 2 * i) = bit b (2 * left_offset sb + 2 * j)
  /\ bit a (2 * left_offset sa + 2 * i + 1) = bit b (2 * left_offset sb + 2 * j + 1).
Proof.
  intros Hi Hj. rewrite !nucleotide_bits by lia. split.
  - intros H.
    destruct (bit a (2 * left_offset sa + 2 * i)), (bit a (2 * left_offset sa + 2 * i + 1)),
      (bit b (2 * left_offset sb + 2 * j)), (bit b (2 * left_offset sb + 2 * j + 1));
      cbn in H; first [discriminate|split; reflexivity].
  - intros [-> ->]. reflexivity.
Qed.

(** The bits of the padding. *)
Lemma padding_zero_bits (a : list Z) (size : Z) :
  bytes_ok a -> 0 <= size ->
  padding_zero a size <-> forall j, 0 <= j < 2 * left_offset size -> bit a j = false.
Proof.
  intros Ha Hs. destruct (left_offset_spec size Hs) as [Hlo _].
  unfold padding_zero. set (lo := left_offset size) in *. clearbody lo. split.
  - intros H j Hj. replace j with (8 * 0 + j) by lia. rewrite bit_at by lia.
    rewrite <- (Z.mod_small (rd a 0) (2 ^ (8 - 2 * lo))) by (pose proof (Ha 0); lia).
    apply Z.mod_pow2_bits_high. lia.
  - intros H.
    assert (E : rd a 0 = rd a 0 mod 2 ^ (8 - 2 * lo)).
    { apply Z.bits_inj'. intros t Ht. destruct (Z_lt_le_dec t (8 - 2 * lo)) as [Hlt|Hge].
      - rewrite Z.mod_pow2_bits_low by lia. reflexivity.
      - rewrite Z.mod_pow2_bits_high by lia.
        destruct (Z_lt_le_dec t 8) as [Hlt8|Hge8].
        + specialize (H (7 - t) ltac:(lia)). replace (7 - t) with (8 * 0 + (7 - t)) in H by lia.
          rewrite bit_at in H by lia. replace (7 - (7 - t)) with t in H by lia. exact H.
        + apply testbit_byte_high; [apply Ha|lia]. }
    rewrite E. apply Z.mod_pos_bound. apply Z.pow_pos_nonneg; lia.
Qed.

Lemma bit_app_l (a b : list Z) (j : Z) :
  0 <= j < 8 * Z.of_nat (length a) -> bit (a ++ b) j = bit a j.
Proof.
  intros Hj. unfold bit. rewrite rd_app_l by (Z.div_mod_to_equations; lia). reflexivity.
Qed.

Lemma bit_take (a : list Z) (n : nat) (j : Z) :
  0 <= j < 8 * Z.of_nat n -> bit (take n a) j = bit a j.
Proof.
  intros Hj. unfold bit. rewrite rd_take by (Z.div_mod_to_equations; lia). reflexivity.
Qed.

(** ** Round trip *)

(** C1 (round trip of excision and insertion).  [seq] is a left-padded
    sequence of [seq_size] nucleotides whose padding bits are zero, with
    at least one k-mer ([sm_k sm <= seq_size]); the section holds in
    [minimizer sm], on its [nb_bytes_mini sm = ceil(m / 4)] bytes, the
    [m >= 1] nucleotides of [seq] that start at [mini_pos], and
    [mini_pos + m <= seq_size].  Then [write_compacted_sequence] appends
    the count of k-mers, the position and the left-padded residual of the
    other [seq_size - m] nucleotides to its columns; and [add_minimizer],
    called with that count on a buffer of the size of [seq] that starts
    with the residual, whatever bytes [tail] follow it, gives back the
    bytes of [seq], padding included.  [seq_size] is bounded as the 32-bit
    indices of the code require. *)
Theorem minimizer_round_trip (sm : Section_Minimizer) (seq data tail : list Z)
    (seq_size mini_pos : Z) :
  bytes_ok seq -> bytes_ok tail -> bytes_ok (minimizer sm) ->
  Z.of_nat (length seq) = bytes_from_bit_array 2 seq_size ->
  Z.of_nat (length tail)
    = bytes_from_bit_array 2 seq_size - bytes_from_bit_array 2 (seq_size - sm_m sm) ->
  Z.of_nat (length (minimizer sm)) = nb_bytes_mini sm ->
  nb_bytes_mini sm = bytes_from_bit_array 2 (sm_m sm) ->
  1 <= sm_m sm -> 0 <= mini_pos -> mini_pos + sm_m sm <= seq_size ->
  seq_size + 8 <= 2 ^ 32 ->
  0 <= sm_k sm <= seq_size ->
  padding_zero seq seq_size ->
  holds_minimizer (minimizer sm) (sm_m sm) seq seq_size mini_pos ->
  exists sm' residual,
    write_compacted_sequence seq seq_size mini_pos data sm = Ok sm'
    /\ n_value_buffer sm' = n_value_buffer sm ++ [seq_size - sm_k sm + 1]
    /\ m_idx_buffer sm' = m_idx_buffer sm ++ [mini_pos]
    /\ seq_buffer sm' = seq_buffer sm ++ residual
    /\ is_residual residual seq seq_size mini_pos (sm_m sm)
    /\ add_minimizer (seq_size - sm_k sm + 1) (residual ++ tail) mini_pos sm' = Ok seq.
Proof.
  intros Hseq Htail Hmb Hlen Hlt Hlm Hnbm Hm Hp Hpm Hsize Hk Hpad Hmini.
  rewrite !bytes_from_bit_array_2 in * by lia.
  destruct (write_compacted_sequence_bits seq seq_size mini_pos data sm Hseq Hlen Hm Hp Hpm
              Hsize) as (c & Hw & Lc & Bc & Zc & Pc & Sc).
  destruct (left_offset_spec seq_size ltac:(lia)) as [Hlo Hn].
  destruct (left_offset_spec (seq_size - sm_m sm) ltac:(lia)) as [Hlo' Hn'].
  destruct (left_offset_spec (sm_m sm) ltac:(lia)) as [Hlom Hnm].
  set (n' := (seq_size - sm_m sm + 3) / 4) in *.
  set (residual := take (Z.to_nat n') c).
  assert (Lr : Z.of_nat (length residual) = n') by (unfold residual; rewrite length_take; lia).
  assert (Br : forall j, 0 <= j < 8 * n' -> bit residual j = bit c j)
    by (intros j Hj; apply bit_take; lia).
  eexists _, residual. split; [exact Hw|].
  unfold write_compacted_sequence_without_mini. sm_simpl.
  rewrite bytes_from_bit_array_2 by lia. fold n' residual.
  split; [f_equal; f_equal; wrap_simpl; lia|]. split; [reflexivity|]. split; [reflexivity|].
  split.
  - (* the residual *)
    split; [rewrite bytes_from_bit_array_2 by lia; exact Lr|]. split.
    + intros Hpos. apply padding_zero_bits; [apply bytes_ok_take; exact Bc|lia|].
      intros j Hj. rewrite Br by lia. apply Zc. lia.
    + intros i Hi. apply nucleotide_eq_bits; [lia|destruct (i <? mini_pos); lia|].
      rewrite !Br by lia.
      destruct (i <? mini_pos) eqn:E; [apply Z.ltb_lt in E|apply Z.ltb_ge in E].
      * rewrite <- !Z.add_assoc. rewrite !Pc by lia. split; f_equal; lia.
      * rewrite <- !Z.add_assoc. rewrite !Sc by lia. split; f_equal; lia.
  - (* the insertion *)
    match goal with
    | |- add_minimizer _ _ _ ?s = _ =>
        apply (add_minimizer_bits seq (residual ++ tail) seq_size mini_pos s)
    end; sm_simpl; try assumption; try lia.
    + apply bytes_ok_app; [apply bytes_ok_take; exact Bc|exact Htail].
    + rewrite length_app. lia.
    + apply padding_zero_bits; [exact Hseq|lia|exact Hpad].
    + intros t Ht.
      pose proof (Hmini (t / 2) ltac:(Z.div_mod_to_equations; lia)) as Hn2.
      apply nucleotide_eq_bits in Hn2; [|Z.div_mod_to_equations; lia..].
      destruct Hn2 as [H0 H1].
      destruct (Z.eq_dec (t mod 2) 0) as [Ht0|Ht1].
      * replace t with (2 * (t / 2)) at 1 2 by (Z.div_mod_to_equations; lia).
        rewrite H0. f_equal. lia.
      * replace t with (2 * (t / 2) + 1) at 1 2 by (Z.div_mod_to_equations; lia).
        rewrite Z.add_assoc, H1. f_equal. lia.
    + intros t Ht. rewrite bit_app_l by lia. rewrite Br by lia. apply Pc. lia.
    + intros t Ht. rewrite bit_app_l by lia. rewrite Br by lia. apply Sc. lia.
Qed.

Lemma minimizer_round_trip_witness :
  exists sm' residual,
    write_compacted_sequence [30; 30] 8 2 [] fresh_minimizer_section = Ok sm'
    /\ n_value_buffer sm'
       = n_value_buffer fresh_minimizer_section ++ [8 - sm_k fresh_minimizer_section + 1]
    /\ m_idx_buffer sm' = m_idx_buffer fresh_minimizer_section ++ [2]
    /\ seq_buffer sm' = seq_buffer fresh_minimizer_section ++ residual
    /\ is_residual residual [30; 30] 8 2 (sm_m fresh_minimizer_section)
    /\ add_minimizer (8 - sm_k fresh_minimizer_section + 1) (residual ++ []) 2 sm'
       = Ok [30; 30].
Proof.
  apply (minimizer_round_trip fresh_minimizer_section [30; 30] [] [] 8 2).
  - apply bytes_ok_Forall. repeat constructor; lia.
  - apply bytes_ok_Forall. constructor.
  - apply bytes_ok_Forall. vm_compute. repeat constructor; discriminate.
  - by_eval.
  - by_eval.
  - by_eval.
  - by_eval.
  - by_eval.
  - by_eval.
  - by_eval.
  - by_eval.
  - by_eval.
  - by_eval.
  - intros i Hi. change (sm_m fresh_minimizer_section) with 3 in Hi.
    assert (H : i = 0 \/ i = 1 \/ i = 2) by lia.
    destruct H as [->|[->| ->]]; reflexivity.
Defined.

(** The same on a sequence of 5 nucleotides, [AGTAC], whose residual [AC]
    is read into a buffer of two bytes that ends with a byte of an earlier
    block. *)
Example minimizer_round_trip_in_used_buffer :
  (sm ← write_compacted_sequence [0; 225] 5 1 [] fresh_minimizer_section;
   seq ← add_minimizer 1 (seq_buffer sm ++ [255]) 1 sm;
   Ok (seq_buffer sm, seq)) = Ok ([1], [0; 225]).
Proof. reflexivity. Qed.

(** * Further properties of the code

    ** Integers in big-endian order *)

Lemma rd_store_big_endian (size data b : Z) :
  0 <= b < size ->
  rd (store_big_endian size data) b = u8 (Z.shiftr data (8 * (size - 1 - b))).
Proof.
  intros Hb. unfold rd, store_big_endian.
  rewrite list_lookup_fmap, lookup_seq_lt by lia. cbn.
  do 3 f_equal. lia.
Qed.

Lemma bytes_ok_store_big_endian (size data : Z) : bytes_ok (store_big_endian size data).
Proof.
  apply bytes_ok_Forall. unfold store_big_endian. apply Forall_fmap, Forall_forall.
  intros i _. apply u8_range.
Qed.

(** The bits of the value that [load_big_endian] accumulates from the
    bytes that [store_big_endian] wrote. *)
Lemma load_store_bits (w size data : Z) :
  0 <= size -> 8 * size <= w ->
  forall i, 0 <= i ->
    Z.testbit (load_big_endian w (store_big_endian size data) size) i
    = (i <? 8 * size) && Z.testbit data i.
Proof.
  intros Hs Hw. unfold load_big_endian.
  pose proof (for_loop_ind
    (fun b acc => forall i, 0 <= i ->
       Z.testbit acc i = (i <? 8 * b) && Z.testbit data (i + 8 * (size - b)))
    size
    (fun b acc => Z.lor (Z.shiftl acc 8 mod 2 ^ w) (rd (store_big_endian size data) b)) 0)
    as Hind.
  assert (H : forall i, 0 <= i ->
            Z.testbit
              (for_loop size
                 (fun b acc =>
                    Z.lor (Z.shiftl acc 8 mod 2 ^ w) (rd (store_big_endian size data) b)) 0) i
            = (i <? 8 * size) && Z.testbit data (i + 8 * (size - size))).
  2:{ intros i Hi. rewrite H by lia. do 2 f_equal. lia. }
  apply Hind; clear Hind; [lia| |].
  - intros j Hj. rewrite Z.testbit_0_l.
    destruct (j <? 8 * 0) eqn:E; [apply Z.ltb_lt in E; lia|reflexivity].
  - intros b acc Hb IH j Hj.
    rewrite Z.lor_spec, rd_store_big_endian by lia.
    destruct (Z_lt_le_dec j 8) as [Hlt|Hge].
    + rewrite u8_testbit by lia.
      rewrite Z.mod_pow2_bits_low, Z.shiftl_spec by lia.
      rewrite (Z.testbit_neg_r acc) by lia. cbn [orb].
      rewrite Z.shiftr_spec by lia.
      destruct (j <? 8 * (b + 1)) eqn:E2; [|apply Z.ltb_ge in E2; lia].
      cbn [andb]. f_equal. lia.
    + rewrite (testbit_byte_high (u8 _)) by (try apply u8_range; lia). rewrite orb_false_r.
      destruct (Z_lt_le_dec j (8 * (b + 1))) as [Hlt'|Hge'].
      * rewrite Z.mod_pow2_bits_low, Z.shiftl_spec by lia. rewrite IH by lia.
        destruct (j - 8 <? 8 * b) eqn:E3; [|apply Z.ltb_ge in E3; lia].
        destruct (j <? 8 * (b + 1)) eqn:E2; [|apply Z.ltb_ge in E2; lia].
        cbn [andb]. f_equal. lia.
      * destruct (j <? 8 * (b + 1)) eqn:E2; [apply Z.ltb_lt in E2; lia|]. cbn [andb].
        destruct (Z_lt_le_dec j w) as [Hjw|Hjw].
        -- rewrite Z.mod_pow2_bits_low, Z.shiftl_spec by lia. rewrite IH by lia.
           destruct (j - 8 <? 8 * b) eqn:E3; [apply Z.ltb_lt in E3; lia|reflexivity].
        -- apply Z.mod_pow2_bits_high. lia.
Qed.

Lemma load_store_mod (size data : Z) :
  0 <= size <= 8 -> 0 <= data ->
  load_big_endian 64 (store_big_endian size data) size = data mod 2 ^ (8 * size).
Proof.
  intros Hs Hd. apply Z.bits_inj'. intros i Hi. rewrite load_store_bits by lia.
  destruct (i <? 8 * size) eqn:E; [apply Z.ltb_lt in E|apply Z.ltb_ge in E]; cbn [andb].
  - rewrite Z.mod_pow2_bits_low by lia. reflexivity.
  - rewrite Z.mod_pow2_bits_high by lia. reflexivity.
Qed.

Lemma load_store_small (size data : Z) :
  0 <= size <= 8 -> 0 <= data < 2 ^ (8 * size) ->
  load_big_endian 64 (store_big_endian size data) size = data.
Proof. intros Hs Hd. rewrite load_store_mod by lia. apply Z.mod_small. lia. Qed.

(** X1. Loading the [size <= 8] bytes that [store_big_endian] wrote for a
    value gives the value back, reduced modulo [2^(8 * size)]: the value
    itself when it fits in [size] bytes. *)
Theorem load_store_big_endian (size data : Z) :
  0 <= size <= 8 -> 0 <= data ->
  load_big_endian 64 (store_big_endian size data) size = data mod 2 ^ (8 * size)
  /\ (data < 2 ^ (8 * size) ->
      load_big_endian 64 (store_big_endian size data) size = data).
Proof.
  intros Hs Hd. split; [apply load_store_mod; assumption|].
  intros Hlt. apply load_store_small; lia.
Qed.

Lemma load_store_big_endian_witness :
  load_big_endian 64 (store_big_endian 2 258) 2 = 258 mod 2 ^ (8 * 2)
  /\ (258 < 2 ^ (8 * 2) -> load_big_endian 64 (store_big_endian 2 258) 2 = 258).
Proof. apply (load_store_big_endian 2 258); lia. Defined.

(** ** Sizes and masks *)

(** X2. [bytes_from_bit_array] is the least number of bytes that hold
    [nb_elem] elements of [bits_per_elem] bits, and 0 when there is no
    bit to hold; the product is one that a [uint64_t] holds. *)
Theorem bytes_from_bit_array_least (bits_per_elem nb_elem : Z) :
  0 <= bits_per_elem -> 0 <= nb_elem -> bits_per_elem * nb_elem < 2 ^ 64 ->
  8 * (bytes_from_bit_array bits_per_elem nb_elem - 1) < bits_per_elem * nb_elem
    <= 8 * bytes_from_bit_array bits_per_elem nb_elem
  /\ (bits_per_elem * nb_elem = 0 -> bytes_from_bit_array bits_per_elem nb_elem = 0).
Proof.
  intros Hb Hn Hp. unfold bytes_from_bit_array.
  destruct (bits_per_elem =? 0) eqn:Eb; [apply Z.eqb_eq in Eb; subst; cbn; lia|].
  destruct (nb_elem =? 0) eqn:En; [apply Z.eqb_eq in En; subst; cbn; lia|].
  apply Z.eqb_neq in Eb, En. cbn [orb].
  assert (Hpos : 1 <= bits_per_elem * nb_elem) by nia.
  set (p := bits_per_elem * nb_elem) in *. clearbody p.
  wrap_simpl. split; [|lia]. Z.div_mod_to_equations. lia.
Qed.

Lemma bytes_from_bit_array_least_witness :
  8 * (bytes_from_bit_array 2 5 - 1) < 2 * 5 <= 8 * bytes_from_bit_array 2 5
  /\ (2 * 5 = 0 -> bytes_from_bit_array 2 5 = 0).
Proof. apply (bytes_from_bit_array_least 2 5); lia. Defined.

Lemma mask_mini_low_bits_aux (minimizer m : Z) :
  0 <= minimizer < 2 ^ 64 -> 0 <= m < 2 ^ 64 ->
  mask_mini minimizer m
  = Some (if m <? 32 then minimizer mod 2 ^ (2 * m) else minimizer).
Proof.
  intros Hx Hm. unfold mask_mini, get_mini_mask.
  destruct (32 <=? m) eqn:E; [apply Z.leb_le in E|apply Z.leb_gt in E].
  - destruct (m <? 32) eqn:E'; [apply Z.ltb_lt in E'; lia|]. f_equal.
    change 18446744073709551615 with (Z.ones 64).
    rewrite Z.land_ones by lia. apply Z.mod_small. lia.
  - destruct (m <? 32) eqn:E'; [|apply Z.ltb_ge in E'; lia].
    unfold shl64. rewrite (u64_small (2 * m)) by lia.
    replace ((0 <=? 2 * m) && (2 * m <? 64)) with true
      by (symmetry; apply andb_true_iff; split; [apply Z.leb_le|apply Z.ltb_lt]; lia).
    assert (Hp : 1 <= 2 ^ (2 * m) <= 2 ^ 62).
    { split; [apply (Z.pow_le_mono_r 2 0 (2 * m)); lia|apply Z.pow_le_mono_r; lia]. }
    rewrite Z.shiftl_1_l. rewrite (u64_small (2 ^ (2 * m))) by lia.
    rewrite u64_small by lia. f_equal.
    replace (2 ^ (2 * m) - 1) with (Z.ones (2 * m)) by (rewrite Z.ones_equiv; lia).
    apply Z.land_ones. lia.
Qed.


(** X3. [mask_mini] keeps the [2 * m] low bits of a 64-bit minimizer, all
    of them from [m = 32] on; no [m] makes it shift by 64 or more. *)
Theorem mask_mini_low_bits (minimizer m : Z) :
  0 <= minimizer < 2 ^ 64 -> 0 <= m < 2 ^ 64 ->
  mask_mini minimizer m
  = Some (if m <? 32 then minimizer mod 2 ^ (2 * m) else minimizer).
Proof. apply mask_mini_low_bits_aux. Qed.

Lemma mask_mini_low_bits_witness :
  mask_mini 255 3 = Some (if 3 <? 32 then 255 mod 2 ^ (2 * 3) else 255).
Proof. apply (mask_mini_low_bits 255 3); lia. Defined.

Lemma lor_byte (k b : Z) : 0 <= b < 256 -> Z.lor (256 * k) b = 256 * k + b.
Proof.
  intros Hb.
  assert (Hland : Z.land (256 * k) b = 0).
  { apply Z.bits_inj'. intros i Hi. rewrite Z.land_spec, Z.testbit_0_l.
    destruct (Z_lt_le_dec i 8) as [Hlt|Hge].
    - replace (256 * k) with (k * 2 ^ 8) by lia. rewrite Z.mul_pow2_bits_low by lia.
      reflexivity.
    - rewrite (testbit_byte_high b) by lia. apply andb_false_r. }
  rewrite <- Z.lxor_lor by exact Hland. symmetry. apply Z.add_nocarry_lxor. exact Hland.
Qed.

(** The loop of [mask_mini] over an array accumulates what
    [load_big_endian] does. *)
Lemma mask_mini_arr_load (mini_arr : list Z) (n : Z) :
  bytes_ok mini_arr ->
  for_loop n (fun i minimizer => u64 (Z.shiftl minimizer 8 + rd mini_arr i)) 0
  = load_big_endian 64 mini_arr n.
Proof.
  intros Ha. unfold load_big_endian. apply for_loop_ext. intros i acc _.
  rewrite Z.shiftl_mul_pow2 by lia. change (2 ^ 8) with 256. unfold u64.
  pose proof (Ha i) as Hb.
  replace (acc * 256 mod 2 ^ 64) with (256 * (acc mod 2 ^ 56))
    by (change (2 ^ 64) with (256 * 2 ^ 56); rewrite (Z.mul_comm acc);
        rewrite Z.mul_mod_distr_l by lia; reflexivity).
  rewrite lor_byte by exact Hb.
  pose proof (Z.mod_pos_bound acc (2 ^ 56) ltac:(lia)) as Hacc.
  symmetry. apply Z.mod_unique with (q := acc / 2 ^ 56); [lia|].
  pose proof (Z.div_mod acc (2 ^ 56) ltac:(lia)). lia.
Qed.

(** X4. The key that [mask_mini] computes from the array of a minimizer
    of [1 <= m <= 32] nucleotides stored in big-endian order on
    [bytes_from_bit_array 2 m] bytes is the value masked to [2 * m]
    bits. *)
Theorem mask_mini_arr_of_stored (minimizer m : Z) :
  0 <= minimizer < 2 ^ 64 -> 1 <= m <= 32 ->
  mask_mini_arr (store_big_endian (bytes_from_bit_array 2 m) minimizer) m
  = Some (minimizer mod 2 ^ (2 * m)).
Proof.
  intros Hx Hm. unfold mask_mini_arr. cbv zeta.
  rewrite bytes_from_bit_array_2 by lia.
  assert (Hnb : s32 (u64 (u64 (u64 (2 * m) - 1) / 8 + 1)) = (m + 3) / 4).
  { wrap_simpl. unfold s32.
    rewrite Z.mod_small by (Z.div_mod_to_equations; lia).
    destruct (_ <? 2 ^ 31) eqn:E; [|apply Z.ltb_ge in E; Z.div_mod_to_equations; lia].
    Z.div_mod_to_equations. lia. }
  rewrite Hnb. set (nb := (m + 3) / 4).
  assert (Hnb' : 0 <= nb <= 8 /\ 2 * m <= 8 * nb)
    by (unfold nb; Z.div_mod_to_equations; lia).
  rewrite mask_mini_arr_load by apply bytes_ok_store_big_endian.
  rewrite load_store_mod by lia.
  assert (Hr : 0 <= minimizer mod 2 ^ (8 * nb) < 2 ^ 64).
  { pose proof (Z.mod_pos_bound minimizer (2 ^ (8 * nb)) ltac:(apply Z.pow_pos_nonneg; lia)).
    assert (2 ^ (8 * nb) <= 2 ^ 64) by (apply Z.pow_le_mono_r; lia). lia. }
  rewrite mask_mini_low_bits_aux by lia. f_equal.
  destruct (m <? 32) eqn:E; [apply Z.ltb_lt in E|apply Z.ltb_ge in E].
  - apply Z.bits_inj'. intros i Hi. destruct (Z_lt_le_dec i (2 * m)) as [Hlt|Hge].
    + rewrite !Z.mod_pow2_bits_low by lia. reflexivity.
    + rewrite !(Z.mod_pow2_bits_high _ (2 * m)) by lia. reflexivity.
  - assert (m = 32) by lia. subst m. assert (nb = 8) by (unfold nb; reflexivity).
    rewrite H. rewrite !Z.mod_small by (change (8 * 8) with 64; change (2 * 32) with 64; lia).
    reflexivity.
Qed.

Lemma mask_mini_arr_of_stored_witness :
  mask_mini_arr (store_big_endian (bytes_from_bit_array 2 3) 56) 3 = Some (56 mod 2 ^ (2 * 3)).
Proof. apply (mask_mini_arr_of_stored 56 3); lia. Defined.

(** ** Minimizer sections in the hashtable of the footer *)

Lemma big_endian_snoc (a : list Z) (b : Z) : big_endian (a ++ [b]) = 256 * big_endian a + b.
Proof. unfold big_endian. rewrite fold_left_app. reflexivity. Qed.

(** [load_big_endian] over all the bytes of an array of at most 8 bytes
    gives the number that the bytes write. *)
Lemma load_big_endian_value (a : list Z) :
  bytes_ok a -> (length a <= 8)%nat ->
  load_big_endian 64 a (Z.of_nat (length a)) = big_endian a
  /\ 0 <= big_endian a < 2 ^ (8 * Z.of_nat (length a)).
Proof.
  intros Ha Hlen. unfold load_big_endian.
  pose proof (for_loop_ind
    (fun i acc => acc = big_endian (take (Z.to_nat i) a) /\ 0 <= acc < 2 ^ (8 * i))
    (Z.of_nat (length a))
    (fun b data => Z.lor (Z.shiftl data 8 mod 2 ^ 64) (rd a b)) 0 ltac:(lia)) as H.
  cbv beta in H. rewrite Nat2Z.id, firstn_all in H.
  assert (E : for_loop (Z.of_nat (length a))
                (fun b data => Z.lor (Z.shiftl data 8 mod 2 ^ 64) (rd a b)) 0
              = big_endian a
              /\ 0 <= for_loop (Z.of_nat (length a))
                        (fun b data => Z.lor (Z.shiftl data 8 mod 2 ^ 64) (rd a b)) 0
                 < 2 ^ (8 * Z.of_nat (length a))).
  { apply H.
    - split; [reflexivity|]. cbn. lia.
    - intros i acc Hi [-> Hr]. pose proof (Ha i) as Hb.
      assert (Hpow : 2 ^ (8 * (i + 1)) = 256 * 2 ^ (8 * i)).
      { replace (8 * (i + 1)) with (8 + 8 * i) by lia.
        rewrite Z.pow_add_r by lia. reflexivity. }
      assert (Hle : 2 ^ (8 * i) <= 2 ^ 56) by (apply Z.pow_le_mono_r; lia).
      rewrite Z.shiftl_mul_pow2 by lia. change (2 ^ 8) with 256.
      rewrite Z.mod_small by (change (2 ^ 64) with (256 * 2 ^ 56); nia).
      rewrite (Z.mul_comm _ 256), lor_byte by exact Hb.
      split; [|rewrite Hpow; nia].
      replace (Z.to_nat (i + 1)) with (S (Z.to_nat i)) by lia.
      assert (Hlk : a !! Z.to_nat i = Some (rd a i)).
      { unfold rd. destruct (a !! Z.to_nat i) eqn:El; [reflexivity|].
        apply lookup_ge_None in El. lia. }
      rewrite (take_S_r _ _ _ Hlk), big_endian_snoc. reflexivity. }
  destruct E as [E1 E2]. rewrite E1 in E2. split; assumption.
Qed.

(** The key that [mask_mini] computes from the array of a minimizer of
    [1 <= m <= 32] nucleotides is the number that its bytes write,
    reduced modulo [2^(2 * m)]. *)
Lemma mask_mini_arr_key (mini : list Z) (m : Z) :
  1 <= m <= 32 -> bytes_ok mini ->
  Z.of_nat (length mini) = bytes_from_bit_array 2 m ->
  mask_mini_arr mini m = Some (big_endian mini mod 2 ^ (2 * m)).
Proof.
  intros Hm Ha Hlen. unfold mask_mini_arr. cbv zeta.
  rewrite bytes_from_bit_array_2 in Hlen by lia.
  assert (Hnb : s32 (u64 (u64 (u64 (2 * m) - 1) / 8 + 1)) = (m + 3) / 4).
  { wrap_simpl. unfold s32.
    rewrite Z.mod_small by (Z.div_mod_to_equations; lia).
    destruct (_ <? 2 ^ 31) eqn:E; [|apply Z.ltb_ge in E; Z.div_mod_to_equations; lia].
    Z.div_mod_to_equations. lia. }
  rewrite Hnb, <- Hlen.
  assert (Hnb' : (length mini <= 8)%nat /\ 2 * m <= 8 * Z.of_nat (length mini))
    by (rewrite Hlen; Z.div_mod_to_equations; lia).
  rewrite mask_mini_arr_load by exact Ha.
  destruct (load_big_endian_value mini Ha (proj1 Hnb')) as [-> Hr].
  assert (Hle : 2 ^ (8 * Z.of_nat (length mini)) <= 2 ^ 64) by (apply Z.pow_le_mono_r; lia).
  rewrite mask_mini_low_bits_aux by lia. f_equal.
  destruct (m <? 32) eqn:E; [reflexivity|apply Z.ltb_ge in E].
  assert (m = 32) by lia. subst m. symmetry. apply Z.mod_small.
  change (2 * 32) with 64. lia.
Qed.

Section Minimizer_index.
Context (pthash : MPH_library) (ic : Compression_library).

(** C2, with the condition that the code needs.  A minimizer section of
    [1 <= m <= 32] nucleotides closed on an indexed writer registers the
    number that the bytes of its minimizer write, reduced modulo
    [2^(2 * m)], with the offset of its tag byte ['M']; and when the footer
    is written by a writer whose registrations extend these, with
    pairwise distinct keys on which the perfect hash library behaves as a
    minimal perfect hash, the table that [write_footer] builds maps that
    number to exactly that offset. *)
Theorem hashtable_maps_minimizer_to_section_offset
    (sm : Section_Minimizer) (f fc : Kero_file) :
  append_ok f -> is_reader f = false -> indexed f = true ->
  start_pos sm = tellp f ->
  1 <= sm_m sm <= 32 ->
  nb_bytes_mini sm = bytes_from_bit_array 2 (sm_m sm) ->
  Z.of_nat (length (minimizer sm)) = nb_bytes_mini sm ->
  bytes_ok (minimizer sm) ->
  tellp f + section_length ic sm < 2 ^ 63 ->
  length (mini_list f) = length (mini_pos f) ->
  append_ok fc -> is_reader fc = false ->
  (mini_list f ++ [minimizer_key sm]) `prefix_of` mini_list fc ->
  (mini_pos f ++ [tellp f]) `prefix_of` mini_pos fc ->
  length (mini_list fc) = length (mini_pos fc) ->
  NoDup (mini_list fc) -> is_mph pthash (mini_list fc) ->
  tellp fc + hashtable_length pthash (mini_list fc) < 2 ^ 63 ->
  (exists sm' f',
     Section_Minimizer_close ic sm f = Ok (sm', f')
     /\ mini_list f' = mini_list f ++ [minimizer_key sm]
     /\ mini_pos f' = mini_pos f ++ [tellp f]
     /\ rd (content f') (tellp f) = char "M")
  /\ (exists sh fc',
        write_footer_hashtable pthash fc = Ok (sh, fc')
        /\ MPHT_find pthash (minimizer_key sm) (sh_mpht sh) = tellp f).
Proof.
  intros Hok Hr Hidx Hstart Hm Hnb Hmini Hbytes Hb Hlen Hokc Hrc Hpl Hpp Hlenc Hnd Hmph Hbc.
  split.
  - destruct (Section_Minimizer_close_registers ic sm f Hok Hr Hidx Hstart Hmini
                ltac:(lia) Hb)
      as (sm' & f' & key' & Hc & Hkey' & Hl & Hp & Htag & _).
    rewrite mask_mini_arr_key in Hkey' by (try assumption; congruence).
    injection Hkey' as <-.
    exists sm', f'. auto.
  - destruct (write_footer_hashtable_grown pthash fc Hokc Hrc Hlenc Hbc)
      as (sh & fc' & Hw & _).
    exists sh, fc'. split; [exact Hw|].
    apply (write_footer_hashtable_find pthash fc fc' sh (length (mini_list f))
             (minimizer_key sm) (tellp f));
      try assumption; [apply Hokc| |].
    + eapply prefix_lookup_Some; [|exact Hpl].
      rewrite lookup_app_r, Nat.sub_diag by lia. reflexivity.
    + eapply prefix_lookup_Some; [|exact Hpp].
      rewrite Hlen, lookup_app_r, Nat.sub_diag by lia. reflexivity.
Qed.

End Minimizer_index.

Lemma hashtable_maps_minimizer_to_section_offset_witness :
  (exists sm' f',
     Section_Minimizer_close plain_codec (fst unmasked_minimizer_section)
       (snd unmasked_minimizer_section) = Ok (sm', f')
     /\ mini_list f' = mini_list (snd unmasked_minimizer_section)
                         ++ [minimizer_key (fst unmasked_minimizer_section)]
     /\ mini_pos f' = mini_pos (snd unmasked_minimizer_section)
                        ++ [tellp (snd unmasked_minimizer_section)]
     /\ rd (content f') (tellp (snd unmasked_minimizer_section)) = char "M")
  /\ (exists sh fc',
        write_footer_hashtable list_pthash closed_unmasked_section = Ok (sh, fc')
        /\ MPHT_find list_pthash (minimizer_key (fst unmasked_minimizer_section)) (sh_mpht sh)
           = tellp (snd unmasked_minimizer_section)).
Proof.
  apply (hashtable_maps_minimizer_to_section_offset list_pthash plain_codec
           (fst unmasked_minimizer_section) (snd unmasked_minimizer_section)
           closed_unmasked_section).
  - constructor; by_eval.
  - by_eval.
  - by_eval.
  - by_eval.
  - by_eval.
  - by_eval.
  - by_eval.
  - apply bytes_ok_Forall. vm_compute. repeat constructor; discriminate.
  - by_eval.
  - by_eval.
  - constructor; by_eval.
  - by_eval.
  - exists []. by_eval.
  - exists []. by_eval.
  - by_eval.
  - vm_compute. apply NoDup_singleton.
  - apply list_pthash_is_mph.
  - by_eval.
Defined.

(** The stored minimizer [248] of the section above is registered as 56
    at the offset 72. *)
Lemma unmasked_minimizer_key :
  minimizer (fst unmasked_minimizer_section) = [248]
  /\ minimizer_key (fst unmasked_minimizer_section) = 56
  /\ tellp (snd unmasked_minimizer_section) = 72.
Proof. by_eval. Qed.

(** Counterexample to C2 as stated: two minimizer sections for the same
    minimizer, stored as [56] with [m = 3], are written and closed on an
    indexed writer.  Both are registered with the key 56, at the offsets
    72 and 164 of their tag bytes ['M'].  Whatever the perfect hash
    library, the table that [write_footer] builds gives one offset for
    the key 56, so it does not map the minimizer of each section to the
    offset of that section; with the library [list_pthash] it gives 164,
    the offset of the second section. *)
Lemma shared_minimizer_has_one_offset :
  (f ← two_sections_one_key;
   Ok (mini_list f, mini_pos f, rd (content f) 72, rd (content f) 164))
  = Ok ([56; 56], [72; 164], char "M", char "M")
  /\ (forall (pthash : MPH_library) (f fc' : Kero_file) (sh : Section_Hashtable pthash),
        two_sections_one_key = Ok f ->
        write_footer_hashtable pthash f = Ok (sh, fc') ->
        ~ (MPHT_find pthash 56 (sh_mpht sh) = 72 /\ MPHT_find pthash 56 (sh_mpht sh) = 164))
  /\ (f ← two_sections_one_key;
      '(sh, _) ← write_footer_hashtable list_pthash f;
      Ok (MPHT_find list_pthash 56 (sh_mpht sh)))
     = Ok 164.
Proof.
  split; [vm_compute; reflexivity|]. split.
  - intros pthash f fc' sh _ _ [H1 H2]. rewrite H1 in H2. discriminate.
  - vm_compute. reflexivity.
Qed.

(** ** The shift primitives *)

(** X5. [leftshift8] on a window of [len] bytes inside the array moves
    every bit of the window [s < 8] places towards the start of the window,
    fills the last [s] bits of the window with zeros and leaves the bytes
    outside the window as they are; the assertion fails for [s >= 8]. *)
Theorem leftshift8_moves_bits (a : list Z) (base len s : Z) :
  bytes_ok a -> 0 <= base -> 0 <= len -> base + len <= Z.of_nat (length a) -> 0 <= s ->
  (8 <= s -> leftshift8 a base len s = Err Assert_failure)
  /\ (s < 8 ->
      exists a',
        leftshift8 a base len s = Ok a'
        /\ length a' = length a
        /\ bytes_ok a'
        /\ (forall j, 8 * base <= j -> j + s < 8 * (base + len) -> bit a' j = bit a (j + s))
        /\ (forall j, 8 * base <= j < 8 * (base + len) -> 8 * (base + len) <= j + s ->
                      bit a' j = false)
        /\ (forall j, 0 <= j -> j < 8 * base \/ 8 * (base + len) <= j -> bit a' j = bit a j)).
Proof.
  intros Ha Hb Hl Hin Hs. split.
  - intros H8. unfold leftshift8.
    destruct (s <? 8) eqn:E; [apply Z.ltb_lt in E; lia|reflexivity].
  - intros H8. apply leftshift8_bits; try assumption. lia.
Qed.

Lemma leftshift8_moves_bits_witness :
  (8 <= 2 -> leftshift8 [1; 130] 0 2 2 = Err Assert_failure)
  /\ (2 < 8 ->
      exists a',
        leftshift8 [1; 130] 0 2 2 = Ok a'
        /\ length a' = length [1; 130]
        /\ bytes_ok a'
        /\ (forall j, 8 * 0 <= j -> j + 2 < 8 * (0 + 2) -> bit a' j = bit [1; 130] (j + 2))
        /\ (forall j, 8 * 0 <= j < 8 * (0 + 2) -> 8 * (0 + 2) <= j + 2 -> bit a' j = false)
        /\ (forall j, 0 <= j -> j < 8 * 0 \/ 8 * (0 + 2) <= j -> bit a' j = bit [1; 130] j)).
Proof.
  apply (leftshift8_moves_bits [1; 130] 0 2 2).
  - apply bytes_ok_Forall. repeat constructor; lia.
  - lia.
  - lia.
  - by_eval.
  - lia.
Defined.

(** X6. [rightshift8] moves every bit of the window [s < 8] places towards
    the end of the window, fills the first [s] bits of the window with
    zeros and leaves the bytes outside the window as they are; the
    assertion fails for [s >= 8]. *)
Theorem rightshift8_moves_bits (a : list Z) (base len s : Z) :
  bytes_ok a -> 0 <= base -> 0 <= len -> base + len <= Z.of_nat (length a) -> 0 <= s ->
  (8 <= s -> rightshift8 a base len s = Err Assert_failure)
  /\ (s < 8 ->
      exists a',
        rightshift8 a base len s = Ok a'
        /\ length a' = length a
        /\ bytes_ok a'
        /\ (forall j, 8 * base + s <= j < 8 * (base + len) -> bit a' j = bit a (j - s))
        /\ (forall j, 8 * base <= j < 8 * base + s -> j < 8 * (base + len) ->
                      bit a' j = false)
        /\ (forall j, 0 <= j -> j < 8 * base \/ 8 * (base + len) <= j -> bit a' j = bit a j)).
Proof.
  intros Ha Hb Hl Hin Hs. split.
  - intros H8. unfold rightshift8.
    destruct (s <? 8) eqn:E; [apply Z.ltb_lt in E; lia|reflexivity].
  - intros H8. apply rightshift8_bits; try assumption. lia.
Qed.

Lemma rightshift8_moves_bits_witness :
  (8 <= 2 -> rightshift8 [1; 130] 0 2 2 = Err Assert_failure)
  /\ (2 < 8 ->
      exists a',
        rightshift8 [1; 130] 0 2 2 = Ok a'
        /\ length a' = length [1; 130]
        /\ bytes_ok a'
        /\ (forall j, 8 * 0 + 2 <= j < 8 * (0 + 2) -> bit a' j = bit [1; 130] (j - 2))
        /\ (forall j, 8 * 0 <= j < 8 * 0 + 2 -> j < 8 * (0 + 2) -> bit a' j = false)
        /\ (forall j, 0 <= j -> j < 8 * 0 \/ 8 * (0 + 2) <= j -> bit a' j = bit [1; 130] j)).
Proof.
  apply (rightshift8_moves_bits [1; 130] 0 2 2).
  - apply bytes_ok_Forall. repeat constructor; lia.
  - lia.
  - lia.
  - by_eval.
  - lia.
Defined.

(** X7. Shifting a window to the left and back to the right by the same
    amount gives the array back when the first [s] bits of the window are
    zero, as the padding of a left-padded sequence is. *)
Theorem leftshift8_rightshift8 (a : list Z) (base len s : Z) :
  bytes_ok a -> 0 <= base -> 0 <= len -> base + len <= Z.of_nat (length a) -> 0 <= s < 8 ->
  (forall j, 8 * base <= j < 8 * base + s -> j < 8 * (base + len) -> bit a j = false) ->
  (a1 ← leftshift8 a base len s; rightshift8 a1 base len s) = Ok a.
Proof.
  intros Ha Hb Hl Hin Hs Hz.
  destruct (leftshift8_bits a base len s Ha Hb Hl Hin Hs) as (a1 & R1 & L1 & B1 & S1 & _ & O1).
  rewrite R1. bind_ok.
  destruct (rightshift8_bits a1 base len s B1 Hb Hl ltac:(lia) Hs)
    as (a2 & R2 & L2 & B2 & S2 & Z2 & O2).
  rewrite R2. f_equal. apply bits_ext; [exact B2|exact Ha|lia|].
  intros j Hj.
  destruct (Z_lt_le_dec j (8 * base)) as [H1|H1]; [rewrite O2, O1 by lia; reflexivity|].
  destruct (Z_lt_le_dec j (8 * (base + len))) as [H2|H2];
    [|rewrite O2, O1 by lia; reflexivity].
  destruct (Z_lt_le_dec j (8 * base + s)) as [H3|H3].
  - rewrite Z2 by lia. symmetry. apply Hz; lia.
  - rewrite S2, S1 by lia. f_equal. lia.
Qed.

Lemma leftshift8_rightshift8_witness :
  (a1 ← leftshift8 [1; 130] 0 2 4; rightshift8 a1 0 2 4) = Ok [1; 130].
Proof.
  apply (leftshift8_rightshift8 [1; 130] 0 2 4).
  - apply bytes_ok_Forall. repeat constructor; lia.
  - lia.
  - lia.
  - by_eval.
  - lia.
  - intros j Hj _. assert (H : j = 0 \/ j = 1 \/ j = 2 \/ j = 3) by lia.
    destruct H as [->|[->|[->| ->]]]; reflexivity.
Defined.

(** X8. [fusion8] returns a byte whose [merge_index] high bits are those
    of [left_bits] and whose other bits are those of [right_bits]. *)
Theorem fusion8_takes_high_bits (left_bits right_bits merge_index : Z) :
  0 <= merge_index <= 8 ->
  0 <= fusion8 left_bits right_bits merge_index < 256
  /\ forall i, 0 <= i < 8 ->
       Z.testbit (fusion8 left_bits right_bits merge_index) i
       = if 8 - merge_index <=? i then Z.testbit left_bits i else Z.testbit right_bits i.
Proof.
  intros Hm. split; [unfold fusion8; apply u8_range|].
  intros i Hi. replace i with (7 - (7 - i)) by lia.
  rewrite fusion8_bit by lia. replace (7 - (7 - i)) with i by lia.
  destruct (7 - i <? merge_index) eqn:E1, (8 - merge_index <=? i) eqn:E2;
    try reflexivity; [apply Z.ltb_lt in E1; apply Z.leb_gt in E2|
                      apply Z.ltb_ge in E1; apply Z.leb_le in E2]; lia.
Qed.

Lemma fusion8_takes_high_bits_witness :
  0 <= fusion8 240 15 4 < 256
  /\ forall i, 0 <= i < 8 ->
       Z.testbit (fusion8 240 15 4) i
       = if 8 - 4 <=? i then Z.testbit 240 i else Z.testbit 15 i.
Proof. apply (fusion8_takes_high_bits 240 15 4). lia. Defined.

(** ** Readers *)

Lemma reading_length (d : list Z) (p : Z) (f : Kero_file) :
  reading d p f ->
  Z.of_nat (length d) = file_size f + next_free f /\ 0 <= p /\ Z.of_nat (length d) < 2 ^ 63.
Proof.
  intros [[Hr Hd Hb Hbound Hpos Hmode Hst] _ _ Hc Hp].
  rewrite <- Hc, <- Hp. rewrite length_content by assumption. lia.
Qed.

(** A state with the same buffered input is a reader of the same content. *)
Lemma reading_same_io (d : list Z) (p : Z) (f f' : Kero_file) :
  reading d p f ->
  is_reader f' = is_reader f -> fs f' = fs f -> current_position f' = current_position f ->
  file_size f' = file_size f -> next_free f' = next_free f ->
  file_buffer f' = file_buffer f ->
  reading d p f'.
Proof.
  intros [[Hr Hd Hb Hbound Hpos Hmode Hst] Ho Hs Hc Hp] E1 E2 E3 E4 E5 E6.
  constructor; [constructor|..]; unfold content in *; rewrite ?E1, ?E2, ?E3, ?E4, ?E5, ?E6;
    assumption.
Qed.

(** [read] inside the content. *)
Lemma reading_read (d : list Z) (p n : Z) (f : Kero_file) :
  reading d p f -> 0 <= n -> p + n <= Z.of_nat (length d) ->
  exists f',
    read n f = Ok (take (Z.to_nat n) (drop (Z.to_nat p) d), f')
    /\ reading d (p + n) f'
    /\ moved f f'.
Proof.
  intros Hrg Hn Hle. destruct (reading_length d p f Hrg) as (Hlen & Hp0 & H63).
  destruct Hrg as [Hok Ho Hs Hc Hp].
  pose proof Hok as [Hr Hd Hb Hbound Hpos Hmode Hstream].
  assert (H64 : 2 ^ 63 < 2 ^ 64) by reflexivity.
  assert (Hbytes : forall f', read n f = Ok (take (Z.to_nat n) (drop (Z.to_nat p) d), f')
                   -> reading d (p + n) f' ->
                   exists f', read n f = Ok (take (Z.to_nat n) (drop (Z.to_nat p) d), f')
                              /\ reading d (p + n) f' /\ moved f f').
  { intros f' E R. exists f'. split; [exact E|]. split; [exact R|].
    eapply read_moved. exact E. }
  rewrite <- Hc, <- Hp in *.
  destruct (decide (current_position f < file_size f)) as [Hlt|Hge].
  - destruct (decide (current_position f + n <= file_size f)) as [Hin|Hcross].
    + destruct (read_fuel_on_disk 1 n f Hok ltac:(lia) Hlt Hin)
        as (f' & Hread & Hcp & Hfs & Hnf & Hbuf & Hdisk & Hr' & Ho' & Hf' & Hpos' & Hin').
      apply (Hbytes f').
      * unfold read. rewrite Hread. do 2 f_equal.
        rewrite take_drop_content by lia.
        replace (Z.to_nat (n - Z.max 0 (file_size f - current_position f))) with 0%nat by lia.
        rewrite take_0, app_nil_r. f_equal. lia.
      * constructor; [constructor|..]; unfold content;
          rewrite ?Hfs, ?Hnf, ?Hbuf, ?Hdisk, ?Hcp; try assumption; try reflexivity; try lia.
        -- intros _. exact Hin'.
        -- intros _. rewrite Ho'. split; [exact Hf'|]. rewrite Hpos', Hcp. reflexivity.
    + unfold read. rewrite read_fuel_unfold. rewrite Hr. cbn [negb].
      destruct (current_position f <? file_size f) eqn:E1; [|apply Z.ltb_ge in E1; lia].
      rewrite (u64_small (current_position f + n)) by lia.
      destruct (file_size f <? current_position f + n) eqn:E2; [|apply Z.ltb_ge in E2; lia].
      cbv zeta. rewrite (u64_small (file_size f - current_position f)) by lia.
      destruct (read_fuel_on_disk 0 (file_size f - current_position f) f Hok
                  ltac:(lia) Hlt ltac:(lia))
        as (f1 & Hread & Hcp & Hfs & Hnf & Hbuf & Hdisk & Hr1 & Ho1 & Hf1 & Hpos1 & Hin1).
      rewrite Hread. bind_ok. rewrite u64_small by lia.
      rewrite (read_fuel_in_buffer 0 _ f1); [|assumption|lia..].
      rewrite Hcp, Hfs, Hnf, Hbuf.
      destruct (next_free f <? _) eqn:E3; [apply Z.ltb_lt in E3; lia|]. bind_ok.
      eexists. split; [|split].
      * do 2 f_equal. rewrite take_drop_content by lia. f_equal; f_equal; try lia.
        f_equal. lia.
      * constructor; [constructor|..]; unfold content; kf_simpl;
          rewrite ?Hfs, ?Hnf, ?Hbuf, ?Hdisk, ?Hcp; try assumption; try reflexivity; try lia.
        intros _. exact Hin1.
      * destruct (read_fuel_moved _ _ _ _ _ Hread) as (s & c & ->).
        eexists _, _. reflexivity.
  - apply (Hbytes (set_current_position (current_position f + n) f)).
    + unfold read. rewrite read_fuel_in_buffer; [|assumption|lia..].
      destruct (next_free f <? _) eqn:E3; [apply Z.ltb_lt in E3; lia|].
      do 2 f_equal. rewrite take_drop_content by lia.
      replace (Z.to_nat (Z.min n (file_size f - current_position f))) with 0%nat by lia.
      rewrite take_0, app_nil_l. f_equal. lia.
    + constructor; [constructor|..]; unfold content; kf_simpl;
        try assumption; try reflexivity; try lia.
Qed.

(** [read] past the end of the content. *)
Lemma reading_read_past (d : list Z) (p n : Z) (f : Kero_file) :
  reading d p f -> 0 <= n < 2 ^ 63 -> Z.of_nat (length d) < p + n ->
  p <= Z.of_nat (length d) ->
  read n f = Err Out_of_range.
Proof.
  intros Hrg Hn Hgt Hple. destruct (reading_length d p f Hrg) as (Hlen & Hp0 & H63).
  destruct Hrg as [Hok Ho Hs Hc Hp].
  pose proof Hok as [Hr Hd Hb Hbound Hpos Hmode Hstream].
  assert (H64 : 2 ^ 63 < 2 ^ 64) by reflexivity.
  rewrite <- Hp in *. rewrite Hlen in *.
  destruct (decide (current_position f < file_size f)) as [Hlt|Hge].
  - unfold read. rewrite read_fuel_unfold. rewrite Hr. cbn [negb].
    destruct (current_position f <? file_size f) eqn:E1; [|apply Z.ltb_ge in E1; lia].
    rewrite (u64_small (current_position f + n)) by lia.
    destruct (file_size f <? current_position f + n) eqn:E2; [|apply Z.ltb_ge in E2; lia].
    cbv zeta. rewrite (u64_small (file_size f - current_position f)) by lia.
    destruct (read_fuel_on_disk 0 (file_size f - current_position f) f Hok
                ltac:(lia) Hlt ltac:(lia))
      as (f1 & Hread & Hcp & Hfs & Hnf & Hbuf & Hdisk & Hr1 & _).
    rewrite Hread. bind_ok. rewrite u64_small by lia.
    rewrite (read_fuel_in_buffer 0 _ f1); [|assumption|lia..].
    rewrite Hcp, Hfs, Hnf.
    destruct (next_free f <? _) eqn:E3; [reflexivity|apply Z.ltb_ge in E3; lia].
  - unfold read. rewrite read_fuel_in_buffer; [|assumption|lia..].
    destruct (next_free f <? _) eqn:E3; [reflexivity|apply Z.ltb_ge in E3; lia].
Qed.

(** [jump_to] inside the content. *)
Lemma reading_jump_to (d : list Z) (p q : Z) (f : Kero_file) :
  reading d p f -> 0 <= q <= Z.of_nat (length d) ->
  exists f', jump_to q false f = Ok f' /\ reading d q f' /\ moved f f'.
Proof.
  intros Hrg Hq. destruct (reading_length d p f Hrg) as (Hlen & Hp0 & H63).
  destruct Hrg as [Hok Ho Hs Hc Hp].
  pose proof Hok as [Hr Hd Hb Hbound Hpos Hmode Hstream].
  unfold jump_to. rewrite u64_small by lia.
  destruct (_ <? q) eqn:E; [apply Z.ltb_lt in E; lia|].
  eexists. split; [reflexivity|]. split; [|eexists _, _; reflexivity].
  assert (Hseek : forall x, fstream_seek x (fs f) = Build_fstream (disk (fs f)) true false x true).
  { intros x. unfold fstream_seek, fs_usable. rewrite Ho, Hs, (Hmode Ho). reflexivity. }
  unfold fstream_seek_end. rewrite !Hseek.
  destruct (q <? file_size f) eqn:Eq; [apply Z.ltb_lt in Eq|apply Z.ltb_ge in Eq];
    (constructor; [constructor|..]; unfold content in *; kf_simpl;
     try assumption; try reflexivity; try lia).
Qed.

Lemma reading_jump_to_end (d : list Z) (p q : Z) (f : Kero_file) :
  reading d p f -> 0 <= q <= Z.of_nat (length d) ->
  exists f',
    jump_to q true f = Ok f' /\ reading d (Z.of_nat (length d) - q) f' /\ moved f f'.
Proof.
  intros Hrg Hq. destruct (reading_length d p f Hrg) as (Hlen & Hp0 & H63).
  destruct (reading_jump_to d p (Z.of_nat (length d) - q) f Hrg ltac:(lia))
    as (f' & Hj & Hrg' & Hm).
  exists f'. split; [|split; assumption].
  revert Hj. unfold jump_to. rewrite !u64_small by lia. rewrite Hlen.
  intros H.
  destruct (file_size f + next_free f <? q) eqn:E1; [apply Z.ltb_lt in E1; lia|].
  destruct (file_size f + next_free f <? file_size f + next_free f - q) eqn:E2;
    [apply Z.ltb_lt in E2; lia|].
  exact H.
Qed.

(** X9. [jump_to] exits when the target lies after the last byte of the
    file; otherwise it moves the reader to the target, counted from the
    start of the file or, [from_end] set, back from its end, and changes
    nothing but the position and the stream. *)
Theorem jump_to_in_file (d : list Z) (p q : Z) (from_end : bool) (f : Kero_file) :
  reading d p f -> 0 <= q < 2 ^ 64 ->
  (Z.of_nat (length d) < q -> jump_to q from_end f = Err (Exit 1))
  /\ (q <= Z.of_nat (length d) ->
      exists f',
        jump_to q from_end f = Ok f'
        /\ reading d (if from_end then Z.of_nat (length d) - q else q) f'
        /\ moved f f').
Proof.
  intros Hrg Hq. destruct (reading_length d p f Hrg) as (Hlen & Hp0 & H63). split.
  - intros Hgt. unfold jump_to. rewrite u64_small by lia.
    destruct (_ <? q) eqn:E; [reflexivity|apply Z.ltb_ge in E; lia].
  - intros Hle. destruct from_end.
    + apply (reading_jump_to_end d p q f Hrg). lia.
    + apply (reading_jump_to d p q f Hrg). lia.
Qed.

Lemma jump_to_in_file_witness :
  (Z.of_nat (length [1; 2; 3; 4; 5]) < 2 -> jump_to 2 true (reader_on [1; 2; 3; 4; 5] 1)
                                            = Err (Exit 1))
  /\ (2 <= Z.of_nat (length [1; 2; 3; 4; 5]) ->
      exists f',
        jump_to 2 true (reader_on [1; 2; 3; 4; 5] 1) = Ok f'
        /\ reading [1; 2; 3; 4; 5]
             (if true then Z.of_nat (length [1; 2; 3; 4; 5]) - 2 else 2) f'
        /\ moved (reader_on [1; 2; 3; 4; 5] 1) f').
Proof.
  apply (jump_to_in_file [1; 2; 3; 4; 5] 1 2 true (reader_on [1; 2; 3; 4; 5] 1)).
  - constructor; [constructor|..]; by_eval.
  - lia.
Defined.

(** X10. On a reader whose header is over, [read_section_type] returns the
    byte of the file at the position, from the disk or from the buffer,
    and leaves the container as it is. *)
Theorem read_section_type_peeks (d : list Z) (p : Z) (f : Kero_file) :
  reading d p f -> header_over f = true -> p < Z.of_nat (length d) ->
  read_section_type f = Ok (rd d p, f).
Proof.
  intros Hrg Hh Hp. destruct (reading_length d p f Hrg) as (Hlen & Hp0 & H63).
  destruct Hrg as [Hok Ho Hs Hc Hpos].
  pose proof Hok as [Hr Hd Hb Hbound Hposr Hmode Hstream].
  unfold read_section_type. rewrite Hh. cbn [negb]. bind_ok.
  rewrite <- Hc, <- Hpos in *. unfold content.
  destruct (current_position f <? file_size f) eqn:E;
    [apply Z.ltb_lt in E|apply Z.ltb_ge in E].
  - specialize (Hstream E). rewrite Ho in Hstream. destruct Hstream as [_ Hfp].
    unfold fstream_peek, fs_usable. rewrite Ho, Hs, Hfp, (Hmode Ho). cbn [negb andb].
    destruct (_ <? _) eqn:E2; [|apply Z.ltb_ge in E2; lia].
    rewrite rd_app_l by (rewrite length_take; lia). rewrite rd_take by lia. reflexivity.
  - rewrite u64_small by lia.
    rewrite rd_app_r by (rewrite length_take; lia). rewrite length_take.
    rewrite rd_take by lia. do 3 f_equal. lia.
Qed.

Lemma read_section_type_peeks_witness :
  read_section_type (reader_on [1; 2; 3; 4; 5] 1) = Ok (rd [1; 2; 3; 4; 5] 1, reader_on [1; 2; 3; 4; 5] 1).
Proof.
  apply (read_section_type_peeks [1; 2; 3; 4; 5] 1 (reader_on [1; 2; 3; 4; 5] 1)).
  - constructor; [constructor|..]; by_eval.
  - reflexivity.
  - by_eval.
Defined.

(** ** Opening a file for reading *)

Lemma has_signature_take (d : list Z) :
  has_signature (take (Z.to_nat 4) (drop (Z.to_nat 0) d)) = has_signature (take 4 d).
Proof. reflexivity. Qed.

Lemma has_signature_prefix (d : list Z) :
  4 <= Z.of_nat (length d) -> has_signature (take 4 d) = has_signature d.
Proof. intros H. unfold has_signature. rewrite !rd_take by lia. reflexivity. Qed.

(** The checks of the header, in the order [open] makes them. *)
Lemma open_header_checks (d : list Z) :
  Z.of_nat (length d) < 2 ^ 63 ->
  (Z.of_nat (length d) < 4 -> Kero_file_new d "r" = Err Out_of_range)
  /\ (4 <= Z.of_nat (length d) -> has_signature d = false ->
      Kero_file_new d "r" = Err (Throw "Absent signature at the beginning"))
  /\ (6 <= Z.of_nat (length d) -> has_signature d = true ->
      0 < rd d 4 \/ (rd d 4 = 0 /\ 1 < rd d 5) ->
      Kero_file_new d "r" = Err (Throw "Unexpected version number"))
  /\ (7 <= Z.of_nat (length d) -> has_signature d = true ->
      rd d 4 = 0 /\ rd d 5 <= 1 -> repeated_code (rd d 6) = true ->
      Kero_file_new d "r"
      = Err (Throw "Wrong encoding. The 4 2-bits values must be different.")).
Proof.
  intros Hlen. unfold Kero_file_new, open. cbv zeta.
  change (rd (bytes_of_string "r") 0 =? char "w") with false.
  change (rd (bytes_of_string "r") 0 =? char "r") with true.
  cbv iota. kf_simpl. cbn [Z.eqb andb disk fs_open fstream_open_in].
  cbn [fstream_failed fs_fail]. bind_ok. kf_simpl. cbv iota.
  match goal with
  | |- context [read 4 ?g] => set (f0 := g)
  end.
  assert (Hrg : reading d 0 f0).
  { constructor; [constructor|..]; unfold content, f0; kf_simpl;
      cbn [disk fs_open fs_fail fs_pos]; try reflexivity; try lia.
    rewrite take_ge by lia. rewrite take_0, app_nil_r. reflexivity. }
  clearbody f0.
  split; [|split; [|split]].
  - intros Hshort. rewrite (reading_read_past d 0 4 f0 Hrg) by lia. reflexivity.
  - intros Hlong Hsig.
    destruct (reading_read d 0 4 f0 Hrg) as (f1 & -> & Hrg1 & _); [lia|lia|]. bind_ok.
    rewrite has_signature_take, has_signature_prefix, Hsig by lia. reflexivity.
  - intros Hlong Hsig Hver.
    destruct (reading_read d 0 4 f0 Hrg) as (f1 & -> & Hrg1 & _); [lia|lia|]. bind_ok.
    rewrite has_signature_take, has_signature_prefix, Hsig by lia. cbn [negb].
    destruct (reading_read d (0 + 4) 1 f1 Hrg1) as (f2 & -> & Hrg2 & _); [lia|lia|]. bind_ok.
    match goal with
    | |- context [read 1 ?g] =>
        assert (Hrg2' : reading d (0 + 4 + 1) g)
          by (eapply reading_same_io; [exact Hrg2|reflexivity..]);
        destruct (reading_read d (0 + 4 + 1) 1 g Hrg2') as (f3 & -> & Hrg3 & Hm3); [lia|lia|]
    end.
    bind_ok. kf_simpl.
    destruct Hm3 as (s3 & c3 & ->). kf_simpl.
    assert (H4 : rd (take (Z.to_nat 1) (drop (Z.to_nat (0 + 4)) d)) 0 = rd d 4)
      by (rewrite rd_take, rd_drop by lia; reflexivity).
    assert (H5 : rd (take (Z.to_nat 1) (drop (Z.to_nat (0 + 4 + 1)) d)) 0 = rd d 5)
      by (rewrite rd_take, rd_drop by lia; reflexivity).
    rewrite H4, H5. unfold KERO_VERSION_MAJOR, KERO_VERSION_MINOR.
    destruct Hver as [Hmaj|[Hmaj Hmin]].
    + destruct (0 <? rd d 4) eqn:E'; [reflexivity|apply Z.ltb_ge in E'; lia].
    + rewrite Hmaj. cbn [Z.ltb Z.eqb Z.compare orb andb].
      destruct (1 <? rd d 5) eqn:E'; [reflexivity|apply Z.ltb_ge in E'; lia].
  - intros Hlong Hsig [Hmaj Hmin] Hcode.
    destruct (reading_read d 0 4 f0 Hrg) as (f1 & -> & Hrg1 & _); [lia|lia|]. bind_ok.
    rewrite has_signature_take, has_signature_prefix, Hsig by lia. cbn [negb].
    destruct (reading_read d (0 + 4) 1 f1 Hrg1) as (f2 & -> & Hrg2 & _); [lia|lia|]. bind_ok.
    match goal with
    | |- context [read 1 ?g] =>
        assert (Hrg2' : reading d (0 + 4 + 1) g)
          by (eapply reading_same_io; [exact Hrg2|reflexivity..]);
        destruct (reading_read d (0 + 4 + 1) 1 g Hrg2') as (f3 & -> & Hrg3 & Hm3); [lia|lia|]
    end.
    bind_ok. destruct Hm3 as (s3 & c3 & ->). kf_simpl.
    assert (H4 : rd (take (Z.to_nat 1) (drop (Z.to_nat (0 + 4)) d)) 0 = rd d 4)
      by (rewrite rd_take, rd_drop by lia; reflexivity).
    assert (H5 : rd (take (Z.to_nat 1) (drop (Z.to_nat (0 + 4 + 1)) d)) 0 = rd d 5)
      by (rewrite rd_take, rd_drop by lia; reflexivity).
    rewrite ?H4, ?H5, ?Hmaj. unfold KERO_VERSION_MAJOR, KERO_VERSION_MINOR.
    cbn [Z.ltb Z.eqb Z.compare orb andb].
    destruct (1 <? rd d 5) eqn:E'; [apply Z.ltb_lt in E'; lia|]. clear E'.
    unfold read_encoding.
    match goal with
    | |- context [read 1 ?g] =>
        assert (Hrg3' : reading d (0 + 4 + 1 + 1) g)
          by (eapply reading_same_io; [exact Hrg3|reflexivity..]);
        destruct (reading_read d (0 + 4 + 1 + 1) 1 g Hrg3') as (f4 & -> & _); [lia|lia|]
    end.
    bind_ok.
    assert (H6 : rd (take (Z.to_nat 1) (drop (Z.to_nat (0 + 4 + 1 + 1)) d)) 0 = rd d 6)
      by (rewrite rd_take, rd_drop by lia; reflexivity).
    rewrite H6. unfold repeated_code in Hcode. cbv zeta in Hcode. cbv zeta.
    rewrite Hcode. reflexivity.
Qed.

(** X11. Opening for reading a file of fewer than 4 bytes raises the
    out-of-range error of [read]; a file whose first four bytes are not
    ["KERO"] is rejected for its signature; a file with the signature
    whose version is above 0.1 is rejected for its version; and a file of
    an accepted version whose encoding byte holds the same 2-bit value
    twice is rejected for its encoding. *)
Theorem open_checks_header (d : list Z) :
  Z.of_nat (length d) < 2 ^ 63 ->
  (Z.of_nat (length d) < 4 -> Kero_file_new d "r" = Err Out_of_range)
  /\ (4 <= Z.of_nat (length d) -> has_signature d = false ->
      Kero_file_new d "r" = Err (Throw "Absent signature at the beginning"))
  /\ (6 <= Z.of_nat (length d) -> has_signature d = true ->
      0 < rd d 4 \/ (rd d 4 = 0 /\ 1 < rd d 5) ->
      Kero_file_new d "r" = Err (Throw "Unexpected version number"))
  /\ (7 <= Z.of_nat (length d) -> has_signature d = true ->
      rd d 4 = 0 /\ rd d 5 <= 1 -> repeated_code (rd d 6) = true ->
      Kero_file_new d "r"
      = Err (Throw "Wrong encoding. The 4 2-bits values must be different.")).
Proof. apply open_header_checks. Qed.

Lemma open_checks_header_witness :
  Kero_file_new [75; 69; 82; 79; 0; 1; 5; 0; 0] "r"
  = Err (Throw "Wrong encoding. The 4 2-bits values must be different.").
Proof.
  refine (proj2 (proj2 (proj2 (open_checks_header [75; 69; 82; 79; 0; 1; 5; 0; 0] _))) _ _ _ _).
  - by_eval.
  - by_eval.
  - reflexivity.
  - by_eval.
  - reflexivity.
Defined.

(** ** The setters of the header *)

Lemma writer_ok_set_encoding (e : list Z) (f : Kero_file) :
  writer_ok f -> writer_ok (set_encoding e f).
Proof. intros [? ? ? ? ?]. constructor; assumption. Qed.

Lemma land_3_range (x : Z) : 0 <= Z.land x 3 <= 3.
Proof.
  assert (E : Z.land x 3 = x mod 2 ^ 2) by (apply (Z.land_ones x 2); lia).
  rewrite E. pose proof (Z.mod_pos_bound x (2 ^ 2) ltac:(lia)). lia.
Qed.

(** The byte of an encoding accepted by [write_encoding] is at least 25. *)
Lemma encoding_code_bound (a c g t : Z) :
  0 <= a <= 3 -> 0 <= c <= 3 -> 0 <= g <= 3 -> 0 <= t <= 3 ->
  a <> c -> a <> g -> a <> t -> c <> g -> g <> t ->
  25 <= u8 (Z.lor (Z.lor (Z.lor (Z.shiftl a 6) (Z.shiftl c 4)) (Z.shiftl g 2)) t) <= 255.
Proof.
  intros Ha Hc Hg Ht.
  assert (Ea : a = 0 \/ a = 1 \/ a = 2 \/ a = 3) by lia.
  assert (Ec : c = 0 \/ c = 1 \/ c = 2 \/ c = 3) by lia.
  assert (Eg : g = 0 \/ g = 1 \/ g = 2 \/ g = 3) by lia.
  assert (Et : t = 0 \/ t = 1 \/ t = 2 \/ t = 3) by lia.
  clear Ha Hc Hg Ht.
  destruct Ea as [->|[->|[->| ->]]], Ec as [->|[->|[->| ->]]], Eg as [->|[->|[->| ->]]],
    Et as [->|[->|[->| ->]]]; intros; try congruence; vm_compute; split; discriminate.
Qed.

Lemma write_encoding_code (a c g t : Z) (f f' : Kero_file) :
  write_encoding a c g t f = Ok f' ->
  exists code e, 25 <= code <= 255 /\ write_at [code] 1 5 (set_encoding e f) = Ok f'.
Proof.
  unfold write_encoding. cbv zeta.
  pose proof (land_3_range a). pose proof (land_3_range c).
  pose proof (land_3_range g). pose proof (land_3_range t).
  destruct (Z.eqb_spec (Z.land a 3) (Z.land c 3)); [discriminate|].
  destruct (Z.eqb_spec (Z.land a 3) (Z.land g 3)); [discriminate|].
  destruct (Z.eqb_spec (Z.land a 3) (Z.land t 3)); [discriminate|].
  destruct (Z.eqb_spec (Z.land c 3) (Z.land g 3)); [discriminate|].
  destruct (Z.eqb_spec (Z.land g 3) (Z.land t 3)); [discriminate|].
  intros E. eexists _, _. split; [|exact E].
  apply encoding_code_bound; assumption.
Qed.

(** A byte written over the header of a writer. *)
Lemma header_byte_written (b pos : Z) (f f' : Kero_file) :
  writer_ok f -> 0 <= pos -> pos + 1 <= file_size f + next_free f ->
  write_at [b] 1 pos f = Ok f' ->
  content f' = take (Z.to_nat pos) (content f) ++ [b] ++ drop (Z.to_nat (pos + 1)) (content f).
Proof.
  intros Hok Hpos Hle E.
  destruct (write_at_replaces f [b] 1 pos Hok Hpos eq_refl Hle) as (f2 & E2 & Hc & _).
  rewrite E in E2. injection E2 as <-. exact Hc.
Qed.

Lemma has_signature_app (x : Z) (l : list Z) :
  has_signature ((bytes_of_string "KERO" ++ [x]) ++ l) = true.
Proof. reflexivity. Qed.

Lemma write_encoding_spoils (a c g t : Z) (f f' : Kero_file) (rest : list Z) :
  writer_ok f ->
  take 5 (content f) = bytes_of_string "KERO" ++ [KERO_VERSION_MAJOR] ->
  6 <= file_size f + next_free f ->
  Z.of_nat (length (content f ++ rest)) < 2 ^ 63 ->
  write_encoding a c g t f = Ok f' ->
  25 <= rd (content f') 5
  /\ content f' = take 5 (content f) ++ [rd (content f') 5] ++ drop 6 (content f)
  /\ Kero_file_new (content f' ++ rest) "r" = Err (Throw "Unexpected version number").
Proof.
  intros Hok Hhead Hsize Hlen E.
  destruct (write_encoding_code a c g t f f' E) as (code & e & Hcode & Ew).
  pose proof (header_byte_written code 5 (set_encoding e f) f'
                (writer_ok_set_encoding e f Hok) ltac:(lia) Hsize Ew) as Hc.
  change (content (set_encoding e f)) with (content f) in Hc.
  change (Z.to_nat 5) with 5%nat in Hc. change (Z.to_nat (5 + 1)) with 6%nat in Hc.
  assert (Hl5 : length (take 5 (content f)) = 5%nat) by (rewrite Hhead; reflexivity).
  assert (H5 : rd (content f') 5 = code).
  { rewrite Hc. rewrite rd_app_r by lia. rewrite Hl5. reflexivity. }
  rewrite H5. split; [lia|]. split; [exact Hc|].
  pose proof (length_content f (writer_ok_disk f Hok) (wo_buffer f Hok)) as Hl0.
  assert (Hlc : length (content f') = length (content f)).
  { rewrite Hc, !length_app, Hl5, length_drop. cbn [length]. lia. }
  rewrite length_app in Hlen.
  refine (proj1 (proj2 (proj2 (open_header_checks (content f' ++ rest) _))) _ _ _).
  - rewrite length_app, Hlc. lia.
  - rewrite length_app, Hlc. lia.
  - rewrite Hc, Hhead, <- app_assoc. reflexivity.
  - right. rewrite Hc, Hhead, <- !app_assoc. split; [reflexivity|]. change (1 < code). lia.
Qed.

(** X20. [write_encoding] stores the byte of the encoding at offset 5 of
    the file, the offset from which [open] reads the minor version, and
    every byte it accepts is at least 25: a file on which
    [write_encoding] succeeded, whatever is written after it, is refused
    by [open] in read mode for its version number. *)
Theorem write_encoding_overwrites_version (a c g t : Z) (f f' : Kero_file) (rest : list Z) :
  writer_ok f ->
  take 5 (content f) = bytes_of_string "KERO" ++ [KERO_VERSION_MAJOR] ->
  6 <= file_size f + next_free f ->
  Z.of_nat (length (content f ++ rest)) < 2 ^ 63 ->
  write_encoding a c g t f = Ok f' ->
  25 <= rd (content f') 5
  /\ content f' = take 5 (content f) ++ [rd (content f') 5] ++ drop 6 (content f)
  /\ Kero_file_new (content f' ++ rest) "r" = Err (Throw "Unexpected version number").
Proof. apply write_encoding_spoils. Qed.

Lemma write_encoding_overwrites_version_witness :
  25 <= rd (content encoded_writer) 5
  /\ content encoded_writer
     = take 5 (content new_writer) ++ [rd (content encoded_writer) 5]
         ++ drop 6 (content new_writer)
  /\ Kero_file_new (content encoded_writer ++ bytes_of_string "KERO") "r"
     = Err (Throw "Unexpected version number").
Proof.
  apply (write_encoding_overwrites_version 0 1 3 2 new_writer encoded_writer
           (bytes_of_string "KERO")).
  - constructor; by_eval.
  - reflexivity.
  - by_eval.
  - by_eval.
  - vm_compute. reflexivity.
Defined.

Lemma set_uniqueness_spoils (uniqueness : bool) (f f' : Kero_file) (rest : list Z) :
  writer_ok f ->
  take 6 (content f) = bytes_of_string "KERO" ++ [KERO_VERSION_MAJOR; KERO_VERSION_MINOR] ->
  7 <= file_size f + next_free f ->
  Z.of_nat (length (content f ++ rest)) < 2 ^ 63 ->
  set_uniqueness_flag uniqueness f = Ok f' ->
  content f' = take 6 (content f) ++ [if uniqueness then 1 else 0] ++ drop 7 (content f)
  /\ Kero_file_new (content f' ++ rest) "r"
     = Err (Throw "Wrong encoding. The 4 2-bits values must be different.").
Proof.
  intros Hok Hhead Hsize Hlen E. unfold set_uniqueness_flag in E. cbv zeta in E.
  pose proof (header_byte_written _ 6 f f' Hok ltac:(lia) Hsize E) as Hc.
  change (Z.to_nat 6) with 6%nat in Hc. change (Z.to_nat (6 + 1)) with 7%nat in Hc.
  split; [exact Hc|].
  assert (Hl6 : length (take 6 (content f)) = 6%nat) by (rewrite Hhead; reflexivity).
  pose proof (length_content f (writer_ok_disk f Hok) (wo_buffer f Hok)) as Hl0.
  assert (Hlc : length (content f') = length (content f)).
  { rewrite Hc, !length_app, Hl6, length_drop. cbn [length]. lia. }
  rewrite length_app in Hlen.
  refine (proj2 (proj2 (proj2 (open_header_checks (content f' ++ rest) _))) _ _ _ _).
  - rewrite length_app, Hlc. lia.
  - rewrite length_app, Hlc. lia.
  - rewrite Hc, Hhead, <- app_assoc. reflexivity.
  - rewrite Hc, Hhead, <- !app_assoc. split; [reflexivity|].
    change (KERO_VERSION_MINOR <= 1). unfold KERO_VERSION_MINOR. lia.
  - rewrite Hc, Hhead, <- !app_assoc.
    change (repeated_code (if uniqueness then 1 else 0) = true).
    destruct uniqueness; reflexivity.
Qed.

(** X21. [set_uniqueness] stores its flag at offset 6 of the file, the
    offset from which [open] reads the encoding: the byte becomes 0 or 1,
    which is no encoding of four distinct values, and a file of version
    0.1 on which [set_uniqueness] was the last to write this byte is
    refused by [open] in read mode for its encoding. *)
Theorem set_uniqueness_overwrites_encoding (uniqueness : bool) (f f' : Kero_file)
    (rest : list Z) :
  writer_ok f ->
  take 6 (content f) = bytes_of_string "KERO" ++ [KERO_VERSION_MAJOR; KERO_VERSION_MINOR] ->
  7 <= file_size f + next_free f ->
  Z.of_nat (length (content f ++ rest)) < 2 ^ 63 ->
  set_uniqueness_flag uniqueness f = Ok f' ->
  content f' = take 6 (content f) ++ [if uniqueness then 1 else 0] ++ drop 7 (content f)
  /\ Kero_file_new (content f' ++ rest) "r"
     = Err (Throw "Wrong encoding. The 4 2-bits values must be different.").
Proof. apply set_uniqueness_spoils. Qed.

Lemma set_uniqueness_overwrites_encoding_witness :
  content unique_writer
  = take 6 (content new_writer) ++ [if true then 1 else 0] ++ drop 7 (content new_writer)
  /\ Kero_file_new (content unique_writer ++ bytes_of_string "KERO") "r"
     = Err (Throw "Wrong encoding. The 4 2-bits values must be different.").
Proof.
  apply (set_uniqueness_overwrites_encoding true new_writer unique_writer
           (bytes_of_string "KERO")).
  - constructor; by_eval.
  - reflexivity.
  - by_eval.
  - by_eval.
  - vm_compute. reflexivity.
Defined.

(** ** Writers *)

(** X12. [write] on a writer that only appended so far, the file staying
    below [2^63] bytes, succeeds whether the bytes fit in the buffer, make
    it grow, or make it go to disk; the bytes are appended to the content
    of the file, the position advances by their number, and nothing but
    the state of the buffered output changes. *)
Theorem write_appends (bytes : list Z) (size : Z) (f : Kero_file) :
  append_ok f -> 0 <= size -> Z.of_nat (length bytes) = size -> tellp f + size < 2 ^ 63 ->
  exists f',
    write bytes size f = Ok f'
    /\ append_ok f'
    /\ content f' = content f ++ bytes
    /\ io_only f f'
    /\ tellp f' = tellp f + size.
Proof. apply write_step. Qed.

Lemma write_appends_witness :
  exists f',
    write [1; 2; 3] 3 (snd open_minimizer_section) = Ok f'
    /\ append_ok f'
    /\ content f' = content (snd open_minimizer_section) ++ [1; 2; 3]
    /\ io_only (snd open_minimizer_section) f'
    /\ tellp f' = tellp (snd open_minimizer_section) + 3.
Proof.
  apply (write_appends [1; 2; 3] 3 (snd open_minimizer_section)).
  - constructor; by_eval.
  - lia.
  - reflexivity.
  - by_eval.
Defined.

(** *** Closing a writer *)

Lemma io_only_positions (f f' : Kero_file) :
  io_only f f' ->
  section_positions f' = section_positions f /\ footer_discovery_ended f' = footer_discovery_ended f.
Proof. intros (s & c & w & b & z & y & n & t & ->). split; reflexivity. Qed.

Lemma grown_write_sp (f0 f : Kero_file) (bytes : list Z) (size : Z) :
  grown f0 f -> 0 <= size -> Z.of_nat (length bytes) = size -> tellp f + size < 2 ^ 63 ->
  exists f',
    write bytes size f = Ok f' /\ grown f0 f' /\ tellp f' = tellp f + size
    /\ section_positions f' = section_positions f.
Proof.
  intros Hgr Hs Hl Hb.
  destruct (grown_write f0 f bytes size Hgr Hs Hl Hb) as (f' & Hw & Hgr' & Ht).
  exists f'. split; [exact Hw|]. split; [exact Hgr'|]. split; [exact Ht|].
  apply write_io_only in Hw. apply io_only_positions in Hw. apply Hw.
Qed.

Ltac gw_write :=
  match goal with
  | Hgr : grown _ ?f |- context [write ?b ?s ?f] =>
      let f' := fresh "f" in
      let Hw := fresh "Hw" in
      let Hgr' := fresh "Hgr" in
      let Ht := fresh "Ht" in
      let Hsp := fresh "Hsp" in
      destruct (grown_write_sp _ f b s Hgr) as (f' & Hw & Hgr' & Ht & Hsp);
      [ lia
      | rewrite ?length_store_big_endian, ?length_app; try reflexivity; try (cbn; lia)
      | lia
      | rewrite Hw; bind_ok; clear Hw Hgr ]
  end.

Lemma grown_set_global_vars (f0 f : Kero_file) (g : gmap string Z) :
  grown f0 f -> grown f0 (set_global_vars g f).
Proof. intros [[] ? ? ? ? ? ?]. constructor; try assumption. constructor; assumption. Qed.

Lemma length_smap_insert {K V : Type} (ltb eqb : K -> K -> bool) (k : K) (v : V)
    (l : list (K * V)) :
  (length (smap_insert ltb eqb k v l) <= S (length l))%nat.
Proof.
  induction l as [|[k' v'] l IH]; cbn [smap_insert length]; [lia|].
  destruct (eqb k k'); [cbn; lia|]. destruct (ltb k k'); cbn [length]; lia.
Qed.

Lemma length_register_positions (sp : list (Z * Z)) (position : Z) (si : Section_Index) :
  (length (si_index
     (fold_left (fun si it => register_section (snd it) (s64 (fst it - position)) si) sp si))
   <= length (si_index si) + length sp)%nat.
Proof.
  revert si. induction sp as [|it sp IH]; intros si; cbn [fold_left length]; [lia|].
  etrans; [apply IH|]. unfold register_section. cbn [si_index].
  pose proof (length_smap_insert Z.ltb Z.eqb (s64 (fst it - position)) (snd it) (si_index si)).
  lia.
Qed.

Lemma Section_new_grown_sp (f0 f : Kero_file) :
  grown f0 f -> is_reader f0 = false -> tellp f + 4 < 2 ^ 63 ->
  exists beginning f',
    Section_new f = Ok (beginning, f') /\ grown f0 f' /\ tellp f <= tellp f' <= tellp f + 4
    /\ section_positions f' = section_positions f.
Proof.
  intros Hgr Hr0 Hb. unfold Section_new.
  assert (Hr : is_reader f = false) by (rewrite (gr_reader _ _ Hgr); exact Hr0).
  assert (Hw : is_writer f = true) by apply Hgr.
  destruct (_ && _).
  - unfold complete_header. destruct (header_over f) eqn:Eh.
    + bind_ok. eexists _, f. split; [reflexivity|]. split; [exact Hgr|]. split; [lia|reflexivity].
    + rewrite Hr, Hw. unfold write_metadata. rewrite Eh.
      gw_write. gw_write. bind_ok. bind_ok.
      eexists _, _. split; [reflexivity|]. split; [|split].
      * do 2 apply grown_set_header_over. assumption.
      * unfold tellp in *. kf_simpl. lia.
      * kf_simpl. congruence.
  - bind_ok. eexists _, f. split; [reflexivity|]. split; [exact Hgr|]. split; [lia|reflexivity].
Qed.

Section Footer_written.
Context (pthash : MPH_library).

Lemma hashtable_length_nonneg (keys : list Z) : 0 <= hashtable_length pthash keys.
Proof. unfold hashtable_length. lia. Qed.

Lemma write_chunks_sp (fuel : nat) (bytes : list Z) (f f' : Kero_file) :
  write_chunks fuel bytes f = Ok f' -> section_positions f' = section_positions f.
Proof.
  revert bytes f. induction fuel as [|fuel IH]; intros bytes f H.
  - destruct bytes; [injection H as <-; reflexivity|discriminate].
  - destruct bytes as [|b bytes]; [injection H as <-; reflexivity|].
    cbn [write_chunks] in H.
    destruct (write _ _ f) as [f1|] eqn:E; [|discriminate]. bind_ok in H.
    apply write_io_only, io_only_positions in E. apply IH in H. destruct E. congruence.
Qed.

Lemma write_hashtable_values_end (f0 : Kero_file) (table : list Z) (f : Kero_file) :
  grown f0 f -> tellp f + 8 * Z.of_nat (length table) < 2 ^ 63 ->
  exists f',
    write_hashtable_values table f = Ok f' /\ grown f0 f'
    /\ tellp f' = tellp f + 8 * Z.of_nat (length table)
    /\ section_positions f' = section_positions f.
Proof.
  revert f. induction table as [|v table IH]; intros f Hgr Hb; cbn [write_hashtable_values].
  - exists f. split; [reflexivity|]. split; [exact Hgr|]. split; [cbn; lia|reflexivity].
  - cbn [length] in Hb. gw_write.
    match goal with
    | H : grown f0 ?g |- _ => destruct (IH g H) as (f' & Hw' & Hgr' & Ht' & Hsp'); [lia|]
    end.
    exists f'. split; [exact Hw'|]. split; [exact Hgr'|]. split; [cbn [length]; lia|congruence].
Qed.

(** The hashtable section of the footer, with its size. *)
Lemma write_footer_hashtable_end (f : Kero_file) :
  append_ok f -> is_reader f = false ->
  length (mini_list f) = length (mini_pos f) ->
  tellp f + hashtable_length pthash (mini_list f) < 2 ^ 63 ->
  exists sh f',
    write_footer_hashtable pthash f = Ok (sh, f') /\ grown f f'
    /\ tellp f' <= tellp f + hashtable_length pthash (mini_list f)
    /\ (length (section_positions f') <= S (length (section_positions f)))%nat.
Proof.
  intros Hok Hr El Hb. unfold hashtable_length in *.
  assert (Hw : is_writer f = true) by apply Hok.
  unfold write_footer_hashtable. rewrite El, Nat.eqb_refl. cbn [negb].
  unfold Section_Hashtable_new.
  destruct (Section_new_grown_sp f f (grown_refl f Hok) Hr ltac:(lia))
    as (beginning & f1 & E1 & Hgr1 & Ht1 & Hsp1).
  rewrite E1. bind_ok.
  rewrite (gr_reader _ _ Hgr1), Hr. bind_ok.
  rewrite (gr_mini_list _ _ Hgr1), (gr_mini_pos _ _ Hgr1).
  unfold Section_Hashtable_close.
  destruct (reg_sm_all_spec pthash (mini_list f) (mini_pos f)
              (Build_Section_Hashtable pthash beginning (MPHT_new pthash) [] [] 0) El)
    as (Hm & Hp & Ht).
  cbn [sh_minimizers sh_positions sh_mpht sh_beginning sh_nb_mphf app] in Hm, Hp, Ht.
  rewrite Hm, Hp, Ht.
  assert (Hw1 : is_writer f1 = true) by apply Hgr1. rewrite Hw1.
  destruct (bool_decide (mini_list f = [])); cbn [negb andb].
  { eexists _, f1. split; [reflexivity|]. split; [exact Hgr1|]. split; [lia|]. rewrite Hsp1. lia. }
  rewrite El, Nat.eqb_refl. cbn [negb].
  destruct (MPHT_build pthash (mini_list f) (mini_pos f) (MPHT_new pthash)) as [t|e] eqn:Eb.
  2:{ exfalso. revert Eb. unfold MPHT_build. rewrite El, Nat.eqb_refl. discriminate. }
  pose proof (MPHT_build_length _ _ _ _ _ Eb) as Hlt.
  assert (Hmphf : mphf t = build_in_internal_memory pthash (mini_list f)).
  { revert Eb. unfold MPHT_build. rewrite El, Nat.eqb_refl. cbn [negb].
    intros E. injection E as <-. reflexivity. }
  bind_ok. rewrite Hmphf.
  pose proof (grown_register_position f f1 (char "h") Hgr1) as Hgr2.
  pose proof (tellp_register_position f1 (char "h")) as Ht2.
  assert (Hsp2 : (length (section_positions (register_position (char "h") f1))
                  <= S (length (section_positions f)))%nat).
  { unfold register_position. destruct (_ && _); [|rewrite Hsp1; lia].
    kf_simpl. rewrite <- Hsp1. apply length_smap_insert. }
  set (f2 := register_position (char "h") f1) in *. clearbody f2.
  clear Hgr1. gw_write. gw_write.
  match goal with
  | H : grown f ?g |- context [write_chunks ?n ?b ?g] =>
      destruct (write_chunks_grown f n b g H) as (f5 & Hw5 & Hgr5 & Ht5);
        [lia|lia|rewrite Hw5; bind_ok; apply write_chunks_sp in Hw5; clear H]
  end.
  unfold MPHT_size. rewrite Hlt. gw_write.
  match goal with
  | H : grown f ?g |- context [write_hashtable_values ?tab ?g] =>
      destruct (write_hashtable_values_end f tab g H) as (f7 & Hw7 & Hgr7 & Ht7 & Hsp7);
        [rewrite Hlt; lia|rewrite Hw7; bind_ok]
  end.
  eexists _, f7. split; [reflexivity|]. split; [exact Hgr7|]. split; [rewrite Hlt in Ht7; lia|].
  congruence.
Qed.

Lemma write_index_entries_end (f0 : Kero_file) (index : list (Z * Z)) (f : Kero_file) :
  grown f0 f -> tellp f + 9 * Z.of_nat (length index) < 2 ^ 63 ->
  exists f',
    write_index_entries index f = Ok f' /\ grown f0 f'
    /\ tellp f' = tellp f + 9 * Z.of_nat (length index).
Proof.
  revert f. induction index as [|[pos type] index IH]; intros f Hgr Hb;
    cbn [write_index_entries].
  - exists f. split; [reflexivity|]. split; [exact Hgr|cbn; lia].
  - cbn [length] in Hb. gw_write. gw_write.
    match goal with
    | H : grown f0 ?g |- _ => destruct (IH g H) as (f' & Hw' & Hgr' & Ht'); [lia|]
    end.
    exists f'. split; [exact Hw'|]. split; [exact Hgr'|cbn [length]; lia].
Qed.

(** [write_footer] succeeds and only appends. *)
Lemma write_footer_end (f : Kero_file) :
  append_ok f -> is_reader f = false ->
  length (mini_list f) = length (mini_pos f) ->
  tellp f + footer_length pthash f < 2 ^ 63 ->
  exists f',
    write_footer pthash f = Ok f' /\ grown f f'
    /\ tellp f' <= tellp f + footer_length pthash f.
Proof.
  intros Hok Hr El Hb. unfold footer_length in *.
  pose proof (hashtable_length_nonneg (mini_list f)) as Hh0.
  unfold write_footer.
  destruct (write_footer_hashtable_end f Hok Hr El ltac:(lia))
    as (sh & f1 & E1 & Hgr1 & Ht1 & Hsp1).
  rewrite E1. bind_ok. clear E1.
  (* the index section *)
  unfold Section_Index_new.
  destruct (Section_new_grown_sp f f1 Hgr1 Hr ltac:(lia))
    as (b2 & f2 & E2 & Hgr2 & Ht2 & Hsp2).
  rewrite E2. bind_ok. clear E2 Hgr1.
  rewrite (gr_reader _ _ Hgr2), Hr. bind_ok. cbn [si_beginning].
  set (si := fold_left _ (section_positions f2) _).
  assert (Hsi : (length (si_index si) <= S (length (section_positions f)))%nat).
  { unfold si.
    match goal with
    | |- (length (si_index (fold_left _ ?sp ?s)) <= _)%nat =>
        match type of s with Section_Index => idtac end;
        match goal with
        | |- context [s64 (_ - ?p)] =>
            pose proof (length_register_positions sp p s) as Hl
        end
    end.
    cbn [si_index length] in Hl. rewrite <- Hsp2 in Hsp1. cbv zeta. lia. }
  clearbody si.
  unfold Section_Index_close.
  assert (Hw2 : is_writer f2 = true) by apply Hgr2. rewrite Hw2.
  gw_write. gw_write.
  match goal with
  | H : grown f ?g |- context [write_index_entries ?ix ?g] =>
      destruct (write_index_entries_end f ix g H) as (f5 & Hw5 & Hgr5 & Ht5);
        [lia|rewrite Hw5; bind_ok; clear Hw5 H]
  end.
  gw_write.
  (* the variable section *)
  unfold Section_GV_new.
  match goal with
  | H : grown f ?g |- context [Section_new ?g] =>
      destruct (Section_new_grown_sp f g H Hr ltac:(lia)) as (b7 & f7 & E7 & Hgr7 & Ht7 & _);
        rewrite E7; bind_ok; clear E7 H
  end.
  kf_simpl. rewrite (gr_reader _ _ Hgr7), Hr. bind_ok.
  assert (Hw7 : is_writer f7 = true) by apply Hgr7.
  change (is_writer (set_global_vars ∅ f7)) with (is_writer f7). rewrite Hw7.
  assert (Hgr8 : grown f (if indexed (set_global_vars ∅ f7)
                          then register_position (char "v") (set_global_vars ∅ f7)
                          else set_global_vars ∅ f7)).
  { destruct (indexed _); [apply grown_register_position|]; apply grown_set_global_vars;
      exact Hgr7. }
  assert (Ht8 : tellp (if indexed (set_global_vars ∅ f7)
                       then register_position (char "v") (set_global_vars ∅ f7)
                       else set_global_vars ∅ f7) = tellp f7).
  { destruct (indexed _); [rewrite tellp_register_position|]; reflexivity. }
  set (f8 := if indexed (set_global_vars ∅ f7) then _ else _) in *. clearbody f8.
  clear Hgr7. gw_write. bind_ok.
  unfold write_var. cbn [gv_beginning gv_nb_vars gv_vars smap_insert].
  change (String.eqb "footer_size" "first_index") with false.
  change (String.ltb "footer_size" "first_index") with false. cbv iota.
  unfold Section_GV_close.
  match goal with
  | H : grown f ?g
    |- context [is_writer (set_global_vars ?m2 (set_global_vars ?m1 ?g))] =>
      pose proof (grown_set_global_vars f _ m2 (grown_set_global_vars f g m1 H)) as Hgr9;
      assert (Ht9 : tellp (set_global_vars m2 (set_global_vars m1 g)) = tellp g)
        by reflexivity;
      set (f9 := set_global_vars m2 (set_global_vars m1 g)) in *; clearbody f9; clear H
  end.
  assert (Hw9 : is_writer f9 = true) by apply Hgr9. rewrite Hw9.
  cbn [gv_nb_vars gv_vars write_vars].
  change (Z.of_nat (String.length "first_index") + 1) with 12.
  change (Z.of_nat (String.length "footer_size") + 1) with 12.
  gw_write. gw_write. gw_write. gw_write. gw_write.
  eexists. split; [reflexivity|]. split; [assumption|]. lia.
Qed.

(** What flushing the buffer at the end of the disk file leaves on disk. *)
Lemma flush_at_end (f : Kero_file) :
  append_ok f ->
  let g := if negb (writing_started f)
           then set_fs (fstream_open_out (fs f)) (set_writing_started true f)
           else if tmp_closed f then reopen f else f in
  let s := fstream_write (take (Z.to_nat (next_free g)) (file_buffer g)) (fs g) in
  fs_fail s = false /\ fs_open s = true /\ disk s = content f.
Proof.
  intros [Hw Hd Hb Hbs Hs Hbound Hst Hp]. unfold content. cbv zeta.
  destruct (writing_started f) eqn:Ews; cbn [negb].
  - unfold reopen. destruct (tmp_closed f) eqn:Etc.
    + kf_simpl. unfold fstream_open_ate. rewrite Hst. unfold fstream_write, fs_usable.
      cbn [fs_open fs_fail fs_pos disk andb negb]. split; [reflexivity|]. split; [reflexivity|].
      rewrite Nat2Z.id, Nat.sub_diag, firstn_all, drop_ge by lia.
      rewrite (take_ge (disk (fs f))) by lia. cbn [replicate app]. rewrite app_nil_r.
      reflexivity.
    + destruct Hst as (Ho & Hf & Hpos). unfold fstream_write, fs_usable. rewrite Ho, Hf.
      cbn [fs_open fs_fail fs_pos disk andb negb]. split; [reflexivity|]. split; [reflexivity|].
      rewrite Hpos, <- Hd, Nat2Z.id, Nat.sub_diag, firstn_all, drop_ge by lia.
      cbn [replicate app]. rewrite app_nil_r. reflexivity.
  - destruct Hst as [Ho Htc]. kf_simpl. unfold fstream_open_out. rewrite Ho.
    unfold fstream_write, fs_usable.
    cbn [fs_open fs_fail fs_pos disk andb negb]. split; [reflexivity|]. split; [reflexivity|].
    rewrite Hd. cbn. rewrite drop_nil, app_nil_r. reflexivity.
Qed.

(** X13. Closing a writer that only appended puts the whole content on
    disk: whatever part was still in the buffer, whether the disk file was
    not yet created, temporarily closed or open, the file ends up holding
    the bytes written so far, then the footer (nothing when the file is
    not indexed), then the signature [KERO]; the stream is closed and the
    container is neither a reader nor a writer any more. *)
Theorem close_flushes (f : Kero_file) :
  append_ok f -> is_reader f = false ->
  length (mini_list f) = length (mini_pos f) ->
  tellp f + footer_length pthash f + 4 < 2 ^ 63 ->
  exists f' footer,
    close pthash true f = Ok f'
    /\ disk (fs f') = content f ++ footer ++ bytes_of_string "KERO"
    /\ (indexed f = false -> footer = [])
    /\ Z.of_nat (length footer) <= footer_length pthash f
    /\ fs_open (fs f') = false
    /\ is_writer f' = false /\ is_reader f' = false
    /\ next_free f' = 0.
Proof.
  intros Hok Hr El Hb.
  assert (Hfl : 0 <= footer_length pthash f).
  { unfold footer_length. pose proof (hashtable_length_nonneg (mini_list f)). lia. }
  assert (H1 : exists f1 footer,
             (if indexed f then write_footer pthash f else Ok f) = Ok f1
             /\ append_ok f1 /\ content f1 = content f ++ footer
             /\ (indexed f = false -> footer = [])
             /\ tellp f1 <= tellp f + footer_length pthash f).
  { destruct (indexed f).
    - destruct (write_footer_end f Hok Hr El ltac:(lia)) as (f1 & E & Hgr & Ht).
      destruct (gr_content _ _ Hgr) as [footer Hc].
      exists f1, footer. split; [exact E|]. split; [apply Hgr|]. split; [exact Hc|].
      split; [discriminate|exact Ht].
    - exists f, []. split; [reflexivity|]. split; [exact Hok|].
      split; [rewrite app_nil_r; reflexivity|]. split; [reflexivity|lia]. }
  destruct H1 as (f1 & footer & E1 & Hok1 & Hc1 & Hnf & Ht1).
  destruct (write_step (bytes_of_string "KERO") 4 f1 Hok1 ltac:(lia) eq_refl ltac:(lia))
    as (f2 & E2 & Hok2 & Hc2 & _ & Ht2).
  pose proof (flush_at_end f2 Hok2) as Hfl2. cbv zeta in Hfl2.
  destruct Hfl2 as (Hff & Hfo & Hfd).
  assert (Hlen : Z.of_nat (length footer) <= footer_length pthash f).
  { destruct (append_ok_end f Hok) as [L0 _]. destruct (append_ok_end f1 Hok1) as [L1 _].
    rewrite Hc1, length_app in L1. lia. }
  eexists _, footer. unfold close.
  assert (Hw : is_writer f = true) by apply Hok. rewrite Hw.
  rewrite E1. bind_ok. rewrite E2. bind_ok. rewrite Hff. bind_ok. kf_simpl.
  rewrite Hfo. kf_simpl.
  split; [reflexivity|]. kf_simpl. unfold fstream_close. rewrite Hfo. cbn [disk fs_open].
  rewrite Hfd, Hc2, Hc1, <- app_assoc.
  repeat split; try reflexivity; assumption.
Qed.
End Footer_written.

Lemma close_flushes_witness :
  exists f' footer,
    close list_pthash true closed_minimizer_section = Ok f'
    /\ disk (fs f') = content closed_minimizer_section ++ footer ++ bytes_of_string "KERO"
    /\ (indexed closed_minimizer_section = false -> footer = [])
    /\ Z.of_nat (length footer) <= footer_length list_pthash closed_minimizer_section
    /\ fs_open (fs f') = false
    /\ is_writer f' = false /\ is_reader f' = false
    /\ next_free f' = 0.
Proof.
  apply (close_flushes list_pthash closed_minimizer_section).
  - constructor; by_eval.
  - reflexivity.
  - reflexivity.
  - by_eval.
Defined.

(** *** Releasing the file handle for a while *)

(** X25. [tmp_close] and [reopen] lose nothing of a writer that only
    appended: [tmp_close] leaves the stream closed, [reopen] after it
    opens the stream again at the end of the file when the file exists,
    and after either the writer has the same content and is still ready
    to append. *)
Theorem tmp_close_keeps_content (f : Kero_file) :
  append_ok f ->
  append_ok (tmp_close f) /\ content (tmp_close f) = content f
  /\ fs_open (fs (tmp_close f)) = false
  /\ append_ok (reopen (tmp_close f)) /\ content (reopen (tmp_close f)) = content f
  /\ (writing_started f = true ->
      fs_open (fs (reopen (tmp_close f))) = true
      /\ fs_pos (fs (reopen (tmp_close f))) = file_size f).
Proof.
  intros Hok. pose proof Hok as [Hw Hd Hb Hbs Hs Hbound Hst Hp].
  unfold tmp_close, reopen. rewrite Hw. cbn [andb].
  destruct (writing_started f) eqn:Ews.
  - destruct (tmp_closed f) eqn:Etc.
    + rewrite Hst, Etc. unfold fstream_open_ate. rewrite Hst.
      split; [exact Hok|]. split; [reflexivity|]. split; [reflexivity|].
      split; [|split; [reflexivity|intros _; split; [reflexivity|cbn; lia]]].
      constructor; kf_simpl; rewrite ?Ews; cbn [disk fs_open fs_fail fs_pos];
        try assumption; repeat split; lia.
    + destruct Hst as (Ho & Hf & Hpos). rewrite Ho. kf_simpl.
      unfold fstream_close, fstream_clear, fstream_open_ate. rewrite Ho.
      cbn [disk fs_open fs_fail fs_pos].
      split.
      { constructor; kf_simpl; rewrite ?Ews; cbn [disk fs_open fs_fail fs_pos];
          try assumption; reflexivity. }
      split; [reflexivity|]. split; [reflexivity|].
      split; [|split; [reflexivity|intros _; split; [reflexivity|cbn; lia]]].
      constructor; kf_simpl; rewrite ?Ews; cbn [disk fs_open fs_fail fs_pos];
        try assumption; repeat split; lia.
  - destruct Hst as [Ho Htc]. rewrite Ho, Htc.
    split; [exact Hok|]. split; [reflexivity|]. split; [exact Ho|].
    split; [exact Hok|]. split; [reflexivity|discriminate].
Qed.

Lemma tmp_close_keeps_content_witness :
  append_ok (tmp_close (snd open_minimizer_section))
  /\ content (tmp_close (snd open_minimizer_section)) = content (snd open_minimizer_section)
  /\ fs_open (fs (tmp_close (snd open_minimizer_section))) = false
  /\ append_ok (reopen (tmp_close (snd open_minimizer_section)))
  /\ content (reopen (tmp_close (snd open_minimizer_section)))
     = content (snd open_minimizer_section)
  /\ (writing_started (snd open_minimizer_section) = true ->
      fs_open (fs (reopen (tmp_close (snd open_minimizer_section)))) = true
      /\ fs_pos (fs (reopen (tmp_close (snd open_minimizer_section))))
         = file_size (snd open_minimizer_section)).
Proof.
  apply (tmp_close_keeps_content (snd open_minimizer_section)).
  constructor; by_eval.
Defined.

(** ** Variable sections *)

(** *** The order of the names *)

Lemma string_ltb_lt (a b : string) :
  String.ltb a b = true <-> OrderedTypeEx.String_as_OT.lt a b.
Proof.
  rewrite <- OrderedTypeEx.String_as_OT.cmp_lt. unfold String.ltb, OrderedTypeEx.String_as_OT.cmp.
  destruct (String.compare a b); split; intros H; try reflexivity; discriminate.
Qed.

Lemma string_ltb_trans (a b c : string) :
  String.ltb a b = true -> String.ltb b c = true -> String.ltb a c = true.
Proof.
  rewrite !string_ltb_lt. apply OrderedTypeEx.String_as_OT.lt_trans.
Qed.

Lemma string_ltb_neq (a b : string) : String.ltb a b = true -> String.eqb a b = false.
Proof.
  intros H. apply string_ltb_lt in H. apply OrderedTypeEx.String_as_OT.lt_not_eq in H.
  destruct (String.eqb_spec a b) as [E|E]; [destruct (H E)|reflexivity].
Qed.

Lemma string_ltb_asym (a b : string) : String.ltb a b = true -> String.ltb b a = false.
Proof.
  unfold String.ltb. rewrite (String.compare_antisym b a).
  destruct (String.compare a b); cbn; intros H; try reflexivity; discriminate.
Qed.

Lemma string_ltb_total (a b : string) :
  String.eqb a b = false -> String.ltb a b = false -> String.ltb b a = true.
Proof.
  intros He Hl. unfold String.ltb in *. rewrite (String.compare_antisym b a).
  destruct (String.compare a b) eqn:E; cbn; try reflexivity; try discriminate.
  apply String.compare_eq_iff in E. subst b. rewrite String.eqb_refl in He. discriminate.
Qed.

#[global] Instance string_key_order : Key_order String.ltb String.eqb.
Proof.
  constructor.
  - apply String.eqb_eq.
  - apply string_ltb_trans.
  - apply string_ltb_asym.
  - intros a b Hne. apply string_ltb_total.
    destruct (String.eqb_spec a b); [contradiction|reflexivity].
Qed.

#[global] Instance Z_key_order : Key_order Z.ltb Z.eqb.
Proof.
  constructor.
  - apply Z.eqb_eq.
  - intros a b c H1 H2. apply Z.ltb_lt in H1, H2. apply Z.ltb_lt. lia.
  - intros a b H. apply Z.ltb_lt in H. apply Z.ltb_ge. lia.
  - intros a b Hne H. apply Z.ltb_ge in H. apply Z.ltb_lt. lia.
Qed.

(** *** The sorted association lists *)

Section Sorted_map.
Context {K V : Type} {ltb eqb : K -> K -> bool} `{!Key_order ltb eqb}.
Implicit Types (k : K) (v : V) (e : K * V) (l : list (K * V)).

Lemma key_eqb_spec k k' : reflect (k = k') (eqb k k').
Proof. apply iff_reflect. symmetry. apply key_eqb_eq. Qed.

Lemma key_ltb_neq k k' : ltb k k' = true -> k <> k'.
Proof.
  intros H ->. pose proof (key_ltb_asym _ _ H) as H'. congruence.
Qed.

Lemma smap_insert_In e k v l :
  In e (smap_insert ltb eqb k v l) -> e = (k, v) \/ In e l.
Proof.
  induction l as [|[k' v'] l IH]; cbn [smap_insert]; intros H.
  - destruct H as [<-|[]]. left. reflexivity.
  - destruct (eqb k k').
    + destruct H as [<-|H]; [left; reflexivity|right; right; exact H].
    + destruct (ltb k k').
      * destruct H as [<-|H]; [left; reflexivity|right; exact H].
      * destruct H as [<-|H]; [right; left; reflexivity|].
        destruct (IH H) as [->|H']; [left; reflexivity|right; right; exact H'].
Qed.

Lemma smap_insert_keys k' k v l :
  In k' (map fst (smap_insert ltb eqb k v l)) <-> k' = k \/ In k' (map fst l).
Proof.
  induction l as [|[k1 v1] l IH]; cbn [smap_insert map fst In].
  - intuition congruence.
  - destruct (key_eqb_spec k k1) as [->|Hne]; cbn [map fst In]; [intuition congruence|].
    destruct (ltb k k1); cbn [map fst In]; [intuition congruence|].
    rewrite IH. intuition congruence.
Qed.

Lemma smap_insert_last k v l :
  Forall (fun e => ltb (fst e) k = true) l ->
  smap_insert ltb eqb k v l = l ++ [(k, v)].
Proof.
  induction 1 as [|[k' v'] l Hlt _ IH]; cbn [smap_insert app]; [reflexivity|].
  cbn [fst] in Hlt. rewrite (key_ltb_asym _ _ Hlt).
  destruct (key_eqb_spec k k') as [->|_].
  - destruct (key_ltb_neq _ _ Hlt). reflexivity.
  - rewrite IH. reflexivity.
Qed.

Lemma smap_insert_sorted k v l :
  smap_sorted ltb l -> smap_sorted ltb (smap_insert ltb eqb k v l).
Proof.
  induction l as [|[k' v'] l IH]; cbn [smap_insert smap_sorted fst].
  - intros _. split; [constructor|exact I].
  - intros [Hall Hs]. destruct (key_eqb_spec k k') as [->|Hne].
    + cbn [smap_sorted fst]. split; assumption.
    + destruct (ltb k k') eqn:Hlt; cbn [smap_sorted fst].
      * split; [|split; assumption]. constructor; [exact Hlt|].
        eapply Forall_impl; [exact Hall|]. intros e He. cbn beta in He.
        eapply key_ltb_trans; eassumption.
      * split; [|apply IH; exact Hs]. apply List.Forall_forall. intros e He.
        destruct (smap_insert_In _ _ _ _ He) as [->|Hin].
        -- cbn [fst]. apply key_ltb_total; [congruence|exact Hlt].
        -- rewrite List.Forall_forall in Hall. apply Hall. exact Hin.
Qed.

Lemma smap_sorted_app l1 e l2 :
  smap_sorted ltb (l1 ++ e :: l2) ->
  Forall (fun e' => ltb (fst e') (fst e) = true) l1.
Proof.
  induction l1 as [|e1 l1 IH]; cbn [app smap_sorted]; [constructor|].
  intros [Hall Hs]. constructor; [|apply IH; exact Hs].
  rewrite List.Forall_forall in Hall. apply Hall. apply in_or_app. right. left. reflexivity.
Qed.

Lemma insert_all_sorted (entries l : list (K * V)) :
  smap_sorted ltb l -> smap_sorted ltb (insert_all ltb eqb entries l).
Proof.
  revert l. induction entries as [|e entries IH]; intros l Hs; [exact Hs|].
  apply IH. apply smap_insert_sorted. exact Hs.
Qed.

(** Inserting the entries of a sorted list one by one rebuilds the list. *)
Lemma insert_all_self (l acc : list (K * V)) :
  smap_sorted ltb (acc ++ l) -> insert_all ltb eqb l acc = acc ++ l.
Proof.
  revert acc. induction l as [|[k v] l IH]; intros acc Hs; cbn [insert_all fold_left].
  - rewrite app_nil_r. reflexivity.
  - cbn [fst snd]. rewrite smap_insert_last by (apply (smap_sorted_app acc (k, v) l Hs)).
    fold (insert_all ltb eqb l (acc ++ [(k, v)])).
    rewrite IH; rewrite <- app_assoc; [reflexivity|]. exact Hs.
Qed.

Lemma insert_all_In e (entries l : list (K * V)) :
  In e (insert_all ltb eqb entries l) -> In e entries \/ In e l.
Proof.
  revert l. induction entries as [|e' entries IH]; intros l H; [right; exact H|].
  destruct (IH _ H) as [H'|H']; [left; right; exact H'|].
  destruct (smap_insert_In _ _ _ _ H') as [->|H'']; [|right; exact H''].
  left. left. destruct e'. reflexivity.
Qed.

Lemma length_smap_insert_new k v l :
  ~ In k (map fst l) -> length (smap_insert ltb eqb k v l) = S (length l).
Proof.
  induction l as [|[k' v'] l IH]; cbn [smap_insert map fst In length]; [reflexivity|].
  intros Hn. destruct (key_eqb_spec k k') as [->|_]; [destruct Hn; left; reflexivity|].
  destruct (ltb k k'); cbn [length]; [reflexivity|].
  rewrite IH; [reflexivity|]. intros H. apply Hn. right. exact H.
Qed.

Lemma length_insert_all (entries l : list (K * V)) :
  NoDup (map fst entries) -> (forall k, In k (map fst entries) -> ~ In k (map fst l)) ->
  length (insert_all ltb eqb entries l) = (length l + length entries)%nat.
Proof.
  revert l. induction entries as [|[k v] entries IH]; intros l Hnd Hdis.
  - cbn. lia.
  - cbn [map fst] in Hnd, Hdis. apply NoDup_cons in Hnd as [Hk Hnd].
    rewrite list_elem_of_In in Hk.
    change (insert_all ltb eqb ((k, v) :: entries) l)
      with (insert_all ltb eqb entries (smap_insert ltb eqb k v l)).
    rewrite IH.
    + rewrite length_smap_insert_new by (apply Hdis; left; reflexivity). cbn [length]. lia.
    + exact Hnd.
    + intros k' Hk' Hin. apply smap_insert_keys in Hin as [->|Hin]; [contradiction|].
      apply (Hdis k'); [right; exact Hk'|exact Hin].
Qed.
End Sorted_map.

(** *** Writing a variable section *)

Lemma length_bytes_of_string (s : string) :
  length (bytes_of_string s) = String.length s.
Proof.
  unfold bytes_of_string. rewrite length_map.
  induction s as [|c s IH]; cbn; [reflexivity|]. rewrite IH. reflexivity.
Qed.

Lemma io_only_global_vars (f f' : Kero_file) :
  io_only f f' -> global_vars f' = global_vars f /\ end_position f' = end_position f.
Proof. intros (s & c & w & b & z & y & n & t & ->). split; reflexivity. Qed.

(** A write of an appending writer, with the bytes it adds. *)
Lemma grown_write_bytes (f0 f : Kero_file) (bytes : list Z) (size : Z) :
  grown f0 f -> 0 <= size -> Z.of_nat (length bytes) = size -> tellp f + size < 2 ^ 63 ->
  exists f',
    write bytes size f = Ok f' /\ grown f0 f' /\ content f' = content f ++ bytes
    /\ tellp f' = tellp f + size /\ global_vars f' = global_vars f
    /\ header_over f' = header_over f.
Proof.
  intros Hgr Hs Hl Hb.
  destruct (grown_write f0 f bytes size Hgr Hs Hl Hb) as (f' & Hw & Hgr' & Ht).
  destruct (write_step bytes size f (gr_ok _ _ Hgr) Hs Hl Hb) as (f2 & Hw2 & _ & Hc & Hio & _).
  rewrite Hw in Hw2. injection Hw2 as <-.
  exists f'. split; [exact Hw|]. split; [exact Hgr'|]. split; [exact Hc|]. split; [exact Ht|].
  split; [apply io_only_global_vars; exact Hio|apply io_only_fields; exact Hio].
Qed.

(** The constructor of a section completes the header of a writer that has
    not done it yet, and takes the position it reaches as the beginning of
    the section. *)
Lemma Section_new_writer (f : Kero_file) :
  append_ok f -> is_reader f = false -> tellp f + 4 < 2 ^ 63 ->
  exists hdr f',
    Section_new f = Ok (tellp f', f') /\ grown f f' /\ content f' = content f ++ hdr
    /\ (header_over f = true -> hdr = []) /\ (length hdr <= 4)%nat.
Proof.
  intros Hok Hr Hb. unfold Section_new.
  assert (Hw : is_writer f = true) by apply Hok.
  pose proof (grown_refl f Hok) as Hgr.
  assert (Hs64 : forall g, grown f g -> tellp g < 2 ^ 63 -> s64 (tellp g) = tellp g).
  { intros g Hg Hlt. destruct (append_ok_end g (gr_ok _ _ Hg)) as [Hlen _].
    unfold s64. cbv zeta. rewrite Z.mod_small by lia.
    destruct (_ <? _) eqn:E; [reflexivity|apply Z.ltb_ge in E; lia]. }
  assert (Hsame : exists hdr f', Ok (s64 (tellp f), f) = Ok (tellp f', f') /\ grown f f'
                    /\ content f' = content f ++ hdr /\ (header_over f = true -> hdr = [])
                    /\ (length hdr <= 4)%nat).
  { exists [], f. rewrite (Hs64 f Hgr) by lia. rewrite app_nil_r.
    split; [reflexivity|]. split; [exact Hgr|]. split; [reflexivity|].
    split; [reflexivity|cbn; lia]. }
  destruct (_ && _); [|bind_ok; exact Hsame].
  unfold complete_header. destruct (header_over f) eqn:Eh; [bind_ok; exact Hsame|].
  rewrite Hr, Hw. unfold write_metadata. rewrite Eh.
  destruct (grown_write_bytes f f (store_big_endian 4 0) 4 Hgr ltac:(lia) eq_refl ltac:(lia))
    as (f1 & E1 & Hgr1 & Hc1 & Ht1 & _). rewrite E1. bind_ok.
  destruct (grown_write_bytes f f1 [] 0 Hgr1 ltac:(lia) eq_refl ltac:(lia))
    as (f2 & E2 & Hgr2 & Hc2 & Ht2 & _). rewrite E2. bind_ok. bind_ok.
  pose proof (grown_set_header_over f _ true (grown_set_header_over f f2 true Hgr2)) as Hgr3.
  exists (store_big_endian 4 0), (set_header_over true (set_header_over true f2)).
  bind_ok. rewrite (Hs64 _ Hgr3) by (change (tellp (set_header_over true (set_header_over true f2)))
                              with (tellp f2); lia).
  split; [reflexivity|]. split; [exact Hgr3|].
  split; [|split; [discriminate|rewrite length_store_big_endian; lia]].
  change (content (set_header_over true (set_header_over true f2))) with (content f2).
  rewrite Hc2, Hc1, app_nil_r. reflexivity.
Qed.

Lemma mirrors_write_var (name : string) (value : Z) (gv : Section_GV) (f : Kero_file) :
  mirrors f gv ->
  mirrors (snd (write_var name value gv f)) (fst (write_var name value gv f)).
Proof.
  intros Hm n. unfold write_var. cbn [fst snd gv_vars]. kf_simpl.
  rewrite smap_find_insert. destruct (String.eqb_spec n name) as [->|Hne].
  - apply lookup_insert_eq.
  - rewrite lookup_insert_ne by congruence. apply Hm.
Qed.

(** A sequence of [write_var] assigns the variables in the map of the
    section and in the map of the container, and counts the calls. *)
Lemma write_var_list_spec (vars : list (string * Z)) (gv : Section_GV) (f : Kero_file) :
  gv_beginning (fst (write_var_list vars gv f)) = gv_beginning gv
  /\ gv_vars (fst (write_var_list vars gv f)) = insert_vars vars (gv_vars gv)
  /\ (0 <= gv_nb_vars gv -> gv_nb_vars gv + Z.of_nat (length vars) < 2 ^ 64 ->
      gv_nb_vars (fst (write_var_list vars gv f)) = gv_nb_vars gv + Z.of_nat (length vars))
  /\ (mirrors f gv -> mirrors (snd (write_var_list vars gv f)) (fst (write_var_list vars gv f)))
  /\ exists g, snd (write_var_list vars gv f) = set_global_vars g f.
Proof.
  unfold write_var_list. revert gv f.
  induction vars as [|[k v] vars IH]; intros gv f; cbn [fold_left fst snd insert_all length].
  - split; [reflexivity|]. split; [reflexivity|]. split; [intros; lia|]. split; [tauto|].
    exists (global_vars f). destruct f; reflexivity.
  - destruct (IH (fst (write_var k v gv f)) (snd (write_var k v gv f)))
      as (Hb & Hv & Hn & Hm & g & Hg).
    replace (write_var k v gv f)
      with (fst (write_var k v gv f), snd (write_var k v gv f)) by reflexivity.
    split; [rewrite Hb; reflexivity|]. split; [rewrite Hv; reflexivity|].
    split; [|split].
    + intros H0 Hlt. rewrite Hn; unfold write_var; cbn [fst gv_nb_vars];
        rewrite u64_small by lia; lia.
    + intros H. apply Hm. apply mirrors_write_var. exact H.
    + exists g. rewrite Hg. reflexivity.
Qed.

Lemma write_vars_end (f0 : Kero_file) (vars : list (string * Z)) (f : Kero_file) :
  grown f0 f -> tellp f + Z.of_nat (length (flat_map var_bytes vars)) < 2 ^ 63 ->
  exists f',
    write_vars vars f = Ok f' /\ grown f0 f'
    /\ content f' = content f ++ flat_map var_bytes vars
    /\ global_vars f' = global_vars f.
Proof.
  revert f. induction vars as [|[k v] vars IH]; intros f Hgr Hb;
    cbn [write_vars flat_map].
  - exists f. rewrite app_nil_r. split; [reflexivity|]. split; [exact Hgr|].
    split; reflexivity.
  - cbn [flat_map] in Hb. unfold var_bytes in Hb at 1. cbn [fst snd] in Hb.
    rewrite !length_app, length_bytes_of_string, length_store_big_endian in Hb.
    cbn [length] in Hb.
    destruct (grown_write_bytes f0 f (bytes_of_string k ++ [0])
                (Z.of_nat (String.length k) + 1) Hgr ltac:(lia)) as (f1 & E1 & Hgr1 & Hc1 & Ht1 & Hg1 & _).
    { rewrite length_app, length_bytes_of_string. cbn [length]. lia. }
    { lia. }
    rewrite E1. bind_ok.
    destruct (grown_write_bytes f0 f1 (store_big_endian 8 v) 8 Hgr1 ltac:(lia))
      as (f2 & E2 & Hgr2 & Hc2 & Ht2 & Hg2 & _).
    { rewrite length_store_big_endian. reflexivity. }
    { lia. }
    rewrite E2. bind_ok.
    destruct (IH f2 Hgr2 ltac:(lia)) as (f' & E & Hgr' & Hc & Hg).
    exists f'. split; [exact E|]. split; [exact Hgr'|]. split; [|congruence].
    rewrite Hc, Hc2, Hc1. unfold var_bytes at 2. cbn [fst snd].
    rewrite <- !app_assoc. reflexivity.
Qed.

Lemma write_GV_section_spec (vars : list (string * Z)) (f : Kero_file) :
  append_ok f -> is_reader f = false -> Z.of_nat (length vars) < 2 ^ 64 ->
  tellp f + 13 + Z.of_nat (length (flat_map var_bytes (insert_vars vars []))) < 2 ^ 63 ->
  exists hdr gv f',
    write_GV_section vars f = Ok (gv, f')
    /\ grown f f'
    /\ content f' = content f ++ hdr ++ [char "v"]
                     ++ store_big_endian 8 (Z.of_nat (length vars))
                     ++ flat_map var_bytes (gv_vars gv)
    /\ (header_over f = true -> hdr = [])
    /\ gv_beginning gv = tellp f + Z.of_nat (length hdr)
    /\ gv_nb_vars gv = Z.of_nat (length vars)
    /\ gv_vars gv = insert_vars vars []
    /\ mirrors f' gv.
Proof.
  intros Hok Hr Hn Hb. unfold write_GV_section, Section_GV_new.
  destruct (Section_new_writer f Hok Hr ltac:(lia)) as (hdr & f1 & E1 & Hgr1 & Hc1 & Hh & Hhdr).
  rewrite E1. bind_ok. clear E1.
  assert (Hlen1 : tellp f1 = tellp f + Z.of_nat (length hdr)).
  { destruct (append_ok_end f Hok) as [L0 _].
    destruct (append_ok_end f1 (gr_ok _ _ Hgr1)) as [L1 _].
    rewrite Hc1, length_app in L1. lia. }
  kf_simpl. rewrite (gr_reader _ _ Hgr1), Hr. bind_ok.
  assert (Hw1 : is_writer f1 = true) by apply Hgr1.
  change (is_writer (set_global_vars ∅ f1)) with (is_writer f1). rewrite Hw1.
  set (f2 := if indexed (set_global_vars ∅ f1) then _ else _).
  assert (Hgr2 : grown f f2).
  { unfold f2. destruct (indexed _); [apply grown_register_position|];
      apply grown_set_global_vars; exact Hgr1. }
  assert (H2 : tellp f2 = tellp f1 /\ content f2 = content f1 /\ global_vars f2 = ∅).
  { unfold f2. destruct (indexed _); [|repeat split].
    unfold register_position. destruct (_ && _); repeat split. }
  destruct H2 as (Ht2 & Hc2 & Hg2). clearbody f2.
  destruct (grown_write_bytes f f2 [char "v"] 1 Hgr2 ltac:(lia) eq_refl ltac:(lia))
    as (f3 & E3 & Hgr3 & Hc3 & Ht3 & Hg3 & _).
  rewrite E3. bind_ok. bind_ok. clear E3.
  set (gv0 := Build_Section_GV (tellp f1) 0 []).
  destruct (write_var_list_spec vars gv0 f3) as (Hwb & Hwv & Hwn & Hwm & g & Hwg).
  rewrite (surjective_pairing (write_var_list vars gv0 f3)).
  set (gv := fst (write_var_list vars gv0 f3)) in *.
  rewrite Hwg in *. clear Hwg.
  cbn [gv0 gv_beginning gv_vars gv_nb_vars] in Hwb, Hwv, Hwn.
  specialize (Hwn ltac:(lia) ltac:(lia)).
  assert (Hm : mirrors (set_global_vars g f3) gv).
  { apply Hwm. intros n. rewrite Hg3, Hg2. cbn. apply lookup_empty. }
  clear Hwm. clearbody gv.
  unfold Section_GV_close. change (is_writer (set_global_vars g f3)) with (is_writer f3).
  assert (Hw3 : is_writer f3 = true) by apply Hgr3. rewrite Hw3, Hwn.
  pose proof (grown_set_global_vars f f3 g Hgr3) as Hgr4.
  destruct (grown_write_bytes f _ (store_big_endian 8 (0 + Z.of_nat (length vars))) 8 Hgr4
              ltac:(lia) ltac:(rewrite length_store_big_endian; reflexivity)
              ltac:(change (tellp (set_global_vars g f3)) with (tellp f3); lia))
    as (f5 & E5 & Hgr5 & Hc5 & Ht5 & Hg5 & _).
  rewrite E5. bind_ok. clear E5.
  change (tellp (set_global_vars g f3)) with (tellp f3) in Ht5.
  change (content (set_global_vars g f3)) with (content f3) in Hc5.
  change (global_vars (set_global_vars g f3)) with g in Hg5.
  destruct (write_vars_end f (gv_vars gv) f5 Hgr5 ltac:(rewrite Hwv; lia))
    as (f6 & E6 & Hgr6 & Hc6 & Hg6).
  rewrite E6. bind_ok.
  exists hdr, gv, f6. split; [reflexivity|]. split; [exact Hgr6|].
  split.
  { rewrite Hc6, Hc5, Hc3, Hc2, Hc1. rewrite Z.add_0_l. rewrite <- !app_assoc. reflexivity. }
  split; [exact Hh|]. split; [rewrite Hwb; exact Hlen1|].
  split; [rewrite Hwn; lia|]. split; [exact Hwv|].
  intros n. rewrite Hg6, Hg5. apply Hm.
Qed.

(** *** Reading a variable section *)

Lemma string_of_bytes_of_string (s : string) : string_of_bytes (bytes_of_string s) = s.
Proof.
  unfold string_of_bytes, bytes_of_string. rewrite map_map.
  rewrite <- (string_of_list_ascii_of_string s) at 2. f_equal.
  rewrite <- (map_id (list_ascii_of_string s)) at 2. apply map_ext. intros c.
  rewrite Nat2Z.id. apply ascii_nat_embedding.
Qed.

Lemma moved_end_position (f f' : Kero_file) :
  moved f f' -> end_position f' = end_position f /\ header_over f' = header_over f.
Proof. intros (s & c & ->). split; reflexivity. Qed.

Lemma reading_set_global_vars (d : list Z) (p : Z) (g : gmap string Z) (f : Kero_file) :
  reading d p f -> reading d p (set_global_vars g f).
Proof. intros H. apply (reading_same_io d p f); [exact H|reflexivity..]. Qed.

(** Reading the bytes that come next in the file. *)
Lemma reading_read_prefix (d : list Z) (p : Z) (bytes rest : list Z) (f : Kero_file) :
  reading d p f -> drop (Z.to_nat p) d = bytes ++ rest -> (0 < length bytes)%nat ->
  exists f',
    read (Z.of_nat (length bytes)) f = Ok (bytes, f')
    /\ reading d (p + Z.of_nat (length bytes)) f'
    /\ moved f f'
    /\ drop (Z.to_nat (p + Z.of_nat (length bytes))) d = rest.
Proof.
  intros Hrg Hd Hpos. destruct (reading_length d p f Hrg) as (Hlen & Hp0 & H63).
  assert (Hl : (length (drop (Z.to_nat p) d) = length bytes + length rest)%nat).
  { rewrite Hd, length_app. reflexivity. }
  rewrite length_drop in Hl.
  destruct (reading_read d p (Z.of_nat (length bytes)) f Hrg ltac:(lia) ltac:(lia))
    as (f' & E & Hrg' & Hm).
  exists f'. rewrite E, Hd, Nat2Z.id, take_app_length.
  split; [reflexivity|]. split; [exact Hrg'|]. split; [exact Hm|].
  replace (Z.to_nat (p + Z.of_nat (length bytes))) with (Z.to_nat p + length bytes)%nat by lia.
  rewrite <- drop_drop, Hd, drop_app_length. reflexivity.
Qed.

(** The loop that reads a name stops at the first zero byte. *)
Lemma read_name_spec (d : list Z) (name : list Z) :
  Forall (fun b => b <> 0) name ->
  forall (ss : list Z) (c : Z) (fuel : nat) (f : Kero_file) (p : Z) (rest : list Z),
    reading d p f -> c :: drop (Z.to_nat p) d = name ++ 0 :: rest ->
    (length name <= fuel)%nat ->
    exists f',
      read_name fuel ss c f = Ok (ss ++ name, f')
      /\ reading d (p + Z.of_nat (length name)) f'
      /\ moved f f'
      /\ drop (Z.to_nat (p + Z.of_nat (length name))) d = rest.
Proof.
  induction 1 as [|b name Hb _ IH]; intros ss c fuel f p rest Hrg Hd Hfuel.
  - cbn [app] in Hd. injection Hd as -> Hd.
    exists f. destruct fuel; cbn [read_name Z.eqb]; rewrite app_nil_r, Z.add_0_r.
    + split; [reflexivity|]. split; [exact Hrg|]. split; [apply moved_refl|exact Hd].
    + split; [reflexivity|]. split; [exact Hrg|]. split; [apply moved_refl|exact Hd].
  - cbn [app] in Hd. injection Hd as -> Hd.
    destruct fuel as [|fuel]; [cbn in Hfuel; lia|]. cbn [length] in Hfuel.
    cbn [read_name]. destruct (Z.eqb_spec b 0) as [->|_]; [congruence|].
    assert (Hd1 : exists c' tl, drop (Z.to_nat p) d = [c'] ++ tl /\ c' :: tl = name ++ 0 :: rest).
    { rewrite Hd. destruct name as [|c' name]; eexists _, _; split; reflexivity. }
    destruct Hd1 as (c' & tl & Hd1 & Hd2).
    destruct (reading_read_prefix d p [c'] tl f Hrg Hd1 ltac:(cbn; lia))
      as (f1 & E1 & Hrg1 & Hm1 & Hdr).
    change (Z.of_nat (length [c'])) with 1 in *. rewrite E1. bind_ok.
    change (rd [c'] 0) with c'.
    destruct (IH (ss ++ [b]) c' fuel f1 (p + 1) rest Hrg1 ltac:(rewrite Hdr; exact Hd2)
                ltac:(lia)) as (f' & E & Hrg' & Hm' & Hdr').
    exists f'. rewrite E, <- app_assoc. cbn [app length].
    replace (p + Z.of_nat (S (length name))) with (p + 1 + Z.of_nat (length name)) by lia.
    split; [reflexivity|]. split; [exact Hrg'|].
    split; [eapply moved_trans; eassumption|exact Hdr'].
Qed.

(** [read_var] on the bytes of one variable. *)
Lemma read_var_spec (d : list Z) (p : Z) (name : string) (value : Z) (rest : list Z)
    (gv : Section_GV) (f : Kero_file) :
  reading d p f -> drop (Z.to_nat p) d = var_bytes (name, value) ++ rest ->
  Forall (fun b => b <> 0) (bytes_of_string name) -> 0 <= value < 2 ^ 64 ->
  tellp f < end_position f ->
  exists f',
    read_var gv f
    = Ok (Build_Section_GV (gv_beginning gv) (gv_nb_vars gv)
            (var_insert name value (gv_vars gv)), f')
    /\ reading d (p + Z.of_nat (length (var_bytes (name, value)))) f'
    /\ drop (Z.to_nat (p + Z.of_nat (length (var_bytes (name, value))))) d = rest
    /\ end_position f' = end_position f
    /\ tellp f' = p + Z.of_nat (length (var_bytes (name, value))).
Proof.
  intros Hrg Hd Hname Hv Hend. unfold read_var.
  destruct (_ <=? _) eqn:E; [apply Z.leb_le in E; lia|]. clear E.
  unfold var_bytes in *. cbn [fst snd] in *.
  destruct (reading_length d p f Hrg) as (Hlen & Hp0 & H63).
  assert (Hl : p + Z.of_nat (length (bytes_of_string name ++ [0] ++ store_big_endian 8 value))
               = p + 1 + Z.of_nat (length (bytes_of_string name)) + 8).
  { rewrite !length_app, length_store_big_endian. cbn [length]. lia. }
  rewrite Hl. clear Hl.
  assert (Hd1 : exists c tl, drop (Z.to_nat p) d = [c] ++ tl
                 /\ c :: tl = bytes_of_string name ++ 0 :: (store_big_endian 8 value ++ rest)).
  { rewrite Hd, <- !app_assoc. cbn [app].
    destruct (bytes_of_string name) as [|c bs]; eexists _, _; split; reflexivity. }
  destruct Hd1 as (c & tl & Hd1 & Hd2).
  destruct (reading_read_prefix d p [c] tl f Hrg Hd1 ltac:(cbn; lia))
    as (f1 & E1 & Hrg1 & Hm1 & Hdr1).
  change (Z.of_nat (length [c])) with 1 in *. rewrite E1. bind_ok. change (rd [c] 0) with c.
  destruct (reading_length d _ f1 Hrg1) as (Hlen1 & _ & _).
  assert (Hfuel : (length (bytes_of_string name) <= Z.to_nat (file_size f1 + next_free f1))%nat).
  { assert (Hl : length (drop (Z.to_nat p) d)
                 = length (bytes_of_string name ++ [0] ++ store_big_endian 8 value ++ rest))
      by (rewrite Hd, <- !app_assoc; reflexivity).
    rewrite length_drop, !length_app in Hl. lia. }
  destruct (read_name_spec d (bytes_of_string name) Hname [] c _ f1 (p + 1) _ Hrg1
              ltac:(rewrite Hdr1; exact Hd2) Hfuel) as (f2 & E2 & Hrg2 & Hm2 & Hdr2).
  rewrite E2. bind_ok. cbn [app].
  destruct (reading_read_prefix d _ (store_big_endian 8 value) rest f2 Hrg2 Hdr2
              ltac:(rewrite length_store_big_endian; lia)) as (f3 & E3 & Hrg3 & Hm3 & Hdr3).
  rewrite length_store_big_endian in *. change (Z.of_nat (Z.to_nat 8)) with 8 in *.
  rewrite E3. bind_ok. rewrite load_store_small by lia.
  rewrite string_of_bytes_of_string.
  eexists. split; [reflexivity|]. split; [apply reading_set_global_vars; exact Hrg3|].
  split; [exact Hdr3|].
  split.
  - change (end_position (set_global_vars ?g f3)) with (end_position f3).
    rewrite (proj1 (moved_end_position _ _ Hm3)), (proj1 (moved_end_position _ _ Hm2)).
    apply moved_end_position. exact Hm1.
  - apply Hrg3.
Qed.

Lemma length_var_bytes (v : string * Z) :
  Z.of_nat (length (var_bytes v)) = Z.of_nat (String.length (fst v)) + 9.
Proof.
  unfold var_bytes. rewrite !length_app, length_bytes_of_string, length_store_big_endian.
  cbn [length]. lia.
Qed.

(** [read_vars] on the bytes of a list of variables. *)
Lemma read_vars_spec (d : list Z) (vars : list (string * Z)) :
  forall (p : Z) (gv : Section_GV) (f : Kero_file) (rest : list Z),
    reading d p f -> drop (Z.to_nat p) d = flat_map var_bytes vars ++ rest ->
    Forall var_ok vars ->
    p + Z.of_nat (length (flat_map var_bytes vars)) <= end_position f ->
    exists f',
      read_vars (length vars) gv f
      = Ok (Build_Section_GV (gv_beginning gv) (gv_nb_vars gv)
              (insert_vars vars (gv_vars gv)), f')
      /\ reading d (p + Z.of_nat (length (flat_map var_bytes vars))) f'
      /\ drop (Z.to_nat (p + Z.of_nat (length (flat_map var_bytes vars)))) d = rest
      /\ end_position f' = end_position f.
Proof.
  induction vars as [|[k v] vars IH]; intros p gv f rest Hrg Hd Hok Hend;
    cbn [length read_vars flat_map insert_all fold_left] in *.
  - exists f. rewrite Z.add_0_r. destruct gv as [b n l]. cbn [gv_beginning gv_nb_vars gv_vars].
    split; [reflexivity|]. split; [exact Hrg|]. split; [exact Hd|reflexivity].
  - apply Forall_cons in Hok as [[Hname Hv] Hok]. cbn [fst snd] in Hname, Hv.
    rewrite length_app in *. rewrite <- app_assoc in Hd.
    pose proof (length_var_bytes (k, v)) as Hlv. cbn [fst] in Hlv.
    assert (Hp : tellp f = p) by apply Hrg.
    destruct (read_var_spec d p k v _ gv f Hrg Hd Hname Hv ltac:(lia))
      as (f1 & E1 & Hrg1 & Hd1 & He1 & Ht1).
    rewrite E1. bind_ok.
    destruct (IH _ (Build_Section_GV (gv_beginning gv) (gv_nb_vars gv)
                      (var_insert k v (gv_vars gv))) f1 rest Hrg1 Hd1 Hok
                ltac:(rewrite He1; lia)) as (f' & E & Hrg' & Hd' & He').
    cbn [gv_beginning gv_nb_vars gv_vars] in E. exists f'.
    replace (p + Z.of_nat (length (var_bytes (k, v)) + length (flat_map var_bytes vars)))
      with (p + Z.of_nat (length (var_bytes (k, v)))
            + Z.of_nat (length (flat_map var_bytes vars))) by lia.
    split; [exact E|]. split; [exact Hrg'|]. split; [exact Hd'|congruence].
Qed.

(** The constructor of a variable section on a reader placed at the
    beginning of the bytes of a section. *)
Lemma Section_GV_new_reads (d : list Z) (p : Z) (vars : list (string * Z)) (rest : list Z)
    (f : Kero_file) :
  reading d p f -> header_over f = true -> is_writer f = false ->
  drop (Z.to_nat p) d
  = [char "v"] ++ store_big_endian 8 (Z.of_nat (length vars))
      ++ flat_map var_bytes vars ++ rest ->
  Forall var_ok vars -> Z.of_nat (length vars) < 2 ^ 64 ->
  p + 9 + Z.of_nat (length (flat_map var_bytes vars)) <= end_position f ->
  exists f',
    Section_GV_new f
    = Ok (Build_Section_GV p (Z.of_nat (length vars)) (insert_vars vars []), f')
    /\ reading d (p + 9 + Z.of_nat (length (flat_map var_bytes vars))) f'
    /\ drop (Z.to_nat (p + 9 + Z.of_nat (length (flat_map var_bytes vars)))) d = rest
    /\ mirrors f' (Build_Section_GV p (Z.of_nat (length vars)) (insert_vars vars [])).
Proof.
  intros Hrg Hh Hw Hd Hok Hn Hend.
  destruct (reading_length d p f Hrg) as (Hlen & Hp0 & H63).
  assert (Hr : is_reader f = true) by apply Hrg.
  assert (Hp : tellp f = p) by apply Hrg.
  assert (Hl : length (drop (Z.to_nat p) d)
               = length ([char "v"] ++ store_big_endian 8 (Z.of_nat (length vars))
                           ++ flat_map var_bytes vars ++ rest)) by (rewrite Hd; reflexivity).
  rewrite length_drop, !length_app, length_store_big_endian in Hl. cbn [length] in Hl.
  assert (Hs64 : s64 p = p).
  { unfold s64. cbv zeta. rewrite Z.mod_small by lia.
    destruct (_ <? _) eqn:E; [reflexivity|apply Z.ltb_ge in E; lia]. }
  assert (Hnew : exists f', Section_GV_new f
                   = Ok (Build_Section_GV p (Z.of_nat (length vars)) (insert_vars vars []), f')
                 /\ reading d (p + 9 + Z.of_nat (length (flat_map var_bytes vars))) f'
                 /\ drop (Z.to_nat (p + 9 + Z.of_nat (length (flat_map var_bytes vars)))) d
                    = rest).
  { unfold Section_GV_new, Section_new. rewrite Hh. cbn [negb andb]. bind_ok. bind_ok.
    rewrite Hp, Hs64. kf_simpl. rewrite Hr. unfold read_section.
    pose proof (reading_set_global_vars d p ∅ f Hrg) as Hrg0.
    destruct (reading_read_prefix d p [char "v"] _ _ Hrg0 Hd ltac:(cbn; lia))
      as (f1 & E1 & Hrg1 & Hm1 & Hd1).
    change (Z.of_nat (length [char "v"])) with 1 in *. rewrite E1. bind_ok.
    change (rd [char "v"] 0 =? char "v") with true. cbn [negb].
    destruct (reading_read_prefix d _ (store_big_endian 8 (Z.of_nat (length vars))) _ _
                Hrg1 Hd1 ltac:(rewrite length_store_big_endian; lia))
      as (f2 & E2 & Hrg2 & Hm2 & Hd2).
    rewrite length_store_big_endian in *. change (Z.of_nat (Z.to_nat 8)) with 8 in *.
    rewrite E2. bind_ok. rewrite load_store_small by lia. rewrite Nat2Z.id.
    cbn [gv_beginning gv_vars].
    assert (He2 : end_position f2 = end_position f).
    { rewrite (proj1 (moved_end_position _ _ Hm2)), (proj1 (moved_end_position _ _ Hm1)).
      reflexivity. }
    destruct (read_vars_spec d vars (p + 1 + 8)
                (Build_Section_GV p (Z.of_nat (length vars)) []) f2 rest Hrg2 Hd2 Hok
                ltac:(rewrite He2; lia)) as (f3 & E3 & Hrg3 & Hd3 & He3).
    rewrite E3. bind_ok. cbn [gv_beginning gv_nb_vars gv_vars].
    assert (Hw3 : is_writer f3 = false).
    { assert (Hmir : mirrors f2 (Build_Section_GV p (Z.of_nat (length vars)) [])).
      { intros n. cbn [gv_vars smap_find].
        rewrite (proj2 (proj2 (moved_flags _ _ Hm2))), (proj2 (proj2 (moved_flags _ _ Hm1))).
        apply lookup_empty. }
      destruct (read_vars_mirrors _ _ _ _ _ E3 Hmir) as (_ & _ & ->).
      rewrite (proj1 (proj2 (moved_flags _ _ Hm2))), (proj1 (proj2 (moved_flags _ _ Hm1))).
      exact Hw. }
    rewrite Hw3. bind_ok.
    replace (p + 9 + Z.of_nat (length (flat_map var_bytes vars)))
      with (p + 1 + 8 + Z.of_nat (length (flat_map var_bytes vars))) by lia.
    exists f3. split; [reflexivity|]. split; assumption. }
  destruct Hnew as (f' & E & Hrg' & Hd'). exists f'.
  split; [exact E|]. split; [exact Hrg'|]. split; [exact Hd'|].
  apply (Section_GV_new_mirrors f f' _ Hr Hw E).
Qed.

(** *** The section written and the section read *)

Lemma length_flat_map_insert (k : string) (v : Z) (l : list (string * Z)) :
  (length (flat_map var_bytes (var_insert k v l))
   <= length (flat_map var_bytes l) + length (var_bytes (k, v)))%nat.
Proof.
  induction l as [|[k' v'] l IH]; cbn [smap_insert flat_map]; [rewrite app_nil_r; cbn; lia|].
  destruct (String.eqb_spec k k') as [->|_].
  - cbn [flat_map]. rewrite !length_app.
    pose proof (length_var_bytes (k', v)). pose proof (length_var_bytes (k', v')).
    cbn [fst] in *. lia.
  - destruct (String.ltb k k'); cbn [flat_map]; rewrite !length_app; lia.
Qed.

Lemma length_flat_map_insert_all (vars l : list (string * Z)) :
  (length (flat_map var_bytes (insert_vars vars l))
   <= length (flat_map var_bytes l) + length (flat_map var_bytes vars))%nat.
Proof.
  revert l. induction vars as [|[k v] vars IH]; intros l; cbn [insert_all fold_left flat_map].
  - lia.
  - etrans; [apply IH|]. pose proof (length_flat_map_insert k v l). rewrite length_app.
    cbn [fst snd]. lia.
Qed.

Lemma length_flat_map_var_bytes (vars : list (string * Z)) :
  (length vars <= length (flat_map var_bytes vars))%nat.
Proof.
  induction vars as [|v vars IH]; cbn [flat_map length]; [lia|].
  rewrite length_app. pose proof (length_var_bytes v). lia.
Qed.

(** X14. A variable section is written as the letter [v], the number of
    calls of [write_var] on 8 bytes, then, in the increasing order of the
    names, each name with its terminating zero and its value on 8 bytes.
    The constructor first completes the header (4 bytes) when the writer
    has not done it; the values are also kept in the table of the
    container. *)
Theorem GV_section_written (vars : list (string * Z)) (f : Kero_file) :
  append_ok f -> is_reader f = false ->
  tellp f + 13 + Z.of_nat (length (flat_map var_bytes vars)) < 2 ^ 63 ->
  exists hdr gv f',
    write_GV_section vars f = Ok (gv, f')
    /\ append_ok f'
    /\ content f' = content f ++ hdr ++ [char "v"]
                     ++ store_big_endian 8 (Z.of_nat (length vars))
                     ++ flat_map var_bytes (gv_vars gv)
    /\ (header_over f = true -> hdr = [])
    /\ gv_vars gv = insert_vars vars [] /\ vars_sorted (gv_vars gv)
    /\ mirrors f' gv.
Proof.
  intros Hok Hr Hb.
  pose proof (length_flat_map_var_bytes vars) as Hlv.
  pose proof (length_flat_map_insert_all vars []) as Hli. cbn [flat_map length] in Hli.
  destruct (append_ok_end f Hok) as [L0 _].
  destruct (write_GV_section_spec vars f Hok Hr ltac:(lia) ltac:(lia))
    as (hdr & gv & f' & E & Hgr & Hc & Hh & _ & _ & Hv & Hm).
  exists hdr, gv, f'. split; [exact E|]. split; [apply Hgr|]. split; [exact Hc|].
  split; [exact Hh|]. split; [exact Hv|]. split; [|exact Hm].
  rewrite Hv. apply insert_all_sorted. exact I.
Qed.

Lemma GV_section_written_witness :
  exists hdr gv f',
    write_GV_section [("m", 10); ("k", 31)] (snd open_minimizer_section) = Ok (gv, f')
    /\ append_ok f'
    /\ content f' = content (snd open_minimizer_section) ++ hdr ++ [char "v"]
                     ++ store_big_endian 8 (Z.of_nat (length [("m", 10); ("k", 31)]))
                     ++ flat_map var_bytes (gv_vars gv)
    /\ (header_over (snd open_minimizer_section) = true -> hdr = [])
    /\ gv_vars gv = insert_vars [("m", 10); ("k", 31)] [] /\ vars_sorted (gv_vars gv)
    /\ mirrors f' gv.
Proof.
  apply (GV_section_written [("m", 10); ("k", 31)] (snd open_minimizer_section)).
  - constructor; by_eval.
  - reflexivity.
  - by_eval.
Defined.

(** X15. On a reader placed at a variable section that announces as many
    variables as it holds, the names without zero byte, and that ends
    before the position where the footer starts, the constructor of the
    section reads all of it: the section gets the variables, sorted by
    name, a later value replacing an earlier one of the same name; the
    reader is left just after the section and its table gives the
    variables of the section. *)
Theorem Section_GV_new_parses (d : list Z) (p : Z) (vars : list (string * Z))
    (rest : list Z) (f : Kero_file) :
  reading d p f -> header_over f = true -> is_writer f = false ->
  drop (Z.to_nat p) d
  = [char "v"] ++ store_big_endian 8 (Z.of_nat (length vars))
      ++ flat_map var_bytes vars ++ rest ->
  Forall var_ok vars -> Z.of_nat (length vars) < 2 ^ 64 ->
  p + 9 + Z.of_nat (length (flat_map var_bytes vars)) <= end_position f ->
  exists f',
    Section_GV_new f
    = Ok (Build_Section_GV p (Z.of_nat (length vars)) (insert_vars vars []), f')
    /\ reading d (p + 9 + Z.of_nat (length (flat_map var_bytes vars))) f'
    /\ drop (Z.to_nat (p + 9 + Z.of_nat (length (flat_map var_bytes vars)))) d = rest
    /\ mirrors f' (Build_Section_GV p (Z.of_nat (length vars)) (insert_vars vars [])).
Proof. apply Section_GV_new_reads. Qed.

Ltac var_ok_eval :=
  repeat (apply Forall_cons; split; [split; [vm_compute; repeat constructor; discriminate|
                                             cbn [snd]; lia]|]);
  try apply Forall_nil; try exact I.

Lemma Section_GV_new_parses_witness :
  exists f',
    Section_GV_new (reader_on GV_section_sample 0)
    = Ok (Build_Section_GV 0 (Z.of_nat (length [("m", 10); ("k", 31)]))
            (insert_vars [("m", 10); ("k", 31)] []), f')
    /\ reading GV_section_sample
         (0 + 9 + Z.of_nat (length (flat_map var_bytes [("m", 10); ("k", 31)]))) f'
    /\ drop (Z.to_nat (0 + 9 + Z.of_nat (length (flat_map var_bytes [("m", 10); ("k", 31)]))))
         GV_section_sample = bytes_of_string "KERO"
    /\ mirrors f' (Build_Section_GV 0 (Z.of_nat (length [("m", 10); ("k", 31)]))
                     (insert_vars [("m", 10); ("k", 31)] [])).
Proof.
  apply (Section_GV_new_parses GV_section_sample 0 [("m", 10); ("k", 31)]
           (bytes_of_string "KERO") (reader_on GV_section_sample 0)).
  - constructor; [constructor|..]; by_eval.
  - reflexivity.
  - reflexivity.
  - reflexivity.
  - var_ok_eval.
  - by_eval.
  - by_eval.
Defined.

Lemma GV_round_trip (vars : list (string * Z)) (w : Kero_file) (gv : Section_GV)
    (w' : Kero_file) (rest : list Z) (r : Kero_file) :
  append_ok w -> is_reader w = false ->
  NoDup (map fst vars) -> Forall var_ok vars ->
  tellp w + 13 + Z.of_nat (length (flat_map var_bytes vars)) < 2 ^ 63 ->
  write_GV_section vars w = Ok (gv, w') ->
  reading (content w' ++ rest) (gv_beginning gv) r ->
  header_over r = true -> is_writer r = false ->
  Z.of_nat (length (content w')) <= end_position r ->
  exists r',
    Section_GV_new r = Ok (gv, r')
    /\ global_vars r' = global_vars w'
    /\ reading (content w' ++ rest) (Z.of_nat (length (content w'))) r'.
Proof.
  intros Hok Hr Hnd Hvars Hb Ew Hrg Hh Hw Hend.
  pose proof (length_flat_map_var_bytes vars) as Hlv.
  pose proof (length_flat_map_insert_all vars []) as Hli. cbn [flat_map length] in Hli.
  destruct (append_ok_end w Hok) as [L0 _].
  destruct (write_GV_section_spec vars w Hok Hr ltac:(lia) ltac:(lia))
    as (hdr & gv0 & f0 & E & Hgr & Hc & _ & Hbeg & Hnb & Hv & Hm).
  rewrite Ew in E. injection E as <- <-.
  assert (Hlen : length (gv_vars gv) = length vars).
  { rewrite Hv, length_insert_all; [reflexivity|exact Hnd|]. intros k _ []. }
  assert (Hok' : Forall var_ok (gv_vars gv)).
  { rewrite Hv. apply List.Forall_forall. intros e He.
    destruct (insert_all_In e vars [] He) as [H|[]].
    rewrite List.Forall_forall in Hvars. apply Hvars. exact H. }
  assert (Hsorted : vars_sorted (gv_vars gv)) by (rewrite Hv; apply insert_all_sorted; exact I).
  assert (Hp : gv_beginning gv = Z.of_nat (length (content w ++ hdr))).
  { rewrite Hbeg, length_app. lia. }
  assert (Hd : drop (Z.to_nat (gv_beginning gv)) (content w' ++ rest)
               = [char "v"] ++ store_big_endian 8 (Z.of_nat (length (gv_vars gv)))
                   ++ flat_map var_bytes (gv_vars gv) ++ rest).
  { rewrite Hp, Nat2Z.id, Hc, Hlen. rewrite (app_assoc (content w) hdr), <- app_assoc.
    rewrite drop_app_length. rewrite <- !app_assoc. reflexivity. }
  assert (Hlc : Z.of_nat (length (content w'))
                = gv_beginning gv + 9 + Z.of_nat (length (flat_map var_bytes (gv_vars gv)))).
  { rewrite Hp, Hc, !length_app, length_store_big_endian. cbn [length]. lia. }
  destruct (Section_GV_new_reads _ _ (gv_vars gv) rest r Hrg Hh Hw Hd Hok' ltac:(lia)
              ltac:(lia)) as (r' & E & Hrg' & _ & Hm').
  assert (Hgv : Build_Section_GV (gv_beginning gv) (Z.of_nat (length (gv_vars gv)))
                  (insert_vars (gv_vars gv) []) = gv).
  { rewrite (insert_all_self (gv_vars gv) []) by exact Hsorted. rewrite Hlen, <- Hnb.
    destruct gv; reflexivity. }
  rewrite Hgv in E, Hm'. exists r'. split; [exact E|]. split; [|rewrite Hlc; exact Hrg'].
  apply map_eq. intros name. rewrite Hm', Hm. reflexivity.
Qed.

(** X16. A variable section written with distinct names, none holding a
    zero byte, and values of 64 bits is read back as it was written: on a
    reader of the file placed at the beginning of the section, the
    constructor gives the same section (beginning, number of variables,
    variables), leaves in the container the same table of variables as
    the writer had, and stops at the end of the section. *)
Theorem GV_section_round_trip (vars : list (string * Z)) (w : Kero_file) (gv : Section_GV)
    (w' : Kero_file) (rest : list Z) (r : Kero_file) :
  append_ok w -> is_reader w = false ->
  NoDup (map fst vars) -> Forall var_ok vars ->
  tellp w + 13 + Z.of_nat (length (flat_map var_bytes vars)) < 2 ^ 63 ->
  write_GV_section vars w = Ok (gv, w') ->
  reading (content w' ++ rest) (gv_beginning gv) r ->
  header_over r = true -> is_writer r = false ->
  Z.of_nat (length (content w')) <= end_position r ->
  exists r',
    Section_GV_new r = Ok (gv, r')
    /\ global_vars r' = global_vars w'
    /\ reading (content w' ++ rest) (Z.of_nat (length (content w'))) r'.
Proof. apply GV_round_trip. Qed.

Lemma GV_section_round_trip_witness :
  exists r',
    Section_GV_new
      (reader_on (content (snd written_GV_section) ++ bytes_of_string "KERO")
         (gv_beginning (fst written_GV_section)))
    = Ok (fst written_GV_section, r')
    /\ global_vars r' = global_vars (snd written_GV_section)
    /\ reading (content (snd written_GV_section) ++ bytes_of_string "KERO")
         (Z.of_nat (length (content (snd written_GV_section)))) r'.
Proof.
  apply (GV_section_round_trip [("k", 31); ("m", 10); ("data_size", 1)]
           (snd open_minimizer_section) (fst written_GV_section) (snd written_GV_section)
           (bytes_of_string "KERO")
           (reader_on (content (snd written_GV_section) ++ bytes_of_string "KERO")
              (gv_beginning (fst written_GV_section)))).
  - constructor; by_eval.
  - reflexivity.
  - repeat (apply NoDup_cons; split; [rewrite list_elem_of_In; cbn; intuition discriminate|]).
    apply NoDup_nil. exact I.
  - var_ok_eval.
  - by_eval.
  - vm_compute. reflexivity.
  - constructor; [constructor|..]; by_eval.
  - reflexivity.
  - reflexivity.
  - by_eval.
Defined.

(** ** Index sections *)

Lemma s64_load_store (x : Z) :
  offset_ok x -> s64 (load_big_endian 64 (store_big_endian 8 x) 8) = x.
Proof.
  unfold offset_ok. intros Hx.
  assert (E : load_big_endian 64 (store_big_endian 8 x) 8 = x mod 2 ^ 64).
  { apply Z.bits_inj'. intros i Hi. rewrite load_store_bits by lia.
    change (8 * 8) with 64.
    destruct (i <? 64) eqn:Ei; [apply Z.ltb_lt in Ei|apply Z.ltb_ge in Ei]; cbn [andb].
    - rewrite Z.mod_pow2_bits_low by lia. reflexivity.
    - rewrite Z.mod_pow2_bits_high by lia. reflexivity. }
  rewrite E. unfold s64. cbv zeta. rewrite Zmod_mod.
  pose proof (Z.mod_pos_bound x (2 ^ 64) ltac:(lia)) as Hm.
  destruct (x mod 2 ^ 64 <? 2 ^ 63) eqn:El; [apply Z.ltb_lt in El|apply Z.ltb_ge in El];
    Z.div_mod_to_equations; lia.
Qed.

Lemma smap_sorted_NoDup {V : Type} (l : list (Z * V)) :
  smap_sorted Z.ltb l -> NoDup (map fst l).
Proof.
  induction l as [|[k v] l IH]; cbn [smap_sorted map fst]; [intros _; apply NoDup_nil; exact I|].
  intros [Hall Hs]. apply NoDup_cons. split; [|apply IH; exact Hs].
  rewrite list_elem_of_In, in_map_iff. intros ([k' v'] & Hk & Hin). cbn [fst] in Hk. subst k'.
  rewrite List.Forall_forall in Hall. specialize (Hall _ Hin). cbn [fst] in Hall.
  apply Z.ltb_lt in Hall. lia.
Qed.

Lemma length_index_bytes (index : list (Z * Z)) :
  Z.of_nat (length (flat_map index_entry_bytes index)) = 9 * Z.of_nat (length index).
Proof.
  induction index as [|e index IH]; cbn [flat_map length]; [reflexivity|].
  rewrite length_app. unfold index_entry_bytes at 1.
  rewrite length_app, length_store_big_endian. cbn [length]. lia.
Qed.

(** *** Writing *)

Lemma write_index_entries_bytes (f0 : Kero_file) (index : list (Z * Z)) (f : Kero_file) :
  grown f0 f -> tellp f + 9 * Z.of_nat (length index) < 2 ^ 63 ->
  exists f',
    write_index_entries index f = Ok f' /\ grown f0 f'
    /\ content f' = content f ++ flat_map index_entry_bytes index.
Proof.
  revert f. induction index as [|[pos type] index IH]; intros f Hgr Hb;
    cbn [write_index_entries flat_map].
  - exists f. rewrite app_nil_r. split; [reflexivity|]. split; [exact Hgr|reflexivity].
  - cbn [length] in Hb.
    destruct (grown_write_bytes f0 f [type] 1 Hgr ltac:(lia) eq_refl ltac:(lia))
      as (f1 & E1 & Hgr1 & Hc1 & Ht1 & _). rewrite E1. bind_ok.
    destruct (grown_write_bytes f0 f1 (store_big_endian 8 pos) 8 Hgr1 ltac:(lia)
                ltac:(rewrite length_store_big_endian; reflexivity) ltac:(lia))
      as (f2 & E2 & Hgr2 & Hc2 & Ht2 & _). rewrite E2. bind_ok.
    destruct (IH f2 Hgr2 ltac:(lia)) as (f' & E & Hgr' & Hc).
    exists f'. split; [exact E|]. split; [exact Hgr'|].
    rewrite Hc, Hc2, Hc1. unfold index_entry_bytes at 2. cbn [fst snd].
    rewrite <- !app_assoc. reflexivity.
Qed.

Lemma Section_Index_close_bytes (si : Section_Index) (f : Kero_file) :
  append_ok f -> tellp f + 17 + 9 * Z.of_nat (length (si_index si)) < 2 ^ 63 ->
  exists f',
    Section_Index_close si f = Ok f' /\ append_ok f'
    /\ content f'
       = content f ++ [char "i"] ++ store_big_endian 8 (Z.of_nat (length (si_index si)))
           ++ flat_map index_entry_bytes (si_index si)
           ++ store_big_endian 8 (si_next_index si).
Proof.
  intros Hok Hb. unfold Section_Index_close.
  assert (Hw : is_writer f = true) by apply Hok. rewrite Hw.
  pose proof (grown_refl f Hok) as Hgr.
  destruct (grown_write_bytes f f [char "i"] 1 Hgr ltac:(lia) eq_refl ltac:(lia))
    as (f1 & E1 & Hgr1 & Hc1 & Ht1 & _). rewrite E1. bind_ok.
  destruct (grown_write_bytes f f1 (store_big_endian 8 (Z.of_nat (length (si_index si)))) 8
              Hgr1 ltac:(lia) ltac:(rewrite length_store_big_endian; reflexivity) ltac:(lia))
    as (f2 & E2 & Hgr2 & Hc2 & Ht2 & _). rewrite E2. bind_ok.
  destruct (write_index_entries_bytes f (si_index si) f2 Hgr2 ltac:(lia))
    as (f3 & E3 & Hgr3 & Hc3). rewrite E3. bind_ok.
  assert (Ht3 : tellp f3 = tellp f2 + 9 * Z.of_nat (length (si_index si))).
  { destruct (append_ok_end f2 (gr_ok _ _ Hgr2)) as [L2 _].
    destruct (append_ok_end f3 (gr_ok _ _ Hgr3)) as [L3 _].
    rewrite Hc3, length_app in L3. pose proof (length_index_bytes (si_index si)). lia. }
  destruct (grown_write_bytes f f3 (store_big_endian 8 (si_next_index si)) 8
              Hgr3 ltac:(lia) ltac:(rewrite length_store_big_endian; reflexivity) ltac:(lia))
    as (f4 & E4 & Hgr4 & Hc4 & _).
  exists f4. split; [exact E4|]. split; [apply Hgr4|].
  rewrite Hc4, Hc3, Hc2, Hc1, <- !app_assoc. reflexivity.
Qed.

(** *** Reading *)

Lemma read_index_entries_spec (d : list Z) (entries : list (Z * Z)) :
  forall (p : Z) (index : list (Z * Z)) (f : Kero_file) (rest : list Z),
    reading d p f -> drop (Z.to_nat p) d = flat_map index_entry_bytes entries ++ rest ->
    Forall (fun e => offset_ok (fst e)) entries ->
    exists f',
      read_index_entries (length entries) index f
      = Ok (insert_all Z.ltb Z.eqb entries index, f')
      /\ reading d (p + 9 * Z.of_nat (length entries)) f'
      /\ drop (Z.to_nat (p + 9 * Z.of_nat (length entries))) d = rest.
Proof.
  induction entries as [|[pos type] entries IH]; intros p index f rest Hrg Hd Hok;
    cbn [length read_index_entries flat_map] in *.
  - exists f. rewrite Z.add_0_r. split; [reflexivity|]. split; [exact Hrg|exact Hd].
  - apply Forall_cons in Hok as [Hpos Hok]. cbn [fst] in Hpos.
    unfold index_entry_bytes in Hd at 1. cbn [fst snd] in Hd. rewrite <- !app_assoc in Hd.
    destruct (reading_read_prefix d p [type] _ f Hrg Hd ltac:(cbn; lia))
      as (f1 & E1 & Hrg1 & _ & Hd1).
    change (Z.of_nat (length [type])) with 1 in *. rewrite E1. bind_ok.
    destruct (reading_read_prefix d _ (store_big_endian 8 pos) _ f1 Hrg1 Hd1
                ltac:(rewrite length_store_big_endian; lia)) as (f2 & E2 & Hrg2 & _ & Hd2).
    rewrite length_store_big_endian in *. change (Z.of_nat (Z.to_nat 8)) with 8 in *.
    rewrite E2. bind_ok. rewrite s64_load_store by exact Hpos. change (rd [type] 0) with type.
    destruct (IH (p + 1 + 8) (smap_insert Z.ltb Z.eqb pos type index) f2 rest Hrg2 Hd2 Hok)
      as (f' & E & Hrg' & Hd').
    exists f'.
    replace (p + 9 * Z.of_nat (S (length entries)))
      with (p + 1 + 8 + 9 * Z.of_nat (length entries)) by lia.
    split; [exact E|]. split; [exact Hrg'|exact Hd'].
Qed.

(** The constructor of an index section on a reader placed at the bytes
    of an index without two entries for the same position. *)
Lemma Section_Index_new_reads (d : list Z) (p next : Z) (entries : list (Z * Z))
    (rest : list Z) (f : Kero_file) :
  reading d p f -> header_over f = true ->
  drop (Z.to_nat p) d
  = [char "i"] ++ store_big_endian 8 (Z.of_nat (length entries))
      ++ flat_map index_entry_bytes entries ++ store_big_endian 8 next ++ rest ->
  NoDup (map fst entries) -> Forall (fun e => offset_ok (fst e)) entries ->
  offset_ok next -> Z.of_nat (length entries) < 2 ^ 64 ->
  exists f',
    Section_Index_new f
    = Ok (Build_Section_Index p (insert_all Z.ltb Z.eqb entries []) next, f')
    /\ reading d (p + 17 + 9 * Z.of_nat (length entries)) f'
    /\ drop (Z.to_nat (p + 17 + 9 * Z.of_nat (length entries))) d = rest.
Proof.
  intros Hrg Hh Hd Hnd Hok Hnext Hn.
  destruct (reading_length d p f Hrg) as (Hlen & Hp0 & H63).
  assert (Hr : is_reader f = true) by apply Hrg.
  assert (Hp : tellp f = p) by apply Hrg.
  assert (Hs64 : s64 p = p).
  { assert (Hl : length (drop (Z.to_nat p) d)
                 = length ([char "i"] ++ store_big_endian 8 (Z.of_nat (length entries))
                             ++ flat_map index_entry_bytes entries
                             ++ store_big_endian 8 next ++ rest)) by (rewrite Hd; reflexivity).
    rewrite length_drop, !length_app in Hl. cbn [length] in Hl.
    unfold s64. cbv zeta. rewrite Z.mod_small by lia.
    destruct (_ <? _) eqn:E; [reflexivity|apply Z.ltb_ge in E; lia]. }
  unfold Section_Index_new, Section_new. rewrite Hh. cbn [negb andb]. bind_ok. bind_ok.
  rewrite Hp, Hs64, Hr.
  destruct (reading_read_prefix d p [char "i"] _ f Hrg Hd ltac:(cbn; lia))
    as (f1 & E1 & Hrg1 & _ & Hd1).
  change (Z.of_nat (length [char "i"])) with 1 in *. rewrite E1. bind_ok.
  change (rd [char "i"] 0 =? char "i") with true. cbn [negb].
  destruct (reading_read_prefix d _ (store_big_endian 8 (Z.of_nat (length entries))) _ f1
              Hrg1 Hd1 ltac:(rewrite length_store_big_endian; lia))
    as (f2 & E2 & Hrg2 & _ & Hd2).
  rewrite length_store_big_endian in *. change (Z.of_nat (Z.to_nat 8)) with 8 in *.
  rewrite E2. bind_ok. rewrite load_store_small by lia. rewrite Nat2Z.id.
  destruct (read_index_entries_spec d entries (p + 1 + 8) [] f2 _ Hrg2 Hd2 Hok)
    as (f3 & E3 & Hrg3 & Hd3).
  rewrite E3. bind_ok.
  rewrite length_insert_all by (try exact Hnd; intros k _ []). cbn [length Nat.add].
  rewrite Z.eqb_refl. cbn [negb].
  destruct (reading_read_prefix d _ (store_big_endian 8 next) rest f3 Hrg3 Hd3
              ltac:(rewrite length_store_big_endian; lia)) as (f4 & E4 & Hrg4 & _ & Hd4).
  rewrite length_store_big_endian in *. change (Z.of_nat (Z.to_nat 8)) with 8 in *.
  rewrite E4. bind_ok. rewrite s64_load_store by exact Hnext.
  replace (p + 17 + 9 * Z.of_nat (length entries))
    with (p + 1 + 8 + 9 * Z.of_nat (length entries) + 8) by lia.
  exists f4. split; [reflexivity|]. split; assumption.
Qed.

(** X22. [Section_Index::close] on a writer appends the index to the
    file: the letter [i], the number of entries on 8 bytes, then for each
    entry, in the increasing order of the positions, the type of the
    section and its position on 8 bytes, and last the position of the next
    index on 8 bytes. *)
Theorem Section_Index_written (si : Section_Index) (f : Kero_file) :
  append_ok f -> tellp f + 17 + 9 * Z.of_nat (length (si_index si)) < 2 ^ 63 ->
  exists f',
    Section_Index_close si f = Ok f' /\ append_ok f'
    /\ content f'
       = content f ++ [char "i"] ++ store_big_endian 8 (Z.of_nat (length (si_index si)))
           ++ flat_map index_entry_bytes (si_index si)
           ++ store_big_endian 8 (si_next_index si).
Proof. apply Section_Index_close_bytes. Qed.

Lemma Section_Index_written_witness :
  exists f',
    Section_Index_close index_sample (snd open_minimizer_section) = Ok f' /\ append_ok f'
    /\ content f'
       = content (snd open_minimizer_section) ++ [char "i"]
           ++ store_big_endian 8 (Z.of_nat (length (si_index index_sample)))
           ++ flat_map index_entry_bytes (si_index index_sample)
           ++ store_big_endian 8 (si_next_index index_sample).
Proof.
  apply (Section_Index_written index_sample (snd open_minimizer_section)).
  - constructor; by_eval.
  - by_eval.
Defined.

Lemma index_round_trip (si : Section_Index) (w w' : Kero_file) (rest : list Z)
    (r : Kero_file) :
  append_ok w -> tellp w + 17 + 9 * Z.of_nat (length (si_index si)) < 2 ^ 63 ->
  smap_sorted Z.ltb (si_index si) ->
  Forall (fun e => offset_ok (fst e)) (si_index si) -> offset_ok (si_next_index si) ->
  Section_Index_close si w = Ok w' ->
  reading (content w' ++ rest) (tellp w) r -> header_over r = true ->
  exists r',
    Section_Index_new r
    = Ok (Build_Section_Index (tellp w) (si_index si) (si_next_index si), r')
    /\ reading (content w' ++ rest) (tellp w') r'.
Proof.
  intros Hok Hb Hsorted Hoff Hnext Ew Hrg Hh.
  destruct (Section_Index_close_bytes si w Hok Hb) as (f' & E & Hok' & Hc).
  rewrite Ew in E. injection E as <-.
  destruct (append_ok_end w Hok) as [L0 _]. destruct (append_ok_end w' Hok') as [L1 _].
  assert (Hd : drop (Z.to_nat (tellp w)) (content w' ++ rest)
               = [char "i"] ++ store_big_endian 8 (Z.of_nat (length (si_index si)))
                   ++ flat_map index_entry_bytes (si_index si)
                   ++ store_big_endian 8 (si_next_index si) ++ rest).
  { rewrite <- L0, Nat2Z.id, Hc, <- !app_assoc. apply drop_app_length. }
  destruct (Section_Index_new_reads _ _ _ _ rest r Hrg Hh Hd (smap_sorted_NoDup _ Hsorted)
              Hoff Hnext ltac:(lia)) as (r' & E & Hrg' & _).
  rewrite (insert_all_self (si_index si) []) in E by exact Hsorted.
  exists r'. split; [exact E|].
  replace (tellp w') with (tellp w + 17 + 9 * Z.of_nat (length (si_index si))); [exact Hrg'|].
  rewrite <- L1, Hc, !length_app, !length_store_big_endian.
  pose proof (length_index_bytes (si_index si)). cbn [length]. lia.
Qed.

(** X23. An index written by [Section_Index::close], its positions being
    signed 64-bit offsets, is read back by the constructor of
    [Section_Index] on a reader placed where the index starts: the section
    read begins there, has the same entries and the same position of the
    next index, and the reader stops at the end of the index. *)
Theorem Section_Index_round_trip (si : Section_Index) (w w' : Kero_file) (rest : list Z)
    (r : Kero_file) :
  append_ok w -> tellp w + 17 + 9 * Z.of_nat (length (si_index si)) < 2 ^ 63 ->
  smap_sorted Z.ltb (si_index si) ->
  Forall (fun e => offset_ok (fst e)) (si_index si) -> offset_ok (si_next_index si) ->
  Section_Index_close si w = Ok w' ->
  reading (content w' ++ rest) (tellp w) r -> header_over r = true ->
  exists r',
    Section_Index_new r
    = Ok (Build_Section_Index (tellp w) (si_index si) (si_next_index si), r')
    /\ reading (content w' ++ rest) (tellp w') r'.
Proof. apply index_round_trip. Qed.

Lemma Section_Index_round_trip_witness :
  exists r',
    Section_Index_new
      (reader_on (content written_index ++ bytes_of_string "KERO")
         (tellp (snd open_minimizer_section)))
    = Ok (Build_Section_Index (tellp (snd open_minimizer_section)) (si_index index_sample)
            (si_next_index index_sample), r')
    /\ reading (content written_index ++ bytes_of_string "KERO") (tellp written_index) r'.
Proof.
  apply (Section_Index_round_trip index_sample (snd open_minimizer_section) written_index
           (bytes_of_string "KERO")
           (reader_on (content written_index ++ bytes_of_string "KERO")
              (tellp (snd open_minimizer_section)))).
  - constructor; by_eval.
  - by_eval.
  - cbn. repeat split; repeat constructor.
  - repeat constructor; unfold offset_ok; cbn; lia.
  - unfold offset_ok. cbn. lia.
  - vm_compute. reflexivity.
  - constructor; [constructor|..]; by_eval.
  - reflexivity.
Defined.

(** ** Raw sections *)

(** Reading the bytes that come next in the file, possibly none. *)
Lemma reading_read_bytes (d : list Z) (p : Z) (bytes rest : list Z) (f : Kero_file) :
  reading d p f -> p <= Z.of_nat (length d) -> drop (Z.to_nat p) d = bytes ++ rest ->
  exists f',
    read (Z.of_nat (length bytes)) f = Ok (bytes, f')
    /\ reading d (p + Z.of_nat (length bytes)) f'
    /\ moved f f'
    /\ drop (Z.to_nat (p + Z.of_nat (length bytes))) d = rest
    /\ p + Z.of_nat (length bytes) <= Z.of_nat (length d).
Proof.
  intros Hrg Hple Hd. destruct (reading_length d p f Hrg) as (Hlen & Hp0 & H63).
  assert (Hl : (length (drop (Z.to_nat p) d) = length bytes + length rest)%nat).
  { rewrite Hd, length_app. reflexivity. }
  rewrite length_drop in Hl.
  destruct (reading_read d p (Z.of_nat (length bytes)) f Hrg ltac:(lia) ltac:(lia))
    as (f' & E & Hrg' & Hm).
  exists f'. rewrite E, Hd, Nat2Z.id, take_app_length.
  split; [reflexivity|]. split; [exact Hrg'|]. split; [exact Hm|].
  replace (Z.to_nat (p + Z.of_nat (length bytes))) with (Z.to_nat p + length bytes)%nat by lia.
  rewrite <- drop_drop, Hd, drop_app_length. split; [reflexivity|lia].
Qed.

(** [read] into an array of the caller that is large enough. *)
Lemma reading_read_into (d : list Z) (p : Z) (bytes rest buf : list Z) (f : Kero_file) :
  reading d p f -> p <= Z.of_nat (length d) -> drop (Z.to_nat p) d = bytes ++ rest ->
  (length bytes <= length buf)%nat ->
  exists f',
    read_into buf (Z.of_nat (length bytes)) f = Ok (bytes ++ drop (length bytes) buf, f')
    /\ reading d (p + Z.of_nat (length bytes)) f'
    /\ moved f f'
    /\ drop (Z.to_nat (p + Z.of_nat (length bytes))) d = rest
    /\ p + Z.of_nat (length bytes) <= Z.of_nat (length d).
Proof.
  intros Hrg Hple Hd Hbuf.
  destruct (reading_read_bytes d p bytes rest f Hrg Hple Hd) as (f' & E & H).
  exists f'. split; [|exact H]. unfold read_into. rewrite E. bind_ok.
  rewrite memcpy_app by lia. rewrite Z.add_0_l, Nat2Z.id, take_0, firstn_all. reflexivity.
Qed.

(** The number of k-mers at the head of a block, as every reader of blocks
    gets it. *)
Lemma reading_block_count (d : list Z) (p : Z) (nkb nb : Z) (rest : list Z) (f : Kero_file) :
  reading d p f -> p <= Z.of_nat (length d) ->
  drop (Z.to_nat p) d = store_big_endian nkb nb ++ rest ->
  0 <= nkb <= 8 -> (if nkb =? 0 then nb = 1 else 0 <= nb < 2 ^ (8 * nkb)) ->
  exists f',
    (if negb (nkb =? 0) then
       '(buff, f) ← read nkb f; Ok (load_big_endian 64 buff nkb, f)
     else Ok (1, f)) = Ok (nb, f')
    /\ reading d (p + nkb) f'
    /\ moved f f'
    /\ drop (Z.to_nat (p + nkb)) d = rest
    /\ p + nkb <= Z.of_nat (length d).
Proof.
  intros Hrg Hple Hd Hnkb Hnb.
  destruct (Z.eqb_spec nkb 0) as [->|Hne]; cbn [negb].
  - subst nb. exists f. rewrite Z.add_0_r. split; [reflexivity|]. split; [exact Hrg|].
    split; [apply moved_refl|]. split; [exact Hd|exact Hple].
  - destruct (reading_read_bytes d p _ rest f Hrg Hple Hd) as (f' & E & H).
    rewrite length_store_big_endian, Z2Nat.id in * by lia.
    exists f'. rewrite E. bind_ok. rewrite load_store_small by lia. split; [reflexivity|exact H].
Qed.

Section Raw_block.
Context (d : list Z) (p nb : Z) (seqb datab rest : list Z) (sr : Section_Raw) (f : Kero_file).
Hypothesis Hrg : reading d p f.
Hypothesis Hple : p <= Z.of_nat (length d).
Hypothesis Hd :
  drop (Z.to_nat p) d = store_big_endian (sr_nb_kmers_bytes sr) nb ++ seqb ++ datab ++ rest.
Hypothesis Hnkb : 0 <= sr_nb_kmers_bytes sr <= 8.
Hypothesis Hfits : count_fits (sr_nb_kmers_bytes sr) nb.
Hypothesis Hk : 0 <= sr_k sr /\ 1 <= nb + sr_k sr /\ nb + sr_k sr + 2 < 2 ^ 64.
Hypothesis Hseq : Z.of_nat (length seqb) = (nb + sr_k sr - 1 + 3) / 4.
Hypothesis Hdata : Z.of_nat (length datab) = sr_data_size sr * nb.

Lemma raw_block_sizes :
  0 <= nb
  /\ u64 (u64 (u64 (nb + sr_k sr) - 1) + 3) / 4 = Z.of_nat (length seqb)
  /\ u64 (sr_data_size sr * nb) = Z.of_nat (length datab)
  /\ Z.of_nat (length d) < 2 ^ 63.
Proof.
  destruct (reading_length d p f Hrg) as (Hlen & Hp0 & H63).
  assert (H0 : 0 <= nb).
  { unfold count_fits in Hfits. destruct (_ =? _); lia. }
  split; [exact H0|]. rewrite (u64_small (nb + sr_k sr)) by lia.
  rewrite (u64_small (nb + sr_k sr - 1)) by lia.
  rewrite (u64_small (nb + sr_k sr - 1 + 3)) by lia.
  split; [symmetry; exact Hseq|]. split; [|exact H63].
  assert (Hl : length (drop (Z.to_nat p) d)
               = length (store_big_endian (sr_nb_kmers_bytes sr) nb ++ seqb ++ datab ++ rest))
    by (rewrite Hd; reflexivity).
  rewrite length_drop, !length_app in Hl.
  rewrite <- Hdata. apply u64_small. lia.
Qed.

Lemma raw_block_read (seq0 data0 : list Z) :
  (length seqb <= length seq0)%nat -> (length datab <= length data0)%nat ->
  exists f',
    Section_Raw_read_compacted_sequence seq0 data0 sr f
    = Ok (nb, seqb ++ drop (length seqb) seq0, datab ++ drop (length datab) data0,
          block_consumed sr, f')
    /\ reading d (p + sr_nb_kmers_bytes sr + Z.of_nat (length seqb)
                  + Z.of_nat (length datab)) f'.
Proof.
  intros Hs0 Hd0. destruct raw_block_sizes as (H0 & Es & Ed & H63).
  unfold Section_Raw_read_compacted_sequence.
  destruct (reading_block_count d p _ nb _ f Hrg Hple Hd Hnkb Hfits)
    as (f1 & E1 & Hrg1 & _ & Hd1 & Hle1).
  rewrite E1. bind_ok. cbv zeta. rewrite Es, Ed.
  destruct (reading_read_into d _ seqb _ seq0 f1 Hrg1 Hle1 Hd1 Hs0)
    as (f2 & E2 & Hrg2 & _ & Hd2 & Hle2).
  rewrite E2. bind_ok.
  destruct (reading_read_into d _ datab _ data0 f2 Hrg2 Hle2 Hd2 Hd0)
    as (f3 & E3 & Hrg3 & _ & Hd3 & Hle3).
  rewrite E3. bind_ok. exists f3. split; [reflexivity|exact Hrg3].
Qed.

Lemma raw_block_jump :
  exists f',
    Section_Raw_jump_sequence sr f = Ok (block_consumed sr, f')
    /\ reading d (p + sr_nb_kmers_bytes sr + Z.of_nat (length seqb)
                  + Z.of_nat (length datab)) f'.
Proof.
  destruct raw_block_sizes as (H0 & Es & Ed & H63).
  destruct (reading_length d p f Hrg) as (Hlen & Hp0 & _).
  unfold Section_Raw_jump_sequence.
  destruct (reading_block_count d p _ nb _ f Hrg Hple Hd Hnkb Hfits)
    as (f1 & E1 & Hrg1 & _ & Hd1 & Hle1).
  rewrite E1. bind_ok. cbv zeta. rewrite Es, Ed.
  assert (Hl : (length (drop (Z.to_nat (p + sr_nb_kmers_bytes sr)) d)
                = length seqb + (length datab + length rest))%nat).
  { rewrite Hd1, !length_app. reflexivity. }
  rewrite length_drop in Hl.
  assert (Hs64 : s64 (Z.of_nat (length seqb) + Z.of_nat (length datab))
                 = Z.of_nat (length seqb) + Z.of_nat (length datab)).
  { unfold s64. cbv zeta. rewrite Z.mod_small by lia.
    destruct (_ <? _) eqn:E; [reflexivity|apply Z.ltb_ge in E; lia]. }
  unfold jump. rewrite Hs64. rewrite (rg_pos _ _ _ Hrg1).
  rewrite (u64_small (p + sr_nb_kmers_bytes sr
                      + (Z.of_nat (length seqb) + Z.of_nat (length datab)))) by lia.
  destruct (reading_jump_to d _ (p + sr_nb_kmers_bytes sr + (Z.of_nat (length seqb)
                                   + Z.of_nat (length datab))) f1 Hrg1 ltac:(lia))
    as (f2 & E2 & Hrg2 & _).
  rewrite E2. bind_ok. exists f2. split; [reflexivity|].
  rewrite !Z.add_assoc in Hrg2. exact Hrg2.
Qed.
End Raw_block.

(** X17. A block of a raw section is the number of its k-mers, on the
    [nb_kmers_bytes] bytes of the section, the nucleotides of its
    [nb + k - 1] bases, 4 per byte, and [data_size] bytes per k-mer.  On a
    reader placed at a block whose count fits in these bytes,
    [read_compacted_sequence] returns the count and copies the two parts
    to the beginning of the arrays of the caller, [jump_sequence] copies
    nothing, and both leave the reader just after the block with one
    block less to read. *)
Theorem raw_block_read_or_skipped (d : list Z) (p nb : Z) (seqb datab rest : list Z)
    (sr : Section_Raw) (f : Kero_file) (seq0 data0 : list Z) :
  reading d p f -> p <= Z.of_nat (length d) ->
  drop (Z.to_nat p) d = store_big_endian (sr_nb_kmers_bytes sr) nb ++ seqb ++ datab ++ rest ->
  0 <= sr_nb_kmers_bytes sr <= 8 -> count_fits (sr_nb_kmers_bytes sr) nb ->
  0 <= sr_k sr /\ 1 <= nb + sr_k sr /\ nb + sr_k sr + 2 < 2 ^ 64 ->
  Z.of_nat (length seqb) = (nb + sr_k sr - 1 + 3) / 4 ->
  Z.of_nat (length datab) = sr_data_size sr * nb ->
  (length seqb <= length seq0)%nat -> (length datab <= length data0)%nat ->
  exists f1 f2,
    Section_Raw_read_compacted_sequence seq0 data0 sr f
    = Ok (nb, seqb ++ drop (length seqb) seq0, datab ++ drop (length datab) data0,
          block_consumed sr, f1)
    /\ Section_Raw_jump_sequence sr f = Ok (block_consumed sr, f2)
    /\ reading d (p + sr_nb_kmers_bytes sr + Z.of_nat (length seqb)
                  + Z.of_nat (length datab)) f1
    /\ reading d (p + sr_nb_kmers_bytes sr + Z.of_nat (length seqb)
                  + Z.of_nat (length datab)) f2.
Proof.
  intros Hrg Hple Hd Hnkb Hfits Hk Hseq Hdata Hs0 Hd0.
  destruct (raw_block_read d p nb seqb datab rest sr f Hrg Hple Hd Hnkb Hfits Hk Hseq Hdata
              seq0 data0 Hs0 Hd0) as (f1 & E1 & Hrg1).
  destruct (raw_block_jump d p nb seqb datab rest sr f Hrg Hple Hd Hnkb Hfits Hk Hseq Hdata)
    as (f2 & E2 & Hrg2).
  exists f1, f2. split; [exact E1|]. split; [exact E2|]. split; assumption.
Qed.

Lemma raw_block_read_or_skipped_witness :
  exists f1 f2,
    Section_Raw_read_compacted_sequence (zeros 4) (zeros 8) raw_section_sample
      (reader_on raw_block_sample 0)
    = Ok (5, [27; 228] ++ drop (length [27; 228]) (zeros 4),
          [1; 2; 3; 4; 5] ++ drop (length [1; 2; 3; 4; 5]) (zeros 8),
          block_consumed raw_section_sample, f1)
    /\ Section_Raw_jump_sequence raw_section_sample (reader_on raw_block_sample 0)
       = Ok (block_consumed raw_section_sample, f2)
    /\ reading raw_block_sample
         (0 + sr_nb_kmers_bytes raw_section_sample + Z.of_nat (length [27; 228])
          + Z.of_nat (length [1; 2; 3; 4; 5])) f1
    /\ reading raw_block_sample
         (0 + sr_nb_kmers_bytes raw_section_sample + Z.of_nat (length [27; 228])
          + Z.of_nat (length [1; 2; 3; 4; 5])) f2.
Proof.
  apply (raw_block_read_or_skipped raw_block_sample 0 5 [27; 228] [1; 2; 3; 4; 5] [9]
           raw_section_sample (reader_on raw_block_sample 0) (zeros 4) (zeros 8)).
  - constructor; [constructor|..]; by_eval.
  - by_eval.
  - reflexivity.
  - by_eval.
  - by_eval.
  - by_eval.
  - reflexivity.
  - reflexivity.
  - vm_compute. lia.
  - vm_compute. lia.
Defined.

(** A block as [write_compacted_sequence] appends it. *)
Lemma raw_block_write (seq : list Z) (seq_size : Z) (data : list Z) (sr : Section_Raw)
    (f : Kero_file) :
  append_ok f -> 0 <= sr_nb_kmers_bytes sr <= 8 ->
  0 <= sr_k sr <= seq_size -> seq_size + 3 < 2 ^ 64 -> 0 <= sr_data_size sr ->
  (seq_size + 3) / 4 <= Z.of_nat (length seq) ->
  sr_data_size sr * (seq_size - sr_k sr + 1) <= Z.of_nat (length data) ->
  tellp f + sr_nb_kmers_bytes sr + (seq_size + 3) / 4
    + sr_data_size sr * (seq_size - sr_k sr + 1) < 2 ^ 63 ->
  exists f',
    Section_Raw_write_compacted_sequence seq seq_size data sr f
    = Ok (Build_Section_Raw (sr_beginning sr) (sr_nb_kmers_bytes sr) (u64 (sr_nb_blocks sr + 1))
            (sr_remaining_blocks sr) (sr_k sr) (sr_max sr) (sr_data_size sr), f')
    /\ append_ok f'
    /\ content f'
       = content f ++ store_big_endian (sr_nb_kmers_bytes sr) (seq_size - sr_k sr + 1)
           ++ take (Z.to_nat ((seq_size + 3) / 4)) seq
           ++ take (Z.to_nat (sr_data_size sr * (seq_size - sr_k sr + 1))) data.
Proof.
  intros Hok Hnkb Hk Hsz Hds Hseq Hdata Hb.
  assert (H4 : 0 <= (seq_size + 3) / 4) by (apply Z.div_pos; lia).
  assert (Hm : 0 <= sr_data_size sr * (seq_size - sr_k sr + 1)) by nia.
  destruct (append_ok_end f Hok) as [L0 Ht].
  unfold Section_Raw_write_compacted_sequence. cbv zeta.
  rewrite (u64_small (seq_size - sr_k sr)) by lia.
  rewrite (u64_small (seq_size - sr_k sr + 1)) by lia.
  rewrite (u64_small (seq_size + 3)) by lia.
  rewrite (u64_small (sr_data_size sr * _)) by lia.
  destruct (write_step (store_big_endian (sr_nb_kmers_bytes sr) (seq_size - sr_k sr + 1))
              (sr_nb_kmers_bytes sr) f Hok ltac:(lia)
              ltac:(rewrite length_store_big_endian; lia) ltac:(lia))
    as (f1 & E1 & Hok1 & Hc1 & _ & Ht1).
  rewrite E1. bind_ok.
  destruct (append_ok_end f1 Hok1) as [_ Ht1'].
  destruct (write_spec seq ((seq_size + 3) / 4) f1 Hok1 ltac:(lia) ltac:(lia))
    as (f2 & E2 & Hok2 & Hc2 & _).
  rewrite E2. bind_ok.
  destruct (append_ok_end f2 Hok2) as [L2 Ht2'].
  rewrite Hc2, length_app, length_take in L2.
  destruct (append_ok_end f1 Hok1) as [L1 _].
  destruct (write_spec data (sr_data_size sr * (seq_size - sr_k sr + 1)) f2 Hok2
              ltac:(lia) ltac:(lia)) as (f3 & E3 & Hok3 & Hc3 & _).
  rewrite E3. bind_ok. exists f3. split; [reflexivity|]. split; [exact Hok3|].
  rewrite Hc3, Hc2, Hc1, <- !app_assoc. reflexivity.
Qed.

(** X18. [write_compacted_sequence] of a raw section appends one block to
    the file: the number of k-mers [seq_size - k + 1] on [nb_kmers_bytes]
    bytes (its low bytes when it does not fit), the first
    [(seq_size + 3) / 4] bytes of the sequence and the first [data_size]
    bytes per k-mer of the data; the section counts one block more. *)
Theorem raw_block_appended (seq : list Z) (seq_size : Z) (data : list Z) (sr : Section_Raw)
    (f : Kero_file) :
  append_ok f -> 0 <= sr_nb_kmers_bytes sr <= 8 ->
  0 <= sr_k sr <= seq_size -> seq_size + 3 < 2 ^ 64 -> 0 <= sr_data_size sr ->
  (seq_size + 3) / 4 <= Z.of_nat (length seq) ->
  sr_data_size sr * (seq_size - sr_k sr + 1) <= Z.of_nat (length data) ->
  tellp f + sr_nb_kmers_bytes sr + (seq_size + 3) / 4
    + sr_data_size sr * (seq_size - sr_k sr + 1) < 2 ^ 63 ->
  exists f',
    Section_Raw_write_compacted_sequence seq seq_size data sr f
    = Ok (Build_Section_Raw (sr_beginning sr) (sr_nb_kmers_bytes sr) (u64 (sr_nb_blocks sr + 1))
            (sr_remaining_blocks sr) (sr_k sr) (sr_max sr) (sr_data_size sr), f')
    /\ append_ok f'
    /\ content f'
       = content f ++ store_big_endian (sr_nb_kmers_bytes sr) (seq_size - sr_k sr + 1)
           ++ take (Z.to_nat ((seq_size + 3) / 4)) seq
           ++ take (Z.to_nat (sr_data_size sr * (seq_size - sr_k sr + 1))) data.
Proof. apply raw_block_write. Qed.

Lemma raw_block_appended_witness :
  exists f',
    Section_Raw_write_compacted_sequence [27; 228] 6 [1; 2; 3; 4; 5] raw_section_sample
      (snd open_minimizer_section)
    = Ok (Build_Section_Raw (sr_beginning raw_section_sample)
            (sr_nb_kmers_bytes raw_section_sample)
            (u64 (sr_nb_blocks raw_section_sample + 1))
            (sr_remaining_blocks raw_section_sample) (sr_k raw_section_sample)
            (sr_max raw_section_sample) (sr_data_size raw_section_sample), f')
    /\ append_ok f'
    /\ content f'
       = content (snd open_minimizer_section)
           ++ store_big_endian (sr_nb_kmers_bytes raw_section_sample)
                (6 - sr_k raw_section_sample + 1)
           ++ take (Z.to_nat ((6 + 3) / 4)) [27; 228]
           ++ take (Z.to_nat (sr_data_size raw_section_sample
                              * (6 - sr_k raw_section_sample + 1))) [1; 2; 3; 4; 5].
Proof.
  apply (raw_block_appended [27; 228] 6 [1; 2; 3; 4; 5] raw_section_sample
           (snd open_minimizer_section)).
  - constructor; by_eval.
  - by_eval.
  - by_eval.
  - by_eval.
  - by_eval.
  - by_eval.
  - by_eval.
  - by_eval.
Defined.

Lemma raw_round_trip (seq : list Z) (seq_size : Z) (data : list Z) (sr sr' : Section_Raw)
    (w w' : Kero_file) (srr : Section_Raw) (r : Kero_file) (rest seq0 data0 : list Z) :
  append_ok w -> 0 <= sr_nb_kmers_bytes sr <= 8 ->
  0 <= sr_k sr <= seq_size -> seq_size + 3 < 2 ^ 64 -> 0 <= sr_data_size sr ->
  (seq_size + 3) / 4 <= Z.of_nat (length seq) ->
  sr_data_size sr * (seq_size - sr_k sr + 1) <= Z.of_nat (length data) ->
  tellp w + sr_nb_kmers_bytes sr + (seq_size + 3) / 4
    + sr_data_size sr * (seq_size - sr_k sr + 1) < 2 ^ 63 ->
  count_fits (sr_nb_kmers_bytes sr) (seq_size - sr_k sr + 1) ->
  Section_Raw_write_compacted_sequence seq seq_size data sr w = Ok (sr', w') ->
  reading (content w' ++ rest) (tellp w) r ->
  sr_nb_kmers_bytes srr = sr_nb_kmers_bytes sr -> sr_k srr = sr_k sr ->
  sr_data_size srr = sr_data_size sr ->
  (seq_size + 3) / 4 <= Z.of_nat (length seq0) ->
  sr_data_size sr * (seq_size - sr_k sr + 1) <= Z.of_nat (length data0) ->
  exists r',
    Section_Raw_read_compacted_sequence seq0 data0 srr r
    = Ok (seq_size - sr_k sr + 1,
          take (Z.to_nat ((seq_size + 3) / 4)) seq
            ++ drop (Z.to_nat ((seq_size + 3) / 4)) seq0,
          take (Z.to_nat (sr_data_size sr * (seq_size - sr_k sr + 1))) data
            ++ drop (Z.to_nat (sr_data_size sr * (seq_size - sr_k sr + 1))) data0,
          block_consumed srr, r')
    /\ reading (content w' ++ rest) (tellp w') r'.
Proof.
  intros Hok Hnkb Hk Hsz Hds Hseq Hdata Hb Hfits Ew Hrg E1 E2 E3 Hs0 Hd0.
  assert (H4 : 0 <= (seq_size + 3) / 4) by (apply Z.div_pos; lia).
  assert (Hm : 0 <= sr_data_size sr * (seq_size - sr_k sr + 1)) by nia.
  destruct (raw_block_write seq seq_size data sr w Hok Hnkb Hk Hsz Hds Hseq Hdata Hb)
    as (f' & E & Hok' & Hc).
  rewrite Ew in E. injection E as _ <-.
  destruct (append_ok_end w Hok) as [L0 _]. destruct (append_ok_end w' Hok') as [L1 _].
  set (seqb := take (Z.to_nat ((seq_size + 3) / 4)) seq) in *.
  set (datab := take (Z.to_nat (sr_data_size sr * (seq_size - sr_k sr + 1))) data) in *.
  assert (Hls : length seqb = Z.to_nat ((seq_size + 3) / 4))
    by (unfold seqb; rewrite length_take; lia).
  assert (Hld : length datab = Z.to_nat (sr_data_size sr * (seq_size - sr_k sr + 1)))
    by (unfold datab; rewrite length_take; lia).
  pose proof L1 as L1'. rewrite Hc, !length_app, length_store_big_endian in L1.
  assert (Hd : drop (Z.to_nat (tellp w)) (content w' ++ rest)
               = store_big_endian (sr_nb_kmers_bytes srr) (seq_size - sr_k sr + 1)
                   ++ seqb ++ datab ++ rest).
  { rewrite <- L0, Nat2Z.id, Hc, E1, <- !app_assoc. apply drop_app_length. }
  destruct (raw_block_read (content w' ++ rest) (tellp w) (seq_size - sr_k sr + 1) seqb datab
              rest srr r Hrg ltac:(rewrite length_app; lia) Hd ltac:(rewrite E1; exact Hnkb)
              ltac:(rewrite E1; exact Hfits) ltac:(rewrite E2; lia)
              ltac:(rewrite E2, Hls, Z2Nat.id by lia; f_equal; lia)
              ltac:(rewrite E3, Hld, Z2Nat.id by lia; reflexivity)
              seq0 data0 ltac:(lia) ltac:(lia)) as (r' & E & Hrg').
  exists r'. rewrite E, Hls, Hld. split; [reflexivity|].
  replace (tellp w') with (tellp w + sr_nb_kmers_bytes srr + Z.of_nat (length seqb)
                           + Z.of_nat (length datab)) by (rewrite E1; lia).
  exact Hrg'.
Qed.

(** X19. A block written by [write_compacted_sequence] whose number of
    k-mers fits in the [nb_kmers_bytes] bytes of the section is read back
    by [read_compacted_sequence] of a section with the same [k],
    [data_size] and [nb_kmers_bytes]: it returns the number of k-mers and
    copies the sequence bytes and the data bytes that were written to the
    beginning of the arrays of the caller, and stops at the end of the
    block. *)
Theorem raw_block_round_trip (seq : list Z) (seq_size : Z) (data : list Z)
    (sr sr' : Section_Raw) (w w' : Kero_file) (srr : Section_Raw) (r : Kero_file)
    (rest seq0 data0 : list Z) :
  append_ok w -> 0 <= sr_nb_kmers_bytes sr <= 8 ->
  0 <= sr_k sr <= seq_size -> seq_size + 3 < 2 ^ 64 -> 0 <= sr_data_size sr ->
  (seq_size + 3) / 4 <= Z.of_nat (length seq) ->
  sr_data_size sr * (seq_size - sr_k sr + 1) <= Z.of_nat (length data) ->
  tellp w + sr_nb_kmers_bytes sr + (seq_size + 3) / 4
    + sr_data_size sr * (seq_size - sr_k sr + 1) < 2 ^ 63 ->
  count_fits (sr_nb_kmers_bytes sr) (seq_size - sr_k sr + 1) ->
  Section_Raw_write_compacted_sequence seq seq_size data sr w = Ok (sr', w') ->
  reading (content w' ++ rest) (tellp w) r ->
  sr_nb_kmers_bytes srr = sr_nb_kmers_bytes sr -> sr_k srr = sr_k sr ->
  sr_data_size srr = sr_data_size sr ->
  (seq_size + 3) / 4 <= Z.of_nat (length seq0) ->
  sr_data_size sr * (seq_size - sr_k sr + 1) <= Z.of_nat (length data0) ->
  exists r',
    Section_Raw_read_compacted_sequence seq0 data0 srr r
    = Ok (seq_size - sr_k sr + 1,
          take (Z.to_nat ((seq_size + 3) / 4)) seq
            ++ drop (Z.to_nat ((seq_size + 3) / 4)) seq0,
          take (Z.to_nat (sr_data_size sr * (seq_size - sr_k sr + 1))) data
            ++ drop (Z.to_nat (sr_data_size sr * (seq_size - sr_k sr + 1))) data0,
          block_consumed srr, r')
    /\ reading (content w' ++ rest) (tellp w') r'.
Proof. apply raw_round_trip. Qed.

Lemma raw_block_round_trip_witness :
  exists r',
    Section_Raw_read_compacted_sequence (zeros 4) (zeros 8) raw_section_sample
      (reader_on (content (snd raw_block_written) ++ [9])
         (tellp (snd open_minimizer_section)))
    = Ok (6 - sr_k raw_section_sample + 1,
          take (Z.to_nat ((6 + 3) / 4)) [27; 228] ++ drop (Z.to_nat ((6 + 3) / 4)) (zeros 4),
          take (Z.to_nat (sr_data_size raw_section_sample
                          * (6 - sr_k raw_section_sample + 1))) [1; 2; 3; 4; 5]
            ++ drop (Z.to_nat (sr_data_size raw_section_sample
                               * (6 - sr_k raw_section_sample + 1))) (zeros 8),
          block_consumed raw_section_sample, r')
    /\ reading (content (snd raw_block_written) ++ [9]) (tellp (snd raw_block_written)) r'.
Proof.
  apply (raw_block_round_trip [27; 228] 6 [1; 2; 3; 4; 5] raw_section_sample
           (fst raw_block_written) (snd open_minimizer_section) (snd raw_block_written)
           raw_section_sample
           (reader_on (content (snd raw_block_written) ++ [9])
              (tellp (snd open_minimizer_section)))
           [9] (zeros 4) (zeros 8)).
  - constructor; by_eval.
  - by_eval.
  - by_eval.
  - by_eval.
  - by_eval.
  - by_eval.
  - by_eval.
  - by_eval.
  - by_eval.
  - vm_compute. reflexivity.
  - constructor; [constructor|..]; by_eval.
  - reflexivity.
  - reflexivity.
  - reflexivity.
  - by_eval.
  - by_eval.
Defined.

(** *** Skipping the blocks of a raw section *)

Lemma length_raw_block_bytes (sr : Section_Raw) (b : Z * list Z * list Z) :
  0 <= sr_nb_kmers_bytes sr ->
  Z.of_nat (length (raw_block_bytes (sr_nb_kmers_bytes sr) b))
  = sr_nb_kmers_bytes sr + Z.of_nat (length (snd (fst b))) + Z.of_nat (length (snd b)).
Proof.
  intros H. unfold raw_block_bytes. rewrite !length_app, length_store_big_endian. lia.
Qed.

Lemma Section_Raw_jump_section_spec (d : list Z) (rest : list Z)
    (blocks : list (Z * list Z * list Z)) :
  forall (fuel : nat) (sr : Section_Raw) (p : Z) (f : Kero_file),
    reading d p f -> p <= Z.of_nat (length d) ->
    0 <= sr_nb_kmers_bytes sr <= 8 ->
    sr_remaining_blocks sr = Z.of_nat (length blocks) -> sr_remaining_blocks sr < 2 ^ 64 ->
    drop (Z.to_nat p) d = flat_map (raw_block_bytes (sr_nb_kmers_bytes sr)) blocks ++ rest ->
    Forall (raw_block_ok sr) blocks ->
    (length blocks <= fuel)%nat ->
    exists sr' f',
      Section_Raw_jump_section fuel sr f = Ok (sr', f')
      /\ sr_remaining_blocks sr' = 0
      /\ reading d (p + Z.of_nat (length (flat_map (raw_block_bytes (sr_nb_kmers_bytes sr))
                                            blocks))) f'.
Proof.
  induction blocks as [|[[nb seqb] datab] blocks IH];
    intros fuel sr p f Hrg Hple Hnkb Hrem H64 Hd Hok Hfuel; cbn [flat_map length] in *.
  - exists sr, f. rewrite Z.add_0_r. change (Z.of_nat 0) with 0 in Hrem.
    assert (E : (0 <? sr_remaining_blocks sr) = false) by (rewrite Hrem; reflexivity).
    destruct fuel; cbn [Section_Raw_jump_section]; rewrite E;
      (split; [reflexivity|]; split; [exact Hrem|exact Hrg]).
  - destruct fuel as [|fuel]; [lia|]. cbn [Section_Raw_jump_section].
    destruct (0 <? sr_remaining_blocks sr) eqn:E; [|apply Z.ltb_ge in E; lia]. clear E.
    apply Forall_cons in Hok as [Hb Hok].
    destruct Hb as (Hfits & Hk & Hseq & Hdata). cbn [fst snd] in Hfits, Hk, Hseq, Hdata.
    unfold raw_block_bytes in Hd at 1. cbn [fst snd] in Hd. rewrite <- !app_assoc in Hd.
    destruct (raw_block_jump d p nb seqb datab _ sr f Hrg Hple Hd Hnkb Hfits Hk Hseq Hdata)
      as (f1 & E1 & Hrg1).
    rewrite E1. bind_ok.
    pose proof (length_raw_block_bytes sr (nb, seqb, datab) ltac:(lia)) as Hlb.
    cbn [fst snd] in Hlb.
    assert (Hl : length (drop (Z.to_nat p) d)
                 = length (store_big_endian (sr_nb_kmers_bytes sr) nb ++ seqb ++ datab
                             ++ flat_map (raw_block_bytes (sr_nb_kmers_bytes sr)) blocks
                             ++ rest)) by (rewrite Hd; reflexivity).
    rewrite length_drop, !length_app, length_store_big_endian in Hl.
    destruct (reading_length d p f Hrg) as (_ & Hp0 & H63).
    destruct (IH fuel (block_consumed sr) (p + sr_nb_kmers_bytes sr + Z.of_nat (length seqb)
                                          + Z.of_nat (length datab)) f1 Hrg1 ltac:(lia) Hnkb)
      as (sr' & f' & E & Hr' & Hrg').
    + cbn [block_consumed sr_remaining_blocks]. rewrite u64_small by lia. lia.
    + cbn [block_consumed sr_remaining_blocks]. rewrite u64_small by lia. lia.
    + cbn [block_consumed sr_nb_kmers_bytes].
      replace (Z.to_nat (p + sr_nb_kmers_bytes sr + Z.of_nat (length seqb)
                         + Z.of_nat (length datab)))
        with (Z.to_nat p + length (store_big_endian (sr_nb_kmers_bytes sr) nb ++ seqb ++ datab))%nat
        by (rewrite !length_app, length_store_big_endian; lia).
      assert (Hd' : drop (Z.to_nat p) d
                    = (store_big_endian (sr_nb_kmers_bytes sr) nb ++ seqb ++ datab)
                        ++ flat_map (raw_block_bytes (sr_nb_kmers_bytes sr)) blocks ++ rest)
        by (rewrite Hd, <- !app_assoc; reflexivity).
      rewrite <- drop_drop, Hd', drop_app_length. reflexivity.
    + exact Hok.
    + lia.
    + exists sr', f'. split; [exact E|]. split; [exact Hr'|].
      cbn [block_consumed sr_nb_kmers_bytes] in Hrg'. rewrite length_app.
      replace (p + Z.of_nat (length (raw_block_bytes (sr_nb_kmers_bytes sr) (nb, seqb, datab))
                             + length (flat_map (raw_block_bytes (sr_nb_kmers_bytes sr)) blocks)))
        with (p + sr_nb_kmers_bytes sr + Z.of_nat (length seqb) + Z.of_nat (length datab)
              + Z.of_nat (length (flat_map (raw_block_bytes (sr_nb_kmers_bytes sr)) blocks)))
        by lia.
      exact Hrg'.
Qed.

Lemma raw_section_close_skips (d : list Z) (p : Z) (rest : list Z)
    (blocks : list (Z * list Z * list Z)) (sr : Section_Raw) (f : Kero_file) :
  reading d p f -> p <= Z.of_nat (length d) -> is_writer f = false ->
  0 <= sr_nb_kmers_bytes sr <= 8 ->
  sr_remaining_blocks sr = Z.of_nat (length blocks) -> sr_remaining_blocks sr < 2 ^ 64 ->
  drop (Z.to_nat p) d = flat_map (raw_block_bytes (sr_nb_kmers_bytes sr)) blocks ++ rest ->
  Forall (raw_block_ok sr) blocks ->
  exists f',
    Section_Raw_close sr f = Ok f'
    /\ reading d (p + Z.of_nat (length (flat_map (raw_block_bytes (sr_nb_kmers_bytes sr))
                                          blocks))) f'.
Proof.
  intros Hrg Hple Hw Hnkb Hrem H64 Hd Hok. unfold Section_Raw_close. rewrite Hw. bind_ok.
  assert (Hr : is_reader f = true) by apply Hrg. rewrite Hr.
  destruct (Section_Raw_jump_section_spec d rest blocks (Z.to_nat (sr_remaining_blocks sr))
              sr p f Hrg Hple Hnkb Hrem H64 Hd Hok ltac:(lia)) as (sr' & f' & E & _ & Hrg').
  rewrite E. bind_ok. exists f'. split; [reflexivity|exact Hrg'].
Qed.

(** X24. Closing a raw section in a reader skips the blocks that were not
    read: placed before the remaining blocks, each with a count that fits
    in the [nb_kmers_bytes] bytes of the section, [close] reads the count
    of each block, jumps over its sequence and data, and leaves the reader
    just after the last block. *)
Theorem Section_Raw_close_skips_blocks (d : list Z) (p : Z) (rest : list Z)
    (blocks : list (Z * list Z * list Z)) (sr : Section_Raw) (f : Kero_file) :
  reading d p f -> p <= Z.of_nat (length d) -> is_writer f = false ->
  0 <= sr_nb_kmers_bytes sr <= 8 ->
  sr_remaining_blocks sr = Z.of_nat (length blocks) -> sr_remaining_blocks sr < 2 ^ 64 ->
  drop (Z.to_nat p) d = flat_map (raw_block_bytes (sr_nb_kmers_bytes sr)) blocks ++ rest ->
  Forall (raw_block_ok sr) blocks ->
  exists f',
    Section_Raw_close sr f = Ok f'
    /\ reading d (p + Z.of_nat (length (flat_map (raw_block_bytes (sr_nb_kmers_bytes sr))
                                          blocks))) f'.
Proof. apply raw_section_close_skips. Qed.

Lemma Section_Raw_close_skips_blocks_witness :
  exists f',
    Section_Raw_close raw_reader_sample (reader_on raw_blocks_bytes_sample 0) = Ok f'
    /\ reading raw_blocks_bytes_sample
         (0 + Z.of_nat (length (flat_map (raw_block_bytes
                                            (sr_nb_kmers_bytes raw_reader_sample))
                                  raw_blocks_sample))) f'.
Proof.
  apply (Section_Raw_close_skips_blocks raw_blocks_bytes_sample 0 [9] raw_blocks_sample
           raw_reader_sample (reader_on raw_blocks_bytes_sample 0)).
  - constructor; [constructor|..]; by_eval.
  - by_eval.
  - reflexivity.
  - by_eval.
  - reflexivity.
  - by_eval.
  - reflexivity.
  - repeat (apply Forall_cons; split; [by_eval|]). apply Forall_nil. exact I.
Defined.

(** *** The constructor of a raw section in a reader *)

(** X27. The constructor of a raw section needs the variables [k], [max]
    and [data_size] of the file, and throws for the first that is missing.
    With the three of them, on a reader placed at the letter [r] followed
    by a number of blocks on 8 bytes, it returns a section that begins
    there, takes [k], [max] and [data_size] from the variables, has that
    number of blocks, all of them remaining, and, for a [max] between 1
    and [2^32], counts the k-mers of a block on the bytes needed for
    [ceil(log2(max))] bits; the reader is left after the 9 bytes. *)
Theorem Section_Raw_new_reads_header (d : list Z) (p nb_blocks k max data_size : Z)
    (rest : list Z) (f : Kero_file) :
  reading d p f -> header_over f = true -> is_writer f = false ->
  (global_vars f !! "k" = None ->
   Section_Raw_new f
   = Err (Throw "Impossible to read the raw section due to missing k variable"))
  /\ (global_vars f !! "k" = Some k -> global_vars f !! "max" = None ->
      Section_Raw_new f
      = Err (Throw "Impossible to read the raw section due to missing max variable"))
  /\ (global_vars f !! "k" = Some k -> global_vars f !! "max" = Some max ->
      global_vars f !! "data_size" = None ->
      Section_Raw_new f
      = Err (Throw "Impossible to read the raw section due to missing data_size variable"))
  /\ (global_vars f !! "k" = Some k -> global_vars f !! "max" = Some max ->
      global_vars f !! "data_size" = Some data_size -> 0 < max <= 2 ^ 32 ->
      drop (Z.to_nat p) d = [char "r"] ++ store_big_endian 8 nb_blocks ++ rest ->
      0 <= nb_blocks < 2 ^ 64 ->
      exists f',
        Section_Raw_new f
        = Ok (Build_Section_Raw p (u8 (bytes_from_bit_array (Z.log2_up max) 1))
                nb_blocks nb_blocks k max data_size, f')
        /\ reading d (p + 9) f').
Proof.
  intros Hrg Hh Hw.
  destruct (reading_length d p f Hrg) as (Hlen & Hp0 & H63).
  assert (Hr : is_reader f = true) by apply Hrg.
  assert (Hp : tellp f = p) by apply Hrg.
  unfold Section_Raw_new, Section_new, get_var. rewrite Hh. cbn [negb andb].
  bind_ok. bind_ok.
  split; [|split; [|split]].
  - intros ->. reflexivity.
  - intros -> ->. reflexivity.
  - intros -> -> ->. reflexivity.
  - intros -> -> -> Hmax Hd Hnb. bind_ok. bind_ok. bind_ok.
    unfold ceil_log2. destruct (Z.eqb_spec max 0) as [E|_]; [lia|].
    destruct (Z.leb_spec max (2 ^ 32)) as [_|E]; [|lia]. bind_ok.
    cbv zeta. rewrite Hr, Hp.
    assert (Hs64 : s64 p = p).
    { assert (Hl : length (drop (Z.to_nat p) d)
                   = length ([char "r"] ++ store_big_endian 8 nb_blocks ++ rest))
        by (rewrite Hd; reflexivity).
      rewrite length_drop, !length_app in Hl. cbn [length] in Hl.
      unfold s64. cbv zeta. rewrite Z.mod_small by lia.
      destruct (_ <? _) eqn:E; [reflexivity|apply Z.ltb_ge in E; lia]. }
    rewrite Hs64. unfold Section_Raw_read_section_header.
    destruct (reading_read_prefix d p [char "r"] _ f Hrg Hd ltac:(cbn; lia))
      as (f1 & E1 & Hrg1 & Hm1 & Hd1).
    change (Z.of_nat (length [char "r"])) with 1 in *. rewrite E1. bind_ok.
    change (rd [char "r"] 0 =? char "r") with true. cbn [negb].
    destruct (reading_read_prefix d _ (store_big_endian 8 nb_blocks) rest f1 Hrg1 Hd1
                ltac:(rewrite length_store_big_endian; lia)) as (f2 & E2 & Hrg2 & Hm2 & _).
    rewrite length_store_big_endian in *. change (Z.of_nat (Z.to_nat 8)) with 8 in *.
    rewrite E2. bind_ok. rewrite load_store_small by lia. bind_ok.
    assert (Hw2 : is_writer f2 = false).
    { rewrite (proj1 (proj2 (moved_flags _ _ Hm2))), (proj1 (proj2 (moved_flags _ _ Hm1))).
      exact Hw. }
    rewrite Hw2. bind_ok.
    exists f2. split; [reflexivity|].
    replace (p + 9) with (p + 1 + 8) by lia. exact Hrg2.
Qed.

Lemma Section_Raw_new_reads_header_witness :
  exists f',
    Section_Raw_new raw_header_reader
    = Ok (Build_Section_Raw 0 (u8 (bytes_from_bit_array (Z.log2_up 200) 1)) 2 2 2 200 1, f')
    /\ reading raw_header_sample (0 + 9) f'.
Proof.
  refine (proj2 (proj2 (proj2 (Section_Raw_new_reads_header raw_header_sample 0 2 2 200 1
                                 (bytes_of_string "KERO") raw_header_reader _ _ _)))
            _ _ _ _ _ _).
  - constructor; [constructor|..]; by_eval.
  - reflexivity.
  - reflexivity.
  - reflexivity.
  - reflexivity.
  - reflexivity.
  - lia.
  - reflexivity.
  - by_eval.
Defined.

(** ** Hashtable sections *)

Section Hashtable_section.
Context (pthash : MPH_library).

(** *** Writing *)

Lemma write_chunks_bytes (f0 : Kero_file) (fuel : nat) (bytes : list Z) (f : Kero_file) :
  grown f0 f -> (length bytes <= fuel)%nat -> tellp f + Z.of_nat (length bytes) < 2 ^ 63 ->
  exists f',
    write_chunks fuel bytes f = Ok f' /\ grown f0 f' /\ content f' = content f ++ bytes.
Proof.
  revert bytes f. induction fuel as [|fuel IH]; intros bytes f Hgr Hfuel Hb.
  - destruct bytes; [|cbn in Hfuel; lia]. exists f. cbn. rewrite app_nil_r.
    split; [reflexivity|]. split; [exact Hgr|reflexivity].
  - destruct bytes as [|b bytes].
    + exists f. cbn. rewrite app_nil_r. split; [reflexivity|]. split; [exact Hgr|reflexivity].
    + cbn [write_chunks]. set (bs := b :: bytes) in *.
      assert (Hpos : (1 <= length bs)%nat) by (unfold bs; cbn; lia).
      clearbody bs.
      set (n := Z.min (Z.of_nat (length bs)) BUFF_CHUNK_SIZE).
      assert (Hn : 1 <= n <= Z.of_nat (length bs)) by (unfold n, BUFF_CHUNK_SIZE; lia).
      destruct (grown_write_bytes f0 f (take (Z.to_nat n) bs) n Hgr)
        as (f1 & Hw & Hgr1 & Hc1 & Ht1 & _); [lia|rewrite length_take; lia|lia|].
      rewrite Hw. bind_ok.
      destruct (IH (drop (Z.to_nat n) bs) f1 Hgr1) as (f' & Hw' & Hgr' & Hc');
        [rewrite length_drop; lia|rewrite length_drop; lia|].
      exists f'. split; [exact Hw'|]. split; [exact Hgr'|].
      rewrite Hc', Hc1, <- app_assoc, take_drop. reflexivity.
Qed.

Lemma write_hashtable_values_bytes (f0 : Kero_file) (table : list Z) (f : Kero_file) :
  grown f0 f -> tellp f + 8 * Z.of_nat (length table) < 2 ^ 63 ->
  exists f',
    write_hashtable_values table f = Ok f' /\ grown f0 f'
    /\ content f' = content f ++ flat_map (store_big_endian 8) table.
Proof.
  revert f. induction table as [|v table IH]; intros f Hgr Hb;
    cbn [write_hashtable_values flat_map].
  - exists f. rewrite app_nil_r. split; [reflexivity|]. split; [exact Hgr|reflexivity].
  - cbn [length] in Hb.
    destruct (grown_write_bytes f0 f (store_big_endian 8 v) 8 Hgr ltac:(lia)
                ltac:(rewrite length_store_big_endian; reflexivity) ltac:(lia))
      as (f1 & E1 & Hgr1 & Hc1 & Ht1 & _). rewrite E1. bind_ok.
    destruct (IH f1 Hgr1 ltac:(lia)) as (f' & E & Hgr' & Hc).
    exists f'. split; [exact E|]. split; [exact Hgr'|].
    rewrite Hc, Hc1, <- app_assoc. reflexivity.
Qed.

Lemma Section_Hashtable_close_bytes (sh : Section_Hashtable pthash) (f : Kero_file) :
  append_ok f -> sh_minimizers sh <> [] ->
  length (sh_minimizers sh) = length (sh_positions sh) ->
  tellp f + hashtable_length pthash (sh_minimizers sh) < 2 ^ 63 ->
  exists mpht f',
    MPHT_build pthash (sh_minimizers sh) (sh_positions sh) (sh_mpht sh) = Ok mpht
    /\ Section_Hashtable_close pthash sh f
       = Ok (Build_Section_Hashtable pthash (sh_beginning sh) mpht (sh_minimizers sh)
               (sh_positions sh) (sh_nb_mphf sh), f')
    /\ append_ok f'
    /\ content f'
       = content f ++ [char "h"]
           ++ store_big_endian 8 (Z.of_nat (length (essentials_save pthash (mphf mpht))))
           ++ essentials_save pthash (mphf mpht)
           ++ store_big_endian 8 (Z.of_nat (length (hashtable mpht)))
           ++ flat_map (store_big_endian 8) (hashtable mpht).
Proof.
  intros Hok Hne El Hb. unfold hashtable_length in Hb.
  assert (Hw : is_writer f = true) by apply Hok.
  unfold Section_Hashtable_close. rewrite Hw. cbn [andb].
  rewrite bool_decide_eq_false_2 by exact Hne. cbn [negb].
  rewrite El, Nat.eqb_refl. cbn [negb].
  assert (Hbuild : exists mpht,
             MPHT_build pthash (sh_minimizers sh) (sh_positions sh) (sh_mpht sh) = Ok mpht
             /\ mphf mpht = build_in_internal_memory pthash (sh_minimizers sh)).
  { unfold MPHT_build. rewrite El, Nat.eqb_refl. cbn [negb].
    eexists. split; reflexivity. }
  destruct Hbuild as (mpht & Eb & Hmf).
  pose proof (MPHT_build_length pthash _ _ _ _ Eb) as Hlt.
  rewrite Eb. bind_ok. exists mpht. rewrite Hmf in *.
  pose proof (grown_register_position f f (char "h") (grown_refl f Hok)) as Hgr0.
  assert (Ht0 : tellp (register_position (char "h") f) = tellp f)
    by apply tellp_register_position.
  assert (Hc0 : content (register_position (char "h") f) = content f).
  { unfold register_position. destruct (_ && _); reflexivity. }
  set (f0 := register_position (char "h") f) in *. clearbody f0.
  destruct (grown_write_bytes f f0 [char "h"] 1 Hgr0 ltac:(lia) eq_refl ltac:(lia))
    as (f1 & E1 & Hgr1 & Hc1 & Ht1 & _). rewrite E1. bind_ok.
  set (bin := essentials_save pthash (build_in_internal_memory pthash (sh_minimizers sh))) in *.
  destruct (grown_write_bytes f f1 (store_big_endian 8 (Z.of_nat (length bin))) 8 Hgr1
              ltac:(lia) ltac:(rewrite length_store_big_endian; reflexivity) ltac:(lia))
    as (f2 & E2 & Hgr2 & Hc2 & Ht2 & _). rewrite E2. bind_ok.
  destruct (write_chunks_bytes f (length bin) bin f2 Hgr2 ltac:(lia) ltac:(lia))
    as (f3 & E3 & Hgr3 & Hc3). rewrite E3. bind_ok.
  assert (Ht3 : tellp f3 = tellp f2 + Z.of_nat (length bin)).
  { destruct (append_ok_end f2 (gr_ok _ _ Hgr2)) as [L2 _].
    destruct (append_ok_end f3 (gr_ok _ _ Hgr3)) as [L3 _].
    rewrite Hc3, length_app in L3. lia. }
  unfold MPHT_size.
  destruct (grown_write_bytes f f3
              (store_big_endian 8 (Z.of_nat (length (hashtable mpht)))) 8 Hgr3
              ltac:(lia) ltac:(rewrite length_store_big_endian; reflexivity) ltac:(lia))
    as (f4 & E4 & Hgr4 & Hc4 & Ht4 & _). rewrite E4. bind_ok.
  destruct (write_hashtable_values_bytes f (hashtable mpht) f4 Hgr4
              ltac:(rewrite Hlt; lia)) as (f5 & E5 & Hgr5 & Hc5).
  rewrite E5. bind_ok. exists f5. split; [reflexivity|]. split; [reflexivity|].
  split; [apply Hgr5|].
  rewrite Hc5, Hc4, Hc3, Hc2, Hc1, Hc0, <- !app_assoc. reflexivity.
Qed.

(** *** Reading *)

Lemma read_chunks_spec (d : list Z) (fuel : nat) :
  forall (bin acc rest : list Z) (p : Z) (f : Kero_file),
    reading d p f -> drop (Z.to_nat p) d = bin ++ rest -> (length bin < fuel)%nat ->
    exists f',
      read_chunks fuel (Z.of_nat (length bin)) acc f = Ok (acc ++ bin, f')
      /\ reading d (p + Z.of_nat (length bin)) f'
      /\ drop (Z.to_nat (p + Z.of_nat (length bin))) d = rest.
Proof.
  induction fuel as [|fuel IH]; intros bin acc rest p f Hrg Hd Hfuel; [lia|].
  cbn [read_chunks].
  destruct (Z.of_nat (length bin) <=? 0) eqn:E0.
  - apply Z.leb_le in E0. destruct bin; [|cbn in E0; lia].
    exists f. rewrite app_nil_r, Z.add_0_r. split; [reflexivity|]. split; [exact Hrg|exact Hd].
  - apply Z.leb_gt in E0.
    set (n := Z.min (Z.of_nat (length bin)) BUFF_CHUNK_SIZE).
    assert (Hn : 1 <= n <= Z.of_nat (length bin)) by (unfold n, BUFF_CHUNK_SIZE; lia).
    assert (Hd1 : drop (Z.to_nat p) d
                  = take (Z.to_nat n) bin ++ (drop (Z.to_nat n) bin ++ rest)).
    { rewrite Hd, app_assoc, take_drop. reflexivity. }
    destruct (reading_read_prefix d p _ _ f Hrg Hd1 ltac:(rewrite length_take; lia))
      as (f1 & E1 & Hrg1 & _ & Hdr1).
    rewrite length_take in E1, Hrg1, Hdr1.
    replace (Z.of_nat (Z.to_nat n `min` length bin)) with n in * by lia.
    rewrite E1. bind_ok.
    destruct (IH (drop (Z.to_nat n) bin) (acc ++ take (Z.to_nat n) bin) rest (p + n) f1
                Hrg1 Hdr1 ltac:(rewrite length_drop; lia)) as (f' & E & Hrg' & Hd').
    rewrite length_drop in E, Hrg', Hd'.
    replace (Z.of_nat (length bin - Z.to_nat n)) with (Z.of_nat (length bin) - n) in * by lia.
    exists f'. rewrite E, <- app_assoc, take_drop.
    replace (p + n + (Z.of_nat (length bin) - n)) with (p + Z.of_nat (length bin)) in * by lia.
    split; [reflexivity|]. split; [exact Hrg'|exact Hd'].
Qed.

Lemma read_hashtable_values_spec (d : list Z) (table : list Z) :
  forall (acc rest : list Z) (p : Z) (f : Kero_file),
    reading d p f -> drop (Z.to_nat p) d = flat_map (store_big_endian 8) table ++ rest ->
    Forall (fun v => 0 <= v < 2 ^ 64) table ->
    exists f',
      read_hashtable_values (length table) acc f = Ok (acc ++ table, f')
      /\ reading d (p + 8 * Z.of_nat (length table)) f'
      /\ drop (Z.to_nat (p + 8 * Z.of_nat (length table))) d = rest.
Proof.
  induction table as [|v table IH]; intros acc rest p f Hrg Hd Hok;
    cbn [length read_hashtable_values flat_map] in *.
  - exists f. rewrite app_nil_r, Z.add_0_r. split; [reflexivity|]. split; [exact Hrg|exact Hd].
  - apply Forall_cons in Hok as [Hv Hok]. rewrite <- app_assoc in Hd.
    destruct (reading_read_prefix d p (store_big_endian 8 v) _ f Hrg Hd
                ltac:(rewrite length_store_big_endian; lia)) as (f1 & E1 & Hrg1 & _ & Hd1).
    rewrite length_store_big_endian in *. change (Z.of_nat (Z.to_nat 8)) with 8 in *.
    rewrite E1. bind_ok. rewrite load_store_small by lia.
    destruct (IH (acc ++ [v]) rest (p + 8) f1 Hrg1 Hd1 Hok) as (f' & E & Hrg' & Hd').
    exists f'. rewrite E, <- app_assoc.
    replace (p + 8 * Z.of_nat (S (length table))) with (p + 8 + 8 * Z.of_nat (length table))
      by lia.
    split; [reflexivity|]. split; [exact Hrg'|exact Hd'].
Qed.

(** The constructor of a hashtable section on a reader placed at the bytes
    of a hashtable section. *)
Lemma Section_Hashtable_new_reads (d : list Z) (p : Z) (bin table rest : list Z)
    (f : Kero_file) :
  reading d p f -> header_over f = true ->
  drop (Z.to_nat p) d
  = [char "h"] ++ store_big_endian 8 (Z.of_nat (length bin)) ++ bin
      ++ store_big_endian 8 (Z.of_nat (length table))
      ++ flat_map (store_big_endian 8) table ++ rest ->
  Forall (fun v => 0 <= v < 2 ^ 64) table ->
  exists f',
    Section_Hashtable_new pthash f
    = Ok (Build_Section_Hashtable pthash p
            (Build_MPHT pthash (essentials_load pthash bin) table) [] []
            (Z.of_nat (length bin)), f')
    /\ reading d (p + 17 + Z.of_nat (length bin) + 8 * Z.of_nat (length table)) f'.
Proof.
  intros Hrg Hh Hd Hok.
  destruct (reading_length d p f Hrg) as (Hlen & Hp0 & H63).
  assert (Hr : is_reader f = true) by apply Hrg.
  assert (Hp : tellp f = p) by apply Hrg.
  assert (Hl : length (drop (Z.to_nat p) d)
               = length ([char "h"] ++ store_big_endian 8 (Z.of_nat (length bin)) ++ bin
                           ++ store_big_endian 8 (Z.of_nat (length table))
                           ++ flat_map (store_big_endian 8) table ++ rest))
    by (rewrite Hd; reflexivity).
  rewrite length_drop, !length_app in Hl. cbn [length] in Hl.
  assert (Hs64 : s64 p = p).
  { unfold s64. cbv zeta. rewrite Z.mod_small by lia.
    destruct (_ <? _) eqn:E; [reflexivity|apply Z.ltb_ge in E; lia]. }
  assert (Hlt : Z.of_nat (length table) <= Z.of_nat (length (flat_map (store_big_endian 8) table))).
  { clear. induction table as [|v t IH]; cbn [flat_map length]; [lia|].
    rewrite length_app, length_store_big_endian. lia. }
  unfold Section_Hashtable_new, Section_new. rewrite Hh. cbn [negb andb]. bind_ok. bind_ok.
  rewrite Hp, Hs64, Hr.
  destruct (reading_read_prefix d p [char "h"] _ f Hrg Hd ltac:(cbn; lia))
    as (f1 & E1 & Hrg1 & _ & Hd1).
  change (Z.of_nat (length [char "h"])) with 1 in *. rewrite E1. bind_ok.
  change (rd [char "h"] 0 =? char "h") with true. cbn [negb].
  destruct (reading_read_prefix d _ (store_big_endian 8 (Z.of_nat (length bin))) _ f1
              Hrg1 Hd1 ltac:(rewrite length_store_big_endian; lia))
    as (f2 & E2 & Hrg2 & _ & Hd2).
  rewrite length_store_big_endian in *. change (Z.of_nat (Z.to_nat 8)) with 8 in *.
  rewrite E2. bind_ok. rewrite load_store_small by lia. rewrite Nat2Z.id.
  destruct (read_chunks_spec d (S (length bin)) bin [] _ (p + 1 + 8) f2 Hrg2 Hd2 ltac:(lia))
    as (f3 & E3 & Hrg3 & Hd3).
  rewrite E3. bind_ok. cbn [app].
  destruct (reading_read_prefix d _ (store_big_endian 8 (Z.of_nat (length table))) _ f3
              Hrg3 Hd3 ltac:(rewrite length_store_big_endian; lia))
    as (f4 & E4 & Hrg4 & _ & Hd4).
  rewrite length_store_big_endian in *. change (Z.of_nat (Z.to_nat 8)) with 8 in *.
  rewrite E4. bind_ok. rewrite load_store_small by lia. rewrite Nat2Z.id.
  destruct (read_hashtable_values_spec d table [] rest _ f4 Hrg4 Hd4 Hok)
    as (f5 & E5 & Hrg5 & _).
  rewrite E5. bind_ok. cbn [app].
  replace (p + 17 + Z.of_nat (length bin) + 8 * Z.of_nat (length table))
    with (p + 1 + 8 + Z.of_nat (length bin) + 8 + 8 * Z.of_nat (length table)) by lia.
  exists f5. split; [reflexivity|exact Hrg5].
Qed.
Lemma hashtable_round_trip (sh sh' : Section_Hashtable pthash) (w w' : Kero_file)
    (rest : list Z) (r : Kero_file) :
  append_ok w -> sh_minimizers sh <> [] ->
  length (sh_minimizers sh) = length (sh_positions sh) ->
  tellp w + hashtable_length pthash (sh_minimizers sh) < 2 ^ 63 ->
  Section_Hashtable_close pthash sh w = Ok (sh', w') ->
  Forall (fun v => 0 <= v < 2 ^ 64) (hashtable (sh_mpht sh')) ->
  essentials_load pthash (essentials_save pthash (mphf (sh_mpht sh'))) = mphf (sh_mpht sh') ->
  reading (content w' ++ rest) (tellp w) r -> header_over r = true ->
  exists shr r',
    Section_Hashtable_new pthash r = Ok (shr, r')
    /\ sh_beginning shr = tellp w /\ sh_mpht shr = sh_mpht sh'
    /\ reading (content w' ++ rest) (tellp w') r'.
Proof.
  intros Hok Hne El Hb Ew Hvals Hlaw Hrg Hh.
  destruct (Section_Hashtable_close_bytes sh w Hok Hne El Hb) as (mpht & f' & _ & E & Hok' & Hc).
  rewrite Ew in E. injection E as -> <-. cbn [sh_mpht] in Hvals, Hlaw.
  destruct (append_ok_end w Hok) as [L0 _]. destruct (append_ok_end w' Hok') as [L1 _].
  assert (Hd : drop (Z.to_nat (tellp w)) (content w' ++ rest)
               = [char "h"]
                   ++ store_big_endian 8 (Z.of_nat (length (essentials_save pthash (mphf mpht))))
                   ++ essentials_save pthash (mphf mpht)
                   ++ store_big_endian 8 (Z.of_nat (length (hashtable mpht)))
                   ++ flat_map (store_big_endian 8) (hashtable mpht) ++ rest).
  { rewrite <- L0, Nat2Z.id, Hc, <- !app_assoc. apply drop_app_length. }
  destruct (Section_Hashtable_new_reads _ _ _ _ rest r Hrg Hh Hd Hvals) as (r' & E & Hrg').
  eexists _, r'. split; [exact E|]. cbn [sh_beginning sh_mpht]. split; [reflexivity|].
  split; [rewrite Hlaw; destruct mpht; reflexivity|].
  replace (tellp w') with (tellp w + 17 + Z.of_nat (length (essentials_save pthash (mphf mpht)))
                           + 8 * Z.of_nat (length (hashtable mpht))); [exact Hrg'|].
  rewrite <- L1, Hc, !length_app, !length_store_big_endian. cbn [length].
  assert (Hlf : Z.of_nat (length (flat_map (store_big_endian 8) (hashtable mpht)))
                = 8 * Z.of_nat (length (hashtable mpht))).
  { clear. induction (hashtable mpht) as [|v t IH]; cbn [flat_map length]; [reflexivity|].
    rewrite length_app, length_store_big_endian. lia. }
  lia.
Qed.

(** X26. A hashtable section written by [Section_Hashtable::close], its
    values being 64-bit and the perfect hash function being restored by
    the library from its saved bytes, is read back by the constructor on a
    reader placed where the section starts: the table read is the table
    that was built, so that [find] gives the reader the position
    registered for each minimizer, and the reader stops at the end of the
    section. *)
Theorem Section_Hashtable_round_trip (sh sh' : Section_Hashtable pthash) (w w' : Kero_file)
    (rest : list Z) (r : Kero_file) :
  append_ok w -> sh_minimizers sh <> [] ->
  length (sh_minimizers sh) = length (sh_positions sh) ->
  tellp w + hashtable_length pthash (sh_minimizers sh) < 2 ^ 63 ->
  Section_Hashtable_close pthash sh w = Ok (sh', w') ->
  Forall (fun v => 0 <= v < 2 ^ 64) (hashtable (sh_mpht sh')) ->
  essentials_load pthash (essentials_save pthash (mphf (sh_mpht sh'))) = mphf (sh_mpht sh') ->
  reading (content w' ++ rest) (tellp w) r -> header_over r = true ->
  exists shr r',
    Section_Hashtable_new pthash r = Ok (shr, r')
    /\ sh_beginning shr = tellp w /\ sh_mpht shr = sh_mpht sh'
    /\ reading (content w' ++ rest) (tellp w') r'.
Proof. apply hashtable_round_trip. Qed.
End Hashtable_section.

(** A successful result is the pair of its components. *)
Lemma result_pair {A B : Type} (r : result (A * B)) (d : A * B) :
  (match r with Ok _ => true | Err _ => false end) = true ->
  r = Ok (fst (match r with Ok p => p | Err _ => d end),
          snd (match r with Ok p => p | Err _ => d end)).
Proof. destruct r as [[a b]|e]; [reflexivity|discriminate]. Qed.

Lemma Section_Hashtable_round_trip_witness :
  exists shr r',
    Section_Hashtable_new list_pthash
      (reader_on (content (snd written_hashtable) ++ bytes_of_string "KERO")
         (tellp (snd open_minimizer_section)))
    = Ok (shr, r')
    /\ sh_beginning shr = tellp (snd open_minimizer_section)
    /\ sh_mpht shr = sh_mpht (fst written_hashtable)
    /\ reading (content (snd written_hashtable) ++ bytes_of_string "KERO")
         (tellp (snd written_hashtable)) r'.
Proof.
  apply (Section_Hashtable_round_trip list_pthash hashtable_sample (fst written_hashtable)
           (snd open_minimizer_section) (snd written_hashtable) (bytes_of_string "KERO")
           (reader_on (content (snd written_hashtable) ++ bytes_of_string "KERO")
              (tellp (snd open_minimizer_section)))).
  - constructor; by_eval.
  - discriminate.
  - reflexivity.
  - by_eval.
  - unfold written_hashtable. apply result_pair. vm_compute. reflexivity.
  - assert (E : hashtable (sh_mpht (fst written_hashtable)) = [13])
      by (vm_compute; reflexivity).
    rewrite E. repeat constructor; lia.
  - vm_compute. reflexivity.
  - constructor; [constructor|..]; by_eval.
  - reflexivity.
Defined.
